(* ===== verification/_CoqProject ===== *)
-Q . S2P
Prelude.v
Hoare.v
EvBuffer.v
Dbuffer.v
Block.v
Wire.v
PscBase.v
PscTcp.v
PscTcpRx.v
PscTcpConn.v
PscTcpTx.v
PscUdp.v
Ieee.v
DevCommon.v
DevSample.v
DevReg.v
DevSingle.v
DevWf.v
DevString.v
DevCtrl.v
DevTable.v
DevSafe.v
UdpFast.v
FastPool.v
FastFile.v
PscMsg.v
PscServer.v
Interop.v
EndToEnd.v
Echo.v
UnitTests.v
XbpmTarget.v
SigWf.v
SigPsd.v
SigCalc.v
SigTable.v
Registry.v
Startup.v
Lifecycle.v
DriverSafe.v
DriverSteps.v
DevUdp.v
SupportSafe.v
Locks.v
Locking.v
SigPlan.v
UdpLink.v
Atomic.v
TcpThreads.v
TcpStream.v
