(* ===== verification/Prelude.v ===== *)
(** * A model of the PSC driver, and what holds of it

    The repository is an EPICS driver for "portable stream controllers": devices that
    exchange messages (two letters "PS", a 16-bit message id, a 32-bit length, a body) with
    an IOC over TCP or UDP, together with device support for EPICS records, a second driver
    for fast UDP acquisition, and the device's side of the protocol for embedded targets.
    This file is the root of the library: it documents all of it, and holds what the other
    files share.

    ** How the parts interact

    Records (device support) call a driver under its lock: they read the body of a received
    block, write the body of a block to send, queue it and flush.  The driver turns queued
    blocks into a byte stream (TCP) or packets (UDP), and received bytes into block bodies,
    whose listeners (records with "I/O Intr" scanning, callbacks) it then calls.  libevent
    calls the driver from its own thread.  The device at the other end is the embedded
    library of targetApp or the program of xbpmApp.

    A call that holds its lock from beginning to end is one step of the state ([Atomic]
    shows that it may be); where the source releases a lock in between, or forgets to take
    it, the model has several steps and a step relation that interleaves them.

    ** Computations

    [M S A] (this file) is a computation on a state [S]: it returns [Ret], throws a C++
    exception [Throw], or ends the program with [Crash] (failed assertion, division by
    zero, null or dangling pointer, access out of bounds).  [stays R m] says that [m]
    relates the states before and after by [R], however it ends; the hint database [psc]
    composes such facts.  Machine integers are [Z] with [wrapU] and [wrapS] written where
    the source's types wrap.

    ** Files

    - Prelude: bytes, machine words, the computations, slices of lists.
    - Hoare: weakest preconditions for these computations.
    - EvBuffer: libevent's evbuffer as a class [EvBuffer] with laws; [ChainBuf] is an
      instance to evaluate on.
    - Dbuffer: class [dbuffer] (coreApp/src/evbase.cpp): bodies as strides.
    - Block: [CBList] and [Block] (cblist.h, device.h, pscbase.cpp): listeners, and the
      handshake with I/O Intr scanning.
    - Wire: the message format; [decode] says what a byte stream means.
    - PscBase: class [PSCBase] (pscbase.cpp): blocks by message id, and the interface
      [PSCVirtual] of its virtual functions.
    - PscTcp, PscTcpRx, PscTcpConn, PscTcpTx: class [PSC] (psc.cpp, pscwrap.cpp): the
      definitions; receiving refines [Wire.decode] however the stream is cut; the
      connection state machine as a transition system; what sending puts on the wire.
    - PscUdp: class [PSCUDP] (pscudp.cpp), both directions.
    - Ieee: [float] and [double], over [SpecFloat].
    - DevCommon, DevReg, DevSingle, DevWf, DevString, DevCtrl: the device support of
      devcommon.cpp and devPSC*.cpp, against [PSCVirtual]; DevSample is a driver with
      records to evaluate it on.
    - DevTable, DevSafe, DriverSafe, DriverSteps, SupportSafe: the tables of device support;
      that their records never abort, given what the drivers promise as a class
      [SafeDriver]; that all three drivers keep the promise, also in what they do by
      themselves; and the theorem over the support of devPSC*.cpp and devudp.cpp together.
    - UdpFast, FastPool, FastFile: class [UDPFast] and its device support (udpApp): the
      definitions; the pool of packet buffers and its deadlock; delivery and data files.
    - PscMsg, PscServer: targetApp/pscmsg.c, listener.c and pscapp.c: blocking sockets as
      an environment [SockEnv]; start-up, the accept loop, threads, client list and its
      dangling pointers.
    - Interop: the TCP driver and the embedded side joined: each hears what the other says.
    - EndToEnd, Echo: records, driver, network and device together.  Output records refine a
      small machine of setpoints; the messages the driver sends are those the device's
      callback gets; what the device answers ends in the blocks that input records read.
    - UnitTests: testValues.cpp and testpscmsg.c, run on the model.
    - XbpmTarget: xbpmApp/target (main.c, app.c): the connection list with its back
      pointers, command handling, and reading with a message split across two calls.
    - SigWf, SigPsd, SigCalc: sigApp/src: waveform statistics (asubwf.c); the spectrum of
      fftwrap.cpp against FFTW as a class [Fftw]; the calculator of fftcalc.cpp, a worker
      thread that shares its inputs and outputs with records, which take no lock.
    - Registry, Startup, Lifecycle: the drivers by name (pscmap), the functions a start-up
      script calls, the event loops they share (EventBase), start and exit: definitions,
      what they keep, and theorems from start-up script to exit.
    - DevUdp: the device support functions and tables of devudp.cpp, over [UdpFast] and
      [Registry]; SigTable: the tables of fftcalc.cpp.
    - Locks, Locking: a machine of threads with reentrant locks; the locks that callbacks,
      threads and device support take, in which order, what they use under them, and what
      they use without.
    - Atomic, TcpThreads: why a call under a lock may be taken as one step: threads make
      calls in pieces, and the result is that of whole calls in some order; the calls on
      TCP drivers as an instance; callbacks that get their lock after the session is gone.
    - TcpStream: with PscTcpTx, that messages which threads queue on a driver are not torn.
    - UdpLink: UDP from the queue of a driver over a network that loses, repeats and
      reorders, to the blocks of another driver or to the reader of a data file.
    - SigPlan: who owns the plans of FFTW (class Plan of fftwrap.h).

    ** What the theorems show

    - Receiving: [recvdata_refines_decode], [recvdata_any_chunking], [messages_delivered],
      [recvdata_failure_keeps_stream]; UDP: [udp_delivers]; the device: [recvmsg_outcomes].
    - Sending: [tx_stream_is_framed], [queueSend_outcomes], [udp_queue_packet],
      [udp_queues_bounded], [senddata_sends], [senddata_ends], and what goes wrong when
      not connected, [disconnected_send_breaks_framing].
    - Both: [tx_rx_roundtrip], [device_hears_driver], [driver_hears_device].
    - All together: [records_refine_setpoints], [setpoint_reaches_device],
      [setpoint_comes_back]; the test programs: [testValues_results], [testpscmsg_passes].
    - Locks: [threads_never_stuck], [calls_exclusive], and where neither holds,
      [on_connect_deadlocks], [unlocked_calls_race].
    - Threads: [interleaved_callbacks_return], [threads_stream_arrives].
    - UDP from end to end: [udp_driver_hears_driver], [acquired_as_sent].
    - Connections: [callbacks_never_abort], [always_reconnects], [stale_callback_crashes].
    - Buffers and blocks: [dbuffer_invariant_and_bounds], [copyin_copyout_roundtrip],
      [copyout_shape_reads_elements], [scan_handshake_invariant].
    - Records: [device_support_never_aborts]; [read_binary_outcomes],
      [single_write_frames],
      [wf_read_values].
    - Fast UDP: [pool_conserved], [pool_deadlock], [fast_datagram], [cache_delivers],
      [data_file_reads_back], [write_failure_stops], [string_shown], [gauges_add_up],
      [unknown_receiver_crashes].
    - The device: [clients_bounded], [psc_send_reaches], [recvskip_overruns],
      [leaving_client_unlinks_newer].
    - Start and exit: [registry_consistent], [command_outcomes], [script_creates_all],
      [startAll_outcomes], [stopAll_outcomes], [duplicate_name_orphans].
    - The xbpm target: [clients_linked], [ping_outcomes], [onconn_outcomes],
      [message_read], [split_message_aborts].
    - Signals: [default_range_not_entire], [psd_never_aborts],
      [calculate_spectrum], [replan_loses_input], [published_consistent],
      [half_published], [set_wf_input_outcomes]; [plans_destroyed_once], [reset_destroys_the_new].

    Theorems about libevent, sockets, files or memory limits hold for every instance of the
    class or function that stands for them; their witnesses fix one.

    ** Fuel

    Loops that are not structural take fuel; running out is [Crash OutOfFuel], and the
    theorems that a call returns show that the fuel its definition passes is enough.  One
    more than the bytes waiting for [recvdata] (every round but the last takes a byte);
    the bytes to move for the loops of pscmsg.c, each call of which moves one at least
    (blocks of 128 for [psc_recvskip]); the number of queued packets for [senddata], of
    which every round but the last takes or drops one; the number of records for the file
    writer; twice the extents for [evbuffer_peek], the array for which doubles every
    round; the clients ever made for walking the list of the embedded server
    and of the xbpm target; three more than the input for [connread], every second round of
    which takes a header.

    ** What is not modelled

    - The thread of the event loop, host name lookup, the creation of sockets and files,
      iocsh registration: calls of the operating system, EPICS or libevent.  What they
      return is an argument where it matters; a running loop is one that makes callbacks.
    - report(), debug messages and error logs: they print and change nothing.
    - Time stamps are numbers; clocks are arguments.
    - [cache_open] of UdpFast makes one step of an open that the source does unlocked, and
      the fill of [recvmmsg] is part of the step [rx_batch].
    - The mutexes of the drivers are in Locking alone: there a call is the locks it takes
      and the shared state it uses, not its effect; elsewhere a critical section is one
      step, but for the worker of SigCalc, whose every statement is one, since records do
      not hold its lock.  That records use what is destroyed or changed at the same time
      is shown as a race in Locking; what undefined behaviour does then is not modelled.
      The locks inside libevent and EPICS base are in neither, but for that of record
      processing; records are initialized before any thread is started, and atomic
      counters need no lock.
    - All NaNs are one value (Ieee).
    - FFTW and the mathematical functions it and the window use are parameters (SigPsd).
    - util.c (a formatted log line), noop device support (tables of null pointers), the
      iocsh and dbd glue, the configuration header of lwIP, and the [main] functions of the
      demos.
*)

From Stdlib Require Export ZArith Lia Strings.Byte.
From stdpp Require Export base numbers list gmap strings fin_maps option.



Declare Scope psc_scope.
Delimit Scope psc_scope with psc.
Open Scope Z_scope.
#[export] Set Default Goal Selector "!".

(** ** Bytes and machine words *)

#[export] Instance byte_eq_decision : EqDecision byte := Byte.byte_eq_dec.
#[export] Instance byte_inhabited : Inhabited byte := populate Byte.x00.

(** A byte as the number it stores, and the byte a number is truncated to. *)
Definition b2z (b : byte) : Z := Z.of_N (Byte.to_N b).

Definition z2b (z : Z) : byte :=
  match Byte.of_N (Z.to_N (z mod 256)) with
  | Some b => b
  | None => Byte.x00
  end.

(** Unsigned and two's complement truncation to [w] bits. *)
Definition wrapU (w z : Z) : Z := z mod 2 ^ w.
Definition wrapS (w z : Z) : Z := (z + 2 ^ (w - 1)) mod 2 ^ w - 2 ^ (w - 1).

Abbreviation u16 := (wrapU 16).
Abbreviation u32 := (wrapU 32).
Abbreviation u64 := (wrapU 64).
Abbreviation s32 := (wrapS 32).

(** Big-endian encoding of the low [8*n] bits of [z]; value of big-endian bytes. *)
Fixpoint be_bytes (n : nat) (z : Z) : list byte :=
  match n with
  | O => []
  | S k => z2b (z / 256 ^ Z.of_nat k) :: be_bytes k z
  end.

Fixpoint be_val (l : list byte) : Z :=
  match l with
  | [] => 0
  | b :: r => b2z b * 256 ^ Z.of_nat (length r) + be_val r
  end.

(** ** Lists measured in Z *)

Definition zlen {A} (l : list A) : Z := Z.of_nat (length l).
Definition ztake {A} (n : Z) (l : list A) : list A := take (Z.to_nat n) l.
Definition zdrop {A} (n : Z) (l : list A) : list A := drop (Z.to_nat n) l.
Definition zslice {A} (off n : Z) (l : list A) : list A := ztake n (zdrop off l).

(** Overwrite [l] from offset [off] with [src] (memcpy into a buffer). *)
Definition zblit {A} (off : Z) (src l : list A) : list A :=
  ztake off l ++ src ++ zdrop (off + zlen src) l.

(** [std::vector::resize]: keep the common prefix, fill with [d]. *)
Definition zresize {A} (d : A) (n : Z) (l : list A) : list A :=
  ztake n l ++ replicate (Z.to_nat (n - zlen l)) d.

(** ** Computations that throw, abort and keep the state *)

(** A C++ call returns, throws, or ends the process (failed assert, undefined
    behaviour).  State changes made before a throw are kept. *)
Inductive exn :=
  | RecAlarm (status severity : Z)
  | RuntimeError (what : string)
  | LogicError (what : string)
  | LengthError
  | BadAlloc.

Inductive crash := AssertFail | DivByZero | NullDeref | OutOfBounds | Undefined | OutOfFuel.

Inductive outcome (A : Type) :=
  | Ret (a : A)
  | Throw (e : exn)
  | Crash (c : crash).
Arguments Ret {A} a.
Arguments Throw {A} e.
Arguments Crash {A} c.

#[export] Instance exn_eq_decision : EqDecision exn.
Proof. solve_decision. Defined.
#[export] Instance crash_eq_decision : EqDecision crash.
Proof. solve_decision. Defined.
#[export] Instance outcome_eq_decision {A} `{EqDecision A} : EqDecision (outcome A).
Proof. solve_decision. Defined.

Definition M (S A : Type) : Type := S → outcome A * S.

Definition ret {S A} (a : A) : M S A := λ s, (Ret a, s).
Definition throw {S A} (e : exn) : M S A := λ s, (Throw e, s).
Definition abort {S A} (c : crash) : M S A := λ s, (Crash c, s).
Definition get {S} : M S S := λ s, (Ret s, s).
Definition gets {S A} (f : S → A) : M S A := λ s, (Ret (f s), s).
Definition modify {S} (f : S → S) : M S unit := λ s, (Ret tt, f s).

Definition bind {S A B} (m : M S A) (k : A → M S B) : M S B := λ s,
  match m s with
  | (Ret a, s') => k a s'
  | (Throw e, s') => (Throw e, s')
  | (Crash c, s') => (Crash c, s')
  end.

Definition assert_ {S} (b : bool) : M S unit :=
  if b then ret tt else abort AssertFail.

Definition when {S} (b : bool) (m : M S unit) : M S unit :=
  if b then m else ret tt.

(** [try { m } catch(std::exception& e) { h e }]. *)
Definition catch {S A} (m : M S A) (h : exn → M S A) : M S A := λ s,
  match m s with
  | (Throw e, s') => h e s'
  | r => r
  end.

(** Run a computation on a component of the state. *)
Definition zoom {S T A} (proj : T → S) (put : S → T → T) (m : M S A) : M T A := λ t,
  let '(o, s) := m (proj t) in (o, put s t).

Notation "x <- m ;; k" := (bind m (λ x, k))
  (at level 100, m at next level, right associativity) : psc_scope.
Notation "m ;;; k" := (bind m (λ _, k))
  (at level 100, right associativity) : psc_scope.

Open Scope psc_scope.

(** ** Automation *)

(** Arithmetic rewriting of lengths and slices; [psc_rw] holds the equations that
    always simplify. *)
Create Rewrite HintDb psc_rw.
Create HintDb psc discriminated.

(** Case analysis on the innermost test of a goal or hypothesis. *)
Ltac case_if :=
  match goal with
  | |- context [if ?b then _ else _] => destruct b eqn:?
  | H : context [if ?b then _ else _] |- _ => destruct b eqn:?
  end.

(** Turn boolean comparisons in the context into propositions [lia] reads. *)
Ltac bool_to_prop :=
  repeat match goal with
  | H : (_ && _)%bool = true |- _ => apply andb_true_iff in H as [? ?]
  | H : (_ || _)%bool = false |- _ => apply orb_false_iff in H as [? ?]
  | H : negb _ = true |- _ => apply negb_true_iff in H
  | H : negb _ = false |- _ => apply negb_false_iff in H
  | H : (_ =? _) = true |- _ => apply Z.eqb_eq in H
  | H : (_ =? _) = false |- _ => apply Z.eqb_neq in H
  | H : (_ <? _) = true |- _ => apply Z.ltb_lt in H
  | H : (_ <? _) = false |- _ => apply Z.ltb_ge in H
  | H : (_ <=? _) = true |- _ => apply Z.leb_le in H
  | H : (_ <=? _) = false |- _ => apply Z.leb_gt in H
  | H : (_ >=? _) = _ |- _ => rewrite Z.geb_leb in H
  | H : (_ >? _) = _ |- _ => rewrite Z.gtb_ltb in H
  end.

(** ** Computations *)

Section monad.
Context {S T A B : Type}.
Implicit Types (m : M S A) (s : S).

Lemma bind_ret m (k : A → M S B) s a s' : m s = (Ret a, s') → bind m k s = k a s'.
Proof. intros E. unfold bind. by rewrite E. Qed.

Lemma bind_throw m (k : A → M S B) s e s' : m s = (Throw e, s') → bind m k s = (Throw e, s').
Proof. intros E. unfold bind. by rewrite E. Qed.

Lemma bind_crash m (k : A → M S B) s c s' : m s = (Crash c, s') → bind m k s = (Crash c, s').
Proof. intros E. unfold bind. by rewrite E. Qed.

Lemma zoom_eq (proj : T → S) (put : S → T → T) m t o s' :
  m (proj t) = (o, s') → zoom proj put m t = (o, put s' t).
Proof. intros E. unfold zoom. by rewrite E. Qed.

Lemma catch_ret m h s a s' : m s = (Ret a, s') → catch m h s = (Ret a, s').
Proof. intros E. unfold catch. by rewrite E. Qed.

Lemma catch_throw m h s e s' : m s = (Throw e, s') → catch m h s = h e s'.
Proof. intros E. unfold catch. by rewrite E. Qed.

Lemma run_ret m s a : (m s).1 = Ret a → m s = (Ret a, (m s).2).
Proof. intros <-. by destruct (m s). Qed.

Lemma assert_true s : assert_ true s = (Ret tt, s).
Proof. done. Qed.
End monad.

(** Every run of [m] relates the states before and after it by [R], however it ends. *)
Definition stays {S A} (R : S → S → Prop) (m : M S A) : Prop := ∀ s, R s (m s).2.

Section stays.
Context {S : Type} (R : S → S → Prop) `{!PreOrder R}.

Lemma stays_bind_at {A B} (m : M S A) (k : A → M S B) s :
  R s (m s).2 → (∀ a, stays R (k a)) → R s (bind m k s).2.
Proof.
  intros Hm Hk. unfold bind. destruct (m s) as [[a|e|c] s']; [|done|done]. etrans; [exact Hm|]. apply Hk.
Qed.

Lemma stays_bind {A B} (m : M S A) (k : A → M S B) :
  stays R m → (∀ a, stays R (k a)) → stays R (bind m k).
Proof. intros Hm Hk s. by apply stays_bind_at. Qed.

Lemma stays_catch {A} (m : M S A) h : stays R m → (∀ e, stays R (h e)) → stays R (catch m h).
Proof.
  intros Hm Hh s. unfold catch. specialize (Hm s).
  destruct (m s) as [[a|e|c] s']; [done| |done]. etrans; [exact Hm|]. apply Hh.
Qed.

Lemma stays_ret {A} (a : A) : stays R (ret a).
Proof. intros s. done. Qed.
Lemma stays_throw {A} e : stays R (throw (A:=A) e).
Proof. intros s. done. Qed.
Lemma stays_abort {A} c : stays R (abort (A:=A) c).
Proof. intros s. done. Qed.
Lemma stays_get : stays R get.
Proof. intros s. done. Qed.
Lemma stays_modify f : (∀ s, R s (f s)) → stays R (modify f).
Proof. intros Hf s. apply Hf. Qed.
Lemma stays_assert b : stays R (assert_ b).
Proof. intros s. by destruct b. Qed.
Lemma stays_when b m : stays R m → stays R (when b m).
Proof. intros Hm. destruct b; [done|]. apply stays_ret. Qed.
Lemma stays_zoom {T A} (proj : S → T) (put : T → S → S) (m : M T A) :
  (∀ s t, R s (put t s)) → stays R (zoom proj put m).
Proof. intros Hp s. unfold zoom. destruct (m (proj s)). apply Hp. Qed.
Lemma stays_run {A} {m : M S A} {s o s'} : stays R m → m s = (o, s') → R s s'.
Proof. intros Hm E. specialize (Hm s). by rewrite E in Hm. Qed.
End stays.
Arguments stays_run {S R A m s o s'}.

#[export] Hint Resolve stays_bind stays_catch stays_ret stays_throw stays_abort stays_get
  stays_modify stays_assert stays_when : psc.

(** Follow a computation down to the parts that are not sequences, tests or [ret]. *)
Ltac stays_parts :=
  repeat match goal with
    | |- stays _ (bind _ _) => apply stays_bind; [apply _| |intros ?]
    | |- stays _ (catch _ _) => apply stays_catch; [apply _| |intros ?]
    | |- stays _ (when _ _) => apply stays_when; [apply _|]
    | |- stays _ (ret _) => apply stays_ret; apply _
    | |- stays _ (throw _) => apply stays_throw; apply _
    | |- stays _ (abort _) => apply stays_abort; apply _
    | |- stays _ get => apply stays_get; apply _
    | |- stays _ (assert_ _) => apply stays_assert; apply _
    | |- stays _ (match ?x with _ => _ end) => destruct x
    end.

(** Run the next call of a sequence, when it returns by computation. *)
Ltac mstep := erewrite bind_ret by reflexivity; cbv beta.
Ltac msteps := repeat mstep.

(** ** Bytes *)

Lemma b2z_range b : 0 ≤ b2z b < 256.
Proof. unfold b2z. pose proof (Byte.to_N_bounded b). lia. Qed.

Lemma z2b_b2z b : z2b (b2z b) = b.
Proof.
  unfold z2b. rewrite Z.mod_small by apply b2z_range.
  unfold b2z. rewrite N2Z.id. by rewrite Byte.of_to_N.
Qed.

Lemma b2z_z2b z : b2z (z2b z) = z mod 256.
Proof.
  unfold z2b. destruct (Byte.of_N (Z.to_N (z mod 256))) eqn:E.
  - apply Byte.to_of_N in E. unfold b2z. rewrite E. rewrite Z2N.id; [done|].
    apply Z.mod_pos_bound. lia.
  - apply Byte.of_N_None_iff in E. pose proof (Z.mod_pos_bound z 256). lia.
Qed.

Lemma b2z_inj a b : b2z a = b2z b → a = b.
Proof. intros H. by rewrite <-(z2b_b2z a), H, z2b_b2z. Qed.

Lemma pow256_pos n : 0 < 256 ^ Z.of_nat n.
Proof. apply Z.pow_pos_nonneg; lia. Qed.

Lemma pow256_S n : 256 ^ Z.of_nat (S n) = 256 * 256 ^ Z.of_nat n.
Proof. rewrite Nat2Z.inj_succ, Z.pow_succ_r; lia. Qed.

Lemma length_be_bytes n z : length (be_bytes n z) = n.
Proof. induction n; simpl; congruence. Qed.

Lemma be_val_range l : 0 ≤ be_val l < 256 ^ Z.of_nat (length l).
Proof.
  induction l as [|b l IH]; cbn [be_val length]; [lia|].
  rewrite pow256_S. pose proof (b2z_range b). nia.
Qed.

Lemma be_val_be_bytes n z : be_val (be_bytes n z) = z mod 256 ^ Z.of_nat n.
Proof.
  induction n as [|n IH]; cbn [be_val be_bytes]; [by rewrite Z.mod_1_r|].
  rewrite length_be_bytes, IH, b2z_z2b, pow256_S.
  pose proof (pow256_pos n).
  rewrite (Z.mul_comm 256), Z.rem_mul_r by lia. lia.
Qed.

Lemma be_bytes_mod n z m :
  Z.of_nat n ≤ m → be_bytes n (z mod 256 ^ m) = be_bytes n z.
Proof.
  intros Hm. induction n as [|n IH]; cbn [be_bytes]; [done|].
  rewrite IH by lia. f_equal. apply b2z_inj. rewrite !b2z_z2b.
  pose proof (pow256_pos n).
  replace m with (Z.of_nat n + (m - Z.of_nat n)) by lia.
  rewrite Z.pow_add_r, Z.rem_mul_r by lia.
  rewrite (Z.mul_comm (256 ^ Z.of_nat n) ((z / _) mod _)), Z.div_add by lia.
  rewrite Z.div_small by (apply Z.mod_pos_bound; lia).
  replace (m - Z.of_nat n) with (1 + (m - Z.of_nat n - 1)) by lia.
  rewrite Z.pow_add_r by lia. change (256 ^ 1) with 256.
  rewrite Z.rem_mul_r by lia.
  rewrite Z.add_0_l, (Z.mul_comm 256), Z_mod_plus_full. apply Z.mod_mod. lia.
Qed.

Lemma be_bytes_be_val l : be_bytes (length l) (be_val l) = l.
Proof.
  induction l as [|b l IH]; [done|].
  cbn [be_val be_bytes length].
  pose proof (pow256_pos (length l)). pose proof (be_val_range l).
  f_equal.
  - rewrite Z.add_comm, Z.div_add by lia.
    rewrite Z.div_small by lia. apply z2b_b2z.
  - rewrite <-(be_bytes_mod _ _ (Z.of_nat (length l))) by lia.
    rewrite Z.add_comm, Z_mod_plus_full, Z.mod_small by lia. done.
Qed.

Lemma wrapU_small w z : 0 ≤ z < 2 ^ w → wrapU w z = z.
Proof. apply Z.mod_small. Qed.

Lemma wrapU_range w z : 0 ≤ w → 0 ≤ wrapU w z < 2 ^ w.
Proof. intros. apply Z.mod_pos_bound. by apply Z.pow_pos_nonneg. Qed.

Lemma wrapU_wrapU w z : 0 ≤ w → wrapU w (wrapU w z) = wrapU w z.
Proof. intros. apply wrapU_small. by apply wrapU_range. Qed.

Lemma wrapU_add_l w a b : 0 ≤ w → wrapU w (wrapU w a + b) = wrapU w (a + b).
Proof. intros. unfold wrapU. apply Zplus_mod_idemp_l. Qed.

Lemma wrapS_wrapU w z : 0 < w → wrapS w (wrapU w z) = wrapS w z.
Proof.
  intros. unfold wrapS, wrapU. by rewrite Zplus_mod_idemp_l.
Qed.

Lemma wrapS_small w z : 0 < w → - 2 ^ (w - 1) ≤ z < 2 ^ (w - 1) → wrapS w z = z.
Proof.
  intros Hw Hz. unfold wrapS.
  assert (2 ^ w = 2 * 2 ^ (w - 1)) as E.
  { rewrite <-Z.pow_succ_r by lia. f_equal. lia. }
  rewrite Z.mod_small by lia. lia.
Qed.

(** ** Lists *)

Section zlists.
Context {A : Type}.
Implicit Types l k src : list A.

Lemma zlen_nonneg l : 0 ≤ zlen l.
Proof. unfold zlen. lia. Qed.
Lemma zlen_nil : zlen (@nil A) = 0.
Proof. done. Qed.
Lemma zlen_cons a l : zlen (a :: l) = 1 + zlen l.
Proof. unfold zlen. cbn [length]. lia. Qed.
Lemma zlen_app l k : zlen (l ++ k) = zlen l + zlen k.
Proof. unfold zlen. rewrite length_app. lia. Qed.
Lemma zlen_0_nil l : zlen l = 0 → l = [].
Proof. unfold zlen. destruct l; cbn [length]; [done|lia]. Qed.
Lemma zlen_ztake n l : zlen (ztake n l) = Z.min (Z.max 0 n) (zlen l).
Proof. unfold zlen, ztake. rewrite length_take. lia. Qed.
Lemma zlen_zdrop n l : zlen (zdrop n l) = Z.max 0 (zlen l - Z.max 0 n).
Proof. unfold zlen, zdrop. rewrite length_drop. lia. Qed.
Lemma zlen_replicate n (a : A) : zlen (replicate n a) = Z.of_nat n.
Proof. unfold zlen. by rewrite length_replicate. Qed.
Lemma zlen_fmap {B} (f : A → B) l : zlen (f <$> l) = zlen l.
Proof. unfold zlen. by rewrite length_fmap. Qed.

Lemma ztake_zdrop n l : ztake n l ++ zdrop n l = l.
Proof. apply take_drop. Qed.
Lemma ztake_all n l : zlen l ≤ n → ztake n l = l.
Proof. unfold zlen, ztake. intros. apply take_ge. lia. Qed.
Lemma zdrop_all n l : zlen l ≤ n → zdrop n l = [].
Proof. unfold zlen, zdrop. intros. apply drop_ge. lia. Qed.
Lemma ztake_neg n l : n ≤ 0 → ztake n l = [].
Proof. intros. unfold ztake. replace (Z.to_nat n) with O by lia. done. Qed.
Lemma zdrop_neg n l : n ≤ 0 → zdrop n l = l.
Proof. intros. unfold zdrop. replace (Z.to_nat n) with O by lia. done. Qed.

Lemma ztake_app n l k : ztake n (l ++ k) = ztake n l ++ ztake (n - zlen l) k.
Proof.
  unfold ztake, zlen. rewrite take_app. do 2 f_equal. lia.
Qed.
Lemma zdrop_app n l k : zdrop n (l ++ k) = zdrop n l ++ zdrop (n - zlen l) k.
Proof.
  unfold zdrop, zlen. rewrite drop_app. do 2 f_equal. lia.
Qed.
Lemma ztake_app_l n l k : n ≤ zlen l → ztake n (l ++ k) = ztake n l.
Proof. intros. rewrite ztake_app, (ztake_neg (n - _)) by lia. apply app_nil_r. Qed.
Lemma ztake_app_exact l k : ztake (zlen l) (l ++ k) = l.
Proof. rewrite ztake_app_l by lia. by apply ztake_all. Qed.
Lemma zdrop_app_exact l k : zdrop (zlen l) (l ++ k) = k.
Proof. rewrite zdrop_app, zdrop_all, Z.sub_diag, zdrop_neg by lia. done. Qed.
Lemma zdrop_app_l n l k : n ≤ zlen l → zdrop n (l ++ k) = zdrop n l ++ k.
Proof. intros. by rewrite zdrop_app, (zdrop_neg (n - _)) by lia. Qed.

Lemma zdrop_zdrop n m l : 0 ≤ n → 0 ≤ m → zdrop n (zdrop m l) = zdrop (n + m) l.
Proof.
  intros. unfold zdrop. rewrite drop_drop. f_equal. lia.
Qed.
Lemma ztake_ztake n m l : ztake n (ztake m l) = ztake (Z.min n m) l.
Proof.
  unfold ztake. rewrite take_take. f_equal. lia.
Qed.
Lemma ztake_add n m l :
  0 ≤ n → 0 ≤ m → ztake (n + m) l = ztake n l ++ zslice n m l.
Proof.
  intros. unfold ztake, zslice, ztake, zdrop.
  rewrite Z2Nat.inj_add by lia.
  rewrite <-(take_drop (Z.to_nat n) l) at 1.
  rewrite take_app, length_take.
  destruct (decide (Z.to_nat n ≤ length l)%nat).
  - rewrite take_ge by (rewrite length_take; lia). do 2 f_equal. lia.
  - rewrite (drop_ge l) by lia. rewrite !take_nil, !app_nil_r.
    rewrite take_take. f_equal. lia.
Qed.

Lemma zlen_zslice off n l :
  0 ≤ off → 0 ≤ n → off + n ≤ zlen l → zlen (zslice off n l) = n.
Proof. intros. unfold zslice. rewrite zlen_ztake, zlen_zdrop. lia. Qed.
Lemma zslice_0 off l : zslice off 0 l = [].
Proof. done. Qed.

Lemma zlen_zblit off src l :
  0 ≤ off → off + zlen src ≤ zlen l → zlen (zblit off src l) = zlen l.
Proof.
  intros. pose proof (zlen_nonneg src). unfold zblit.
  rewrite !zlen_app, zlen_ztake, zlen_zdrop. lia.
Qed.
Lemma zblit_nil off l : zblit off [] l = l.
Proof. unfold zblit. rewrite zlen_nil, Z.add_0_r. apply ztake_zdrop. Qed.
Lemma zlen_zresize d n l : 0 ≤ n → zlen (zresize d n l) = n.
Proof.
  intros. pose proof (zlen_nonneg l). unfold zresize.
  rewrite zlen_app, zlen_ztake, zlen_replicate. lia.
Qed.
(** [memcpy] over the whole of a freshly resized buffer leaves the source. *)
Lemma zblit_all src l : zlen l = zlen src → zblit 0 src l = src.
Proof.
  intros. unfold zblit. rewrite (ztake_neg 0) by lia.
  rewrite zdrop_all by lia. by rewrite app_nil_r.
Qed.
(** Two adjacent overwrites are one. *)
Lemma zblit_zblit p a b (mem : list A) :
  0 ≤ p → p + zlen a + zlen b ≤ zlen mem →
  zblit (p + zlen a) b (zblit p a mem) = zblit p (a ++ b) mem.
Proof.
  intros Hp Hl. pose proof (zlen_nonneg a). pose proof (zlen_nonneg b).
  assert (Hp' : zlen (ztake p mem) = p) by (rewrite zlen_ztake; lia).
  unfold zblit. rewrite (app_assoc (ztake p mem) a).
  assert (Ha : zlen (ztake p mem ++ a) = p + zlen a) by (rewrite zlen_app; lia).
  rewrite <-Ha at 1. rewrite ztake_app_exact.
  rewrite zlen_app, zdrop_app, zdrop_all by lia. cbn.
  rewrite zdrop_zdrop by lia. rewrite !app_assoc. do 2 f_equal. lia.
Qed.

Lemma zslice_zslice p n (k : Z) (mem : list A) :
  0 ≤ p → 0 ≤ n → 0 ≤ k → zslice p n mem ++ zslice (p + n) k mem = zslice p (n + k) mem.
Proof.
  intros. unfold zslice. rewrite (ztake_add n k) by lia. f_equal.
  unfold zslice. rewrite zdrop_zdrop by lia. do 2 f_equal. lia.
Qed.

Lemma zslice_zblit off src l :
  0 ≤ off → off + zlen src ≤ zlen l → zslice off (zlen src) (zblit off src l) = src.
Proof.
  intros Ho Hl. assert (Hp : zlen (ztake off l) = off).
  { rewrite zlen_ztake. pose proof (zlen_nonneg src). lia. }
  unfold zblit, zslice. rewrite <-Hp at 1. by rewrite zdrop_app_exact, ztake_app_exact.
Qed.

(** An overwrite changes nothing outside its range. *)
Lemma zblit_lookup_outside off src l i :
  0 ≤ off → off + zlen src ≤ zlen l →
  Z.of_nat i < off ∨ off + zlen src ≤ Z.of_nat i → zblit off src l !! i = l !! i.
Proof.
  intros Ho Hl Hi. unfold zblit, zlen in *.
  assert (Hp : length (ztake off l) = Z.to_nat off) by (unfold ztake; rewrite length_take; lia).
  destruct Hi.
  - rewrite lookup_app_l by lia. unfold ztake. rewrite lookup_take. case_decide; [done|lia].
  - rewrite lookup_app_r by lia. rewrite lookup_app_r by lia.
    unfold zdrop. rewrite lookup_drop. f_equal. lia.
Qed.

Lemma zslice_app_l off n (l k : list A) :
  0 ≤ off → 0 ≤ n → off + n ≤ zlen l → zslice off n (l ++ k) = zslice off n l.
Proof.
  intros. unfold zslice. rewrite zdrop_app_l by lia.
  rewrite ztake_app_l; [done|]. rewrite zlen_zdrop. lia.
Qed.

Lemma zslice_lookup off n l i :
  0 ≤ off → 0 ≤ n → Z.of_nat i < n → zslice off n l !! i = l !! (Z.to_nat off + i)%nat.
Proof.
  intros. unfold zslice, ztake, zdrop. rewrite lookup_take, lookup_drop.
  case_decide; [done|lia].
Qed.

Lemma zslice_ext a b n l k :
  0 ≤ a → 0 ≤ b → 0 ≤ n →
  (∀ i, Z.of_nat i < n → l !! (Z.to_nat a + i)%nat = k !! (Z.to_nat b + i)%nat) →
  zslice a n l = zslice b n k.
Proof.
  intros Ha Hb Hn E. apply list_eq. intros i. destruct (Z.lt_ge_cases (Z.of_nat i) n).
  - rewrite !zslice_lookup by done. by apply E.
  - unfold zslice, ztake. rewrite !lookup_take. case_decide; [lia|done].
Qed.

Lemma zslice_zblit_outside a n off src l :
  0 ≤ a → 0 ≤ n → 0 ≤ off → off + zlen src ≤ zlen l → a + n ≤ off ∨ off + zlen src ≤ a →
  zslice a n (zblit off src l) = zslice a n l.
Proof.
  intros. apply zslice_ext; [done|done|done|]. intros i Hi. apply zblit_lookup_outside; lia.
Qed.

Lemma zslice_zblit_inside a n off src l :
  0 ≤ off ≤ a → 0 ≤ n → off + zlen src ≤ zlen l → a + n ≤ off + zlen src →
  zslice a n (zblit off src l) = zslice (a - off) n src.
Proof.
  intros Ho Hn Hl Ha. apply zslice_ext; [lia|lia|done|]. intros i Hi. unfold zblit, zlen in *.
  assert (Hp : length (ztake off l) = Z.to_nat off) by (unfold ztake; rewrite length_take; lia).
  rewrite lookup_app_r by lia. rewrite lookup_app_l by lia. f_equal. lia.
Qed.
End zlists.

#[export] Hint Rewrite @zlen_app @zlen_cons @zlen_nil @zlen_ztake @zlen_zdrop
  @zlen_replicate @zlen_fmap : psc_rw.

(** Push lengths through list operations, then decide by linear arithmetic. *)
Ltac zlen_lia :=
  autorewrite with psc_rw in *;
  repeat match goal with
  | |- context [zlen ?l] => pose proof (zlen_nonneg l); generalize dependent (zlen l); intros
  | H : context [zlen ?l] |- _ => pose proof (zlen_nonneg l); generalize dependent (zlen l); intros
  end; lia.
