(* ===== verification/Hoare.v ===== *)
(** * Computations that do not abort

    Weakest preconditions for the computations of [Prelude]: what has to hold before a call
    so that it ends without a crash, in a state as wanted, whether it returns or throws.
    [DevSafe] uses them to follow device support through every branch. *)

From S2P Require Import Prelude.

(** From [s] the call [m] returns into [Q] or throws into [E]; it does not crash. *)
Definition wp {S A} (m : M S A) (Q : A → S → Prop) (E : S → Prop) (s : S) : Prop :=
  match m s with
  | (Ret a, s') => Q a s'
  | (Throw _, s') => E s'
  | (Crash _, _) => False
  end.

Section wp.
Context {S : Type}.
Implicit Types (s : S) (E : S → Prop).

Lemma wp_mono {A} (m : M S A) (Q Q' : A → S → Prop) E E' s :
  wp m Q E s → (∀ a s', Q a s' → Q' a s') → (∀ s', E s' → E' s') → wp m Q' E' s.
Proof. unfold wp. destruct (m s) as [[a|e|c] s']; auto. Qed.

Lemma wp_ret {A} (a : A) Q E s : Q a s → wp (ret a) Q E s.
Proof. done. Qed.

Lemma wp_throw {A} e (Q : A → S → Prop) E s : E s → wp (throw e) Q E s.
Proof. done. Qed.

Lemma wp_get (Q : S → S → Prop) E s : Q s s → wp get Q E s.
Proof. done. Qed.

Lemma wp_gets {A} (f : S → A) (Q : A → S → Prop) E s : Q (f s) s → wp (gets f) Q E s.
Proof. done. Qed.

Lemma wp_modify f (Q : unit → S → Prop) E s : Q tt (f s) → wp (modify f) Q E s.
Proof. done. Qed.

Lemma wp_assert b (Q : unit → S → Prop) E s : b = true → Q tt s → wp (assert_ b) Q E s.
Proof. by intros ->. Qed.

Lemma wp_when b m (Q : unit → S → Prop) E s :
  (b = true → wp m Q E s) → (b = false → Q tt s) → wp (when b m) Q E s.
Proof. destruct b; intros Ht Hf; [by apply Ht|by apply Hf]. Qed.

Lemma wp_bind {A C} (m : M S A) (k : A → M S C) Q E s :
  wp m (λ a s', wp (k a) Q E s') E s → wp (bind m k) Q E s.
Proof. unfold wp, bind. by destruct (m s) as [[a|e|c] s']. Qed.

Lemma wp_catch {A} (m : M S A) h Q E s :
  wp m Q (λ s', ∀ e, wp (h e) Q E s') s → wp (catch m h) Q E s.
Proof. unfold wp, catch. destruct (m s) as [[a|e|c] s']; [done| |done]. intros Hh. apply (Hh e). Qed.

Lemma wp_zoom {T A} (proj : S → T) (put : T → S → S) (m : M T A) Q E s :
  wp m (λ a t, Q a (put t s)) (λ t, E (put t s)) (proj s) → wp (zoom proj put m) Q E s.
Proof. unfold wp, zoom. by destruct (m (proj s)) as [[a|e|c] t]. Qed.

(** A call that cannot throw returns. *)
Lemma wp_returns {A} (m : M S A) (Q : A → S → Prop) s :
  wp m Q (λ _, False) s → ∃ a s', m s = (Ret a, s') ∧ Q a s'.
Proof. unfold wp. destruct (m s) as [[a|e|c] s'] eqn:E; [eauto|done..]. Qed.

Lemma wp_run {A} (m : M S A) a s s' (Q : A → S → Prop) E : m s = (Ret a, s') → Q a s' → wp m Q E s.
Proof. unfold wp. by intros ->. Qed.

(** A call with one condition on the state it leaves, however it ends. *)
Lemma wp_stays {A} (m : M S A) (R : S → S → Prop) s :
  stays R m → (∀ c, (m s).1 ≠ Crash c) → wp m (λ _, R s) (R s) s.
Proof.
  intros Hm Hc. specialize (Hm s). unfold wp. destruct (m s) as [[a|e|c] s']; [done..|].
  by destruct (Hc c).
Qed.
End wp.

(** Follow a computation down to calls that have a lemma of their own. *)
Ltac wp_parts :=
  repeat match goal with
    | |- wp (bind _ _) _ _ _ => apply wp_bind
    | |- wp (ret _) _ _ _ => apply wp_ret
    | |- wp (throw _) _ _ _ => apply wp_throw
    | |- wp get _ _ _ => apply wp_get
    | |- wp (gets _) _ _ _ => apply wp_gets
    | |- wp (modify _) _ _ _ => apply wp_modify
    | |- wp (when _ _) _ _ _ => apply wp_when; intros ?
    | |- wp (if ?b then _ else _) _ _ _ => destruct b eqn:?
    end.
