(* ===== verification/EvBuffer.v ===== *)
(** * Interface to libevent's [evbuffer]

    The driver moves bytes through libevent buffers.  libevent is not part of the
    repository, so the buffer is a type class: [EvBuffer] lists the calls the driver
    makes and [EvBufferLaws] states what libevent documents about them.  Every
    component that touches an evbuffer is defined over an arbitrary instance.
    [ChainBuf] is one instance (a list of extents with a memory limit); witnesses
    evaluate on it. *)

From S2P Require Import Prelude.

(** Calls made by the driver.  [evbuffer_data b] are the bytes [evbuffer_copyout]
    reads out of [b]; a call that can fail returns an option, or the number of bytes
    moved.  [evbuffer_room b] is how much can be appended without a new allocation,
    what [evbuffer_expand] reserves. *)
Class EvBuffer (B : Type) := {
  evbuffer_new : option B;
  evbuffer_data : B → list byte;
  evbuffer_get_length : B → Z;
  evbuffer_room : B → Z;
  evbuffer_add : B → list byte → option B;
  evbuffer_expand : B → Z → option B;
  evbuffer_remove : B → Z → list byte * B;
  evbuffer_drain : B → Z → B;
  (** source, destination, number of bytes: number moved, source, destination *)
  evbuffer_remove_buffer : B → B → Z → Z * (B * B);
  (** destination, source: destination, source *)
  evbuffer_add_buffer : B → B → option (B * B);
  (** lengths of the extents that hold the first [n] bytes, in order *)
  evbuffer_peek : B → Z → list Z;
}.

Definition zsum (l : list Z) : Z := foldr Z.add 0 l.

Class EvBufferLaws (B : Type) `{EvBuffer B} : Prop := {
  evbuffer_length_data b : evbuffer_get_length b = zlen (evbuffer_data b);
  evbuffer_new_data b : evbuffer_new = Some b → evbuffer_data b = [];
  evbuffer_add_data b bs b' :
    evbuffer_add b bs = Some b' → evbuffer_data b' = evbuffer_data b ++ bs;
  evbuffer_add_room b bs :
    zlen bs ≤ evbuffer_room b →
    ∃ b', evbuffer_add b bs = Some b' ∧ evbuffer_room b - zlen bs ≤ evbuffer_room b';
  evbuffer_expand_spec b n b' :
    evbuffer_expand b n = Some b' →
    evbuffer_data b' = evbuffer_data b ∧ n ≤ evbuffer_room b';
  evbuffer_remove_data b n :
    0 ≤ n →
    (evbuffer_remove b n).1 = ztake n (evbuffer_data b) ∧
    evbuffer_data (evbuffer_remove b n).2 = zdrop n (evbuffer_data b);
  evbuffer_drain_data b n :
    0 ≤ n → evbuffer_data (evbuffer_drain b n) = zdrop n (evbuffer_data b);
  (** moves all it is asked to when the source has that much, or fails unchanged *)
  evbuffer_remove_buffer_data src dst n k src' dst' :
    0 ≤ n ≤ evbuffer_get_length src →
    evbuffer_remove_buffer src dst n = (k, (src', dst')) →
    (k = n ∧ evbuffer_data src' = zdrop n (evbuffer_data src) ∧
     evbuffer_data dst' = evbuffer_data dst ++ ztake n (evbuffer_data src)) ∨
    (k = -1 ∧ evbuffer_data src' = evbuffer_data src);
  evbuffer_add_buffer_data dst src dst' src' :
    evbuffer_add_buffer dst src = Some (dst', src') →
    evbuffer_data dst' = evbuffer_data dst ++ evbuffer_data src ∧
    evbuffer_data src' = [];
  (** asked for the whole buffer, the extents cover it *)
  evbuffer_peek_extents b n :
    n = evbuffer_get_length b →
    Forall (λ k, 0 ≤ k) (evbuffer_peek b n) ∧ zsum (evbuffer_peek b n) = n;
}.

(** ** A concrete instance: a chain of extents *)

Module ChainBuf.

Record chainbuf := Chain {
  extents : list (list byte);
  memlimit : Z;
}.

Definition bytes (b : chainbuf) : list byte := concat (extents b).

(** First [n] bytes of a chain, and the rest, extents kept. *)
Fixpoint split (n : Z) (c : list (list byte)) : list (list byte) * list (list byte) :=
  match c with
  | [] => ([], [])
  | s :: r =>
      if n <=? 0 then ([], c)
      else if zlen s <=? n then
        let '(a, z) := split (n - zlen s) r in (s :: a, z)
      else ([ztake n s], zdrop n s :: r)
  end.

Definition add (b : chainbuf) (bs : list byte) : option chainbuf :=
  if zlen (bytes b) + zlen bs <=? memlimit b
  then Some (Chain (extents b ++ [bs]) (memlimit b)) else None.

#[global] Instance chainbuf_evbuffer : EvBuffer chainbuf := {|
  evbuffer_new := Some (Chain [] (2 ^ 40));
  evbuffer_data := bytes;
  evbuffer_get_length b := zlen (bytes b);
  evbuffer_room b := memlimit b - zlen (bytes b);
  evbuffer_add := add;
  evbuffer_expand b n :=
    if zlen (bytes b) + n <=? memlimit b then Some b else None;
  evbuffer_remove b n :=
    (concat (split n (extents b)).1, Chain (split n (extents b)).2 (memlimit b));
  evbuffer_drain b n := Chain (split n (extents b)).2 (memlimit b);
  evbuffer_remove_buffer src dst n :=
    (n, (Chain (split n (extents src)).2 (memlimit src),
         Chain (extents dst ++ (split n (extents src)).1) (memlimit dst)));
  evbuffer_add_buffer dst src :=
    Some (Chain (extents dst ++ extents src) (memlimit dst), Chain [] (memlimit src));
  evbuffer_peek b n := zlen <$> (split n (extents b)).1;
|}.

Lemma split_data n c :
  0 ≤ n →
  concat (split n c).1 = ztake n (concat c) ∧ concat (split n c).2 = zdrop n (concat c).
Proof.
  revert n. induction c as [|s r IH]; intros n Hn; cbn [split concat].
  { unfold ztake, zdrop. by rewrite take_nil, drop_nil. }
  case_if; bool_to_prop.
  { rewrite ztake_neg, zdrop_neg by lia. done. }
  case_if; bool_to_prop.
  - destruct (split (n - zlen s) r) as [a z] eqn:E.
    destruct (IH (n - zlen s)) as [H1 H2]; [lia|]. rewrite E in H1, H2.
    cbn [fst snd concat] in *. rewrite H1, H2.
    rewrite ztake_app, zdrop_app, (ztake_all n s), (zdrop_all n s) by lia. done.
  - cbn [fst snd concat]. rewrite app_nil_r.
    rewrite ztake_app_l, zdrop_app_l by lia. done.
Qed.

Lemma zsum_lengths (c : list (list byte)) : zsum (zlen <$> c) = zlen (concat c).
Proof.
  induction c as [|s r IH]; [done|].
  cbn [concat fmap list_fmap]. rewrite zlen_app, <-IH. done.
Qed.

#[global] Instance chainbuf_laws : EvBufferLaws chainbuf.
Proof.
  split; cbn.
  - done.
  - by intros b [= <-].
  - unfold add. intros b bs b'. case_if; [|done]. intros [= <-].
    unfold bytes. cbn. rewrite concat_app. cbn. by rewrite app_nil_r.
  - intros b bs Hr. exists (Chain (extents b ++ [bs]) (memlimit b)).
    unfold add. case_if; bool_to_prop; [|lia]. split; [done|].
    unfold bytes in *. cbn. rewrite concat_app. cbn. rewrite app_nil_r, zlen_app. lia.
  - intros b n b'. case_if; [|done]. intros [= <-]. bool_to_prop. split; [done|lia].
  - intros b n Hn. by apply split_data.
  - intros b n Hn. by apply split_data.
  - intros src dst n k src' dst' Hn [= <- <- <-]. left. unfold bytes. cbn.
    rewrite concat_app.
    destruct (split_data n (extents src)) as [-> ->]; [lia|]. done.
  - intros dst src dst' src' [= <- <-]. unfold bytes. cbn. by rewrite concat_app.
  - intros b n ->. split.
    + apply Forall_fmap, Forall_true. intros. apply zlen_nonneg.
    + rewrite zsum_lengths. destruct (split_data (zlen (bytes b)) (extents b)) as [-> _].
      { apply zlen_nonneg. }
      fold (bytes b). rewrite ztake_all by lia. done.
Qed.

(** The same buffers when there is no memory for a new buffer or another chain entry. *)
Definition starved_evbuffer : EvBuffer chainbuf := {|
  evbuffer_new := None;
  evbuffer_data := bytes;
  evbuffer_get_length := @evbuffer_get_length _ chainbuf_evbuffer;
  evbuffer_room := @evbuffer_room _ chainbuf_evbuffer;
  evbuffer_add := add;
  evbuffer_expand := @evbuffer_expand _ chainbuf_evbuffer;
  evbuffer_remove := @evbuffer_remove _ chainbuf_evbuffer;
  evbuffer_drain := @evbuffer_drain _ chainbuf_evbuffer;
  evbuffer_remove_buffer := @evbuffer_remove_buffer _ chainbuf_evbuffer;
  evbuffer_add_buffer _ _ := None;
  evbuffer_peek := @evbuffer_peek _ chainbuf_evbuffer;
|}.

Lemma starved_laws : @EvBufferLaws chainbuf starved_evbuffer.
Proof. destruct chainbuf_laws. split; try done. Qed.

(** A buffer with the given bytes in one extent and ample memory. *)
Definition of_bytes (bs : list byte) : chainbuf := Chain [bs] (2 ^ 40).

End ChainBuf.
