(* ===== verification/Dbuffer.v ===== *)
(** * Dis-contiguous byte buffers

    Class [dbuffer] of coreApp/src/psc/evbase.h and evbase.cpp: a block body held
    either in a vector or in an evbuffer, read and written through a list of strides.
    A stride is an [iovec] whose base is an offset into the backing store.

    The lemmas relate the stride walk to flat byte lists: reading and writing through
    the strides is slicing and overwriting [contents d]. *)

From S2P Require Import Prelude EvBuffer.

(** ** Data *)

Record iovec := IOVec { iov_base : Z; iov_len : Z }.

Record dbuffer (B : Type) := Dbuffer {
  strides : list iovec;
  backingv : list byte;
  backingb : option B;
}.
Arguments Dbuffer {B} _ _ _.
Arguments strides {B} _.
Arguments backingv {B} _.
Arguments backingb {B} _.

(** [dbuffer()] *)
Definition dbuffer_empty {B} : dbuffer B := Dbuffer [] [] None.

(** [dbuffer(size_t n)] *)
Definition dbuffer_sized {B} (n : Z) : dbuffer B :=
  Dbuffer [IOVec 0 n] (replicate (Z.to_nat n) Byte.x00) None.

(** What a [stride_ptr::copy] call does with the bytes it passes over: [dbase] null
    (skip), copy out, or copy in from a source. *)
Inductive copy_mode := CopySkip | CopyOut | CopyIn (src : list byte).

(** Result of [stride_ptr::copy]: bytes moved, bytes written to [dbase], the backing
    memory, and the cursor (strides left, offset in the first of them). *)
Record copy_res := CopyRes {
  cp_moved : Z;
  cp_out : list byte;
  cp_mem : list byte;
  cp_rest : list iovec;
  cp_off : Z;
}.

(** [dbuffer::stride_ptr<B>::copy(n, dbase, out)] with the cursor at offset [off] of
    the first stride of [rest]. *)
Fixpoint stride_copy (mem : list byte) (rest : list iovec) (off n : Z) (mode : copy_mode)
    : copy_res :=
  match rest with
  | [] => CopyRes 0 [] mem [] off
  | s :: rest' =>
      if n =? 0 then CopyRes 0 [] mem rest off else
      let avail := iov_len s - off in
      let src := off + iov_base s in
      let ncopy := Z.min n avail in
      let out := match mode with CopyOut => zslice src ncopy mem | _ => [] end in
      let mem' := match mode with CopyIn d => zblit src (ztake ncopy d) mem | _ => mem end in
      let mode' := match mode with CopyIn d => CopyIn (zdrop ncopy d) | _ => mode end in
      if n >=? avail then
        let r := stride_copy mem' rest' 0 (n - avail) mode' in
        CopyRes (avail + cp_moved r) (out ++ cp_out r) (cp_mem r) (cp_rest r) (cp_off r)
      else
        CopyRes n out mem' rest (off + n)
  end.

Section dbuffer.
Context {B : Type} `{EvBuffer B}.
Implicit Types d : dbuffer B.

(** The bytes the strides point into. *)
Definition contents d : list byte :=
  match backingb d with
  | Some b => evbuffer_data b
  | None => backingv d
  end.

(** [dbuffer::size() const] *)
Definition dbuffer_size d : Z :=
  match backingb d with
  | Some b => evbuffer_get_length b
  | None => zlen (backingv d)
  end.

(** [dbuffer::clear()] *)
Definition dbuffer_clear d : dbuffer B := Dbuffer [] [] None.

(** [dbuffer::resize(size_t newlen)]; [std::vector::reserve] throws when asked for
    more than [max_size()]. *)
Definition vector_max_size : Z := 2 ^ 63 - 1.

Definition dbuffer_resize (newlen : Z) : M (dbuffer B) unit := λ d,
  if newlen >? vector_max_size then (Throw LengthError, d) else
  let v := match backingb d with
           | Some b => zresize Byte.x00 newlen (ztake newlen (evbuffer_data b))
           | None => zresize Byte.x00 newlen (backingv d)
           end in
  (Ret tt, Dbuffer [IOVec 0 newlen] v None).

(** [dbuffer::assign(const void *buf, size_t len)], [buf] given as its [len] bytes. *)
Definition dbuffer_assign (buf : list byte) d : dbuffer B :=
  Dbuffer [IOVec 0 (zlen buf)] (zblit 0 buf (zresize Byte.x00 (zlen buf) (backingv d))) None.

(** The peek loop of [dbuffer::consume]: double the iovec array until every extent
    fits, then cut it to the number of extents. *)
Fixpoint peek_strides (fuel : nat) (exts : list Z) (nvec : Z) : option (list Z) :=
  match fuel with
  | O => None
  | S fuel' =>
      let filled := ztake nvec exts in
      let nstrides := zlen exts in
      if nstrides <=? nvec then Some (ztake nstrides filled)
      else peek_strides fuel' exts (2 * nvec)
  end.

Fixpoint place_strides (base : Z) (lens : list Z) : list iovec :=
  match lens with
  | [] => []
  | n :: r => IOVec base n :: place_strides (base + n) r
  end.

(** [dbuffer::consume(evbuffer *buf, size_t len)]: the state is the source buffer and
    the dbuffer. *)
Definition dbuffer_consume (len : Z) : M (B * dbuffer B) unit := λ '(buf, d),
  let total := evbuffer_get_length buf in
  let len := if len >? total then total else len in
  match evbuffer_new with
  | None => (Throw BadAlloc, (buf, d))
  | Some temp =>
      let '(moved, (buf', temp')) := evbuffer_remove_buffer buf temp len in
      if negb (moved =? len)
      then (Throw (LogicError "consume() move buffer fail"), (buf', d))
      else
        let exts := evbuffer_peek temp' len in
        match peek_strides (S (length exts)) exts 2 with
        | None => (Crash OutOfFuel, (buf', d))
        | Some lens => (Ret tt, (buf', Dbuffer (place_strides 0 lens) [] (Some temp')))
        end
  end.

(** [dbuffer::copyin(const void *buf, size_t offset, size_t len)], [buf] given as its
    [len] bytes.  Strides of an evbuffer are read-only: libevent leaves a store
    through them undefined. *)
Definition dbuffer_copyin (buf : list byte) (offset : Z) : M (dbuffer B) bool := λ d,
  let len := zlen buf in
  let ptr := stride_copy (contents d) (strides d) 0 offset CopySkip in
  let r := stride_copy (contents d) (cp_rest ptr) (cp_off ptr) len (CopyIn buf) in
  let ok := cp_moved r =? len in
  match backingb d with
  | None => (Ret ok, Dbuffer (strides d) (cp_mem r) None)
  | Some b => if cp_moved r =? 0 then (Ret ok, d) else (Crash Undefined, d)
  end.

(** The element loop of [copyout_shape]: [actual] elements left to copy. *)
Fixpoint copy_elements (mem : list byte) (rest : list iovec) (off esize eskip : Z)
    (actual : nat) : list byte :=
  match actual with
  | O => []
  | S actual' =>
      let r := stride_copy mem rest off esize CopyOut in
      match actual' with
      | O => cp_out r
      | S _ =>
          let k := stride_copy mem (cp_rest r) (cp_off r) eskip CopySkip in
          cp_out r ++ copy_elements mem (cp_rest k) (cp_off k) esize eskip actual'
      end
  end.

(** [dbuffer::copyout_shape(dest, offset, esize, eskip, ecount) const]: number of
    elements, and the bytes written from [dest] on.  All arguments are [size_t]. *)
Definition dbuffer_copyout_shape d (offset esize eskip ecount : Z) : outcome (Z * list byte) :=
  let total := dbuffer_size d in
  if (ecount =? 0) || (offset >=? total) then Ret (0, [])
  else if u64 (esize + eskip) =? 0 then Crash DivByZero
  else
    let actual := u64 (total - offset + eskip) / u64 (esize + eskip) in
    let actual := if actual >? ecount then ecount else actual in
    let ptr := stride_copy (contents d) (strides d) 0 offset CopySkip in
    Ret (actual,
         copy_elements (contents d) (cp_rest ptr) (cp_off ptr) esize eskip (Z.to_nat actual)).

(** [bool dbuffer::copyout(void *dest, size_t offset, size_t nbytes) const] *)
Definition dbuffer_copyout d (offset nbytes : Z) : outcome (bool * list byte) :=
  match dbuffer_copyout_shape d offset nbytes 0 1 with
  | Ret (n, bs) => Ret (n =? 1, bs)
  | Throw e => Throw e
  | Crash c => Crash c
  end.

(** [void dbuffer::copyout(evbuffer* dest) const] *)
Fixpoint copyout_strides (mem : list byte) (l : list iovec) : M B unit :=
  match l with
  | [] => ret tt
  | s :: r => λ dest,
      match evbuffer_add dest (zslice (iov_base s) (iov_len s) mem) with
      | None => (Throw (RuntimeError "copyout() evbuffer_add() error"), dest)
      | Some dest' => copyout_strides mem r dest'
      end
  end.

Definition dbuffer_copyout_evbuffer d : M B unit := copyout_strides (contents d) (strides d).

End dbuffer.

(** ** Strides that tile the backing store *)

(** [tiled p rest total]: the strides of [rest] are consecutive and cover the offsets
    from [p] to [total]. *)
Fixpoint tiled (p : Z) (rest : list iovec) (total : Z) : Prop :=
  match rest with
  | [] => p = total
  | s :: r => iov_base s = p ∧ 0 ≤ iov_len s ∧ tiled (p + iov_len s) r total
  end.

(** The cursor [(rest, off)] of a walk over a store of [total] bytes stands at flat
    position [p]. *)
Definition cursor_at (p : Z) (rest : list iovec) (off total : Z) : Prop :=
  0 ≤ off ∧ 0 ≤ p - off ∧ tiled (p - off) rest total ∧
  match rest with [] => off = 0 | s :: _ => off ≤ iov_len s end.

Definition dbuffer_wf {B} `{EvBuffer B} (d : dbuffer B) : Prop :=
  tiled 0 (strides d) (zlen (contents d)).

Lemma tiled_le p rest total : tiled p rest total → p ≤ total.
Proof.
  revert p. induction rest as [|s r IH]; intros p; cbn; [lia|].
  intros (_ & ? & ?%IH). lia.
Qed.

Lemma cursor_at_le p rest off total : cursor_at p rest off total → 0 ≤ p ≤ total.
Proof.
  intros (? & ? & Ht & Hm). destruct rest as [|s r]; cbn in Ht; [lia|].
  destruct Ht as (_ & _ & ?%tiled_le). lia.
Qed.

Lemma cursor_at_start rest total : tiled 0 rest total → cursor_at 0 rest 0 total.
Proof. intros Ht. split_and!; [lia|lia|done|]. destruct rest; [done|]. by destruct Ht as (_&?&_). Qed.

Lemma tiled_place base lens :
  Forall (λ k, 0 ≤ k) lens → tiled base (place_strides base lens) (base + zsum lens).
Proof.
  revert base. induction lens as [|n r IH]; intros base Hf; cbn; [lia|].
  inv Hf. split_and!; [done|done|]. rewrite Z.add_assoc. by apply IH.
Qed.

(** The memory after a copy with the cursor at [p]: unchanged, or overwritten. *)
Definition mode_mem (mode : copy_mode) (p moved : Z) (mem : list byte) : list byte :=
  match mode with CopyIn d => zblit p (ztake moved d) mem | _ => mem end.

Definition mode_out (mode : copy_mode) (p moved : Z) (mem : list byte) : list byte :=
  match mode with CopyOut => zslice p moved mem | _ => [] end.

Lemma mode_zero mode p mem : mode_mem mode p 0 mem = mem ∧ mode_out mode p 0 mem = [].
Proof. destruct mode; split; try done. cbn. rewrite ztake_neg by lia. apply zblit_nil. Qed.

(** The stride walk is a flat copy: it moves what is left up to [n] bytes, reads or
    overwrites exactly that range, and leaves the cursor behind it. *)
Lemma stride_copy_flat rest mem off n mode p :
  cursor_at p rest off (zlen mem) → 0 ≤ n →
  (match mode with CopyIn d => n ≤ zlen d | _ => True end) →
  let r := stride_copy mem rest off n mode in
  let moved := Z.min n (zlen mem - p) in
  cp_moved r = moved ∧
  cp_out r = mode_out mode p moved mem ∧
  cp_mem r = mode_mem mode p moved mem ∧
  cursor_at (p + moved) (cp_rest r) (cp_off r) (zlen mem).
Proof.
  revert mem off n mode p. induction rest as [|s rest IH]; intros mem off n mode p Hc Hn Hd.
  - pose proof Hc as (? & ? & Ht & ->). cbn in Ht. cbn -[Z.min].
    replace (Z.min n (zlen mem - p)) with 0 by lia.
    destruct (mode_zero mode p mem) as [-> ->]. rewrite Z.add_0_r. done.
  - pose proof (cursor_at_le _ _ _ _ Hc) as Hle.
    pose proof Hc as (Hoff & Hb & (Hbase & Hlen & Ht) & Hol). cbn [stride_copy].
    case_if; bool_to_prop; subst.
    { cbn -[Z.min]. replace (Z.min 0 (zlen mem - p)) with 0 by lia.
      destruct (mode_zero mode p mem) as [-> ->]. rewrite Z.add_0_r. done. }
    pose proof (tiled_le _ _ _ Ht) as Htl.
    replace (off + iov_base s) with p by lia.
    case_if; bool_to_prop.
    + (* the rest of this stride, then the next *)
      rewrite !(Z.min_r n (iov_len s - off)) by lia.
      set (avail := iov_len s - off) in *.
      set (mem' := match mode with CopyIn d => zblit p (ztake avail d) mem | _ => mem end).
      set (mode' := match mode with CopyIn d => CopyIn (zdrop avail d) | _ => mode end).
      assert (Hml : zlen mem' = zlen mem).
      { subst mem'. destruct mode; try done. apply zlen_zblit; [lia|]. rewrite zlen_ztake. lia. }
      destruct (IH mem' 0 (n - avail) mode' (p + avail)) as (H1 & H2 & H3 & H4).
      { rewrite Hml. replace (p - off + iov_len s) with (p + avail - 0) in Ht by lia.
        split_and!; [lia|lia|done|]. destruct rest; [done|]. by destruct Ht as (_ & ? & _). }
      { lia. }
      { subst mode'. destruct mode; try done. rewrite zlen_zdrop. lia. }
      rewrite Hml in *.
      replace (Z.min n (zlen mem - p)) with (avail + Z.min (n - avail) (zlen mem - (p + avail))) by lia.
      set (m := Z.min (n - avail) (zlen mem - (p + avail))) in *.
      assert (0 ≤ m) by lia. assert (0 ≤ avail) by lia.
      cbn [cp_moved cp_out cp_mem cp_rest cp_off].
      rewrite H1, H2, H3. split_and!; [done| | |].
      * subst mode'. destruct mode as [| |d]; try done. cbn. by rewrite zslice_zslice by lia.
      * subst mode' mem'. destruct mode as [| |d]; try done. cbn.
        rewrite ztake_add by lia. unfold zslice.
        assert (Hta : zlen (ztake avail d) = avail) by (rewrite zlen_ztake; lia).
        rewrite <-Hta at 1. rewrite zblit_zblit; [done|lia|].
        rewrite !zlen_ztake, zlen_zdrop. lia.
      * by rewrite Z.add_assoc.
    + (* satisfied from this stride *)
      rewrite !(Z.min_l n (iov_len s - off)) by lia.
      rewrite !(Z.min_l n (zlen mem - p)) by lia.
      cbn [cp_moved cp_out cp_mem cp_rest cp_off].
      split_and!; [done|by destruct mode|by destruct mode|].
      split; [lia|]. split; [lia|]. split; [|lia].
      replace (p + n - (off + n)) with (p - off) by lia. done.
Qed.

(** ** Reading *)

(** [n] elements of [esize] bytes, [eskip] bytes apart, from offset [p]. *)
Fixpoint elements (mem : list byte) (p esize eskip : Z) (n : nat) : list byte :=
  match n with
  | O => []
  | S k => zslice p esize mem ++ elements mem (p + esize + eskip) esize eskip k
  end.

Lemma copy_elements_flat n mem rest off p esize eskip :
  cursor_at p rest off (zlen mem) → 0 ≤ esize → 0 ≤ eskip →
  p + Z.of_nat n * (esize + eskip) - eskip ≤ zlen mem →
  copy_elements mem rest off esize eskip n = elements mem p esize eskip n.
Proof.
  revert rest off p. induction n as [|n IH]; intros rest off p Hc He Hk Hfit; [done|].
  pose proof (cursor_at_le _ _ _ _ Hc).
  assert (Hfit' : p + esize + Z.of_nat n * (esize + eskip) ≤ zlen mem) by lia.
  assert (p + esize ≤ zlen mem) by nia.
  cbn [copy_elements elements].
  destruct (stride_copy_flat rest mem off esize CopyOut p Hc He I) as (_ & Ho & _ & Hc').
  set (r := stride_copy mem rest off esize CopyOut) in *.
  rewrite Z.min_l in Ho, Hc' by lia. cbn in Ho. rewrite Ho.
  destruct n as [|n]; [cbn [elements]; by rewrite app_nil_r|].
  destruct (stride_copy_flat _ mem _ eskip CopySkip _ Hc' Hk I) as (_ & _ & _ & Hc'').
  rewrite Z.min_l in Hc'' by nia.
  rewrite (IH _ _ _ Hc''); [done|done|done|]. lia.
Qed.

Lemma zlen_elements n mem p esize eskip :
  0 ≤ p → 0 ≤ esize → 0 ≤ eskip →
  p + Z.of_nat n * (esize + eskip) - eskip ≤ zlen mem →
  zlen (elements mem p esize eskip n) = Z.of_nat n * esize.
Proof.
  revert p. induction n as [|n IH]; intros p Hp He Hk Hfit; [done|].
  assert (p + esize ≤ zlen mem) by nia.
  cbn [elements]. rewrite zlen_app, zlen_zslice by lia.
  destruct n as [|n]; [cbn [elements]; rewrite zlen_nil; lia|]. rewrite IH by lia. lia.
Qed.

(** Element [k] of a list of elements. *)
Lemma zslice_elements n mem p esize eskip k :
  0 ≤ p → 0 < esize → 0 ≤ eskip → 0 ≤ k < Z.of_nat n →
  p + Z.of_nat n * (esize + eskip) - eskip ≤ zlen mem →
  zslice (k * esize) esize (elements mem p esize eskip n) =
    zslice (p + k * (esize + eskip)) esize mem.
Proof.
  revert p k. induction n as [|n IH]; intros p k Hp He Hs Hk Hfit; [lia|]. cbn [elements].
  assert (Hz : zlen (zslice p esize mem) = esize) by (apply zlen_zslice; nia).
  destruct (decide (k = 0)) as [->|].
  - rewrite Z.mul_0_l, Z.add_0_r. unfold zslice at 1. rewrite (zdrop_neg 0) by lia.
    rewrite <-Hz at 1. apply ztake_app_exact.
  - replace (k * esize) with (zlen (zslice p esize mem) + (k - 1) * esize) by lia.
    unfold zslice at 1. rewrite Z.add_comm, <-zdrop_zdrop, zdrop_app_exact by nia.
    change (zslice ((k - 1) * esize) esize (elements mem (p + esize + eskip) esize eskip n) = zslice (p + k * (esize + eskip)) esize mem).
    rewrite IH by lia. f_equal. lia.
Qed.

Lemma elements_1 mem p esize eskip : elements mem p esize eskip 1 = zslice p esize mem.
Proof. cbn. by rewrite app_nil_r. Qed.

(** One copy writes at most what it is asked for, and keeps the cursor inside. *)
Lemma stride_copy_step mem rest off n mode p :
  cursor_at p rest off (zlen mem) → 0 ≤ n → mode = CopySkip ∨ mode = CopyOut →
  zlen (cp_out (stride_copy mem rest off n mode)) ≤ n ∧
  ∃ p', cursor_at p' (cp_rest (stride_copy mem rest off n mode))
          (cp_off (stride_copy mem rest off n mode)) (zlen mem).
Proof.
  intros Hc Hn Hm. pose proof (cursor_at_le _ _ _ _ Hc).
  destruct (stride_copy_flat rest mem off n mode p) as (_ & Ho & _ & Hc'); [done|done|by destruct Hm; subst|].
  split; [|eauto]. rewrite Ho. destruct Hm; subst; cbn; [done|].
  unfold zslice. rewrite zlen_ztake. lia.
Qed.

Lemma copy_elements_bound n mem rest off p esize eskip :
  cursor_at p rest off (zlen mem) → 0 ≤ esize → 0 ≤ eskip →
  zlen (copy_elements mem rest off esize eskip n) ≤ Z.of_nat n * esize.
Proof.
  revert rest off p. induction n as [|n IH]; intros rest off p Hc He Hk; [done|].
  cbn [copy_elements].
  destruct (stride_copy_step mem rest off esize CopyOut p) as (Hb & p' & Hc'); [done|done|by right|].
  destruct n as [|n]; [lia|].
  destruct (stride_copy_step mem _ _ eskip CopySkip p' Hc') as (_ & p'' & Hc''); [done|by left|].
  specialize (IH _ _ _ Hc'' He Hk). rewrite zlen_app. lia.
Qed.

Section dbuffer_lemmas.
Context {B : Type} `{EvBufferLaws B}.
Implicit Types d : dbuffer B.

Lemma dbuffer_size_contents d : dbuffer_size d = zlen (contents d).
Proof.
  unfold dbuffer_size, contents. destruct (backingb d); [apply evbuffer_length_data|done].
Qed.

Lemma cursor_at_skip d offset :
  dbuffer_wf d → 0 ≤ offset →
  let ptr := stride_copy (contents d) (strides d) 0 offset CopySkip in
  cursor_at (Z.min offset (zlen (contents d))) (cp_rest ptr) (cp_off ptr) (zlen (contents d)).
Proof.
  intros Hwf Ho.
  destruct (stride_copy_flat (strides d) (contents d) 0 offset CopySkip 0) as (_ & _ & _ & Hc);
    [by apply cursor_at_start|done|done|].
  by rewrite Z.sub_0_r, Z.add_0_l in Hc.
Qed.

(** The number of whole elements that fit behind [offset]. *)
Definition shape_count (total offset esize eskip ecount : Z) : Z :=
  if (ecount =? 0) || (offset >=? total) then 0
  else Z.min ecount ((total - offset + eskip) / (esize + eskip)).

Lemma copyout_shape_flat d offset esize eskip ecount :
  dbuffer_wf d → 0 ≤ offset → 0 ≤ esize → 0 ≤ eskip → 0 ≤ ecount →
  0 < esize + eskip < 2 ^ 64 → dbuffer_size d + eskip < 2 ^ 64 →
  let n := shape_count (dbuffer_size d) offset esize eskip ecount in
  dbuffer_copyout_shape d offset esize eskip ecount =
    Ret (n, elements (contents d) offset esize eskip (Z.to_nat n)).
Proof.
  intros Hwf Ho He Hk Hc Hs Hov. unfold dbuffer_copyout_shape, shape_count.
  rewrite !dbuffer_size_contents in *. pose proof (zlen_nonneg (contents d)).
  case_if; [done|]. bool_to_prop.
  rewrite !wrapU_small by lia.
  case_if; bool_to_prop; [lia|].
  set (q := (zlen (contents d) - offset + eskip) / (esize + eskip)).
  assert (Hq : 0 ≤ q) by (apply Z.div_pos; lia).
  replace (if q >? ecount then ecount else q) with (Z.min ecount q)
    by (case_if; bool_to_prop; lia).
  do 2 f_equal. apply copy_elements_flat; [|done|done|].
  - pose proof (cursor_at_skip d offset Hwf Ho) as Hcur. cbn in Hcur.
    by rewrite Z.min_l in Hcur by lia.
  - rewrite Z2Nat.id by lia.
    pose proof (Z.mul_div_le (zlen (contents d) - offset + eskip) (esize + eskip)).
    fold q in H3. nia.
Qed.

Lemma copyout_flat d offset nbytes :
  dbuffer_wf d → 0 ≤ offset → 0 < nbytes < 2 ^ 64 → dbuffer_size d < 2 ^ 64 →
  offset + nbytes ≤ dbuffer_size d →
  dbuffer_copyout d offset nbytes = Ret (true, zslice offset nbytes (contents d)).
Proof.
  intros. unfold dbuffer_copyout. rewrite copyout_shape_flat by (try lia; done).
  assert (shape_count (dbuffer_size d) offset nbytes 0 1 = 1) as ->.
  { unfold shape_count. case_if; bool_to_prop; [lia|].
    pose proof (Z.div_le_lower_bound (dbuffer_size d - offset + 0) (nbytes + 0) 1). lia. }
  change (Z.to_nat 1) with 1%nat. by rewrite elements_1.
Qed.

Lemma copyout_short d offset nbytes :
  dbuffer_wf d → 0 ≤ offset → 0 < nbytes < 2 ^ 64 → dbuffer_size d < 2 ^ 64 →
  dbuffer_size d < offset + nbytes →
  dbuffer_copyout d offset nbytes = Ret (false, []).
Proof.
  intros. unfold dbuffer_copyout. rewrite copyout_shape_flat by (try lia; done).
  assert (shape_count (dbuffer_size d) offset nbytes 0 1 = 0) as ->; [|done].
  unfold shape_count. case_if; bool_to_prop; [lia|].
  rewrite Z.div_small by lia. lia.
Qed.

(** ** Writing *)

Lemma copyin_flat d buf offset :
  dbuffer_wf d → backingb d = None → 0 ≤ offset ≤ dbuffer_size d →
  let moved := Z.min (zlen buf) (dbuffer_size d - offset) in
  dbuffer_copyin buf offset d =
    (Ret (moved =? zlen buf),
     Dbuffer (strides d) (zblit offset (ztake moved buf) (backingv d)) None).
Proof.
  intros Hwf Hb Ho. rewrite dbuffer_size_contents in *. unfold dbuffer_copyin. rewrite Hb.
  pose proof (cursor_at_skip d offset Hwf (proj1 Ho)) as Hc. cbn in Hc.
  rewrite Z.min_l in Hc by lia.
  destruct (stride_copy_flat _ _ _ (zlen buf) (CopyIn buf) offset Hc) as (Hm & _ & Hmem & _);
    [apply zlen_nonneg|lia|].
  cbn. rewrite Hm, Hmem. cbn. unfold contents. by rewrite Hb.
Qed.

Lemma dbuffer_wf_sized n : 0 ≤ n → dbuffer_wf (dbuffer_sized (B:=B) n).
Proof. intros. cbn. rewrite zlen_replicate. lia. Qed.

Lemma dbuffer_wf_empty : dbuffer_wf (dbuffer_empty (B:=B)).
Proof. done. Qed.

Lemma dbuffer_wf_clear d : dbuffer_wf (dbuffer_clear d).
Proof. done. Qed.

Lemma contents_assign buf d : contents (dbuffer_assign buf d) = buf.
Proof. cbn. apply zblit_all. rewrite zlen_zresize; [done|]. apply zlen_nonneg. Qed.

Lemma dbuffer_wf_assign buf d : dbuffer_wf (dbuffer_assign buf d).
Proof.
  unfold dbuffer_wf. rewrite contents_assign. cbn. pose proof (zlen_nonneg buf). lia.
Qed.

Lemma zresize_ztake {A} (x : A) n l : 0 ≤ n → zresize x n (ztake n l) = zresize x n l.
Proof.
  intros. unfold zresize. rewrite ztake_ztake, Z.min_id, zlen_ztake. do 2 f_equal.
  pose proof (zlen_nonneg l). lia.
Qed.

Lemma resize_flat d n :
  0 ≤ n ≤ vector_max_size →
  (dbuffer_resize n d).1 = Ret tt ∧
  dbuffer_wf (dbuffer_resize n d).2 ∧ backingb (dbuffer_resize n d).2 = None ∧
  contents (dbuffer_resize n d).2 = zresize Byte.x00 n (contents d).
Proof.
  intros Hn. unfold dbuffer_resize. case_if; bool_to_prop; [lia|]. cbn.
  unfold dbuffer_wf, contents. cbn. destruct (backingb d) eqn:E; cbn.
  - rewrite zresize_ztake by lia. rewrite zlen_zresize by lia.
    split_and!; try done; lia.
  - rewrite zlen_zresize by lia. split_and!; try done; lia.
Qed.

Lemma dbuffer_wf_copyin d buf offset :
  dbuffer_wf d → 0 ≤ offset ≤ dbuffer_size d → dbuffer_wf (dbuffer_copyin buf offset d).2.
Proof.
  intros Hwf Ho. destruct (backingb d) eqn:Hb.
  { unfold dbuffer_copyin. rewrite Hb. by case_if. }
  rewrite copyin_flat by done. cbn. unfold dbuffer_wf, contents. cbn.
  rewrite zlen_zblit; [|lia|].
  - unfold dbuffer_wf, contents in Hwf. by rewrite Hb in Hwf.
  - rewrite zlen_ztake. unfold dbuffer_size in *. rewrite Hb in *. pose proof (zlen_nonneg buf). lia.
Qed.

Lemma peek_strides_all fuel exts nvec :
  0 < nvec → (length exts < fuel)%nat → peek_strides fuel exts nvec = Some exts.
Proof.
  cut (∀ f nv, 0 < nv → zlen exts - nv < Z.of_nat f → (f ≠ 0)%nat →
         peek_strides f exts nv = Some exts).
  { intros Hc Hn Hf. apply Hc; [done| |lia]. unfold zlen. lia. }
  intros f. induction f as [|f IH]; intros nv Hnv Hf Hz; [done|]. cbn [peek_strides].
  case_if; bool_to_prop.
  - rewrite (ztake_all nv) by lia. by rewrite ztake_all.
  - destruct f; [lia|]. apply IH; lia.
Qed.

(** [consume] either moves exactly [min len total] bytes or throws and takes none. *)
Lemma consume_flat buf d len :
  0 ≤ len →
  let n := Z.min len (zlen (evbuffer_data buf)) in
  match dbuffer_consume len (buf, d) with
  | (Ret _, (buf', d')) =>
      contents d' = ztake n (evbuffer_data buf) ∧
      evbuffer_data buf' = zdrop n (evbuffer_data buf) ∧ dbuffer_wf d'
  | (Throw _, (buf', d')) => d' = d ∧ evbuffer_data buf' = evbuffer_data buf
  | (Crash _, _) => False
  end.
Proof.
  intros Hlen. unfold dbuffer_consume. rewrite evbuffer_length_data.
  pose proof (zlen_nonneg (evbuffer_data buf)) as Hbl.
  replace (if len >? zlen (evbuffer_data buf) then _ else len)
    with (Z.min len (zlen (evbuffer_data buf))) by (case_if; bool_to_prop; lia).
  set (n := Z.min len (zlen (evbuffer_data buf))).
  destruct evbuffer_new as [temp|] eqn:Hnew; [|done].
  destruct (evbuffer_remove_buffer buf temp n) as [k [buf' temp']] eqn:Hrb.
  apply evbuffer_remove_buffer_data in Hrb; [|rewrite evbuffer_length_data; lia].
  apply evbuffer_new_data in Hnew.
  destruct Hrb as [(-> & Hs & Hd)|(-> & Hs)].
  2:{ assert ((-1 =? n) = false) as -> by (apply Z.eqb_neq; lia). done. }
  rewrite Z.eqb_refl. cbn [negb]. rewrite Hnew in Hd. cbn in Hd.
  rewrite peek_strides_all by lia.
  destruct (evbuffer_peek_extents temp' n) as [Hnn Hsum].
  { rewrite evbuffer_length_data, Hd, zlen_ztake. lia. }
  unfold dbuffer_wf, contents. cbn. split_and!; [done|done|].
  replace (zlen (evbuffer_data temp')) with (0 + zsum (evbuffer_peek temp' n)).
  - by apply tiled_place.
  - rewrite Hsum, Hd, zlen_ztake. lia.
Qed.

(** libevent has memory for a new buffer and for moving bytes between buffers. *)
Definition memory_ok : Prop :=
  is_Some (evbuffer_new (B:=B)) ∧
  ∀ (src dst : B) n, 0 ≤ n ≤ evbuffer_get_length src → (evbuffer_remove_buffer src dst n).1 = n.

Lemma consume_ok buf d len :
  memory_ok → 0 ≤ len → (dbuffer_consume len (buf, d)).1 = Ret tt.
Proof.
  intros [[temp Ht] Hmv] Hlen. unfold dbuffer_consume. rewrite Ht.
  set (n := if len >? evbuffer_get_length buf then _ else _).
  assert (Hn : 0 ≤ n ≤ evbuffer_get_length buf).
  { subst n. rewrite evbuffer_length_data in *. pose proof (zlen_nonneg (evbuffer_data buf)).
    case_if; bool_to_prop; lia. }
  specialize (Hmv buf temp n Hn).
  destruct (evbuffer_remove_buffer buf temp n) as [k [buf' temp']]. cbn in Hmv. subst k.
  rewrite Z.eqb_refl. cbn [negb]. rewrite peek_strides_all by lia. done.
Qed.

End dbuffer_lemmas.

(** Copying out to an evbuffer with enough reserved room appends the contents. *)
Lemma copyout_strides_flat {B} `{EvBufferLaws B} mem rest p (dest : B) :
  0 ≤ p → tiled p rest (zlen mem) → zlen mem - p ≤ evbuffer_room dest →
  ∃ dest', copyout_strides mem rest dest = (Ret tt, dest') ∧
    evbuffer_data dest' = evbuffer_data dest ++ zdrop p mem.
Proof.
  revert p dest. induction rest as [|s r IH]; intros p dest Hp Ht Hroom; cbn [copyout_strides].
  - cbn in Ht. exists dest. split; [done|]. rewrite zdrop_all by lia. by rewrite app_nil_r.
  - destruct Ht as (Hb & Hl & Ht). pose proof (tiled_le _ _ _ Ht).
    rewrite Hb. assert (Hz : zlen (zslice p (iov_len s) mem) = iov_len s) by (apply zlen_zslice; lia).
    destruct (evbuffer_add_room dest (zslice p (iov_len s) mem)) as (d1 & Hadd & Hroom1); [lia|].
    rewrite Hadd. apply evbuffer_add_data in Hadd.
    destruct (IH (p + iov_len s) d1) as (d2 & E2 & Hd2); [lia|done|lia|].
    exists d2. split; [exact E2|]. rewrite Hd2, Hadd, <-app_assoc. f_equal.
    rewrite Z.add_comm, <-zdrop_zdrop by lia. apply ztake_zdrop.
Qed.

Lemma chainbuf_memory_ok : memory_ok (B:=ChainBuf.chainbuf).
Proof. split; [by eexists|done]. Qed.

(** ** Properties *)

(** Operations a block buffer goes through, as steps. *)
Inductive dbuffer_step {B} `{EvBuffer B} : dbuffer B → dbuffer B → Prop :=
  | step_clear d : dbuffer_step d (dbuffer_clear d)
  | step_resize d n : 0 ≤ n → dbuffer_step d (dbuffer_resize n d).2
  | step_assign d buf : dbuffer_step d (dbuffer_assign buf d)
  | step_consume d buf len : 0 ≤ len → dbuffer_step d (dbuffer_consume len (buf, d)).2.2
  | step_copyin d buf offset :
      0 ≤ offset ≤ dbuffer_size d → dbuffer_step d (dbuffer_copyin buf offset d).2.

(** C26: Reading a shape out of a block body, contiguous or scattered over strides,
    returns the largest number of whole elements that fit (at most [ecount]) and
    exactly those bytes of the body, in order. *)
Theorem copyout_shape_reads_elements {B} `{EvBufferLaws B} (d : dbuffer B)
    (offset esize eskip ecount : Z) :
  dbuffer_wf d → 0 ≤ offset → 0 ≤ esize → 0 ≤ eskip → 0 ≤ ecount →
  0 < esize + eskip < 2 ^ 64 → dbuffer_size d + eskip < 2 ^ 64 →
  ∃ n, dbuffer_copyout_shape d offset esize eskip ecount =
         Ret (n, elements (contents d) offset esize eskip (Z.to_nat n)) ∧
    0 ≤ n ≤ ecount ∧
    zlen (elements (contents d) offset esize eskip (Z.to_nat n)) = n * esize ∧
    (0 < n → offset + n * (esize + eskip) - eskip ≤ dbuffer_size d) ∧
    (n < ecount → offset < dbuffer_size d →
     dbuffer_size d < offset + (n + 1) * (esize + eskip) - eskip).
Proof.
  intros Hwf Ho He Hk Hc Hs Hov. eexists.
  split; [by apply copyout_shape_flat|].
  unfold shape_count. rewrite dbuffer_size_contents in *.
  pose proof (zlen_nonneg (contents d)).
  case_if; bool_to_prop.
  { apply orb_true_iff in Heqb as [?|?]; bool_to_prop; split_and!; try done; lia. }
  set (t := zlen (contents d) - offset + eskip).
  pose proof (Z.div_mod t (esize + eskip)). pose proof (Z.mod_pos_bound t (esize + eskip)).
  assert (0 ≤ t / (esize + eskip)) by (apply Z.div_pos; lia).
  set (q := t / (esize + eskip)) in *.
  assert (Hq : q * (esize + eskip) ≤ t < (q + 1) * (esize + eskip)) by lia.
  clearbody q. split_and!; [lia|lia| | |].
  - destruct (decide (Z.min ecount q = 0)) as [E|E]; [by rewrite E|].
    rewrite zlen_elements; [rewrite Z2Nat.id; lia|lia|lia|lia|].
    rewrite Z2Nat.id by lia. nia.
  - intros. nia.
  - intros. replace (Z.min ecount q) with q by lia. lia.
Qed.

(** The body of [test_dbuffer_discontrig] in testApp/testValues.cpp. *)
Definition two_extents : dbuffer ChainBuf.chainbuf :=
  (dbuffer_consume 16
     (ChainBuf.Chain [z2b <$> seqZ 1 11; z2b <$> seqZ 12 5] 1024, dbuffer_empty)).2.2.

Lemma copyout_shape_reads_elements_witness :
  length (strides two_extents) = 2%nat ∧
  dbuffer_copyout_shape two_extents 2 2 2 8 = Ret (4, z2b <$> [3; 4; 7; 8; 11; 12; 15; 16]) ∧
  ∃ n, dbuffer_copyout_shape two_extents 2 2 2 8 =
         Ret (n, elements (contents two_extents) 2 2 2 (Z.to_nat n)) ∧
    0 ≤ n ≤ 8 ∧
    zlen (elements (contents two_extents) 2 2 2 (Z.to_nat n)) = n * 2 ∧
    (0 < n → 2 + n * (2 + 2) - 2 ≤ dbuffer_size two_extents) ∧
    (n < 8 → 2 < dbuffer_size two_extents →
     dbuffer_size two_extents < 2 + (n + 1) * (2 + 2) - 2).
Proof.
  split; [reflexivity|]. split; [vm_compute; reflexivity|].
  apply (copyout_shape_reads_elements two_extents 2 2 2 8);
    try (vm_compute; repeat split; congruence).
Defined.

(** A write inside a vector-backed block body followed by a read at the same
    place returns the bytes written; the size and every byte outside the range are
    unchanged. *)
Theorem copyin_copyout_roundtrip {B} `{EvBufferLaws B} (d : dbuffer B)
    (buf : list byte) (offset : Z) :
  dbuffer_wf d → backingb d = None → 0 ≤ offset → 0 < zlen buf →
  offset + zlen buf ≤ dbuffer_size d → dbuffer_size d < 2 ^ 64 →
  ∃ d', dbuffer_copyin buf offset d = (Ret true, d') ∧
    dbuffer_wf d' ∧ dbuffer_size d' = dbuffer_size d ∧
    dbuffer_copyout d' offset (zlen buf) = Ret (true, buf) ∧
    ∀ i, Z.of_nat i < offset ∨ offset + zlen buf ≤ Z.of_nat i →
         contents d' !! i = contents d !! i.
Proof.
  intros Hwf Hb Ho Hl Hfit H64.
  assert (Hor : 0 ≤ offset ≤ dbuffer_size d) by lia.
  assert (Hwf' := dbuffer_wf_copyin d buf offset Hwf Hor).
  pose proof (copyin_flat d buf offset Hwf Hb Hor) as E.
  cbn zeta in E. rewrite Z.min_l, Z.eqb_refl, ztake_all in E by lia.
  rewrite E in *. eexists. split; [done|]. cbn [snd] in Hwf'.
  assert (Hc : contents d = backingv d) by (unfold contents; by rewrite Hb).
  rewrite dbuffer_size_contents, Hc in Hfit, H64.
  rewrite !dbuffer_size_contents, Hc.
  assert (Hz : zlen (zblit offset buf (backingv d)) = zlen (backingv d)) by (apply zlen_zblit; lia).
  split_and!; [done|done| |].
  - rewrite copyout_flat; [|done|lia|lia| |]; try (rewrite dbuffer_size_contents; cbn; lia).
    cbn. by rewrite zslice_zblit by lia.
  - intros i Hi. cbn. apply zblit_lookup_outside; lia.
Qed.

Lemma copyin_copyout_roundtrip_witness :
  let d := dbuffer_sized (B:=ChainBuf.chainbuf) 8 in
  let buf := z2b <$> [1; 2; 3; 4] in
  ∃ d', dbuffer_copyin buf 2 d = (Ret true, d') ∧
    dbuffer_wf d' ∧ dbuffer_size d' = dbuffer_size d ∧
    dbuffer_copyout d' 2 (zlen buf) = Ret (true, buf) ∧
    ∀ i, Z.of_nat i < 2 ∨ 2 + zlen buf ≤ Z.of_nat i → contents d' !! i = contents d !! i.
Proof.
  intros d buf. apply (copyin_copyout_roundtrip d buf 2);
    try (vm_compute; repeat split; congruence).
Defined.

(** A write that starts inside a vector-backed block but runs past its end is
    reported as failed, yet the bytes up to the end of the block are overwritten. *)
Theorem copyin_overrun_is_partial {B} `{EvBufferLaws B} (d : dbuffer B)
    (buf : list byte) (offset : Z) :
  dbuffer_wf d → backingb d = None → 0 ≤ offset ≤ dbuffer_size d →
  dbuffer_size d < offset + zlen buf →
  ∃ d', dbuffer_copyin buf offset d = (Ret false, d') ∧
    contents d' = ztake offset (contents d) ++ ztake (dbuffer_size d - offset) buf.
Proof.
  intros Hwf Hb Ho Hfit. rewrite copyin_flat by done.
  rewrite Z.min_r by lia.
  assert ((dbuffer_size d - offset =? zlen buf) = false) as -> by (apply Z.eqb_neq; lia).
  eexists. split; [done|]. unfold contents. cbn. rewrite Hb.
  unfold dbuffer_size in *. rewrite Hb in *. unfold zblit.
  rewrite (zdrop_all _ (backingv d)), app_nil_r; [done|]. rewrite zlen_ztake. lia.
Qed.

Lemma copyin_overrun_is_partial_witness :
  let d := dbuffer_sized (B:=ChainBuf.chainbuf) 8 in
  let buf := z2b <$> [1; 2; 3; 4] in
  ∃ d', dbuffer_copyin buf 6 d = (Ret false, d') ∧
    contents d' = ztake 6 (contents d) ++ ztake (dbuffer_size d - 6) buf.
Proof.
  intros d buf. apply (copyin_overrun_is_partial d buf 6);
    try (vm_compute; repeat split; congruence).
Defined.

(** Consuming from a socket buffer moves exactly the first [len] bytes (all of
    them when there are fewer) into the block and leaves the rest, or throws and
    leaves both untouched; the extent loop always ends. *)
Theorem consume_moves_prefix {B} `{EvBufferLaws B} (buf : B) (d : dbuffer B) (len : Z) :
  0 ≤ len →
  let n := Z.min len (evbuffer_get_length buf) in
  match dbuffer_consume len (buf, d) with
  | (Ret _, (buf', d')) =>
      contents d' = ztake n (evbuffer_data buf) ∧ dbuffer_size d' = n ∧
      evbuffer_data buf' = zdrop n (evbuffer_data buf)
  | (Throw _, (buf', d')) => d' = d ∧ evbuffer_data buf' = evbuffer_data buf
  | (Crash _, _) => False
  end.
Proof.
  intros Hlen n. subst n. rewrite evbuffer_length_data.
  pose proof (consume_flat buf d len Hlen) as Hc.
  destruct (dbuffer_consume len (buf, d)) as [[[]|e|c] [buf' d']]; [|done|done].
  destruct Hc as (Hc & Hr & Hw). split_and!; [done| |done].
  rewrite dbuffer_size_contents, Hc, zlen_ztake.
  pose proof (zlen_nonneg (evbuffer_data buf)). lia.
Qed.

Lemma consume_moves_prefix_witness :
  let buf := ChainBuf.Chain [z2b <$> [1; 2; 3]; z2b <$> [4]; z2b <$> [5; 6]] 64 in
  let d := dbuffer_empty in
  let n := Z.min 5 (evbuffer_get_length buf) in
  match dbuffer_consume 5 (buf, d) with
  | (Ret _, (buf', d')) =>
      contents d' = ztake n (evbuffer_data buf) ∧ dbuffer_size d' = n ∧
      evbuffer_data buf' = zdrop n (evbuffer_data buf)
  | (Throw _, (buf', d')) => d' = d ∧ evbuffer_data buf' = evbuffer_data buf
  | (Crash _, _) => False
  end.
Proof. intros buf d. apply (consume_moves_prefix buf d 5). lia. Defined.

(** A read of a well formed buffer writes no more than it was asked for. *)
Lemma copyout_shape_bounds {B} `{EvBufferLaws B} (d : dbuffer B) (offset esize eskip ecount : Z) :
  dbuffer_wf d → 0 ≤ offset → 0 ≤ esize → 0 ≤ eskip → 0 ≤ ecount →
  match dbuffer_copyout_shape d offset esize eskip ecount with
  | Ret (n, bs) => 0 ≤ n ≤ ecount ∧ zlen bs ≤ ecount * esize
  | Throw _ => False
  | Crash c => c = DivByZero ∧ u64 (esize + eskip) = 0
  end.
Proof.
  intros Hwf Ho He Hk Hc. unfold dbuffer_copyout_shape.
  rewrite dbuffer_size_contents. case_if; [split; [lia|]; unfold zlen; cbn; nia|]. case_if; [bool_to_prop; done|].
  pose proof (cursor_at_skip d offset Hwf Ho) as Hcur. cbn in Hcur.
  match goal with |- context [copy_elements _ _ _ _ _ (Z.to_nat ?n)] => set (k := n) end.
  assert (Hkb : 0 ≤ k ≤ ecount).
  { subst k. assert (0 ≤ u64 (zlen (contents d) - offset + eskip) / u64 (esize + eskip)).
    { bool_to_prop. pose proof (wrapU_range 64 (esize + eskip)).
      pose proof (wrapU_range 64 (zlen (contents d) - offset + eskip)).
      apply Z.div_pos; lia. }
    case_if; bool_to_prop; lia. }
  split; [done|].
  pose proof (copy_elements_bound (Z.to_nat k) _ _ _ _ esize eskip Hcur He Hk). nia.
Qed.

(** C27: In every block buffer reached by the driver's operations the strides tile the
    backing store without gaps, and no read, whatever its (possibly wrapping)
    arguments, writes more than [ecount] elements to the destination. *)
Theorem dbuffer_invariant_and_bounds {B} `{EvBufferLaws B} (d : dbuffer B)
    (offset esize eskip ecount : Z) :
  rtc dbuffer_step dbuffer_empty d →
  0 ≤ offset → 0 ≤ esize → 0 ≤ eskip → 0 ≤ ecount →
  dbuffer_wf d ∧
  match dbuffer_copyout_shape d offset esize eskip ecount with
  | Ret (n, bs) => 0 ≤ n ≤ ecount ∧ zlen bs ≤ ecount * esize
  | Throw _ => False
  | Crash c => c = DivByZero
  end.
Proof.
  intros Hr Ho He Hk Hc.
  assert (Hwf : dbuffer_wf d).
  { revert Hr. apply (rtc_ind_r (λ d, dbuffer_wf d)); [apply dbuffer_wf_empty|].
    intros d1 d2 _ Hs Hwf. inv Hs.
    - apply dbuffer_wf_clear.
    - destruct (decide (n ≤ vector_max_size)); [by apply resize_flat|].
      unfold dbuffer_resize. case_if; bool_to_prop; [done|lia].
    - apply dbuffer_wf_assign.
    - pose proof (consume_flat buf d1 len) as Hcf.
      destruct (dbuffer_consume len (buf, d1)) as [[[]|e|c] [buf' d']]; cbn.
      + by apply Hcf.
      + by destruct Hcf as [-> _].
      + by destruct Hcf.
    - by apply dbuffer_wf_copyin. }
  split; [done|]. pose proof (copyout_shape_bounds d offset esize eskip ecount Hwf Ho He Hk Hc) as Hb.
  by destruct (dbuffer_copyout_shape _ _ _ _ _) as [[n bs]|e|c]; [|done|destruct Hb].
Qed.

Lemma dbuffer_invariant_and_bounds_witness :
  let d := (dbuffer_copyin (z2b <$> [7; 8]) 3
              (dbuffer_resize 8 (dbuffer_empty (B:=ChainBuf.chainbuf))).2).2 in
  dbuffer_wf d ∧
  match dbuffer_copyout_shape d 1 4 (2 ^ 64 - 3) 9 with
  | Ret (n, bs) => 0 ≤ n ≤ 9 ∧ zlen bs ≤ 9 * 4
  | Throw _ => False
  | Crash c => c = DivByZero
  end.
Proof.
  intros d. apply (dbuffer_invariant_and_bounds d 1 4 (2 ^ 64 - 3) 9); [|lia..].
  eapply rtc_l; [apply (step_resize _ 8); lia|].
  eapply rtc_l; [|apply rtc_refl].
  apply step_copyin. vm_compute. split; congruence.
Defined.
