(* ===== verification/Block.v ===== *)
(** * Message blocks: callback lists and the scan handshake

    [CBList<T>] (coreApp/src/psc/cblist.h) and struct [Block]
    (coreApp/src/psc/device.h, pscbase.cpp): the per message id buffer with its
    listeners, and the handshake with EPICS "I/O Intr" scanning that coalesces
    requests made while a scan is in progress. *)

From S2P Require Import Prelude EvBuffer Dbuffer.

(** ** CBList *)

Module CBList.

Section cblist.
Context {F U T W : Type} `{EqDecision F} `{EqDecision U}.

(** [std::list<std::pair<void*,func_t> >] *)
Definition thelist : Type := list (U * F).

(** [add]: [push_back(make_pair(user, fn))]. *)
Definition add (fn : F) (user : U) (l : thelist) : thelist := l ++ [(user, fn)].

(** [del]: [std::list::remove] drops every equal pair. *)
Definition del (fn : F) (user : U) (l : thelist) : thelist :=
  filter (λ p, p ≠ (user, fn)) l.

(** [operator()(T* obj)]: call in order; an exception of one callback is printed and
    the next is called. *)
Fixpoint call (run : F → U → T → M W unit) (l : thelist) (obj : T) : M W unit :=
  match l with
  | [] => ret tt
  | (user, fn) :: r => catch (run fn user obj) (λ _, ret tt) ;;; call run r obj
  end.

End cblist.

End CBList.

(** ** Blocks *)

Record epicsTime := EpicsTime { secPastEpoch : Z; nsec : Z }.

(** A listener is a C function pointer with its user pointer; both are opaque. *)
Abbreviation fnptr := Z (only parsing).
Abbreviation userptr := Z (only parsing).

(** [struct Block], over the type [D] of its body: [dbuffer] in the driver, the bytes
    themselves in specifications. *)
Record Block (D : Type) := MkBlock {
  code : Z;
  data : D;
  queued : bool;
  scanBusy : Z;        (** bit per callback priority with a scan in progress *)
  scanQueued : bool;
  listeners : list (userptr * fnptr);
  count : Z;
  scanCount : Z;
  scanOflow : Z;
  rxtime : epicsTime;
}.
Arguments MkBlock {D}.
Arguments code {D} _.
Arguments data {D} _.
Arguments queued {D} _.
Arguments scanBusy {D} _.
Arguments scanQueued {D} _.
Arguments listeners {D} _.
Arguments count {D} _.
Arguments scanCount {D} _.
Arguments scanOflow {D} _.
Arguments rxtime {D} _.

(** [Block::Block(PSCBase *p, epicsUInt16 c)] *)
Definition new_Block {B} (c : Z) : Block (dbuffer B) :=
  MkBlock (u16 c) dbuffer_empty false 0 false [] 0 0 0 (EpicsTime 0 0).

(** The same block with its body seen through [f]. *)
Definition map_data {D E} (f : D → E) (b : Block D) : Block E :=
  MkBlock (code b) (f (data b)) (queued b) (scanBusy b) (scanQueued b) (listeners b)
    (count b) (scanCount b) (scanOflow b) (rxtime b).

Section block.
Context {D : Type}.
Implicit Types b : Block D.

Definition set_data (d : D) b : Block D :=
  MkBlock (code b) d (queued b) (scanBusy b) (scanQueued b) (listeners b) (count b)
    (scanCount b) (scanOflow b) (rxtime b).

Definition set_queued (q : bool) b : Block D :=
  MkBlock (code b) (data b) q (scanBusy b) (scanQueued b) (listeners b) (count b)
    (scanCount b) (scanOflow b) (rxtime b).

(** [blk->count++] *)
Definition incr_count b : Block D :=
  MkBlock (code b) (data b) (queued b) (scanBusy b) (scanQueued b) (listeners b)
    (u32 (count b + 1)) (scanCount b) (scanOflow b) (rxtime b).

Definition set_rxtime (t : epicsTime) b : Block D :=
  MkBlock (code b) (data b) (queued b) (scanBusy b) (scanQueued b) (listeners b) (count b)
    (scanCount b) (scanOflow b) t.

Definition set_listeners (l : list (userptr * fnptr)) b : Block D :=
  MkBlock (code b) (data b) (queued b) (scanBusy b) (scanQueued b) l (count b)
    (scanCount b) (scanOflow b) (rxtime b).

Definition set_scan (busy : Z) (q : bool) (cnt oflow : Z) b : Block D :=
  MkBlock (code b) (data b) (queued b) busy q (listeners b) (count b) cnt oflow (rxtime b).

(** [Block::requestScan()].  [mask] is what [scanIoRequest(scan)] returns: the
    priorities for which a scan was queued. *)
Definition requestScan (mask : Z) b : Block D :=
  if negb (scanBusy b =? 0)
  then set_scan (scanBusy b) true (scanCount b) (u32 (scanOflow b + 1)) b
  else set_scan mask (scanQueued b) (u32 (scanCount b + 1)) (scanOflow b) b.

(** [Block::scanned(usr, IOSCANPVT, prio)]: the scan of one priority completed.
    [mask] is the result of the [scanIoRequest] a queued request leads to. *)
Definition scanned (prio mask : Z) : M (Block D) unit :=
  b <- get ;;
  assert_ (negb (Z.land (scanBusy b) (Z.shiftl 1 prio) =? 0)) ;;;
  modify (λ b, set_scan (Z.land (scanBusy b) (Z.lnot (Z.shiftl 1 prio))) (scanQueued b)
                 (scanCount b) (scanOflow b) b) ;;;
  b <- get ;;
  when ((scanBusy b =? 0) && scanQueued b)
    (modify (λ b, requestScan mask
                    (set_scan (scanBusy b) false (scanCount b) (scanOflow b) b))).

End block.

(** ** Lemmas *)

Section block_lemmas.
Context {D : Type}.
Implicit Types b : Block D.

(** A scan request touches the scan state only. *)
Lemma requestScan_fields mask b :
  code (requestScan mask b) = code b ∧ data (requestScan mask b) = data b ∧
  listeners (requestScan mask b) = listeners b ∧ count (requestScan mask b) = count b ∧
  queued (requestScan mask b) = queued b ∧ rxtime (requestScan mask b) = rxtime b.
Proof. unfold requestScan. by destruct (negb (scanBusy b =? 0)). Qed.

Lemma busy_bit m p :
  0 ≤ p → (Z.land m (Z.shiftl 1 p) =? 0) = negb (Z.testbit m p).
Proof.
  intros Hp. rewrite Z.shiftl_1_l. destruct (Z.testbit m p) eqn:E; cbn.
  - apply Z.eqb_neq. intros H0. apply (f_equal (λ z, Z.testbit z p)) in H0.
    by rewrite Z.land_spec, E, Z.pow2_bits_true, Z.bits_0 in H0.
  - apply Z.eqb_eq. apply Z.bits_inj'. intros n Hn.
    rewrite Z.land_spec, Z.bits_0, Z.pow2_bits_eqb by done.
    destruct (Z.eqb_spec p n); subst; [by rewrite E|apply andb_false_r].
Qed.

Lemma clear_bit_spec m p n :
  0 ≤ p → 0 ≤ n →
  Z.testbit (Z.land m (Z.lnot (Z.shiftl 1 p))) n = Z.testbit m n && negb (p =? n).
Proof.
  intros. rewrite Z.land_spec, Z.lnot_spec, Z.shiftl_1_l, Z.pow2_bits_eqb by done. done.
Qed.

Lemma clear_bit_zero m p :
  0 ≤ p → (∀ n, 0 ≤ n → n ≠ p → Z.testbit m n = false) →
  Z.land m (Z.lnot (Z.shiftl 1 p)) = 0.
Proof.
  intros Hp Hb. apply Z.bits_inj'. intros n Hn. rewrite clear_bit_spec, Z.bits_0 by done.
  destruct (Z.eqb_spec p n); [apply andb_false_r|]. rewrite Hb by lia. done.
Qed.

(** Completing one of several outstanding priorities only clears its bit. *)
Lemma scanned_partial b p q mask :
  0 ≤ p → 0 ≤ q → p ≠ q →
  Z.testbit (scanBusy b) p = true → Z.testbit (scanBusy b) q = true →
  scanned p mask b =
    (Ret tt, set_scan (Z.land (scanBusy b) (Z.lnot (Z.shiftl 1 p))) (scanQueued b)
               (scanCount b) (scanOflow b) b).
Proof.
  intros Hp Hq Hpq Hbp Hbq. unfold scanned, bind, get, assert_, modify.
  rewrite busy_bit, Hbp by done. cbn [negb ret fst snd scanBusy scanQueued set_scan].
  unfold ret. assert (Hnz : (Z.land (scanBusy b) (Z.lnot (Z.shiftl 1 p)) =? 0) = false).
  { apply Z.eqb_neq. intros H0. apply (f_equal (λ z, Z.testbit z q)) in H0.
    rewrite clear_bit_spec, Hbq, Z.bits_0 in H0 by done.
    destruct (Z.eqb_spec p q); [done|]. done. }
  cbn. by rewrite Hnz.
Qed.

(** Completing the last outstanding priority starts the queued scan, if any. *)
Lemma scanned_last b p mask :
  0 ≤ p → Z.testbit (scanBusy b) p = true →
  (∀ n, 0 ≤ n → n ≠ p → Z.testbit (scanBusy b) n = false) →
  scanned p mask b =
    (Ret tt, if scanQueued b
             then set_scan mask false (u32 (scanCount b + 1)) (scanOflow b) b
             else set_scan 0 false (scanCount b) (scanOflow b) b).
Proof.
  intros Hp Hbp Hother. unfold scanned, bind, get, assert_, modify.
  rewrite busy_bit, Hbp by done. unfold ret. cbn.
  rewrite clear_bit_zero by done. cbn. by destruct (scanQueued b).
Qed.

(** Run the completions of a list of priorities, each with its own next mask. *)
Fixpoint scanned_all (l : list (Z * Z)) : M (Block D) unit :=
  match l with
  | [] => ret tt
  | (p, mask) :: r => scanned p mask ;;; scanned_all r
  end.

Lemma scanned_all_spec (l : list (Z * Z)) b :
  l ≠ [] → NoDup l.*1 → Forall (λ p, 0 ≤ p) l.*1 →
  (∀ p, 0 ≤ p → Z.testbit (scanBusy b) p = true ↔ p ∈ l.*1) →
  scanned_all l b =
    (Ret tt, if scanQueued b
             then set_scan (match list.last l with Some (_, m) => m | None => 0 end) false (u32 (scanCount b + 1)) (scanOflow b) b
             else set_scan 0 false (scanCount b) (scanOflow b) b).
Proof.
  revert b. induction l as [|[p mask] r IH]; intros b Hne Hnd Hpos Hbits; [done|].
  cbn [fmap list_fmap fst] in *. inv Hnd. inv Hpos. cbn [scanned_all]. unfold bind.
  assert (Hp : Z.testbit (scanBusy b) p = true) by (apply Hbits; [done|by left]).
  destruct r as [|[q mq] r].
  { rewrite scanned_last; [done|done|done|].
    intros n Hn Hnp. apply not_true_is_false. intros Ht%Hbits; [|done].
    by apply list_elem_of_singleton in Ht. }
  cbn [fmap list_fmap fst] in *.
  assert (Hpq : p ≠ q) by (intros ->; apply H1; left).
  inv H4.
  assert (Hq : Z.testbit (scanBusy b) q = true) by (apply Hbits; [done|right; left]).
  rewrite (scanned_partial b p q) by done.
  rewrite IH; [done|done|done|by constructor|].
  intros n Hn. cbn [scanBusy set_scan]. rewrite clear_bit_spec by done.
  rewrite andb_true_iff, negb_true_iff, Z.eqb_neq, Hbits by done.
  rewrite !elem_of_cons. rewrite list_elem_of_singleton || idtac.
  split; [intros [[->|?] ?]; [done|done]|]. intros Hin. split; [by right|]. intros ->.
  apply H1. by apply elem_of_cons.
Qed.

End block_lemmas.

(** ** Properties *)

(** The scan handshake as a transition system: the driver requests a scan, or EPICS
    reports that the scan of an outstanding priority is complete.  [scanIoRequest]
    returns any set of priorities. *)
Inductive scan_step {D} : Block D → Block D → Prop :=
  | scan_request b mask : 0 ≤ mask → scan_step b (requestScan mask b)
  | scan_complete b prio mask b' :
      0 ≤ prio → 0 ≤ mask → Z.testbit (scanBusy b) prio = true →
      scanned prio mask b = (Ret tt, b') → scan_step b b'.

Definition scan_inv {D} (b : Block D) : Prop :=
  0 ≤ scanBusy b ∧ (scanQueued b = true → scanBusy b ≠ 0).

Lemma requestScan_inv {D} mask (b : Block D) : 0 ≤ mask → scan_inv b → scan_inv (requestScan mask b).
Proof.
  intros Hm [Hb Hq]. unfold requestScan. case_if; bool_to_prop; split; cbn; try done.
  intros Hs. apply Hq in Hs. done.
Qed.

Lemma scanned_inv {D} prio mask (b b' : Block D) :
  0 ≤ prio → 0 ≤ mask → scan_inv b → scanned prio mask b = (Ret tt, b') → scan_inv b'.
Proof.
  intros Hp Hm [Hb Hq]. unfold scanned, bind, get, assert_, modify, ret, when, abort.
  case_if; [|done]. cbn. case_if; intros [= <-].
  - apply requestScan_inv; [done|]. split; [|done]. cbn. apply Z.land_nonneg. by left.
  - split; cbn; [apply Z.land_nonneg; by left|]. intros Hqq. rewrite Hqq, andb_true_r in Heqb1.
    by bool_to_prop.
Qed.

Lemma requests_while_busy {D} (masks : list Z) (b : Block D) :
  scanBusy b ≠ 0 → masks ≠ [] →
  foldl (λ b m, requestScan m b) b masks =
    set_scan (scanBusy b) true (scanCount b) (u32 (scanOflow b + zlen masks)) b.
Proof.
  intros Hb. revert b Hb. induction masks as [|m r IH]; intros b Hb Hne; [done|].
  assert (E : requestScan m b =
    set_scan (scanBusy b) true (scanCount b) (u32 (scanOflow b + 1)) b).
  { unfold requestScan. case_if; bool_to_prop; done. }
  cbn [foldl]. rewrite E. destruct r as [|m' r]; [done|].
  rewrite IH by done. cbn [scanBusy scanCount scanOflow set_scan].
  rewrite wrapU_add_l by lia. rewrite (zlen_cons m (m' :: r)).
  by rewrite Z.add_assoc.
Qed.

Lemma busy_has_bit m : 0 ≤ m → m ≠ 0 → ∃ p, 0 ≤ p ∧ Z.testbit m p = true.
Proof.
  intros Hm Hz. exists (Z.log2 m). split; [apply Z.log2_nonneg|].
  apply Z.bit_log2. lia.
Qed.

(** In every state the handshake reaches, a queued scan request implies that a
    scan is in progress (so its completion will start it), and completing any
    outstanding priority passes the assertion of [Block::scanned]. *)
Theorem scan_handshake_invariant {B} (c : Z) (b : Block (dbuffer B)) :
  rtc scan_step (new_Block c) b →
  (scanQueued b = true → scanBusy b ≠ 0) ∧
  ∀ prio mask, 0 ≤ prio → Z.testbit (scanBusy b) prio = true →
    ∃ b', scanned prio mask b = (Ret tt, b').
Proof.
  intros Hr. assert (Hi : scan_inv b).
  { revert Hr. apply (rtc_ind_r (λ b, scan_inv b)); [by split|].
    intros b1 b2 _ Hs Hi. inv Hs; [by apply requestScan_inv|eapply scanned_inv; [| | |eassumption]; done]. }
  split; [apply Hi|]. intros prio mask Hp Hbit.
  unfold scanned, bind, get, assert_, modify, when, ret. rewrite busy_bit, Hbit by done. cbn.
  case_if; eauto.
Qed.

Lemma scan_handshake_invariant_witness :
  let b := requestScan 5 (requestScan 5 (new_Block (B:=ChainBuf.chainbuf) 42)) in
  scanQueued b = true ∧
  ((scanQueued b = true → scanBusy b ≠ 0) ∧
   ∀ prio mask, 0 ≤ prio → Z.testbit (scanBusy b) prio = true →
     ∃ b', scanned prio mask b = (Ret tt, b')).
Proof.
  intros b. split; [reflexivity|]. apply (scan_handshake_invariant 42 b).
  eapply rtc_l; [apply (scan_request _ 5); lia|].
  eapply rtc_l; [apply (scan_request _ 5); lia|]. apply rtc_refl.
Defined.

(** However many updates arrive while a scan is in progress, and in whatever order
    its priorities complete, exactly one further scan is started, after the last
    completion; none of the updates is left without a later scan, and each is counted
    as one overflow. *)
Theorem scan_requests_coalesce {D} (b : Block D) (masks : list Z) (l : list (Z * Z)) :
  scan_inv b → scanBusy b ≠ 0 → masks ≠ [] →
  NoDup l.*1 → Forall (λ p, 0 ≤ p) l.*1 →
  (∀ p, 0 ≤ p → Z.testbit (scanBusy b) p = true ↔ p ∈ l.*1) →
  ∃ p mask b', list.last l = Some (p, mask) ∧
    scanned_all l (foldl (λ b m, requestScan m b) b masks) = (Ret tt, b') ∧
    scanCount b' = u32 (scanCount b + 1) ∧ scanBusy b' = mask ∧ scanQueued b' = false ∧
    scanOflow b' = u32 (scanOflow b + zlen masks) ∧ data b' = data b ∧ count b' = count b.
Proof.
  intros [Hb0 _] Hb Hm Hnd Hpos Hbits.
  assert (Hl : l ≠ []).
  { intros ->. destruct (busy_has_bit (scanBusy b)) as (p & Hp & Ht); [done|done|].
    by apply Hbits in Ht; [apply elem_of_nil in Ht|]. }
  rewrite requests_while_busy by done.
  rewrite scanned_all_spec by done. cbn.
  destruct (list.last l) as [[p mask]|] eqn:E; [|by apply last_None in E].
  eexists _, _, _. split_and!; try done.
Qed.

Lemma scan_requests_coalesce_witness :
  let b := requestScan 5 (new_Block (B:=ChainBuf.chainbuf) 42) in
  ∃ p mask b', list.last [(2, 1); (0, 4)] = Some (p, mask) ∧
    scanned_all [(2, 1); (0, 4)] (foldl (λ b m, requestScan m b) b [1; 1; 1]) = (Ret tt, b') ∧
    scanCount b' = u32 (scanCount b + 1) ∧ scanBusy b' = mask ∧ scanQueued b' = false ∧
    scanOflow b' = u32 (scanOflow b + zlen [1; 1; 1]) ∧ data b' = data b ∧ count b' = count b.
Proof.
  intros b. apply (scan_requests_coalesce b [1; 1; 1] [(2, 1); (0, 4)]).
  - split; cbn; lia.
  - done.
  - done.
  - apply (bool_decide_unpack _). reflexivity.
  - apply (bool_decide_unpack _). reflexivity.
  - intros p Hp. cbn. rewrite !elem_of_cons, elem_of_nil.
    destruct (decide (p = 0)) as [->|]; [cbn; naive_solver|].
    destruct (decide (p = 1)) as [->|]; [cbn; naive_solver|].
    destruct (decide (p = 2)) as [->|]; [cbn; naive_solver|].
    rewrite (Z.bits_above_log2 5) by (cbn; lia). split; [done|lia].
Defined.
