(* ===== verification/Wire.v ===== *)
(** * The PSC message format

    Eight bytes of header ('P', 'S', 16-bit message id, 32-bit body length, both big
    endian) and the body.  [put_header] and [parse_header] are the header code that
    psc.cpp and pscudp.cpp repeat inline; [decode] is the specification of a receiver:
    what a byte stream means, independently of how it is cut into reads. *)

From Equations Require Import Equations.
From S2P Require Import Prelude.

Definition HEADER_SIZE : Z := 8.
Definition chP : byte := Byte.x50.
Definition chS : byte := Byte.x53.

(** 'P', 'S', then [htons(code)] stored at [hbuf+2] and [htonl(buflen)] at [hbuf+4]:
    network order on any host. *)
Definition put_header (code buflen : Z) : list byte :=
  chP :: chS :: be_bytes 2 code ++ be_bytes 4 buflen.

(** [hbuf[0]!='P' || hbuf[1]!='S'] *)
Definition bad_frame (hbuf : list byte) : bool :=
  negb (bool_decide (hbuf !! 0%nat = Some chP) && bool_decide (hbuf !! 1%nat = Some chS)).

(** [ntohs] of the 16 bits at [hbuf+2], [ntohl] of the 32 bits at [hbuf+4]. *)
Definition get_msgid (hbuf : list byte) : Z := be_val (zslice 2 2 hbuf).
Definition get_bodylen (hbuf : list byte) : Z := be_val (zslice 4 4 hbuf).

(** ** What a receiver sees *)

Inductive rx_event :=
  | RxHead (id len : Z)              (** a header was decoded *)
  | RxBody (id : Z) (body : list byte).  (** a non-empty body is complete *)

Record decoded := Decoded {
  dec_events : list rx_event;
  dec_pending : option (Z * Z);   (** header whose body is still incomplete *)
  dec_rest : list byte;
  dec_error : bool;               (** framing error: the stream is unusable *)
}.

Definition prepend (evs : list rx_event) (r : decoded) : decoded :=
  Decoded (evs ++ dec_events r) (dec_pending r) (dec_rest r) (dec_error r).

Definition decode_measure (h : option (Z * Z)) (l : list byte) : nat :=
  2 * length l + match h with Some _ => 1 | None => 0 end.

Equations? decode (h : option (Z * Z)) (l : list byte) : decoded by wf (decode_measure h l) lt :=
decode (Some (id, n)) l with (decide (zlen l < n)) => {
  | left _ => Decoded [] (Some (id, n)) l false;
  | right _ => prepend [RxBody id (ztake n l)] (decode None (zdrop n l)) };
decode None l with (decide (zlen l < HEADER_SIZE)) => {
  | left _ => Decoded [] None l false;
  | right Hlen with bad_frame (ztake HEADER_SIZE l) => {
    | true => Decoded [] None (zdrop HEADER_SIZE l) true;
    | false =>
        prepend [RxHead (get_msgid (ztake HEADER_SIZE l)) (get_bodylen (ztake HEADER_SIZE l))]
          (decode (if get_bodylen (ztake HEADER_SIZE l) =? 0 then None
                   else Some (get_msgid (ztake HEADER_SIZE l), get_bodylen (ztake HEADER_SIZE l)))
             (zdrop HEADER_SIZE l)) } }.
Proof.
  - unfold decode_measure, zdrop. rewrite length_drop. lia.
  - unfold decode_measure, zdrop, HEADER_SIZE, zlen in *. rewrite length_drop.
    case_match; lia.
Qed.

Example decode_two :
  decode None (put_header 42 2 ++ [Byte.x01; Byte.x02] ++ put_header 7 0 ++ [chP]) =
    Decoded [RxHead 42 2; RxBody 42 [Byte.x01; Byte.x02]; RxHead 7 0] None [chP] false.
Proof. vm_compute. reflexivity. Qed.

(** ** Headers *)

Lemma zlen_put_header c n : zlen (put_header c n) = HEADER_SIZE.
Proof. done. Qed.

Lemma ztake_put_header c n l : ztake HEADER_SIZE (put_header c n ++ l) = put_header c n.
Proof. rewrite <-(zlen_put_header c n). apply ztake_app_exact. Qed.

Lemma zdrop_put_header c n l : zdrop HEADER_SIZE (put_header c n ++ l) = l.
Proof. rewrite <-(zlen_put_header c n). apply zdrop_app_exact. Qed.

Lemma bad_frame_put_header c n : bad_frame (put_header c n) = false.
Proof. done. Qed.

Lemma get_msgid_put_header c n : get_msgid (put_header c n) = u16 c.
Proof.
  change (get_msgid (put_header c n)) with (be_val (be_bytes 2 c)).
  by rewrite be_val_be_bytes.
Qed.

Lemma get_bodylen_put_header c n : get_bodylen (put_header c n) = u32 n.
Proof.
  change (get_bodylen (put_header c n)) with (be_val (be_bytes 4 n)).
  by rewrite be_val_be_bytes.
Qed.

Lemma get_bodylen_range h : 0 ≤ get_bodylen h < 2 ^ 32.
Proof.
  unfold get_bodylen. pose proof (be_val_range (zslice 4 4 h)).
  assert (length (zslice 4 4 h) ≤ 4)%nat by (unfold zslice, ztake; rewrite length_take; lia).
  assert (256 ^ Z.of_nat (length (zslice 4 4 h)) ≤ 256 ^ 4) by (apply Z.pow_le_mono_r; lia).
  lia.
Qed.

Lemma get_msgid_range h : 0 ≤ get_msgid h < 2 ^ 16.
Proof.
  unfold get_msgid. pose proof (be_val_range (zslice 2 2 h)).
  assert (length (zslice 2 2 h) ≤ 2)%nat by (unfold zslice, ztake; rewrite length_take; lia).
  assert (256 ^ Z.of_nat (length (zslice 2 2 h)) ≤ 256 ^ 2) by (apply Z.pow_le_mono_r; lia).
  lia.
Qed.

(** A well framed header is the encoding of the fields read from it. *)
Lemma put_header_get h :
  zlen h = HEADER_SIZE → bad_frame h = false → put_header (get_msgid h) (get_bodylen h) = h.
Proof.
  intros Hl Hb. assert (Hn : length h = 8%nat) by (unfold zlen, HEADER_SIZE in Hl; lia).
  destruct h as [|p [|s [|m1 [|m0 [|l3 [|l2 [|l1 [|l0 [|]]]]]]]]]; try discriminate Hn.
  unfold bad_frame in Hb. apply negb_false_iff, andb_true_iff in Hb as [Hp Hs].
  apply bool_decide_eq_true in Hp, Hs. injection Hp as ->. injection Hs as ->.
  unfold put_header, get_msgid, get_bodylen.
  change (chP :: chS :: be_bytes (length [m1; m0]) (be_val [m1; m0]) ++
          be_bytes (length [l3; l2; l1; l0]) (be_val [l3; l2; l1; l0]) =
          [chP; chS; m1; m0; l3; l2; l1; l0]).
  by rewrite !be_bytes_be_val.
Qed.

(** ** Cutting a stream *)

Lemma prepend_nil r : prepend [] r = r.
Proof. by destruct r. Qed.

Lemma prepend_prepend a b r : prepend a (prepend b r) = prepend (a ++ b) r.
Proof. unfold prepend. cbn. by rewrite app_assoc. Qed.

(** What was decoded from a prefix, continued with the rest of the stream. *)
Definition continue_with (r : decoded) (l : list byte) : decoded :=
  if dec_error r then Decoded (dec_events r) (dec_pending r) (dec_rest r ++ l) true
  else prepend (dec_events r) (decode (dec_pending r) (dec_rest r ++ l)).

Lemma continue_with_prepend evs r l :
  continue_with (prepend evs r) l = prepend evs (continue_with r l).
Proof.
  unfold continue_with. cbn. destruct (dec_error r); [done|].
  by rewrite prepend_prepend.
Qed.

Lemma decode_short h l :
  zlen l < match h with Some (_, n) => n | None => HEADER_SIZE end →
  decode h l = Decoded [] h l false.
Proof.
  intros Hl. destruct h as [[id n]|].
  - rewrite decode_equation_1. by destruct (decide _).
  - rewrite decode_equation_2. by destruct (decide _).
Qed.

Lemma decode_body_eq id n l :
  n ≤ zlen l →
  decode (Some (id, n)) l = prepend [RxBody id (ztake n l)] (decode None (zdrop n l)).
Proof. intros. rewrite decode_equation_1. destruct (decide _); [lia|done]. Qed.

Lemma decode_head_eq l :
  HEADER_SIZE ≤ zlen l →
  decode None l =
    if bad_frame (ztake HEADER_SIZE l) then Decoded [] None (zdrop HEADER_SIZE l) true
    else prepend [RxHead (get_msgid (ztake HEADER_SIZE l)) (get_bodylen (ztake HEADER_SIZE l))]
          (decode (if get_bodylen (ztake HEADER_SIZE l) =? 0 then None
                   else Some (get_msgid (ztake HEADER_SIZE l), get_bodylen (ztake HEADER_SIZE l)))
             (zdrop HEADER_SIZE l)).
Proof.
  intros. rewrite decode_equation_2. destruct (decide _); [lia|]. cbn. by case_match.
Qed.

Lemma decode_app h a b : decode h (a ++ b) = continue_with (decode h a) b.
Proof.
  funelim (decode h a); clear Heqcall.
  - (* short body *) unfold continue_with. cbn. by rewrite prepend_nil.
  - (* body *)
    rewrite decode_body_eq by (rewrite zlen_app; pose proof (zlen_nonneg b); lia).
    rewrite ztake_app_l, zdrop_app_l by lia.
    rewrite continue_with_prepend. by rewrite H.
  - (* short header *) unfold continue_with. cbn. by rewrite prepend_nil.
  - (* framing error *)
    rewrite (decode_head_eq (l ++ b)) by (rewrite zlen_app; pose proof (zlen_nonneg b); lia).
    rewrite ztake_app_l, Heq, zdrop_app_l by lia. done.
  - (* header *)
    rewrite (decode_head_eq (l ++ b)) by (rewrite zlen_app; pose proof (zlen_nonneg b); lia).
    rewrite ztake_app_l, Heq, zdrop_app_l by lia.
    rewrite continue_with_prepend. by rewrite H.
Qed.

(** When decoding stops without an error, too few bytes are left for the next stage. *)
Lemma decode_rest_short h l :
  dec_error (decode h l) = false →
  zlen (dec_rest (decode h l)) <
    match dec_pending (decode h l) with Some (_, n) => n | None => HEADER_SIZE end.
Proof. funelim (decode h l); clear Heqcall; cbn; done. Qed.

(** ** Messages *)

Definition psc_msg : Type := Z * list byte.

Definition valid_msg (m : psc_msg) : Prop := 0 ≤ m.1 < 2 ^ 16 ∧ zlen m.2 < 2 ^ 32.

Definition encode_msg (m : psc_msg) : list byte := put_header m.1 (zlen m.2) ++ m.2.
Definition encode_msgs (ms : list psc_msg) : list byte := concat (encode_msg <$> ms).

Definition msg_events (m : psc_msg) : list rx_event :=
  RxHead m.1 (zlen m.2) :: (if zlen m.2 =? 0 then [] else [RxBody m.1 m.2]).
Definition msgs_events (ms : list psc_msg) : list rx_event := concat (msg_events <$> ms).

Lemma decode_msg m l :
  valid_msg m → decode None (encode_msg m ++ l) = prepend (msg_events m) (decode None l).
Proof.
  destruct m as [c body]. intros [Hc Hn]. cbn [fst snd] in *.
  unfold encode_msg, msg_events. cbn [fst snd]. rewrite <-app_assoc.
  pose proof (zlen_nonneg body).
  rewrite decode_head_eq.
  2:{ rewrite zlen_app, zlen_put_header, zlen_app. pose proof (zlen_nonneg l). lia. }
  rewrite ztake_put_header, zdrop_put_header, bad_frame_put_header.
  rewrite get_msgid_put_header, get_bodylen_put_header, !wrapU_small by lia.
  case_if; bool_to_prop.
  - rewrite (zlen_0_nil body) by done. done.
  - rewrite decode_body_eq by (rewrite zlen_app; pose proof (zlen_nonneg l); lia).
    rewrite ztake_app_exact, zdrop_app_exact, prepend_prepend. done.
Qed.

Lemma decode_msgs ms l :
  Forall valid_msg ms →
  decode None (encode_msgs ms ++ l) = prepend (msgs_events ms) (decode None l).
Proof.
  induction 1 as [|m ms Hm _ IH]; [by rewrite prepend_nil|].
  unfold encode_msgs, msgs_events in *. cbn [fmap list_fmap concat].
  rewrite <-app_assoc, decode_msg, IH, prepend_prepend by done. done.
Qed.

Lemma encode_msgs_app a b : encode_msgs (a ++ b) = encode_msgs a ++ encode_msgs b.
Proof. unfold encode_msgs. by rewrite fmap_app, concat_app. Qed.

Lemma encode_msgs_snoc a m : encode_msgs (a ++ [m]) = encode_msgs a ++ encode_msg m.
Proof. rewrite encode_msgs_app. unfold encode_msgs. cbn. by rewrite app_nil_r. Qed.
