(* ===== verification/PscBase.v ===== *)
(** * The driver base class

    Class [PSCBase] (coreApp/src/psc/device.h, pscbase.cpp): the blocks of a device by
    message id, connection status and counters, shared by the TCP and UDP drivers.
    [PSCVirtual] is the interface of its virtual functions: device support
    ([DevCtrl], ...) is written against it, and the drivers discharge it. *)

From S2P Require Import Prelude EvBuffer Dbuffer Block Wire.

(** ** The environment *)

(** What the driver asks of EPICS base: the time, and scans of records.  Answers are
    numbered by the query, so they can be anything. *)
Class EpicsEnv := {
  (** [epicsTime::getCurrent()], [None] when it throws *)
  getCurrent : nat → option epicsTime;
  (** [scanIoRequest(blk->scan)]: the priorities for which a scan was queued *)
  scanIoRequest_mask : nat → Z;
  (** the outcome of a listener, which reads the block it is called with *)
  run_listener : fnptr → userptr → Block (list byte) → outcome unit;
}.

(** An environment to evaluate in: a clock, no records to scan, listeners that return. *)
Definition quiet_env : EpicsEnv := {|
  getCurrent n := Some (EpicsTime (Z.of_nat n) 0);
  scanIoRequest_mask _ := 0;
  run_listener _ _ _ := Ret tt;
|}.

(** What a driver does to the world besides changing its own state. *)
Inductive effect :=
  | EScanStatus                   (** [scanIoRequest(scan)] *)
  | EScanOnConnect                (** [scanIoRequest(onConnect)] *)
  | EScanBlock (code : Z)         (** [scanIoRequest(blk->scan)] *)
  | EListener (fn : fnptr) (user : userptr) (blk : Block (list byte))
  | EDbProcess (prec : Z)         (** [dbProcess(prec)] of a record *)
  | ETimerAdd (sec : Z)           (** [evtimer_add(reconnect_timer, ...)] *)
  | ETimerDel                     (** [evtimer_del(reconnect_timer)] *)
  | EFreeSession                  (** [bufferevent_free(session)], closes the socket *)
  | EEventAddRx                   (** [event_add(evt_rx, ...)] *)
  | EEventAddTx                   (** [event_add(evt_tx, ...)] *)
  | ESendTo (pkt : list byte).    (** [sendto(...)] of a datagram *)

(** Statuses and severity of EPICS alarm.h. *)
Definition READ_ALARM : Z := 1.
Definition WRITE_ALARM : Z := 2.
Definition COMM_ALARM : Z := 9.
Definition SOFT_ALARM : Z := 15.
Definition UDF_ALARM : Z := 17.
Definition INVALID_ALARM : Z := 3.

(** [recAlarm::recAlarm()] *)
Definition recAlarm : exn := RecAlarm COMM_ALARM INVALID_ALARM.

(** ** State *)

(** Fields of [PSCBase].  A [Block*] is the key of the map that owns the block.
    [ticks] counts the queries to [EpicsEnv]; [log] lists the effects so far. *)
Record PSCBase (B : Type) := MkPSCBase {
  name : string;
  host : string;
  port : Z;
  connected : bool;
  ukncount : Z;
  conncount : Z;
  send_blocks : gmap Z (Block (dbuffer B));
  recv_blocks : gmap Z (Block (dbuffer B));
  message : string;
  procOnConnect : list Z;
  ticks : nat;
  log : list effect;
}.
Arguments MkPSCBase {B}.
Arguments name {B} _.
Arguments host {B} _.
Arguments port {B} _.
Arguments connected {B} _.
Arguments ukncount {B} _.
Arguments conncount {B} _.
Arguments send_blocks {B} _.
Arguments recv_blocks {B} _.
Arguments message {B} _.
Arguments procOnConnect {B} _.
Arguments ticks {B} _.
Arguments log {B} _.

Section setters.
Context {B : Type}.

Definition set_connected (v : bool) (s : PSCBase B) : PSCBase B :=
  MkPSCBase (name s) (host s) (port s) v (ukncount s) (conncount s) (send_blocks s)
    (recv_blocks s) (message s) (procOnConnect s) (ticks s) (log s).
Definition set_ukncount (v : Z) (s : PSCBase B) : PSCBase B :=
  MkPSCBase (name s) (host s) (port s) (connected s) v (conncount s) (send_blocks s)
    (recv_blocks s) (message s) (procOnConnect s) (ticks s) (log s).
Definition set_conncount (v : Z) (s : PSCBase B) : PSCBase B :=
  MkPSCBase (name s) (host s) (port s) (connected s) (ukncount s) v (send_blocks s)
    (recv_blocks s) (message s) (procOnConnect s) (ticks s) (log s).
Definition set_send_blocks (v : gmap Z (Block (dbuffer B))) (s : PSCBase B) : PSCBase B :=
  MkPSCBase (name s) (host s) (port s) (connected s) (ukncount s) (conncount s) v
    (recv_blocks s) (message s) (procOnConnect s) (ticks s) (log s).
Definition set_recv_blocks (v : gmap Z (Block (dbuffer B))) (s : PSCBase B) : PSCBase B :=
  MkPSCBase (name s) (host s) (port s) (connected s) (ukncount s) (conncount s)
    (send_blocks s) v (message s) (procOnConnect s) (ticks s) (log s).
Definition set_message (v : string) (s : PSCBase B) : PSCBase B :=
  MkPSCBase (name s) (host s) (port s) (connected s) (ukncount s) (conncount s)
    (send_blocks s) (recv_blocks s) v (procOnConnect s) (ticks s) (log s).
Definition set_procOnConnect (v : list Z) (s : PSCBase B) : PSCBase B :=
  MkPSCBase (name s) (host s) (port s) (connected s) (ukncount s) (conncount s)
    (send_blocks s) (recv_blocks s) (message s) v (ticks s) (log s).
Definition set_ticks (v : nat) (s : PSCBase B) : PSCBase B :=
  MkPSCBase (name s) (host s) (port s) (connected s) (ukncount s) (conncount s)
    (send_blocks s) (recv_blocks s) (message s) (procOnConnect s) v (log s).
Definition set_log (v : list effect) (s : PSCBase B) : PSCBase B :=
  MkPSCBase (name s) (host s) (port s) (connected s) (ukncount s) (conncount s)
    (send_blocks s) (recv_blocks s) (message s) (procOnConnect s) (ticks s) v.
End setters.

(** ** Operations *)

Section pscbase.
Context {B : Type} `{EvBuffer B} `{EpicsEnv}.
Implicit Types s : PSCBase B.

(** [PSCBase::PSCBase(name, host, port)] *)
Definition new_PSCBase (name host : string) (port : Z) : PSCBase B :=
  MkPSCBase name host (u16 port) false 0 0 ∅ ∅ "Initialize" [] 0%nat [].

Definition emit (e : effect) : M (PSCBase B) unit := modify (λ s, set_log (log s ++ [e]) s).

(** The number of the next query to the environment. *)
Definition tick : M (PSCBase B) nat := λ s, (Ret (ticks s), set_ticks (S (ticks s)) s).

(** [PSCBase::getSend], [PSCBase::getRecv]: find the block or create it. *)
Definition getSend (block : Z) : M (PSCBase B) Z := λ s,
  match send_blocks s !! block with
  | Some _ => (Ret block, s)
  | None => (Ret block, set_send_blocks (<[block := new_Block block]> (send_blocks s)) s)
  end.

Definition getRecv (block : Z) : M (PSCBase B) Z := λ s,
  match recv_blocks s !! block with
  | Some _ => (Ret block, s)
  | None => (Ret block, set_recv_blocks (<[block := new_Block block]> (recv_blocks s)) s)
  end.

(** Access through a [Block*]; a dangling pointer is a crash. *)
Definition send_block (k : Z) : M (PSCBase B) (Block (dbuffer B)) := λ s,
  match send_blocks s !! k with Some b => (Ret b, s) | None => (Crash NullDeref, s) end.

Definition recv_block (k : Z) : M (PSCBase B) (Block (dbuffer B)) := λ s,
  match recv_blocks s !! k with Some b => (Ret b, s) | None => (Crash NullDeref, s) end.

Definition upd_send (k : Z) (f : Block (dbuffer B) → Block (dbuffer B)) : M (PSCBase B) unit :=
  modify (λ s, set_send_blocks (alter f k (send_blocks s)) s).

Definition upd_recv (k : Z) (f : Block (dbuffer B) → Block (dbuffer B)) : M (PSCBase B) unit :=
  modify (λ s, set_recv_blocks (alter f k (recv_blocks s)) s).

(** [blk->requestScan()] of a received block: [scanIoRequest] is called unless a scan
    is in progress. *)
Definition requestScan_recv (k : Z) : M (PSCBase B) unit :=
  b <- recv_block k ;;
  if negb (scanBusy b =? 0) then upd_recv k (requestScan 0)
  else
    n <- tick ;;
    emit (EScanBlock (code b)) ;;;
    upd_recv k (requestScan (scanIoRequest_mask n)).

(** [blk->rxtime = epicsTime::getCurrent()], the zero time when that throws. *)
Definition stamp_rxtime (k : Z) : M (PSCBase B) unit :=
  n <- tick ;;
  upd_recv k (set_rxtime (match getCurrent n with
                          | Some t => t
                          | None => EpicsTime 0 0
                          end)).

(** [blk->listeners(blk)]: [CBList::operator()] over the registered callbacks. *)
Definition call_listener (fn : fnptr) (user : userptr) (blk : Block (list byte))
    : M (PSCBase B) unit :=
  emit (EListener fn user blk) ;;; (λ s, (run_listener fn user blk, s)).

Definition call_listeners (k : Z) : M (PSCBase B) unit :=
  b <- recv_block k ;;
  CBList.call call_listener (listeners b) (map_data contents b).

End pscbase.

(** ** Interface of the drivers *)

(** The virtual functions of [PSCBase]; [P] is the derived class. *)
Class PSCVirtual (B P : Type) := {
  psc_base : P → PSCBase B;
  put_base : PSCBase B → P → P;
  queueSend_id : Z → list byte → M P unit;       (** [queueSend(epicsUInt16, buf, len)] *)
  queueSend_dbuffer : Z → dbuffer B → M P unit;  (** [queueSend(Block*, const dbuffer&)] *)
  queueSend_buf : Z → list byte → M P unit;      (** [queueSend(Block*, buf, len)] *)
  psc_flushSend : M P unit;
  psc_forceReConnect : M P unit;
}.

(** Base state is a component of the derived class. *)
Class PSCVirtualLaws (B P : Type) `{!PSCVirtual B P} : Prop := {
  psc_base_put (b : PSCBase B) (p : P) : psc_base (put_base b p) = b;
  put_psc_base (p : P) : put_base (psc_base (B:=B) p) p = p;
  put_base_put (a b : PSCBase B) (p : P) : put_base a (put_base b p) = put_base a p;
}.

Section virtual.
Context {B P : Type} `{EvBuffer B} `{!PSCVirtual B P}.

Definition on_base {A} (m : M (PSCBase B) A) : M P A := zoom psc_base put_base m.

(** [PSCBase::send(bid)]: enqueue the block as it is stored. *)
Definition PSCBase_send (bid : Z) : M P unit :=
  s <- get ;;
  match send_blocks (psc_base s) !! bid with
  | None => ret tt
  | Some block => queueSend_dbuffer bid (data block)
  end.

(** [setPSCSendBlockSize(name, bid, size)] once the PSC is found: [getSend] takes the
    id as [epicsUInt16], [resize] the size as [size_t].  The exception is reported. *)
Definition setPSCSendBlockSize (bid size : Z) : M P unit :=
  catch
    (k <- on_base (getSend (u16 bid)) ;;
     b <- on_base (send_block k) ;;
     (λ s, let '(o, d) := dbuffer_resize (u64 size) (data b) in
           (o, put_base (set_send_blocks (<[k := set_data d b]> (send_blocks (psc_base s)))
                           (psc_base s)) s)))
    (λ _, ret tt).

End virtual.

(** ** What receiving means *)

(** The receive side of a driver as its users see it: block bodies as bytes, the
    unknown message count, the number of environment queries and the effects so far. *)
Record rx_view := RxView {
  rv_blocks : gmap Z (Block (list byte));
  rv_unk : Z;
  rv_ticks : nat;
  rv_log : list effect;
}.

Section rx_spec.
Context `{EpicsEnv}.

(** A header of a known block counts and stamps it; of an unknown one, is counted. *)
Definition spec_head (id : Z) (v : rx_view) : rx_view :=
  match rv_blocks v !! id with
  | Some b =>
      let t := default (EpicsTime 0 0) (getCurrent (rv_ticks v)) in
      RxView (<[id := incr_count (set_rxtime t b)]> (rv_blocks v)) (rv_unk v)
        (S (rv_ticks v)) (rv_log v)
  | None => RxView (rv_blocks v) (u32 (rv_unk v + 1)) (rv_ticks v) (rv_log v)
  end.

(** The effects of a new body: a scan, unless one is in progress, and every listener, in
    registration order, with the new contents. *)
Definition spec_body (id : Z) (body : list byte) (v : rx_view) : rx_view :=
  match rv_blocks v !! id with
  | Some b =>
      let idle := scanBusy b =? 0 in
      let b' := requestScan (scanIoRequest_mask (rv_ticks v)) (set_data body b) in
      RxView (<[id := b']> (rv_blocks v)) (rv_unk v)
        (if idle then S (rv_ticks v) else rv_ticks v)
        (rv_log v ++ (if idle then [EScanBlock (code b)] else [])
           ++ ((λ l, EListener l.2 l.1 b') <$> listeners b))
  | None => v
  end.

Definition spec_event (v : rx_view) (ev : rx_event) : rx_view :=
  match ev with
  | RxHead id _ => spec_head id v
  | RxBody id body => spec_body id body v
  end.

Definition spec_events (v : rx_view) (evs : list rx_event) : rx_view := foldl spec_event v evs.

Lemma spec_events_app v a b : spec_events v (a ++ b) = spec_events (spec_events v a) b.
Proof. apply foldl_app. Qed.

End rx_spec.

Section base_lemmas.
Context {B : Type} `{EvBuffer B} `{EpicsEnv}.
Implicit Types s : PSCBase B.

Definition view s : rx_view :=
  RxView (map_data contents <$> recv_blocks s) (ukncount s) (ticks s) (log s).

(** Listeners may throw; none of them ends the process. *)
Definition listeners_safe : Prop := ∀ fn user blk c, run_listener fn user blk ≠ Crash c.

Lemma call_listeners_log (l : list (userptr * fnptr)) blk s :
  listeners_safe →
  CBList.call call_listener l blk s =
    (Ret tt, set_log (log s ++ ((λ p, EListener p.2 p.1 blk) <$> l)) s).
Proof.
  intros Hsafe. revert s. induction l as [|[u f] l IH]; intros s; cbn [CBList.call fmap list_fmap].
  - rewrite app_nil_r. by destruct s.
  - unfold bind at 1. unfold catch, call_listener, bind, emit, modify.
    pose proof (Hsafe f u blk) as Hs.
    destruct (run_listener f u blk) as [[]|e|c]; [..|by destruct (Hs c)].
    all: cbn; rewrite IH; cbn; rewrite <-app_assoc; done.
Qed.

Lemma call_listeners_spec k b s :
  listeners_safe → recv_blocks s !! k = Some b →
  call_listeners k s =
    (Ret tt, set_log (log s ++ ((λ p, EListener p.2 p.1 (map_data contents b)) <$> listeners b)) s).
Proof.
  intros Hsafe Hk. unfold call_listeners, bind, recv_block. rewrite Hk.
  by apply call_listeners_log.
Qed.

Lemma requestScan_recv_spec k b s :
  recv_blocks s !! k = Some b →
  requestScan_recv k s =
    (Ret tt,
     let idle := scanBusy b =? 0 in
     set_recv_blocks (<[k := requestScan (scanIoRequest_mask (ticks s)) b]> (recv_blocks s))
       (set_log (log s ++ (if idle then [EScanBlock (code b)] else []))
          (set_ticks (if idle then S (ticks s) else ticks s) s))).
Proof.
  intros Hk. unfold requestScan_recv, bind, recv_block, tick, emit, upd_recv, modify.
  rewrite Hk. cbn. destruct (scanBusy b =? 0) eqn:E; cbn.
  - by rewrite (alter_alt_Some _ _ _ b).
  - rewrite (alter_alt_Some _ _ _ b), app_nil_r by done.
    replace (requestScan 0 b) with (requestScan (scanIoRequest_mask (ticks s)) b); [by destruct s|].
    unfold requestScan. by rewrite E.
Qed.
(** The fields receiving a message does not touch. *)
Definition rest s :=
  (name s, host s, port s, connected s, conncount s, send_blocks s, message s, procOnConnect s).

Lemma head_known_spec k b s :
  recv_blocks s !! k = Some b →
  ∃ s', (stamp_rxtime k ;;; upd_recv k incr_count) s = (Ret tt, s') ∧
    view s' = spec_head k (view s) ∧ rest s' = rest s.
Proof.
  intros Hk. unfold stamp_rxtime, bind, tick, upd_recv, modify. cbn.
  rewrite (alter_alt_Some _ _ _ b Hk).
  erewrite (alter_alt_Some _ _ k) by apply lookup_insert_eq.
  rewrite insert_insert_eq. eexists. split; [done|]. split; [|done].
  unfold view, spec_head. cbn. rewrite lookup_fmap, Hk, fmap_insert. done.
Qed.

Lemma head_unknown_spec k s :
  recv_blocks s !! k = None →
  view (set_ukncount (u32 (ukncount s + 1)) s) = spec_head k (view s).
Proof. intros Hk. unfold view, spec_head. cbn. by rewrite lookup_fmap, Hk. Qed.

(** What follows storing a new body: the scan request and the listeners. *)
Lemma deliver_spec k b d s :
  listeners_safe → recv_blocks s !! k = Some b →
  ∃ s', (requestScan_recv k ;;; call_listeners k)
          (set_recv_blocks (<[k := set_data d b]> (recv_blocks s)) s) = (Ret tt, s') ∧
    view s' = spec_body k (contents d) (view s) ∧ rest s' = rest s.
Proof.
  intros Hsafe Hk. unfold bind at 1.
  erewrite requestScan_recv_spec by apply lookup_insert_eq.
  cbn zeta iota.
  rewrite (call_listeners_spec k (requestScan (scanIoRequest_mask (ticks s)) (set_data d b)))
    by (done || apply lookup_insert_eq).
  eexists. split; [done|]. split; [|done].
  unfold view, spec_body. cbn. rewrite insert_insert_eq, !lookup_fmap, Hk, !fmap_insert.
  cbn. unfold requestScan. cbn. by destruct (scanBusy b =? 0); cbn; rewrite <-?app_assoc.
Qed.

Lemma spec_event_dom v ev : dom (rv_blocks (spec_event v ev)) = dom (rv_blocks v).
Proof.
  destruct ev; cbn; unfold spec_head, spec_body;
    destruct (rv_blocks v !! id) eqn:E; cbn; try done;
    rewrite dom_insert_L; apply elem_of_dom_2 in E; set_solver.
Qed.

Lemma view_dom s : dom (rv_blocks (view s)) = dom (recv_blocks s).
Proof. cbn. by rewrite dom_fmap_L. Qed.

Lemma view_known s s' evs k :
  view s' = spec_events (view s) evs → is_Some (recv_blocks s' !! k) ↔ is_Some (recv_blocks s !! k).
Proof.
  intros Hv. rewrite <-!elem_of_dom, <-!view_dom, Hv. clear Hv.
  induction evs as [|ev evs IH] using rev_ind; [done|].
  rewrite spec_events_app. cbn. by rewrite spec_event_dom.
Qed.
End base_lemmas.

Lemma quiet_listeners_safe : @listeners_safe quiet_env.
Proof. done. Qed.

(** ** Delivery of whole messages *)

Section delivery.
Context `{EpicsEnv}.
Implicit Types (v : rx_view) (ms : list psc_msg).

Definition count_for (k : Z) ms : Z := zlen (filter (λ m, m.1 = k) ms).

(** The body a block holds after [ms]: that of the last message with one. *)
Definition last_body (k : Z) ms (d : list byte) : list byte :=
  foldl (λ d m, if (m.1 =? k) && negb (zlen m.2 =? 0) then m.2 else d) d ms.

Definition unknown_in v ms : Z :=
  zlen (filter (λ m, rv_blocks v !! m.1 = None) ms).

(** The calls of listeners in a log: function, user pointer, message id, body. *)
Definition calls (l : list effect) : list (fnptr * userptr * Z * list byte) :=
  omap (λ e, match e with EListener f u b => Some (f, u, code b, data b) | _ => None end) l.

(** The calls [ms] leads to: every listener of the block, once per message with a body. *)
Definition msg_calls v (m : psc_msg) : list (fnptr * userptr * Z * list byte) :=
  match rv_blocks v !! m.1 with
  | Some b => if zlen m.2 =? 0 then [] else (λ l, (l.2, l.1, code b, m.2)) <$> listeners b
  | None => []
  end.

(** What a message does to every block, seen from outside. *)
Record msgs_done v ms v' : Prop := {
  done_blocks k b : rv_blocks v !! k = Some b →
    ∃ b', rv_blocks v' !! k = Some b' ∧ count b' = u32 (count b + count_for k ms) ∧
      data b' = last_body k ms (data b) ∧ code b' = code b ∧ listeners b' = listeners b;
  done_none k : rv_blocks v !! k = None → rv_blocks v' !! k = None;
  done_unknown : rv_unk v' = u32 (rv_unk v + unknown_in v ms);
  done_calls : calls (rv_log v') = calls (rv_log v) ++ (ms ≫= msg_calls v);
}.

Definition counts_u32 v : Prop :=
  u32 (rv_unk v) = rv_unk v ∧ map_Forall (λ _ b, u32 (count b) = count b) (rv_blocks v).

Lemma calls_app a b : calls (a ++ b) = calls a ++ calls b.
Proof. apply omap_app. Qed.

Lemma calls_listeners (ls : list (userptr * fnptr)) b :
  calls ((λ l, EListener l.2 l.1 b) <$> ls) = (λ l, (l.2, l.1, code b, data b)) <$> ls.
Proof. induction ls as [|l ls IH]; [done|]. cbn. by rewrite <-IH. Qed.

(** A message with a known id changes its block and nothing else. *)
Lemma msg_known v id body b0 :
  rv_blocks v !! id = Some b0 →
  ∃ b' n l, spec_events v (msg_events (id, body)) =
      RxView (<[id := b']> (rv_blocks v)) (rv_unk v) n (rv_log v ++ l) ∧
    count b' = u32 (count b0 + 1) ∧ code b' = code b0 ∧ listeners b' = listeners b0 ∧
    data b' = (if zlen body =? 0 then data b0 else body) ∧
    calls l = msg_calls v (id, body).
Proof.
  intros Eb. unfold msg_events, msg_calls. cbn [fst snd]. rewrite Eb.
  destruct (zlen body =? 0) eqn:E0; cbn; unfold spec_head, spec_body; rewrite Eb; cbn.
  - eexists _, _, []. rewrite app_nil_r. split; [done|]. done.
  - rewrite lookup_insert_eq, insert_insert_eq. cbn [count code data listeners].
    match goal with |- context [requestScan ?m ?b] =>
      destruct (requestScan_fields m b) as (Hc & Hd & Hl & Hn & _)
    end.
    eexists _, _, _. split; [done|]. rewrite Hc, Hd, Hl, Hn, calls_app, calls_listeners, Hc, Hd.
    split_and!; try done. by destruct (scanBusy _ =? 0).
Qed.

Lemma count_for_cons k m ms : count_for k (m :: ms) = (if m.1 =? k then 1 else 0) + count_for k ms.
Proof.
  unfold count_for. rewrite filter_cons.
  destruct (Z.eqb_spec m.1 k), (decide (m.1 = k)); try done. apply zlen_cons.
Qed.

Lemma msgs_done_nil v : counts_u32 v → msgs_done v [] v.
Proof.
  intros [Hu Hc]. split.
  - intros k b Hk. exists b. split_and!; try done.
    unfold count_for. cbn. rewrite Z.add_0_r. symmetry. by apply (Hc k b).
  - done.
  - unfold unknown_in. cbn. by rewrite Z.add_0_r.
  - cbn. by rewrite app_nil_r.
Qed.

(** A first message, of a known and of an unknown block, before the others. *)
Lemma msg_done_known v id body b0 b1 n l ms v' :
  rv_blocks v !! id = Some b0 →
  count b1 = u32 (count b0 + 1) → code b1 = code b0 → listeners b1 = listeners b0 →
  data b1 = (if zlen body =? 0 then data b0 else body) → calls l = msg_calls v (id, body) →
  msgs_done (RxView (<[id := b1]> (rv_blocks v)) (rv_unk v) n (rv_log v ++ l)) ms v' →
  msgs_done v ((id, body) :: ms) v'.
Proof.
  intros Eb Hcnt Hcode Hlst Hdata Hcalls [Db Dn Du Dc]. cbn [rv_blocks rv_unk rv_log] in *.
  assert (Hsame : ∀ k, rv_blocks v !! k = None ↔ <[id:=b1]> (rv_blocks v) !! k = None).
  { intros k. rewrite lookup_insert_None. split; [intros ?; split; [done|congruence]|tauto]. }
  split.
  - intros k b Hk. rewrite count_for_cons. cbn.
    destruct (Z.eqb_spec id k) as [->|Hne].
    + simplify_eq. destruct (Db k b1) as (b2 & ? & Hc2 & Hd2 & ? & ?); [apply lookup_insert_eq|].
      exists b2. rewrite Hc2, Hcnt, wrapU_add_l, Hd2, Hdata by lia.
      split_and!; try congruence; [f_equal; lia|].
      by destruct (zlen body =? 0).
    + destruct (Db k b) as (b2 & ? & Hc2 & Hd2 & ? & ?); [by rewrite lookup_insert_ne|].
      exists b2. by rewrite Hc2.
  - intros k Hk. by apply Dn, Hsame.
  - rewrite Du. do 2 f_equal. unfold unknown_in. rewrite filter_cons. cbn.
    rewrite decide_False by congruence. do 2 f_equal. cbn. apply list_filter_iff. intros. cbn. by rewrite Hsame.
  - rewrite Dc, calls_app, Hcalls, <-app_assoc, bind_cons.
    apply (f_equal (λ x, calls (rv_log v) ++ msg_calls v (id, body) ++ x)).
    apply list_bind_ext; [|done]. intros m. unfold msg_calls. cbn.
    destruct (decide (m.1 = id)) as [->|]; [|by rewrite lookup_insert_ne].
    rewrite lookup_insert_eq, Eb, Hcode, Hlst. done.
Qed.

Lemma msg_done_unknown v id body ms v' :
  rv_blocks v !! id = None →
  msgs_done (RxView (rv_blocks v) (u32 (rv_unk v + 1)) (rv_ticks v) (rv_log v)) ms v' →
  msgs_done v ((id, body) :: ms) v'.
Proof.
  intros Eb [Db Dn Du Dc]. cbn in *. split.
  - intros k b Hk. destruct (Db k b Hk) as (b2 & ? & Hc2 & Hd2 & ? & ?).
    assert (Hne : (id =? k) = false) by (apply Z.eqb_neq; congruence).
    exists b2. rewrite count_for_cons. cbn. rewrite Hne. done.
  - done.
  - rewrite Du, wrapU_add_l by lia. f_equal. unfold unknown_in. rewrite filter_cons. cbn.
    rewrite decide_True by done. rewrite zlen_cons, Z.add_assoc. done.
  - rewrite Dc, bind_cons. unfold msg_calls at 2. cbn. by rewrite Eb.
Qed.

Lemma msg_unknown v id body :
  rv_blocks v !! id = None →
  spec_events v (msg_events (id, body)) =
    RxView (rv_blocks v) (u32 (rv_unk v + 1)) (rv_ticks v) (rv_log v).
Proof.
  intros Eb. unfold msg_events. cbn [fst snd]. destruct (zlen body =? 0); cbn;
    unfold spec_head, spec_body; rewrite Eb; [done|]. cbn. by rewrite Eb.
Qed.

Lemma msg_done v m ms v' :
  let v1 := spec_events v (msg_events m) in
  msgs_done v1 ms v' → msgs_done v (m :: ms) v'.
Proof.
  cbv zeta. destruct m as [id body]. destruct (rv_blocks v !! id) as [b0|] eqn:Eb.
  - destruct (msg_known v id body b0 Eb) as (b1 & n & l & -> & Hcnt & Hcode & Hlst & Hdata & Hcalls).
    by apply (msg_done_known v id body b0 b1 n l).
  - rewrite (msg_unknown v id body Eb). by apply msg_done_unknown.
Qed.

(** Delivering a list of messages. *)
Lemma spec_msgs v ms : counts_u32 v → msgs_done v ms (spec_events v (msgs_events ms)).
Proof.
  revert v. induction ms as [|m ms IH]; intros v Hv; [by apply msgs_done_nil|].
  unfold msgs_events in *. cbn [fmap list_fmap concat]. rewrite spec_events_app.
  apply msg_done, IH. destruct Hv as [Hu Hc]. destruct m as [id body].
  destruct (rv_blocks v !! id) as [b0|] eqn:Eb.
  - destruct (msg_known v id body b0 Eb) as (b1 & n & l & -> & Hcnt & _).
    split; [done|]. apply map_Forall_insert_2; [|done]. cbn. by rewrite Hcnt, wrapU_wrapU.
  - rewrite (msg_unknown v id body Eb). split; [|done]. cbn. by rewrite wrapU_wrapU.
Qed.

End delivery.
