(* ===== verification/PscTcp.v ===== *)
(** * The TCP driver

    Class [PSC] (coreApp/src/psc.cpp, the libevent callbacks of pscwrap.cpp, and
    [PSCEventBase::stop] of pscbase.cpp): the connection state machine, the receive
    decoder and the send queue.  The state is explicit; a call is a computation that
    returns, throws, or dies on a failed assertion. *)

From S2P Require Import Prelude EvBuffer Dbuffer Block Wire PscBase.

(** ** State *)

(** The parts of a [bufferevent] the driver uses. *)
Record bev (B : Type) := Bev {
  input : B;
  output : B;
  rd_low : Z;                          (** read watermarks *)
  rd_high : Z;
  enabled : bool;                      (** reading is enabled *)
  timeouts : option Z * option Z;      (** read and write timeout, seconds *)
}.
Arguments Bev {B}.
Arguments input {B} _.
Arguments output {B} _.
Arguments rd_low {B} _.
Arguments rd_high {B} _.
Arguments enabled {B} _.
Arguments timeouts {B} _.

(** Fields of [PSC] and [PSCEventBase]; [bodyblock] is the key of a received block. *)
Record PSC (B : Type) := MkPSC {
  base : PSCBase B;
  mask : Z;
  session : option (bev B);
  timer_active : bool;
  have_head : bool;
  header : Z;
  bodylen : Z;
  bodyblock : option Z;
  expect : Z;
  sendbuf : B;
}.
Arguments MkPSC {B}.
Arguments base {B} _.
Arguments mask {B} _.
Arguments session {B} _.
Arguments timer_active {B} _.
Arguments have_head {B} _.
Arguments header {B} _.
Arguments bodylen {B} _.
Arguments bodyblock {B} _.
Arguments expect {B} _.
Arguments sendbuf {B} _.

(** Results of the libevent calls a new connection makes: [bufferevent_socket_new] (the
    two buffers of the session), [bufferevent_set_timeouts] and
    [bufferevent_socket_connect_hostname]. *)
Record Net (B : Type) := MkNet {
  net_socket_new : option (B * B);
  net_set_timeouts : Z;
  net_connect : Z;
}.
Arguments MkNet {B}.
Arguments net_socket_new {B} _.
Arguments net_set_timeouts {B} _.
Arguments net_connect {B} _.

(** [BEV_EVENT_*] of event2/bufferevent.h *)
Definition BEV_EVENT_READING : Z := 0x01.
Definition BEV_EVENT_WRITING : Z := 0x02.
Definition BEV_EVENT_EOF : Z := 0x10.
Definition BEV_EVENT_ERROR : Z := 0x20.
Definition BEV_EVENT_TIMEOUT : Z := 0x40.
Definition BEV_EVENT_CONNECTED : Z := 0x80.

Definition has (events flag : Z) : bool := negb (Z.land events flag =? 0).

(** [static const size_t min_max_buf_size = 1024*1024] *)
Definition min_max_buf_size : Z := 1024 * 1024.

(** The variables of pscbase.cpp set from the IOC shell. *)
Class PscConfig := {
  PSCInactivityTime : Z;
  PSCMaxSendBuffer : Z;
}.

(** [dbProcess] of a record, which may call back into the driver, and the text libevent
    gives for a socket error. *)
Class RecordSupport (B : Type) := {
  dbProcess : Z → M (PSC B) unit;
  socket_error : string;
}.

Section setters.
Context {B : Type}.

Definition set_base (v : PSCBase B) (s : PSC B) : PSC B :=
  MkPSC v (mask s) (session s) (timer_active s) (have_head s) (header s) (bodylen s)
    (bodyblock s) (expect s) (sendbuf s).
Definition set_session (v : option (bev B)) (s : PSC B) : PSC B :=
  MkPSC (base s) (mask s) v (timer_active s) (have_head s) (header s) (bodylen s)
    (bodyblock s) (expect s) (sendbuf s).
Definition set_timer_active (v : bool) (s : PSC B) : PSC B :=
  MkPSC (base s) (mask s) (session s) v (have_head s) (header s) (bodylen s) (bodyblock s)
    (expect s) (sendbuf s).
Definition set_have_head (v : bool) (s : PSC B) : PSC B :=
  MkPSC (base s) (mask s) (session s) (timer_active s) v (header s) (bodylen s)
    (bodyblock s) (expect s) (sendbuf s).
Definition set_header (v : Z) (s : PSC B) : PSC B :=
  MkPSC (base s) (mask s) (session s) (timer_active s) (have_head s) v (bodylen s)
    (bodyblock s) (expect s) (sendbuf s).
Definition set_bodylen (v : Z) (s : PSC B) : PSC B :=
  MkPSC (base s) (mask s) (session s) (timer_active s) (have_head s) (header s) v
    (bodyblock s) (expect s) (sendbuf s).
Definition set_bodyblock (v : option Z) (s : PSC B) : PSC B :=
  MkPSC (base s) (mask s) (session s) (timer_active s) (have_head s) (header s)
    (bodylen s) v (expect s) (sendbuf s).
Definition set_expect (v : Z) (s : PSC B) : PSC B :=
  MkPSC (base s) (mask s) (session s) (timer_active s) (have_head s) (header s) (bodylen s)
    (bodyblock s) v (sendbuf s).
Definition set_sendbuf (v : B) (s : PSC B) : PSC B :=
  MkPSC (base s) (mask s) (session s) (timer_active s) (have_head s) (header s) (bodylen s)
    (bodyblock s) (expect s) v.
Definition set_input (v : B) (s : bev B) : bev B :=
  Bev v (output s) (rd_low s) (rd_high s) (enabled s) (timeouts s).
Definition set_output (v : B) (s : bev B) : bev B :=
  Bev (input s) v (rd_low s) (rd_high s) (enabled s) (timeouts s).
Definition set_rd_low (v : Z) (s : bev B) : bev B :=
  Bev (input s) (output s) v (rd_high s) (enabled s) (timeouts s).
Definition set_rd_high (v : Z) (s : bev B) : bev B :=
  Bev (input s) (output s) (rd_low s) v (enabled s) (timeouts s).
Definition set_enabled (v : bool) (s : bev B) : bev B :=
  Bev (input s) (output s) (rd_low s) (rd_high s) v (timeouts s).
Definition set_timeouts (v : option Z * option Z) (s : bev B) : bev B :=
  Bev (input s) (output s) (rd_low s) (rd_high s) (enabled s) v.
End setters.

(** ** Operations *)

Section psc.
Context {B : Type} `{EvBuffer B} `{EpicsEnv}.

Context `{PscConfig} `{RecordSupport B}.
Implicit Types s : PSC B.

Definition base_op {A} (m : M (PSCBase B) A) : M (PSC B) A := zoom base set_base m.

Definition put_connected (v : bool) : M (PSC B) unit := base_op (modify (set_connected v)).
Definition put_message (m : string) : M (PSC B) unit := base_op (modify (set_message m)).

(** Access through [session]; a null pointer is a crash. *)
Definition on_session (f : bev B → bev B) : M (PSC B) unit := λ s,
  match session s with
  | Some b => (Ret tt, set_session (Some (f b)) s)
  | None => (Crash NullDeref, s)
  end.

Definition is_some {A} (o : option A) : bool := match o with Some _ => true | None => false end.

(** [PSC::start_reconnect()] *)
Definition start_reconnect : M (PSC B) unit :=
  s <- get ;;
  assert_ (is_some (session s) && negb (timer_active s)) ;;;
  base_op (emit EFreeSession) ;;;
  modify (set_session None) ;;;
  base_op (emit (ETimerAdd 5)) ;;;
  put_connected false ;;;
  modify (set_timer_active true).

(** [PSC::connect()] *)
Definition connect (net : Net B) : M (PSC B) unit :=
  s <- get ;;
  assert_ (negb (connected (base s))) ;;;
  assert_ (negb (is_some (session s))) ;;;
  assert_ (negb (timer_active s)) ;;;
  modify (set_have_head false) ;;;
  modify (set_header 0) ;;;
  modify (set_bodylen 0) ;;;
  modify (set_bodyblock None) ;;;
  modify (set_expect HEADER_SIZE) ;;;
  match net_socket_new net with
  | None => modify (set_session None) ;;; throw BadAlloc
  | Some (i, o) =>
      modify (set_session (Some (Bev i o 0 0 false (None, None)))) ;;;
      when ((PSCInactivityTime >? 0) && (net_set_timeouts net =? 0))
        (on_session (set_timeouts
           (if has (mask s) 1 then (Some PSCInactivityTime, Some PSCInactivityTime)
            else (None, Some PSCInactivityTime)))) ;;;
      on_session (set_rd_low HEADER_SIZE) ;;;
      on_session (set_rd_high min_max_buf_size) ;;;
      (if negb (net_connect net =? 0) then
         base_op (emit EFreeSession) ;;;
         modify (set_session None) ;;;
         base_op (emit (ETimerAdd 5)) ;;;
         modify (set_timer_active true) ;;;
         put_message "Failed to initiate connection."
       else put_message "Connecting...") ;;;
      base_op (emit EScanStatus)
  end.

(** [PSC::reconnect()] *)
Definition reconnect (net : Net B) : M (PSC B) unit :=
  s <- get ;;
  assert_ (negb (connected (base s))) ;;;
  assert_ (negb (is_some (session s))) ;;;
  modify (set_timer_active false) ;;;
  connect net ;;;
  s <- get ;;
  assert_ (is_some (session s) || timer_active s).

(** [PSC::stopinloop()] *)
Definition stopinloop : M (PSC B) unit :=
  s <- get ;;
  when (connected (base s))
    (assert_ (is_some (session s)) ;;; base_op (emit EFreeSession)) ;;;
  modify (set_session None) ;;;
  when (timer_active s) (base_op (emit ETimerDel)) ;;;
  modify (set_timer_active false).

(** [PSC::forceReConnect()] *)
Definition forceReConnect : M (PSC B) unit :=
  s <- get ;;
  if negb (connected (base s)) then ret tt else start_reconnect.

(** The loop over [procOnConnect] in [eventcb]: indices below the size it started with. *)
Fixpoint process_on_connect (l : list Z) : M (PSC B) unit :=
  match l with
  | [] => ret tt
  | prec :: r => base_op (emit (EDbProcess prec)) ;;; dbProcess prec ;;; process_on_connect r
  end.

(** The message [eventcb] stores for an error event. *)
Definition event_message (conn : bool) (events : Z) : string :=
  if has events BEV_EVENT_ERROR then ("Socket Error: " +:+ socket_error)%string
  else if has events BEV_EVENT_TIMEOUT then
    (if conn then
      (if has events BEV_EVENT_WRITING then "TX " else "") +:+
      (if has events BEV_EVENT_READING then "RX " else "") +:+ "Data Timeout"
    else "Timeout while connecting")%string
  else "Connection closed by PSC"%string.

(** [PSC::eventcb(short events)] *)
Definition eventcb (events : Z) : M (PSC B) unit :=
  s <- get ;;
  if has events BEV_EVENT_CONNECTED then
    on_session (set_enabled true) ;;;
    put_connected true ;;;
    put_message "Connected" ;;;
    base_op (modify (λ b, set_conncount (u32 (conncount b + 1)) b)) ;;;
    base_op (emit EScanOnConnect) ;;;
    process_on_connect (procOnConnect (base s)) ;;;
    base_op (emit EScanStatus)
  else if has events (Z.lor BEV_EVENT_ERROR (Z.lor BEV_EVENT_EOF BEV_EVENT_TIMEOUT)) then
    start_reconnect ;;;
    put_message (event_message (connected (base s)) events) ;;;
    base_op (emit EScanStatus)
  else ret tt.

(** ** Receiving *)

(** The input buffer of the session. *)
Definition on_input {A} (f : B → A * B) : M (PSC B) A := λ s,
  match session s with
  | Some b => let '(a, i) := f (input b) in (Ret a, set_session (Some (set_input i b)) s)
  | None => (Crash NullDeref, s)
  end.

Definition input_length : M (PSC B) Z := on_input (λ i, (evbuffer_get_length i, i)).

(** Find the block of a header, stamp and count it; count the message if there is none. *)
Definition find_bodyblock (id : Z) : M (PSC B) unit :=
  s <- get ;;
  match recv_blocks (base s) !! id with
  | Some _ =>
      modify (set_bodyblock (Some id)) ;;;
      base_op (stamp_rxtime id ;;; upd_recv id incr_count)
  | None =>
      modify (set_bodyblock None) ;;;
      base_op (modify (λ b, set_ukncount (u32 (ukncount b + 1)) b))
  end.

(** [if(bodylen) ...]: wait for a body, or for the next header. *)
Definition expect_body (len : Z) : M (PSC B) unit :=
  if negb (len =? 0) then
    modify (set_have_head true) ;;;
    modify (set_expect len)
  else
    modify (set_have_head false) ;;;
    modify (set_bodyblock None) ;;;
    modify (set_expect HEADER_SIZE).

(** Decode a header: the [!have_head] branch of the loop in [recvdata].  [false] is the
    early return after a framing error. *)
Definition recv_head : M (PSC B) bool :=
  s <- get ;;
  assert_ (expect s =? HEADER_SIZE) ;;;
  hbuf <- on_input (λ i, evbuffer_remove i HEADER_SIZE) ;;
  if bad_frame hbuf then
    start_reconnect ;;;
    put_message "Framing error!" ;;;
    base_op (emit EScanStatus) ;;;
    ret false
  else
    let id := get_msgid hbuf in
    let len := get_bodylen hbuf in
    modify (set_header id) ;;;
    modify (set_bodylen len) ;;;
    find_bodyblock id ;;;
    expect_body len ;;;
    ret true.

(** [bodyblock->data.consume(buf, bodylen)] *)
Definition consume_body (k : Z) (len : Z) : M (PSC B) unit := λ s,
  match session s, recv_blocks (base s) !! k with
  | Some b, Some blk =>
      let '(o, (i, d)) := dbuffer_consume len (input b, data blk) in
      (o, set_base (set_recv_blocks (<[k := set_data d blk]> (recv_blocks (base s))) (base s))
            (set_session (Some (set_input i b)) s))
  | _, _ => (Crash NullDeref, s)
  end.

(** Decode a body: the other branch. *)
Definition recv_body : M (PSC B) bool :=
  s <- get ;;
  (match bodyblock s with
   | Some k =>
       consume_body k (bodylen s) ;;;
       base_op (requestScan_recv k ;;; call_listeners k)
   | None => on_input (λ i, (tt, evbuffer_drain i (bodylen s)))
   end) ;;;
  modify (set_have_head false) ;;;
  modify (set_bodyblock None) ;;;
  modify (set_expect HEADER_SIZE) ;;;
  ret true.

(** The loop of [recvdata]; the result tells whether the code behind it is reached. *)
Fixpoint recv_loop (fuel : nat) : M (PSC B) bool :=
  match fuel with
  | O => abort OutOfFuel
  | S fuel' =>
      nbytes <- input_length ;;
      s <- get ;;
      if nbytes >=? expect s then
        more <- (if have_head s then recv_body else recv_head) ;;
        if more then
          left <- input_length ;;
          assert_ (nbytes >? left) ;;;
          recv_loop fuel'
        else ret false
      else ret true
  end.

(** Each round takes at least one byte out of the input. *)
Definition recv_fuel s : nat :=
  match session s with Some b => S (Z.to_nat (evbuffer_get_length (input b))) | None => 1 end.

(** [PSC::recvdata()] *)
Definition recvdata : M (PSC B) unit :=
  s <- get ;;
  assert_ (connected (base s) && is_some (session s)) ;;;
  done <- recv_loop (recv_fuel s) ;;
  if done then
    s <- get ;;
    on_session (set_rd_low (expect s)) ;;;
    on_session (set_rd_high (if expect s >=? min_max_buf_size then expect s + 1
                             else min_max_buf_size))
  else ret tt.

(** ** Sending *)

(** [PSC::queueHeader(blk, id, buflen)]; [id] is not used. *)
Definition queueHeader (k : Z) (buflen : Z) : M (PSC B) unit :=
  s <- get ;;
  if negb (connected (base s)) then ret tt
  else
    blk <- base_op (send_block k) ;;
    if queued blk then throw recAlarm
    else
      let hbuf := put_header (code blk) buflen in
      if (PSCMaxSendBuffer >? 0) && (evbuffer_get_length (sendbuf s) >=? PSCMaxSendBuffer)
      then throw (RuntimeError "Enqueuing message would exceed buffer")
      else
        match evbuffer_expand (sendbuf s) (u32 (8 + buflen)) with
        | None => throw (RuntimeError "Unable to enqueue message.  Insufficient memory.")
        | Some b =>
            modify (set_sendbuf b) ;;;
            match evbuffer_add b hbuf with
            | None => abort AssertFail
            | Some b' => modify (set_sendbuf b')
            end
        end.

(** [blk->queued = true; blk->count++] *)
Definition mark_queued (k : Z) : M (PSC B) unit :=
  base_op (upd_send k (λ b, incr_count (set_queued true b))).

(** [PSC::queueSend(Block*, const dbuffer&)] *)
Definition queueSend_block (k : Z) (buf : dbuffer B) : M (PSC B) unit :=
  queueHeader k (u32 (dbuffer_size buf)) ;;;
  zoom sendbuf set_sendbuf (dbuffer_copyout_evbuffer buf) ;;;
  mark_queued k.

(** [PSC::queueSend(Block*, const void*, epicsUInt32)], the buffer given as its bytes. *)
Definition queueSend_bytes (k : Z) (buf : list byte) : M (PSC B) unit :=
  queueHeader k (zlen buf) ;;;
  s <- get ;;
  match evbuffer_add (sendbuf s) buf with
  | None => abort AssertFail
  | Some b => modify (set_sendbuf b)
  end ;;;
  mark_queued k.

(** [PSC::queueSend(epicsUInt16, const void*, epicsUInt32)] *)
Definition queueSend (id : Z) (buf : list byte) : M (PSC B) unit :=
  k <- base_op (getSend (u16 id)) ;;
  queueSend_bytes k buf.

(** [PSC::flushSend()] *)
Definition flushSend : M (PSC B) unit :=
  s <- get ;;
  if negb (connected (base s)) then ret tt
  else
    match session s with
    | None => abort NullDeref
    | Some b =>
        if (PSCMaxSendBuffer >? 0) && (evbuffer_get_length (output b) >=? PSCMaxSendBuffer)
        then throw (RuntimeError "Sending message would exceed buffer")
        else
          match evbuffer_add_buffer (output b) (sendbuf s) with
          | None =>
              modify (set_sendbuf (evbuffer_drain (sendbuf s) (evbuffer_get_length (sendbuf s)))) ;;;
              throw (RuntimeError "Unable to send messages!")
          | Some (tx, sb) =>
              modify (set_session (Some (set_output tx b))) ;;;
              modify (set_sendbuf sb) ;;;
              base_op (modify (λ p, set_send_blocks (set_queued false <$> send_blocks p) p))
          end
    end.

(** ** libevent callbacks (pscwrap.cpp) *)

(** [BEVGuard h(psc->session)] locks the bufferevent; libevent dereferences it.  An
    exception is printed. *)
Definition with_bev (m : M (PSC B) unit) : M (PSC B) unit :=
  s <- get ;;
  if is_some (session s) then catch m (λ _, ret tt) else abort NullDeref.

Definition bev_eventcb (evt : Z) : M (PSC B) unit := with_bev (eventcb evt).
Definition bev_datacb : M (PSC B) unit := with_bev recvdata.
Definition bev_reconnect (net : Net B) : M (PSC B) unit :=
  catch (reconnect net) (λ _, ret tt).

(** [PSC::PSC], given the new send buffer. *)
Definition new_PSC (name host : string) (port timeoutmask : Z) (sb : B) : PSC B :=
  MkPSC (new_PSCBase name host port) timeoutmask None false false 0 0 None HEADER_SIZE sb.

#[global] Instance psc_virtual : PSCVirtual B (PSC B) := {|
  psc_base := base;
  put_base := set_base;
  PscBase.queueSend_id := queueSend;
  PscBase.queueSend_dbuffer := queueSend_block;
  PscBase.queueSend_buf := queueSend_bytes;
  psc_flushSend := flushSend;
  psc_forceReConnect := forceReConnect;
|}.

#[global] Instance psc_virtual_laws : PSCVirtualLaws B (PSC B).
Proof. split; [done| |done]. by intros []. Qed.

End psc.
