(* ===== verification/PscTcpRx.v ===== *)
(** * The TCP receiver refines the message format

    Theorems about [recvdata] (coreApp/src/psc.cpp): the decoder loop, resumed after
    every read, computes [Wire.decode] of the byte stream, and delivers to every block
    what [PscBase.spec_events] says. *)

From S2P Require Import Prelude EvBuffer Dbuffer Block Wire PscBase PscTcp.

(** ** The decoder's state *)

Section abstraction.
Context {B : Type} `{EvBuffer B}.
Implicit Types s : PSC B.

(** Bytes received and not yet decoded. *)
Definition stream s : list byte :=
  match session s with Some b => evbuffer_data (input b) | None => [] end.

(** The header whose body is awaited. *)
Definition pending s : option (Z * Z) :=
  if have_head s then Some (header s, bodylen s) else None.

Record receiving s : Prop := {
  rcv_connected : connected (base s) = true;
  rcv_session : session s ≠ None;
  rcv_timer : timer_active s = false;
  rcv_expect : expect s = match pending s with Some (_, n) => n | None => HEADER_SIZE end;
  rcv_pos : have_head s = true → 0 < bodylen s;
  rcv_block :
    bodyblock s =
      match pending s with
      | Some (id, _) => (λ _, id) <$> recv_blocks (base s) !! id
      | None => None
      end;
}.

(** What receiving leaves alone. *)
Definition others s :=
  (mask s, sendbuf s, rest (base s),
   (λ b, (output b, rd_low b, rd_high b, enabled b, timeouts b)) <$> session s).

End abstraction.

Section rx.
Context {B : Type} `{EvBufferLaws B} `{EpicsEnv}.
Implicit Types s : PSC B.

(** [s'] is [s] after decoding [evs]: nothing of the stream is lost. *)
Record rx_run s s' (evs : list rx_event) : Prop := {
  run_receiving : receiving s';
  run_view : view (base s') = spec_events (view (base s)) evs;
  run_stream : decode (pending s) (stream s) = prepend evs (decode (pending s') (stream s'));
  run_others : others s' = others s;
}.

Definition add_log (l : list effect) (v : rx_view) : rx_view :=
  RxView (rv_blocks v) (rv_unk v) (rv_ticks v) (rv_log v ++ l).

(** [s'] is [s] after decoding up to a framing error: the connection is closed and a new
    one is scheduled. *)
Record rx_failed s s' : Prop := {
  failed_error : dec_error (decode (pending s) (stream s)) = true;
  failed_view : view (base s') =
    add_log [EFreeSession; ETimerAdd 5; EScanStatus]
      (spec_events (view (base s)) (dec_events (decode (pending s) (stream s))));
  failed_connected : connected (base s') = false;
  failed_session : session s' = None;
  failed_timer : timer_active s' = true;
  failed_message : message (base s') = "Framing error!"%string;
  failed_sendbuf : sendbuf s' = sendbuf s;
}.

Lemma rx_run_refl s : receiving s → rx_run s s [].
Proof. intros. split; [done|done|by rewrite prepend_nil|done]. Qed.

Lemma rx_run_trans s1 s2 s3 a b : rx_run s1 s2 a → rx_run s2 s3 b → rx_run s1 s3 (a ++ b).
Proof.
  intros [R1 V1 D1 O1] [R2 V2 D2 O2]. split; [done| | |by rewrite O2].
  - by rewrite V2, V1, spec_events_app.
  - by rewrite D1, D2, prepend_prepend.
Qed.

Lemma rx_run_failed s1 s2 s3 a : rx_run s1 s2 a → rx_failed s2 s3 → rx_failed s1 s3.
Proof.
  intros [R1 V1 D1 O1] [E V ? ? ? ? Hs]. split; try done.
  - by rewrite D1.
  - rewrite V, D1, V1. cbn [dec_events prepend]. by rewrite spec_events_app.
  - rewrite Hs. by injection O1.
Qed.

Lemma known_after bs bs' evs k :
  view bs' = spec_events (view (B:=B) bs) evs →
  (λ _, k) <$> recv_blocks bs' !! k = (λ _, k) <$> recv_blocks bs !! k.
Proof.
  intros Hv. pose proof (view_known bs bs' evs k Hv) as Hk.
  destruct (recv_blocks bs !! k) eqn:E1, (recv_blocks bs' !! k) eqn:E2; try done; exfalso.
  - destruct Hk as [_ [? Hk]]; [eauto|done].
  - destruct Hk as [[? Hk] _]; [eauto|done].
Qed.

Lemma rest_connected bs bs' : rest bs' = rest (B:=B) bs → connected bs' = connected bs.
Proof. unfold rest. congruence. Qed.

Lemma find_bodyblock_spec id s :
  ∃ bs, find_bodyblock id s =
      (Ret tt, set_base bs (set_bodyblock ((λ _, id) <$> recv_blocks (base s) !! id) s)) ∧
    view bs = spec_head id (view (base s)) ∧ rest bs = rest (base s).
Proof.
  unfold find_bodyblock. mstep. destruct (recv_blocks (base s) !! id) as [b|] eqn:E.
  - destruct (head_known_spec id b (base s) E) as (bs & Hr & Hv & Ho).
    exists bs. split; [|done]. mstep. unfold base_op. by erewrite zoom_eq by exact Hr.
  - exists (set_ukncount (u32 (ukncount (base s) + 1)) (base s)). split; [done|].
    split; [by apply head_unknown_spec|done].
Qed.

(** The decoder state after a header. *)
Lemma expect_body_spec len s :
  ∃ s', expect_body len s = (Ret tt, s') ∧
    base s' = base s ∧ session s' = session s ∧ timer_active s' = timer_active s ∧
    others s' = others s ∧ header s' = header s ∧ bodylen s' = bodylen s ∧
    have_head s' = negb (len =? 0) ∧
    (if len =? 0 then expect s' = HEADER_SIZE ∧ bodyblock s' = None
     else expect s' = len ∧ bodyblock s' = bodyblock s).
Proof. unfold expect_body. destruct (len =? 0); eexists; (split; [done|]); done. Qed.

(** One round of the loop on a complete header. *)
Lemma recv_head_round s :
  receiving s → have_head s = false → HEADER_SIZE ≤ zlen (stream s) →
  match recv_head s with
  | (Ret true, s') => ∃ ev, rx_run s s' [ev] ∧ zlen (stream s') < zlen (stream s)
  | (Ret false, s') => rx_failed s s'
  | _ => False
  end.
Proof.
  intros [Hc Hs Ht He Hp Hb] Hh Hl.
  destruct s as [bs mask [[i o lo hi en tm]|] tmr hh hd bl bb ex sb]; [|done].
  unfold pending, stream in *. cbn in *. subst hh tmr ex. cbn in Hb. subst bb.
  pose proof (evbuffer_remove_data i HEADER_SIZE) as Hr. destruct Hr as [Hr1 Hr2]; [unfold HEADER_SIZE; lia|].
  destruct (evbuffer_remove i HEADER_SIZE) as [hbuf i'] eqn:Er. cbn in Hr1, Hr2.
  unfold recv_head. mstep.
  erewrite bind_ret by (unfold on_input; cbn -[HEADER_SIZE]; rewrite Er; reflexivity).
  destruct (bad_frame hbuf) eqn:Hf.
  - (* framing error *)
    cbn. split; try done.
    + unfold pending, stream. cbn. rewrite decode_head_eq by done. by rewrite <-Hr1, Hf.
    + unfold pending, stream. cbn. rewrite decode_head_eq, <-Hr1, Hf by done.
      unfold view, add_log. cbn. by rewrite <-!app_assoc.
  - (* header *)
    do 2 mstep.
    match goal with |- context [bind (find_bodyblock ?id) _ ?s] =>
      destruct (find_bodyblock_spec id s) as (bs' & Hfind & Hview & Hrest)
    end.
    erewrite bind_ret by exact Hfind.
    match goal with |- context [bind (expect_body ?n) _ ?s] =>
      destruct (expect_body_spec n s) as (s' & Hx & E1 & E2 & E3 & E4 & E5 & E6 & E7 & E8)
    end.
    erewrite bind_ret by exact Hx. clear Hfind Hx. cbn in E1, E2, E3, E4, E5, E6, E7, E8, Hview, Hrest.
    exists (RxHead (get_msgid hbuf) (get_bodylen hbuf)).
    pose proof (get_bodylen_range hbuf) as Hrng.
    assert (Hpend : pending s' = if get_bodylen hbuf =? 0 then None
                                 else Some (get_msgid hbuf, get_bodylen hbuf)).
    { unfold pending. rewrite E7, E5, E6. by destruct (get_bodylen hbuf =? 0). }
    assert (Hstream : stream s' = zdrop HEADER_SIZE (evbuffer_data i)).
    { unfold stream. by rewrite E2. }
    split; [split; [split|..]|].
    + rewrite E1. by rewrite (rest_connected _ _ Hrest).
    + by rewrite E2.
    + done.
    + rewrite Hpend. destruct (get_bodylen hbuf =? 0); apply E8.
    + rewrite E7, E6. intros Hz. bool_to_prop. lia.
    + rewrite Hpend, E1. destruct (get_bodylen hbuf =? 0); [apply E8|].
      destruct E8 as [_ ->]. by rewrite (known_after bs bs' [RxHead (get_msgid hbuf) 0]).
    + by rewrite E1.
    + rewrite Hpend, Hstream. unfold pending, stream. cbn.
      rewrite decode_head_eq, <-Hr1, Hf by done. done.
    + rewrite E4. unfold others. cbn. by rewrite Hrest.
    + change (zlen (stream s') < zlen (evbuffer_data i)).
      rewrite Hstream, zlen_zdrop. unfold HEADER_SIZE in *. lia.
Qed.
(** [consume_body] moves the body into the block, or throws and changes nothing. *)
Lemma consume_body_spec k n b blk s :
  0 ≤ n ≤ zlen (evbuffer_data (input b)) → session s = Some b →
  recv_blocks (base s) !! k = Some blk →
  match consume_body k n s with
  | (Ret _, s') => ∃ i d, contents d = ztake n (evbuffer_data (input b)) ∧
      evbuffer_data i = zdrop n (evbuffer_data (input b)) ∧
      s' = set_base (set_recv_blocks (<[k := set_data d blk]> (recv_blocks (base s))) (base s))
             (set_session (Some (set_input i b)) s)
  | (Throw _, s') => ¬ memory_ok (B:=B) ∧ ∃ i, evbuffer_data i = evbuffer_data (input b) ∧
      s' = set_session (Some (set_input i b)) s
  | (Crash _, _) => False
  end.
Proof.
  intros Hn Hs Hk. unfold consume_body. rewrite Hs, Hk.
  pose proof (consume_flat (input b) (data blk) n (proj1 Hn)) as Hc. cbn zeta in Hc.
  rewrite Z.min_l in Hc by lia.
  pose proof (λ Hm, consume_ok (input b) (data blk) n Hm (proj1 Hn)) as Hmem.
  destruct (dbuffer_consume n (input b, data blk)) as [[[]|e|c] [i d]]; [| |done].
  - destruct Hc as (? & ? & _). eauto.
  - destruct Hc as [-> ?]. split; [by intros ?%Hmem|]. exists i. split; [done|].
    replace (set_data (data blk) blk) with blk by by destruct blk.
    rewrite insert_id by done. destruct s as [[] ? ? ? ? ? ? ? ? ?]. done.
Qed.

(** One round of the loop on a complete body. *)
Lemma recv_body_round s :
  listeners_safe → receiving s → have_head s = true → bodylen s ≤ zlen (stream s) →
  match recv_body s with
  | (Ret true, s') => ∃ ev, rx_run s s' [ev] ∧ zlen (stream s') < zlen (stream s)
  | (Throw _, s') => rx_run s s' [] ∧ stream s' = stream s ∧ ¬ memory_ok (B:=B)
  | _ => False
  end.
Proof.
  intros Hsafe Hr Hh Hl. pose proof Hr as [Hc Hs Ht He Hp Hb]. specialize (Hp Hh).
  unfold pending in He, Hb. rewrite Hh in He, Hb.
  destruct (session s) as [b|] eqn:Es; [|done]. unfold stream in Hl. rewrite Es in Hl.
  assert (Hpend : pending s = Some (header s, bodylen s)) by (unfold pending; by rewrite Hh).
  assert (Hdec : decode (pending s) (stream s) =
    prepend [RxBody (header s) (ztake (bodylen s) (evbuffer_data (input b)))]
      (decode None (zdrop (bodylen s) (evbuffer_data (input b))))).
  { rewrite Hpend. unfold stream. rewrite Es. by apply decode_body_eq. }
  unfold recv_body. mstep. rewrite Hb.
  destruct (recv_blocks (base s) !! header s) as [blk|] eqn:Ek; cbn [fmap option_fmap option_map].
  - (* into its block *)
    pose proof (consume_body_spec (header s) (bodylen s) b blk s) as Hcons.
    destruct (consume_body (header s) (bodylen s) s) as [[[]|e|c] s1] eqn:Ec.
    + destruct Hcons as (i & d & Hd & Hi & ->); [lia|done|done|].
      destruct (deliver_spec (header s) blk d (base s)) as (bs & Hdel & Hv & Ho); [done|done|].
      unfold bind at 1, bind at 1. rewrite Ec. unfold base_op.
      erewrite zoom_eq by exact Hdel. cbn.
      exists (RxBody (header s) (ztake (bodylen s) (evbuffer_data (input b)))).
      split; [split; [split|..]|]; cbn; try done.
      * by rewrite (rest_connected _ _ Ho).
      * by rewrite Hv, Hd.
      * rewrite Hdec. unfold pending, stream. cbn. by rewrite Hi.
      * unfold others. cbn. by rewrite Ho, Es.
      * unfold stream. cbn. rewrite Es, Hi, zlen_zdrop. lia.
    + destruct Hcons as (Hmem & i & Hi & ->); [lia|done|done|].
      unfold bind at 1, bind at 1. rewrite Ec. unfold stream. cbn. rewrite Hi, Es.
      split; [|done]. split; [split|..]; cbn; try done.
      * unfold pending. cbn. by rewrite Hh.
      * unfold pending. cbn. by rewrite Hh, Ek, Hb.
      * unfold pending, stream. cbn. by rewrite Hh, Es, Hi, prepend_nil.
      * unfold others. cbn. by rewrite Es.
    + by destruct Hcons; [lia| |].
  - (* nobody wants it *)
    unfold bind, on_input, modify, ret. rewrite Es. cbn.
    exists (RxBody (header s) (ztake (bodylen s) (evbuffer_data (input b)))).
    assert (Hdr : evbuffer_data (evbuffer_drain (input b) (bodylen s)) =
      zdrop (bodylen s) (evbuffer_data (input b))) by (apply evbuffer_drain_data; lia).
    split; [split; [split|..]|]; cbn; try done.
    + unfold spec_body. cbn. by rewrite lookup_fmap, Ek.
    + rewrite Hdec. unfold pending, stream. cbn. by rewrite Hdr.
    + unfold others. cbn. by rewrite Es.
    + unfold stream. cbn. rewrite Es, Hdr, zlen_zdrop. lia.
Qed.

Lemma input_length_spec s :
  session s ≠ None → input_length s = (Ret (zlen (stream s)), s).
Proof.
  intros Hs. destruct (session s) as [b|] eqn:Es; [|done].
  unfold input_length, on_input, stream. rewrite Es, evbuffer_length_data.
  replace (set_input (input b) b) with b by by destruct b. rewrite <-Es. by destruct s.
Qed.

(** One round, whichever branch it takes. *)
Lemma recv_round s :
  listeners_safe → receiving s → expect s ≤ zlen (stream s) →
  match (if have_head s then recv_body else recv_head) s with
  | (Ret true, s') => ∃ ev, rx_run s s' [ev] ∧ zlen (stream s') < zlen (stream s)
  | (Ret false, s') => rx_failed s s'
  | (Throw _, s') => rx_run s s' [] ∧ stream s' = stream s ∧ ¬ memory_ok (B:=B)
  | (Crash _, _) => False
  end.
Proof.
  intros Hsafe Hr Hl. rewrite (rcv_expect s Hr) in Hl. unfold pending in Hl.
  destruct (have_head s) eqn:Hh.
  - pose proof (recv_body_round s Hsafe Hr Hh Hl) as Hx.
    by destruct (recv_body s) as [[[]| |] ?].
  - pose proof (recv_head_round s Hr Hh Hl) as Hx.
    by destruct (recv_head s) as [[[]| |] ?].
Qed.

(** The loop, with fuel for every byte that is left. *)
Lemma recv_loop_spec fuel s :
  listeners_safe → receiving s → zlen (stream s) < Z.of_nat fuel →
  match recv_loop fuel s with
  | (Ret true, s') =>
      rx_run s s' (dec_events (decode (pending s) (stream s))) ∧ zlen (stream s') < expect s'
  | (Ret false, s') => rx_failed s s'
  | (Throw _, s') => (∃ evs, rx_run s s' evs) ∧ ¬ memory_ok (B:=B)
  | (Crash _, _) => False
  end.
Proof.
  intros Hsafe. revert s. induction fuel as [|fuel IH]; intros s Hr Hf.
  { pose proof (zlen_nonneg (stream s)). lia. }
  cbn [recv_loop].
  erewrite bind_ret by (apply input_length_spec, Hr). mstep.
  case_if; bool_to_prop.
  - pose proof (recv_round s Hsafe Hr Heqb) as Hround. unfold bind at 1.
    destruct ((if have_head s then recv_body else recv_head) s) as [[[]|e|c] s1].
    + destruct Hround as (ev & Hrun & Hless). pose proof (run_receiving _ _ _ Hrun) as Hr1.
      erewrite bind_ret by (apply input_length_spec, Hr1).
      assert ((zlen (stream s) >? zlen (stream s1)) = true) as ->
        by (rewrite Z.gtb_ltb; by apply Z.ltb_lt).
      mstep. specialize (IH s1 Hr1 ltac:(lia)).
      destruct (recv_loop fuel s1) as [[[]|e|c] s2]; [| | |done].
      * destruct IH as [Hrun2 Hend]. split; [|done].
        rewrite (run_stream _ _ _ Hrun). cbn [prepend dec_events]. by eapply rx_run_trans.
      * by eapply rx_run_failed.
      * destruct IH as [[evs Hrun2] ?]. split; [|done]. eexists. by eapply rx_run_trans.
    + done.
    + destruct Hround as (? & _ & ?). eauto.
    + done.
  - unfold ret. split; [|lia].
    rewrite decode_short; [by apply rx_run_refl|]. rewrite <-(rcv_expect s Hr). lia.
Qed.

(** The whole of [recvdata]: the stream is decoded as far as it goes and the read
    watermarks ask for what the next stage needs; or the connection is given up; or
    memory ran out, and the rest of the stream stays where it was. *)
Definition rx_done s s' : Prop :=
  let r := decode (pending s) (stream s) in
  receiving s' ∧ dec_error r = false ∧
  view (base s') = spec_events (view (base s)) (dec_events r) ∧
  pending s' = dec_pending r ∧ stream s' = dec_rest r ∧
  rest (base s') = rest (base s) ∧ sendbuf s' = sendbuf s ∧ mask s' = mask s ∧
  ∃ b b', session s = Some b ∧ session s' = Some b' ∧
    output b' = output b ∧ enabled b' = enabled b ∧ timeouts b' = timeouts b ∧
    rd_low b' = expect s' ∧ zlen (stream s') < rd_low b' < rd_high b'.

Lemma recv_fuel_enough s : session s ≠ None → zlen (stream s) < Z.of_nat (recv_fuel s).
Proof.
  intros Hs. unfold recv_fuel, stream. destruct (session s) as [b|]; [|done].
  rewrite evbuffer_length_data. pose proof (zlen_nonneg (evbuffer_data (input b))). lia.
Qed.

Lemma recvdata_spec s :
  listeners_safe → receiving s →
  match recvdata s with
  | (Ret _, s') => rx_done s s' ∨ rx_failed s s'
  | (Throw _, s') => (∃ evs, rx_run s s' evs) ∧ ¬ memory_ok (B:=B)
  | (Crash _, _) => False
  end.
Proof.
  intros Hsafe Hr. pose proof Hr as [Hc Hs Ht He Hp Hb].
  unfold recvdata. mstep. destruct (session s) as [b|] eqn:Es; [|done].
  rewrite Hc. cbn [is_some andb]. mstep.
  assert (Hfuel := recv_fuel_enough s ltac:(by rewrite Es)).
  pose proof (recv_loop_spec (recv_fuel s) s Hsafe Hr Hfuel) as Hloop. unfold bind at 1.
  destruct (recv_loop (recv_fuel s) s) as [[[]|e|c] s1].
  - destruct Hloop as [Hrun Hend].
    pose proof (run_receiving _ _ _ Hrun) as Hr1.
    pose proof (run_others _ _ _ Hrun) as Ho. unfold others in Ho. rewrite Es in Ho.
    destruct (session s1) as [b1|] eqn:Es1; [|done]. 
    apply pair_equal_spec in Ho as [[[Hmask Hsb]%pair_equal_spec Hrest]%pair_equal_spec Hses].
    cbn in Hses. injection Hses as Ho1 Ho2 Ho3 Ho4 Ho5.
    mstep. unfold on_session at 1. unfold bind at 1. rewrite Es1. unfold on_session. cbn -[Z.add].
    left. pose proof (run_stream _ _ _ Hrun) as Hdec.
    rewrite (decode_short (pending s1)) in Hdec by by rewrite <-(rcv_expect s1 Hr1).
    assert (Hs1 : stream s1 = evbuffer_data (input b1)) by (unfold stream; by rewrite Es1).
    unfold rx_done. set (r := decode (pending s) (stream s)) in *.
    assert (dec_error r = false) by by rewrite Hdec.
    assert (dec_pending r = pending s1) by by rewrite Hdec.
    assert (dec_rest r = stream s1) by by rewrite Hdec.
    split_and!; cbn; try done.
    + destruct Hr1. split; cbn; try done.
    + subst r. by rewrite (run_view _ _ _ Hrun).
    + by rewrite <-Hs1.
    + rewrite Es. eexists _, _. split_and!; [done|done|by cbn..| |].
      * cbn. by rewrite <-Hs1.
      * cbn. destruct (expect s1 >=? min_max_buf_size) eqn:Emax; bool_to_prop; lia.
  - by right.
  - done.
  - done.
Qed.

(** ** Reads of any size *)

(** libevent appends [chunk] to the input buffer of the open session. *)
Definition arrives (chunk : list byte) s s' : Prop :=
  ∃ b i, session s = Some b ∧ evbuffer_data i = evbuffer_data (input b) ++ chunk ∧
    s' = set_session (Some (set_input i b)) s.

(** The connection delivers [chunks], one [recvdata] after each; what was sent to a
    session that is closed in between is lost. *)
Inductive reads : PSC B → list (list byte) → PSC B → Prop :=
  | reads_nil s : reads s [] s
  | reads_closed s chunks : session s = None → reads s chunks s
  | reads_chunk s chunk s1 s2 chunks s3 :
      arrives chunk s s1 → recvdata s1 = (Ret tt, s2) → reads s2 chunks s3 →
      reads s (chunk :: chunks) s3.

Lemma arrives_facts chunk s s' :
  receiving s → arrives chunk s s' →
  receiving s' ∧ stream s' = stream s ++ chunk ∧ pending s' = pending s ∧ base s' = base s.
Proof.
  intros [Hc Hs Ht He Hp Hb] (b & i & Es & Hi & ->). unfold stream. cbn. rewrite Es, Hi.
  done.
Qed.

Definition closed_by_framing s : Prop :=
  connected (base s) = false ∧ session s = None ∧ timer_active s = true ∧
  message (base s) = "Framing error!"%string.

Lemma reads_closed_same s chunks s' : session s = None → reads s chunks s' → s' = s.
Proof.
  intros Hs Hr. destruct Hr as [| |s chunk s1 s2 chunks s3 (b & i & Es & _)]; [done|done|].
  by rewrite Es in Hs.
Qed.

Lemma reads_spec s chunks s' :
  listeners_safe → receiving s → zlen (stream s) < expect s → reads s chunks s' →
  let r := decode (pending s) (stream s ++ concat chunks) in
  if dec_error r then
    closed_by_framing s' ∧
    view (base s') = add_log [EFreeSession; ETimerAdd 5; EScanStatus]
                       (spec_events (view (base s)) (dec_events r))
  else
    receiving s' ∧ view (base s') = spec_events (view (base s)) (dec_events r) ∧
    pending s' = dec_pending r ∧ stream s' = dec_rest r.
Proof.
  intros Hsafe Hr Hshort Hreads. revert Hr Hshort.
  induction Hreads as [s|s chunks Hs|s chunk s1 s2 chunks s3 Harr Hrecv Hreads IH]; intros Hr Hshort.
  - cbn. rewrite app_nil_r, decode_short by by rewrite <-(rcv_expect s Hr). done.
  - by destruct (rcv_session s Hr).
  - destruct (arrives_facts chunk s s1 Hr Harr) as (Hr1 & Hst & Hpd & Hbs).
    pose proof (recvdata_spec s1 Hsafe Hr1) as Hspec. rewrite Hrecv in Hspec.
    cbn [concat]. rewrite app_assoc, <-Hst, <-Hpd, <-Hbs, decode_app. unfold continue_with.
    destruct Hspec as [Hdone|[Herr Hv ? ? ? ? ?]].
    + destruct Hdone as (Hr2 & -> & Hv & Hpd2 & Hst2 & _ & _ & _ & b & b' & _ & _ & _ & _ & _ & Hlow & Hlt & _).
      specialize (IH Hr2 ltac:(lia)). rewrite <-Hpd2, <-Hst2.
      cbn [prepend dec_error dec_events dec_pending dec_rest].
      rewrite spec_events_app, <-Hv. done.
    + rewrite Herr. cbn. apply reads_closed_same in Hreads; [|done]. subst s3. done.
Qed.

(** Reads that bring whole messages deliver them. *)
Lemma reads_msgs s chunks s' ms :
  listeners_safe → Forall valid_msg ms → receiving s → pending s = None → stream s = [] →
  counts_u32 (view (base s)) → reads s chunks s' → concat chunks = encode_msgs ms →
  receiving s' ∧ stream s' = [] ∧ msgs_done (view (base s)) ms (view (base s')).
Proof.
  intros Hsafe Hv Hr Hp Hstr Hcnt Hreads Hch. pose proof (reads_spec s chunks s' Hsafe Hr) as Hspec.
  rewrite Hstr, (rcv_expect s Hr), Hp in Hspec. specialize (Hspec eq_refl Hreads).
  cbn [app] in Hspec. rewrite Hch, <-(app_nil_r (encode_msgs ms)), decode_msgs in Hspec by done.
  rewrite decode_short in Hspec by done. cbn [prepend dec_error dec_events dec_pending dec_rest] in Hspec.
  rewrite app_nil_r in Hspec. destruct Hspec as (Hr' & Hv' & _ & Hst'). split; [done|].
  split; [done|]. rewrite Hv'. by apply spec_msgs.
Qed.

End rx.

(** ** Received blocks stay well formed *)

Section rx_wf.
Context {B : Type} `{EvBufferLaws B} `{EpicsEnv} `{PscConfig} `{RecordSupport B}.

Definition blocks_wf (bs : PSCBase B) : Prop :=
  map_Forall (λ _ b, dbuffer_wf (data b)) (recv_blocks bs).
Definition keeps_blocks (bs bs' : PSCBase B) : Prop := blocks_wf bs → blocks_wf bs'.

(** The length that is awaited is a length. *)
Definition rx_wf (s : PSC B) : Prop := 0 ≤ bodylen s ∧ blocks_wf (base s).
Definition keeps_rx_wf (s s' : PSC B) : Prop := rx_wf s → rx_wf s'.

#[local] Instance keeps_blocks_preorder : PreOrder keeps_blocks.
Proof. split; [by intros s ?|]. intros a b c Hab Hbc Ha. by apply Hbc, Hab. Qed.
#[local] Instance keeps_rx_wf_preorder : PreOrder keeps_rx_wf.
Proof. split; [by intros s ?|]. intros a b c Hab Hbc Ha. by apply Hbc, Hab. Qed.

Lemma recv_block_keeps k : stays keeps_blocks (recv_block k).
Proof. intros s. unfold recv_block. by destruct (_ !! _). Qed.

Lemma upd_recv_keeps k f : (∀ b, data (f b) = data b) → stays keeps_blocks (upd_recv k f).
Proof.
  intros Hf. apply stays_modify. intros s Hs j b Hj. cbn in Hj.
  apply lookup_alter_Some in Hj as [(-> & b0 & Hb & ->)|[_ Hj]]; [|by apply (Hs j)].
  rewrite Hf. by apply (Hs j b0).
Qed.

Lemma data_requestScan m (b : Block (dbuffer B)) : data (requestScan m b) = data b.
Proof. by destruct (requestScan_fields m b) as (_ & -> & _). Qed.

Lemma stamp_rxtime_keeps k : stays keeps_blocks (stamp_rxtime k).
Proof. unfold stamp_rxtime. stays_parts; [by intros s ?|by apply upd_recv_keeps]. Qed.

Lemma requestScan_keeps k : stays keeps_blocks (requestScan_recv k).
Proof.
  unfold requestScan_recv. stays_parts; [apply recv_block_keeps| |by intros s ?|by intros s ?|];
    apply upd_recv_keeps, data_requestScan.
Qed.

Lemma call_listeners_keeps k : stays keeps_blocks (call_listeners (B:=B) k).
Proof.
  unfold call_listeners. stays_parts; [apply recv_block_keeps|].
  generalize (map_data contents a) as blk. induction (listeners a) as [|[user fn] l IH]; intros blk;
    cbn [CBList.call]; stays_parts; [by intros s ?|apply IH].
Qed.

Lemma base_op_keeps {A} (m : M (PSCBase B) A) : stays keeps_blocks m → stays keeps_rx_wf (base_op m).
Proof.
  intros Hm s [Hl Hs]. specialize (Hm (base s) Hs). unfold base_op, zoom.
  destruct (m (base s)). by split.
Qed.

Lemma consume_body_keeps k s : keeps_rx_wf s (consume_body k (bodylen s) s).2.
Proof.
  intros [Hl Hs]. unfold consume_body. destruct (session s) as [b|]; [|by split].
  destruct (recv_blocks (base s) !! k) as [blk|] eqn:Hk; [|by split].
  pose proof (consume_flat (input b) (data blk) (bodylen s) Hl) as Hc.
  destruct (dbuffer_consume _ _) as [[[]|e|c] [i d]]; [| |done]; split; try done; cbn.
  - apply map_Forall_insert_2; [|done]. apply Hc.
  - apply map_Forall_insert_2; [|done]. destruct Hc as [-> _]. exact (Hs k blk Hk).
Qed.

Lemma on_input_keeps {A} (f : B → A * B) : stays keeps_rx_wf (on_input f).
Proof. intros s Hs. unfold on_input. destruct (session s); [|done]. by destruct (f _). Qed.

Lemma on_session_keeps f : stays keeps_rx_wf (on_session f).
Proof. intros s Hs. unfold on_session. by destruct (session s). Qed.

(** Setting what is neither a block nor the awaited length. *)
Lemma modify_keeps (f : PSC B → PSC B) :
  (∀ s, base (f s) = base s ∧ bodylen (f s) = bodylen s) → stays keeps_rx_wf (modify f).
Proof. intros Hf. apply stays_modify. intros s [Hl Hs]. destruct (Hf s) as [Eb El]. split; [by rewrite El|by rewrite Eb]. Qed.

Lemma find_bodyblock_keeps id : stays keeps_rx_wf (find_bodyblock id).
Proof.
  unfold find_bodyblock. stays_parts; try by apply modify_keeps.
  - apply base_op_keeps. stays_parts; [apply stamp_rxtime_keeps|by apply upd_recv_keeps].
  - apply base_op_keeps. by intros bs ?.
Qed.

Lemma recv_head_keeps : stays keeps_rx_wf recv_head.
Proof.
  unfold recv_head, start_reconnect, put_connected, put_message, expect_body. stays_parts.
  all: try first [apply on_input_keeps | by apply modify_keeps | apply find_bodyblock_keeps
    | apply base_op_keeps; by intros bs ?].
  apply stays_modify. intros s [_ Hs]. split; [apply get_bodylen_range|done].
Qed.

Lemma recv_body_keeps : stays keeps_rx_wf recv_body.
Proof.
  intros s. unfold recv_body. mstep. apply (stays_bind_at keeps_rx_wf).
  - destruct (bodyblock s) as [k|]; [|apply on_input_keeps].
    apply (stays_bind_at keeps_rx_wf); [apply consume_body_keeps|].
    intros _. apply base_op_keeps. stays_parts; [apply requestScan_keeps|apply call_listeners_keeps].
  - intros _. stays_parts; by apply modify_keeps.
Qed.

Lemma recvdata_keeps : stays keeps_rx_wf recvdata.
Proof.
  assert (Hloop : ∀ fuel, stays keeps_rx_wf (recv_loop fuel)).
  { induction fuel as [|fuel IH]; cbn [recv_loop]; stays_parts;
      first [apply on_input_keeps | apply recv_body_keeps | apply recv_head_keeps | apply IH]. }
  unfold recvdata. stays_parts; [apply Hloop|apply on_session_keeps..].
Qed.

Lemma reads_keeps s chunks s' : reads s chunks s' → keeps_rx_wf s s'.
Proof.
  induction 1 as [s|s chunks _|s chunk s1 s2 chunks s3 Harr Hrecv _ IH]; intros Hs; [done|done|].
  apply IH, (stays_run recvdata_keeps Hrecv). destruct Harr as (b & i & _ & _ & ->). exact Hs.
Qed.
End rx_wf.

(** ** Properties *)

(** A connected driver with blocks 42 and 7, listener 1 on block 42, and the given bytes
    in its input buffer; used to evaluate. *)
Definition sample_rx (bytes : list byte) : PSC ChainBuf.chainbuf :=
  let blk := set_listeners [(100, 1)] (new_Block 42) in
  let bs := set_connected true (set_recv_blocks {[42 := blk; 7 := new_Block 7]}
              (new_PSCBase "dev" "host" 8765)) in
  set_session (Some (Bev (ChainBuf.of_bytes bytes) (ChainBuf.of_bytes []) 8 min_max_buf_size
                       true (None, None)))
    (set_base bs (new_PSC "dev" "host" 8765 0 (ChainBuf.of_bytes []))).

Lemma sample_rx_receiving bytes : receiving (sample_rx bytes).
Proof. by split. Qed.

(** C1: [recvdata] refines the message format.  Whatever part of the stream is waiting,
    it returns, with every complete message delivered as the specification says and the
    incomplete rest kept with the decoder in the state to resume it; or the stream is
    badly framed, and then everything up to the error is delivered and the connection is
    dropped with a reconnect scheduled. *)
Theorem recvdata_refines_decode {B} `{EvBufferLaws B} `{EpicsEnv} (s : PSC B) :
  listeners_safe → receiving s → memory_ok (B:=B) →
  let r := decode (pending s) (stream s) in
  ∃ s', recvdata s = (Ret tt, s') ∧
    if dec_error r then
      closed_by_framing s' ∧
      view (base s') = add_log [EFreeSession; ETimerAdd 5; EScanStatus]
                         (spec_events (view (base s)) (dec_events r))
    else
      receiving s' ∧ view (base s') = spec_events (view (base s)) (dec_events r) ∧
      pending s' = dec_pending r ∧ stream s' = dec_rest r ∧
      rest (base s') = rest (base s) ∧ sendbuf s' = sendbuf s.
Proof.
  intros Hsafe Hr Hmem r. pose proof (recvdata_spec s Hsafe Hr) as Hspec.
  destruct (recvdata s) as [[[]|e|c] s']; [|by destruct Hspec|done].
  exists s'. split; [done|]. subst r. destruct Hspec as [Hd|[Herr ? ? ? ? ? ?]].
  - destruct Hd as (? & -> & ? & ? & ? & ? & ? & _). done.
  - by rewrite Herr.
Qed.

Lemma recvdata_refines_decode_witness :
  let H := quiet_env in
  let s := sample_rx (put_header 42 2 ++ [Byte.x01; Byte.x02] ++ put_header 7 9 ++ [chP]) in
  let r := decode (pending s) (stream s) in
  ∃ s', recvdata s = (Ret tt, s') ∧
    if dec_error r then
      closed_by_framing s' ∧
      view (base s') = add_log [EFreeSession; ETimerAdd 5; EScanStatus]
                         (spec_events (view (base s)) (dec_events r))
    else
      receiving s' ∧ view (base s') = spec_events (view (base s)) (dec_events r) ∧
      pending s' = dec_pending r ∧ stream s' = dec_rest r ∧
      rest (base s') = rest (base s) ∧ sendbuf s' = sendbuf s.
Proof.
  intros H s. apply (recvdata_refines_decode s).
  - apply quiet_listeners_safe.
  - apply sample_rx_receiving.
  - apply chainbuf_memory_ok.
Defined.

(** C2: How the stream is cut into reads does not matter: after any sequence of reads
    (each followed by [recvdata]) the blocks, counters, scan requests and listener calls
    are those of decoding the whole stream at once. *)
Theorem recvdata_any_chunking {B} `{EvBufferLaws B} `{EpicsEnv} (s s' : PSC B) chunks :
  listeners_safe → receiving s → zlen (stream s) < expect s → reads s chunks s' →
  let r := decode (pending s) (stream s ++ concat chunks) in
  if dec_error r then
    closed_by_framing s' ∧
    view (base s') = add_log [EFreeSession; ETimerAdd 5; EScanStatus]
                       (spec_events (view (base s)) (dec_events r))
  else
    receiving s' ∧ view (base s') = spec_events (view (base s)) (dec_events r) ∧
    pending s' = dec_pending r ∧ stream s' = dec_rest r.
Proof. apply reads_spec. Qed.

(** A run in two reads, cut inside the header. *)
Definition sample_chunks : list (list byte) := [[chP; chS; Byte.x00]; [Byte.x2a; Byte.x00; Byte.x00; Byte.x00; Byte.x01; Byte.xff]].

Lemma recvdata_any_chunking_witness :
  let H := quiet_env in
  let s := sample_rx [] in
  ∃ s', reads s sample_chunks s' ∧
    (let r := decode (pending s) (stream s ++ concat sample_chunks) in
     if dec_error r then
       closed_by_framing s' ∧
       view (base s') = add_log [EFreeSession; ETimerAdd 5; EScanStatus]
                          (spec_events (view (base s)) (dec_events r))
     else
       receiving s' ∧ view (base s') = spec_events (view (base s)) (dec_events r) ∧
       pending s' = dec_pending r ∧ stream s' = dec_rest r).
Proof.
  intros H s.
  pose (s1 := set_session (Some (Bev (ChainBuf.of_bytes [chP; chS; Byte.x00])
                (ChainBuf.of_bytes []) 8 min_max_buf_size true (None, None))) s).
  pose (s2 := (recvdata s1).2).
  pose (s3 := set_session (Some (Bev (ChainBuf.of_bytes (concat sample_chunks))
                (ChainBuf.of_bytes []) 8 min_max_buf_size true (None, None))) s2).
  assert (Hr : reads s sample_chunks (recvdata s3).2).
  { eapply (reads_chunk _ _ s1 s2).
    - eexists _, _. split; [reflexivity|]. split; [|reflexivity]. reflexivity.
    - apply run_ret. vm_compute. reflexivity.
    - apply (reads_chunk _ _ s3 (recvdata s3).2).
      + eexists _, _. split; [vm_compute; reflexivity|]. split; [|reflexivity]. vm_compute. reflexivity.
      + apply run_ret. vm_compute. reflexivity.
      + apply reads_nil. }
  eexists. split; [exact Hr|].
  apply (recvdata_any_chunking s (recvdata s3).2 sample_chunks).
  - apply quiet_listeners_safe.
  - apply sample_rx_receiving.
  - reflexivity.
  - exact Hr.
Defined.

(** Whole messages reach their blocks.  After [recvdata] on a stream of valid messages,
    each known block holds the body of its last message that had one, its counter grew by
    its number of messages, its listeners were called once per message with a body, in
    order, with that body; the messages with an unknown id only grow [ukncount]; and
    nothing is left in the buffer. *)
Theorem messages_delivered {B} `{EvBufferLaws B} `{EpicsEnv} (s : PSC B) (ms : list psc_msg) :
  listeners_safe → receiving s → memory_ok (B:=B) → counts_u32 (view (base s)) →
  pending s = None → stream s = encode_msgs ms → Forall valid_msg ms →
  ∃ s', recvdata s = (Ret tt, s') ∧ receiving s' ∧ stream s' = [] ∧ pending s' = None ∧
    msgs_done (view (base s)) ms (view (base s')).
Proof.
  intros Hsafe Hr Hmem Hcnt Hp Hst Hms. pose proof (recvdata_spec s Hsafe Hr) as Hspec.
  assert (Hdec : decode (pending s) (stream s) = Decoded (msgs_events ms) None [] false).
  { rewrite Hp, Hst, <-(app_nil_r (encode_msgs ms)), decode_msgs by done.
    rewrite decode_short by done. unfold prepend. cbn. by rewrite app_nil_r. }
  destruct (recvdata s) as [[[]|e|c] s']; [|by destruct Hspec|done].
  exists s'. split; [done|]. destruct Hspec as [Hd|[Herr ? ? ? ? ? ?]].
  - destruct Hd as (? & _ & Hv & Hp' & Hs' & _). rewrite Hdec in Hv, Hp', Hs'.
    split_and!; try done. rewrite Hv. by apply spec_msgs.
  - by rewrite Hdec in Herr.
Qed.

Definition sample_msgs : list psc_msg := [(42, [Byte.x01; Byte.x02]); (9, [Byte.x03]); (42, []); (7, [Byte.xff])].

Lemma messages_delivered_witness :
  let H := quiet_env in
  let s := sample_rx (encode_msgs sample_msgs) in
  ∃ s', recvdata s = (Ret tt, s') ∧ receiving s' ∧ stream s' = [] ∧ pending s' = None ∧
    msgs_done (view (base s)) sample_msgs (view (base s')).
Proof.
  intros H s. apply (messages_delivered s sample_msgs).
  - apply quiet_listeners_safe.
  - apply sample_rx_receiving.
  - apply chainbuf_memory_ok.
  - split; [reflexivity|]. apply (bool_decide_unpack _). vm_compute. reflexivity.
  - reflexivity.
  - vm_compute. reflexivity.
  - repeat constructor; cbn; unfold zlen; cbn; lia.
Defined.

(** When [recvdata] returns with the connection open, the low watermark is what the
    decoder waits for, more than what is buffered, and the high watermark is above it: so
    libevent goes on reading until the next stage can run, and then calls back. *)
Theorem recvdata_waits_for_next_stage {B} `{EvBufferLaws B} `{EpicsEnv} (s s' : PSC B) :
  listeners_safe → receiving s → recvdata s = (Ret tt, s') → connected (base s') = true →
  ∃ b', session s' = Some b' ∧ rd_low b' = expect s' ∧
    rd_low b' = match pending s' with Some (_, n) => n | None => HEADER_SIZE end ∧
    zlen (stream s') < rd_low b' < rd_high b'.
Proof.
  intros Hsafe Hr Hrecv Hconn. pose proof (recvdata_spec s Hsafe Hr) as Hspec.
  rewrite Hrecv in Hspec. destruct Hspec as [Hd|[? ? Hc ? ? ? ?]]; [|congruence].
  destruct Hd as (Hr' & _ & _ & _ & _ & _ & _ & _ & b & b' & _ & Es' & _ & _ & _ & Hlow & Hlt).
  exists b'. split_and!; try done; [|lia|lia].
  by rewrite Hlow, <-(rcv_expect s' Hr').
Qed.

Lemma recvdata_waits_for_next_stage_witness :
  let H := quiet_env in
  let s := sample_rx (put_header 42 (2 ^ 20) ++ [Byte.x01]) in
  let s' := (recvdata s).2 in
  ∃ b', session s' = Some b' ∧ rd_low b' = expect s' ∧
    rd_low b' = match pending s' with Some (_, n) => n | None => HEADER_SIZE end ∧
    zlen (stream s') < rd_low b' < rd_high b'.
Proof.
  intros H s s'. apply (recvdata_waits_for_next_stage s s').
  - apply quiet_listeners_safe.
  - apply sample_rx_receiving.
  - apply (run_ret recvdata s tt). vm_compute. reflexivity.
  - vm_compute. reflexivity.
Defined.

(** When [dbuffer::consume] throws for lack of memory, the exception ends [recvdata]
    (the callback prints it) but loses nothing: the messages before are delivered, the
    connection stays up, and decoding the bytes still buffered gives exactly the messages
    that were not delivered. *)
Theorem recvdata_failure_keeps_stream {B} `{EvBufferLaws B} `{EpicsEnv} (s s' : PSC B) e :
  listeners_safe → receiving s → recvdata s = (Throw e, s') →
  ∃ evs, receiving s' ∧ view (base s') = spec_events (view (base s)) evs ∧
    decode (pending s) (stream s) = prepend evs (decode (pending s') (stream s')) ∧
    bev_datacb s = (Ret tt, s').
Proof.
  intros Hsafe Hr Hrecv. pose proof (recvdata_spec s Hsafe Hr) as Hspec.
  rewrite Hrecv in Hspec. destruct Hspec as [[evs [? ? ? ?]] _]. exists evs.
  split_and!; try done. unfold bev_datacb, with_bev. mstep.
  destruct (session s) eqn:Es; [|by destruct (rcv_session s Hr)]. cbn.
  by rewrite (catch_throw _ _ _ _ _ Hrecv).
Qed.

Lemma recvdata_failure_keeps_stream_witness :
  let H := quiet_env in
  let E := ChainBuf.starved_evbuffer in
  let s := sample_rx (put_header 7 0 ++ put_header 42 1 ++ [Byte.x01]) in
  let s' := (@recvdata _ E H s).2 in
  ∃ evs, receiving s' ∧ view (base s') = spec_events (view (base s)) evs ∧
    decode (pending s) (@stream _ E s) = prepend evs (decode (pending s') (@stream _ E s')) ∧
    @bev_datacb _ E H s = (Ret tt, s').
Proof.
  intros H E s s'.
  apply (@recvdata_failure_keeps_stream _ E ChainBuf.starved_laws H s s' BadAlloc).
  - apply quiet_listeners_safe.
  - apply sample_rx_receiving.
  - vm_compute. reflexivity.
Defined.
