(* ===== verification/PscTcpConn.v ===== *)
(** * The connection state machine

    Theorems about [connect], [reconnect], [start_reconnect], [eventcb] and the callbacks
    (coreApp/src/psc.cpp, pscwrap.cpp) as a transition system: what libevent, EPICS
    threads and the reconnect timer can do to a driver, in any order. *)

From S2P Require Import Prelude EvBuffer Dbuffer Block Wire PscBase PscTcp PscTcpRx.

Section conn.
Context {B : Type} `{EvBufferLaws B} `{EpicsEnv}.
Context `{PscConfig} `{RecordSupport B}.
Implicit Types s : PSC B.

(** ** Transitions *)

(** Calls other threads make with the lock held: record processing, and EPICS reporting
    the end of a scan.  A call that crashes ends the run. *)
Inductive pub_step : PSC B → PSC B → Prop :=
  | pub_bytes k buf s o s' : is_Some (send_blocks (base s) !! k) →
      queueSend_bytes k buf s = (o, s') → (∀ c, o ≠ Crash c) → pub_step s s'
  | pub_block k buf s o s' : is_Some (send_blocks (base s) !! k) →
      queueSend_block k buf s = (o, s') → (∀ c, o ≠ Crash c) → pub_step s s'
  | pub_id id buf s o s' :
      queueSend id buf s = (o, s') → (∀ c, o ≠ Crash c) → pub_step s s'
  | pub_flush s : pub_step s (flushSend s).2
  | pub_force s : pub_step s (forceReConnect s).2
  | pub_scanned k prio mask b b' s :
      recv_blocks (base s) !! k = Some b → scanned prio mask b = (Ret tt, b') →
      pub_step s (set_base (set_recv_blocks (<[k := b']> (recv_blocks (base s))) (base s)) s).

(** One step of the driver.  libevent runs the callbacks of an open session only, reads
    only when reading is enabled, and runs the timer when it was added; [ok] says which
    results the calls that start a connection may have. *)
Inductive conn_step (ok : Net B → Prop) : PSC B → PSC B → Prop :=
  | conn_pub s s' : pub_step s s' → conn_step ok s s'
  | conn_event evt s s' : session s ≠ None → bev_eventcb evt s = (Ret tt, s') → conn_step ok s s'
  | conn_arrives chunk s s' : arrives chunk s s' → conn_step ok s s'
  | conn_data s b s' : session s = Some b → enabled b = true →
      bev_datacb s = (Ret tt, s') → conn_step ok s s'
  | conn_timer net s s' : timer_active s = true → ok net →
      bev_reconnect net s = (Ret tt, s') → conn_step ok s s'.

(** ** Invariant *)

Record conn_inv s : Prop := {
  ci_connected : connected (base s) = true → session s ≠ None;
  ci_timer : session s ≠ None → timer_active s = false;
  ci_enabled b : session s = Some b → enabled b = true → connected (base s) = true;
  ci_expect : session s ≠ None →
    expect s = match pending s with Some (_, n) => n | None => HEADER_SIZE end;
  ci_pos : session s ≠ None → have_head s = true → 0 < bodylen s;
  ci_block : session s ≠ None →
    bodyblock s =
      match pending s with
      | Some (id, _) => (λ _, id) <$> recv_blocks (base s) !! id
      | None => None
      end;
}.

Lemma conn_inv_receiving s : conn_inv s → connected (base s) = true → receiving s.
Proof. intros [Hc Ht He Hx Hp Hb] Hconn. specialize (Hc Hconn). split; auto. Qed.

Lemma receiving_conn_inv s : receiving s → conn_inv s.
Proof. intros [Hc Hs Ht He Hp Hb]. by split. Qed.

(** A state with no session satisfies it, whatever the decoder was doing. *)
Lemma conn_inv_closed s : connected (base s) = false → session s = None → conn_inv s.
Proof. intros Hc Hs. split; rewrite ?Hc, ?Hs; try done. Qed.

(** The part of the state the invariant reads: blocks by presence only. *)
Definition conn_part s :=
  (connected (base s), enabled <$> session s, timer_active s,
   (have_head s, header s, bodylen s, bodyblock s, expect s)).

Lemma conn_inv_part s s' :
  conn_part s' = conn_part s →
  dom (recv_blocks (base s')) = dom (recv_blocks (base s)) → conn_inv s → conn_inv s'.
Proof.
  intros Hp Hd [Hc Ht He Hx Hpo Hb]. unfold conn_part in Hp.
  injection Hp as Ec Ese Etm Ehh Ehd Ebl Ebb Eex.
  assert (Hses : session s' ≠ None ↔ session s ≠ None)
    by (destruct (session s), (session s'); done).
  assert (Hpend : pending s' = pending s) by (unfold pending; by rewrite Ehh, Ehd, Ebl).
  split; rewrite ?Hses, ?Ec, ?Etm, ?Ehh, ?Ebl, ?Ebb, ?Eex, ?Hpend; auto.
  - intros b Hb' Hen. rewrite Hb' in Ese. destruct (session s) as [b0|]; [|done].
    apply (He b0); [done|]. cbn in Ese. congruence.
  - intros Hs. rewrite Hb by done. destruct (pending s) as [[id n]|]; [|done].
    assert (Hk : is_Some (recv_blocks (base s) !! id) ↔ is_Some (recv_blocks (base s') !! id))
      by (rewrite <-!elem_of_dom, Hd; done).
    destruct (recv_blocks (base s) !! id) eqn:E1, (recv_blocks (base s') !! id) eqn:E2; try done.
    + by destruct Hk as [[? ?] _]; eauto.
    + by destruct Hk as [_ [? ?]]; eauto.
Qed.

(** Sending changes the send buffer, the send blocks and the session's output only. *)
Definition tx_frame s s' : Prop :=
  conn_part s' = conn_part s ∧ recv_blocks (base s') = recv_blocks (base s).

Lemma tx_frame_inv s s' : tx_frame s s' → conn_inv s → conn_inv s'.
Proof. intros [Hp Hr]. apply conn_inv_part; [done|by rewrite Hr]. Qed.

#[local] Instance tx_frame_preorder : PreOrder tx_frame.
Proof. split; [by intros ?|]. intros s1 s2 s3 [? ?] [? ?]. split; congruence. Qed.

Lemma queueHeader_frame k n : stays tx_frame (queueHeader k n).
Proof.
  intros s. unfold queueHeader, bind, get, base_op, zoom, send_block, throw, abort, modify, ret.
  destruct (connected (base s)) eqn:Ec; cbn; [|done].
  destruct (send_blocks (base s) !! k); cbn; [|done].
  repeat (case_match; cbn; try done).
  all: repeat case_match; simplify_eq; done.
Qed.

Lemma mark_queued_frame k : stays tx_frame (mark_queued (B:=B) k).
Proof. by intros s. Qed.

Lemma queueSend_bytes_frame k buf : stays tx_frame (queueSend_bytes k buf).
Proof.
  apply stays_bind; [apply _|apply queueHeader_frame|intros _].
  apply stays_bind; [apply _|by intros s|intros s].
  apply stays_bind; [apply _| |intros _; apply mark_queued_frame].
  destruct (evbuffer_add (sendbuf s) buf); by intros s'.
Qed.

Lemma queueSend_block_frame k buf : stays tx_frame (queueSend_block k buf).
Proof.
  apply stays_bind; [apply _|apply queueHeader_frame|intros _].
  apply stays_bind; [apply _| |intros _; apply mark_queued_frame].
  apply stays_zoom. by intros s b.
Qed.

Lemma queueSend_frame id buf : stays tx_frame (queueSend id buf).
Proof.
  apply stays_bind; [apply _| |intros k; apply queueSend_bytes_frame].
  intros s. unfold base_op, zoom, getSend. by destruct (send_blocks (base s) !! u16 id).
Qed.

Lemma flushSend_frame : stays tx_frame flushSend.
Proof.
  intros s. unfold flushSend, bind, get. destruct (connected (base s)); [|done]. cbn.
  destruct (session s) as [b|] eqn:Es; [|done].
  destruct (_ && _); [done|].
  destruct (evbuffer_add_buffer _ _) as [[tx sb]|]; [|done].
  split; [|done]. unfold conn_part. cbn. by rewrite Es.
Qed.

(** Closing the session: the decoder state is dead until [connect] resets it. *)
Lemma start_reconnect_inv s :
  session s ≠ None → timer_active s = false →
  ∃ s', start_reconnect s = (Ret tt, s') ∧ conn_inv s' ∧ connected (base s') = false ∧
    session s' = None ∧ timer_active s' = true.
Proof.
  intros Hs Ht. unfold start_reconnect. mstep.
  destruct (session s) as [b|] eqn:Es; [|done]. rewrite Ht.
  eexists. split; [reflexivity|]. split_and!; done.
Qed.

Lemma forceReConnect_inv s : conn_inv s → conn_inv (forceReConnect s).2 ∧ (forceReConnect s).1 = Ret tt.
Proof.
  intros Hi. unfold forceReConnect. mstep.
  destruct (connected (base s)) eqn:Ec; cbn [negb]; [|done].
  pose proof (ci_connected s Hi Ec) as Hs.
  destruct (start_reconnect_inv s Hs (ci_timer s Hi Hs)) as (s' & -> & Hi' & _). done.
Qed.

Lemma pub_step_inv s s' : pub_step s s' → conn_inv s → conn_inv s'.
Proof.
  intros Hstep Hi. destruct Hstep as [k buf s o s' _ E _|k buf s o s' _ E _|id buf s o s' E _|s|s|k prio mask b b' s Hk E].
  - pose proof (queueSend_bytes_frame k buf s) as Hf. rewrite E in Hf. by eapply tx_frame_inv.
  - pose proof (queueSend_block_frame k buf s) as Hf. rewrite E in Hf. by eapply tx_frame_inv.
  - pose proof (queueSend_frame id buf s) as Hf. rewrite E in Hf. by eapply tx_frame_inv.
  - eapply tx_frame_inv, Hi. apply flushSend_frame.
  - by apply forceReConnect_inv.
  - eapply conn_inv_part, Hi; [done|]. cbn. rewrite dom_insert_L.
    apply elem_of_dom_2 in Hk. set_solver.
Qed.

(** A driver that is trying: it has a session, or the timer will start one. *)
Definition alive s : Prop := session s ≠ None ∨ timer_active s = true.

Lemma alive_part s s' : conn_part s' = conn_part s → alive s → alive s'.
Proof.
  unfold conn_part, alive. intros Hp. injection Hp as _ Es -> _ _ _ _ _.
  destruct (session s), (session s'); try done; intros [?|?]; try done; [by left|by right].
Qed.

Lemma pub_step_alive s s' : pub_step s s' → conn_inv s → alive s → alive s'.
Proof.
  intros Hstep Hi. destruct Hstep as [k buf s o s' _ E _|k buf s o s' _ E _|id buf s o s' E _|s|s|k prio mask b b' s Hk E].
  - pose proof (queueSend_bytes_frame k buf s) as [Hf _]. rewrite E in Hf. by apply alive_part.
  - pose proof (queueSend_block_frame k buf s) as [Hf _]. rewrite E in Hf. by apply alive_part.
  - pose proof (queueSend_frame id buf s) as [Hf _]. rewrite E in Hf. by apply alive_part.
  - apply alive_part, flushSend_frame.
  - unfold forceReConnect. destruct (connected (base s)) eqn:Ec; [|by unfold bind, get; rewrite Ec].
    pose proof (ci_connected s Hi Ec) as Hs.
    destruct (start_reconnect_inv s Hs (ci_timer s Hi Hs)) as (s' & E & _ & _ & _ & Ht).
    unfold bind, get. rewrite Ec. cbn [negb]. rewrite E. intros _. by right.
  - by apply alive_part.
Qed.

(** Record processing calls the driver through its public functions, and returns:
    device support catches the exceptions. *)
Definition records_ok : Prop :=
  ∀ prec s, (dbProcess prec s).1 = Ret tt ∧ rtc pub_step s (dbProcess prec s).2.

Definition good s : Prop := conn_inv s ∧ alive s.

Lemma pub_steps_good s s' : rtc pub_step s s' → good s → good s'.
Proof.
  induction 1 as [|s1 s2 s3 Hstep _ IH]; [done|]. intros [Hi Ha]. apply IH.
  split; [by eapply pub_step_inv|by eapply pub_step_alive].
Qed.

(** Changes of the base that the invariant does not see. *)
Lemma good_base s bs :
  connected bs = connected (base s) → dom (recv_blocks bs) = dom (recv_blocks (base s)) →
  good s → good (set_base bs s).
Proof.
  intros Hc Hd [Hi Ha]. assert (Hp : conn_part (set_base bs s) = conn_part s)
    by (unfold conn_part; cbn; by rewrite Hc).
  split; [by eapply conn_inv_part|by eapply alive_part].
Qed.

Lemma process_on_connect_good l s :
  records_ok → good s →
  ∃ s', process_on_connect l s = (Ret tt, s') ∧ good s'.
Proof.
  intros Hrec. revert s. induction l as [|prec l IH]; intros s Hg; cbn [process_on_connect].
  { by exists s. }
  mstep. match goal with |- context [bind (dbProcess prec) _ ?x] => set (s1 := x) end.
  destruct (Hrec prec s1) as [Hret Hsteps].
  erewrite bind_ret by (apply run_ret, Hret). apply IH.
  eapply pub_steps_good; [exact Hsteps|]. by apply good_base.
Qed.

Lemma eventcb_good evt s :
  records_ok → conn_inv s → session s ≠ None →
  ∃ s', eventcb evt s = (Ret tt, s') ∧ good s'.
Proof.
  intros Hrec Hi Hs. unfold eventcb. mstep.
  destruct (has evt BEV_EVENT_CONNECTED).
  - destruct (session s) as [b|] eqn:Es; [|done].
    erewrite bind_ret by (unfold on_session; rewrite Es; reflexivity). do 4 mstep.
    match goal with |- context [bind (process_on_connect ?l) _ ?x] =>
      destruct (process_on_connect_good l x Hrec) as (s' & E & Hg) end.
    { destruct Hi as [Hc Ht He Hx Hp Hb]. split; [|by left].
      rewrite Es in *. split; cbn; try done; by auto. }
    erewrite bind_ret by exact E. eexists. split; [reflexivity|]. by apply good_base.
  - destruct (has evt _).
    + destruct (start_reconnect_inv s Hs (ci_timer s Hi Hs)) as (s' & E & Hi' & Hc' & Hs' & Ht').
      erewrite bind_ret by exact E. eexists. split; [reflexivity|].
      apply good_base; [done|done|]. apply good_base; [done|done|]. split; [done|by right].
    + exists s. split; [done|]. split; [done|by left].
Qed.

(** Starting a connection. *)
Lemma connect_spec net s :
  connected (base s) = false → session s = None → timer_active s = false →
  match net_socket_new net with
  | None => ∃ s', connect net s = (Throw BadAlloc, s') ∧ conn_inv s' ∧
      connected (base s') = false ∧ session s' = None ∧ timer_active s' = false
  | Some _ => ∃ s', connect net s = (Ret tt, s') ∧ good s' ∧ connected (base s') = false ∧
      have_head s' = false ∧ bodyblock s' = None ∧ expect s' = HEADER_SIZE
  end.
Proof.
  intros Hc Hs Ht. unfold connect. mstep. rewrite Hc, Hs, Ht. do 8 mstep.
  destruct (net_socket_new net) as [[i o]|].
  - destruct ((PSCInactivityTime >? 0) && (net_set_timeouts net =? 0)),
      (negb (net_connect net =? 0));
      (eexists; split; [reflexivity|]); (split; [|done]);
      (split; [split; cbn; intros; simplify_eq; congruence|]); unfold alive; cbn; auto.
  - mstep. eexists. split; [reflexivity|]. split_and!; try done. by apply conn_inv_closed.
Qed.

Lemma bev_reconnect_good net s :
  conn_inv s → timer_active s = true →
  match net_socket_new net with
  | None => ∃ s', bev_reconnect net s = (Ret tt, s') ∧ conn_inv s' ∧
      connected (base s') = false ∧ session s' = None ∧ timer_active s' = false
  | Some _ => ∃ s', bev_reconnect net s = (Ret tt, s') ∧ good s'
  end.
Proof.
  intros Hi Ht.
  assert (Hs : session s = None).
  { destruct (session s) eqn:Es; [|done]. pose proof (ci_timer s Hi) as Hx.
    rewrite Es in Hx. by rewrite Hx in Ht. }
  assert (Hc : connected (base s) = false).
  { apply not_true_is_false. intros Hc. by apply (ci_connected s Hi Hc). }
  unfold bev_reconnect, reconnect.
  pose proof (connect_spec net (set_timer_active false s) Hc Hs eq_refl) as Hconn.
  destruct (net_socket_new net) as [[i o]|].
  - destruct Hconn as (s' & E & Hg & _). exists s'. split; [|done]. apply catch_ret.
    mstep. rewrite Hc, Hs. do 3 mstep. erewrite bind_ret by exact E. mstep.
    destruct Hg as [_ [Ha|Ha]].
    + by destruct (session s').
    + rewrite Ha. by destruct (session s').
  - destruct Hconn as (s' & E & Hrest). exists s'. split; [|done].
    rewrite (catch_throw _ _ _ BadAlloc s'); [done|].
    mstep. rewrite Hc, Hs. do 3 mstep. by erewrite bind_throw by exact E.
Qed.

Lemma bev_datacb_good s :
  listeners_safe → conn_inv s → connected (base s) = true →
  ∃ s', bev_datacb s = (Ret tt, s') ∧ good s'.
Proof.
  intros Hsafe Hi Hc. pose proof (conn_inv_receiving s Hi Hc) as Hr.
  unfold bev_datacb, with_bev. mstep.
  destruct (session s) as [b|] eqn:Es; [|by destruct (rcv_session s Hr)]. cbn [is_some].
  pose proof (recvdata_spec s Hsafe Hr) as Hspec.
  destruct (recvdata s) as [[[]|e|c] s'] eqn:E; [| |done].
  - exists s'. split; [by apply catch_ret|]. destruct Hspec as [Hd|Hf].
    + destruct Hd as [Hr' _]. split; [by apply receiving_conn_inv|left; apply (rcv_session s' Hr')].
    + destruct Hf. split; [by apply conn_inv_closed|by right].
  - exists s'. split; [by rewrite (catch_throw _ _ _ _ _ E)|].
    destruct Hspec as [[evs Hrun] _]. pose proof (run_receiving _ _ _ Hrun) as Hr'.
    split; [by apply receiving_conn_inv|left; apply (rcv_session s' Hr')].
Qed.

Lemma bev_eventcb_good evt s :
  records_ok → conn_inv s → session s ≠ None →
  ∃ s', bev_eventcb evt s = (Ret tt, s') ∧ good s'.
Proof.
  intros Hrec Hi Hs. destruct (eventcb_good evt s Hrec Hi Hs) as (s' & E & Hg).
  exists s'. split; [|done]. unfold bev_eventcb, with_bev. mstep.
  destruct (session s); [|done]. by apply catch_ret.
Qed.

Lemma arrives_part chunk s s' :
  arrives chunk s s' → conn_part s' = conn_part s ∧ base s' = base s.
Proof. intros (b & i & Es & _ & ->). unfold conn_part. cbn. by rewrite Es. Qed.

Lemma conn_step_inv ok s s' :
  records_ok → listeners_safe → conn_step ok s s' → conn_inv s → conn_inv s'.
Proof.
  intros Hrec Hsafe Hstep Hi.
  destruct Hstep as [s s' Hp|evt s s' Hs E|chunk s s' Ha|s b s' Hs Hen E|net s s' Ht _ E].
  - by eapply pub_step_inv.
  - destruct (bev_eventcb_good evt s Hrec Hi Hs) as (s1 & E1 & [Hg _]). congruence.
  - destruct (arrives_part _ _ _ Ha) as [Hp Hb]. eapply conn_inv_part; [done|by rewrite Hb|done].
  - destruct (bev_datacb_good s Hsafe Hi) as (s1 & E1 & [Hg _]); [by apply (ci_enabled s Hi b)|].
    congruence.
  - pose proof (bev_reconnect_good net s Hi Ht) as Hr.
    destruct (net_socket_new net); [destruct Hr as (s1 & E1 & [Hg _])|destruct Hr as (s1 & E1 & Hg & _)];
      congruence.
Qed.

Lemma conn_steps_inv ok s s' :
  records_ok → listeners_safe → rtc (conn_step ok) s s' → conn_inv s → conn_inv s'.
Proof. intros Hrec Hsafe. induction 1; [done|]. eauto using conn_step_inv. Qed.

(** A new driver after its first [connect]. *)
Lemma fresh_inv net name host port mask sb : conn_inv (connect net (new_PSC name host port mask sb)).2.
Proof.
  pose proof (connect_spec net (new_PSC name host port mask sb) eq_refl eq_refl eq_refl) as Hc.
  destruct (net_socket_new net).
  - by destruct Hc as (s' & -> & [Hi _] & _).
  - by destruct Hc as (s' & -> & Hi & _).
Qed.

Lemma conn_step_alive s s' :
  records_ok → listeners_safe → conn_step (λ net, net_socket_new net ≠ None) s s' →
  conn_inv s → alive s → alive s'.
Proof.
  intros Hrec Hsafe Hstep Hi Ha.
  destruct Hstep as [s s' Hp|evt s s' Hs E|chunk s s' Har|s b s' Hs Hen E|net s s' Ht Hok E].
  - by eapply pub_step_alive.
  - destruct (bev_eventcb_good evt s Hrec Hi Hs) as (s1 & E1 & [_ Hg]). congruence.
  - destruct (arrives_part _ _ _ Har) as [Hp _]. by eapply alive_part.
  - destruct (bev_datacb_good s Hsafe Hi) as (s1 & E1 & [_ Hg]); [by apply (ci_enabled s Hi b)|].
    congruence.
  - pose proof (bev_reconnect_good net s Hi Ht) as Hr.
    destruct (net_socket_new net); [|done]. destruct Hr as (s1 & E1 & [_ Hg]). congruence.
Qed.

(** A driver that has given up: nothing is open and nothing is scheduled. *)
Definition dead s : Prop :=
  connected (base s) = false ∧ session s = None ∧ timer_active s = false.

Lemma dead_part s s' : conn_part s' = conn_part s → dead s → dead s'.
Proof.
  unfold conn_part, dead. intros Hp. injection Hp as -> Es -> _ _ _ _ _.
  intros (? & Hs & ?). rewrite Hs in Es. by destruct (session s').
Qed.

Lemma pub_step_dead s s' : pub_step s s' → dead s → dead s'.
Proof.
  intros Hstep Hd. destruct Hstep as [k buf s o s' _ E _|k buf s o s' _ E _|id buf s o s' E _|s|s|k prio mask b b' s Hk E].
  - pose proof (queueSend_bytes_frame k buf s) as [Hf _]. rewrite E in Hf. by eapply dead_part.
  - pose proof (queueSend_block_frame k buf s) as [Hf _]. rewrite E in Hf. by eapply dead_part.
  - pose proof (queueSend_frame id buf s) as [Hf _]. rewrite E in Hf. by eapply dead_part.
  - eapply dead_part, Hd. apply flushSend_frame.
  - unfold forceReConnect, bind, get. destruct Hd as (Hc & ? & ?). by rewrite Hc.
  - done.
Qed.

Lemma conn_step_dead ok s s' : conn_step ok s s' → dead s → dead s'.
Proof.
  intros Hstep Hd. pose proof Hd as (Hc & Hs & Ht).
  destruct Hstep as [s s' Hp|evt s s' Hs' _|chunk s s' (b & i & Es & _)|s b s' Es _ _|net s s' Ht' _ _];
    [by eapply pub_step_dead|congruence..].
Qed.

End conn.

(** ** Properties *)

(** Settings, and records whose processing does nothing; used to evaluate. *)
Definition default_config : PscConfig :=
  {| PSCInactivityTime := 5; PSCMaxSendBuffer := 1024 * 1024 |}.
Definition quiet_records : RecordSupport ChainBuf.chainbuf :=
  {| dbProcess _ := ret tt; socket_error := "Connection refused" |}.
Definition sample_net : Net ChainBuf.chainbuf :=
  MkNet (Some (ChainBuf.of_bytes [], ChainBuf.of_bytes [])) 0 0.
Definition sample_psc : PSC ChainBuf.chainbuf :=
  new_PSC "dev" "host" 8765 1 (ChainBuf.of_bytes []).

Lemma quiet_records_ok : @records_ok _ _ default_config quiet_records.
Proof. intros prec s. split; [done|apply rtc_refl]. Qed.

(** C10: No assertion of the driver fails and no null session is used, whatever libevent,
    the timer and the record threads do: in every state reached from a fresh driver by
    [connect], every callback libevent can make next returns, and so does
    [forceReConnect].  This holds also when allocating a session fails. *)
Theorem callbacks_never_abort {B} `{EvBufferLaws B} `{EpicsEnv} `{PscConfig}
    `{RecordSupport B} name host port mask sb net (s0 s : PSC B) ok :
  records_ok → listeners_safe → (connect net (new_PSC name host port mask sb)).2 = s0 →
  rtc (conn_step ok) s0 s →
  (connected (base s) = true → session s ≠ None ∧ timer_active s = false) ∧
  (∀ evt, session s ≠ None → ∃ s', bev_eventcb evt s = (Ret tt, s')) ∧
  (∀ b, session s = Some b → enabled b = true → ∃ s', bev_datacb s = (Ret tt, s')) ∧
  (∀ net', timer_active s = true → ∃ s', bev_reconnect net' s = (Ret tt, s')) ∧
  (∃ s', forceReConnect s = (Ret tt, s')).
Proof.
  intros Hrec Hsafe <- Hr.
  assert (Hi : conn_inv s) by (eapply conn_steps_inv; [done|done|exact Hr|apply fresh_inv]).
  split_and!.
  - intros Hc. pose proof (ci_connected s Hi Hc) as Hses. by split; [|apply (ci_timer s Hi)].
  - intros evt Hs. destruct (bev_eventcb_good evt s Hrec Hi Hs) as (s' & E & _). eauto.
  - intros b Hs Hen. destruct (bev_datacb_good s Hsafe Hi) as (s' & E & _); [by apply (ci_enabled s Hi b)|].
    eauto.
  - intros net' Ht. pose proof (bev_reconnect_good net' s Hi Ht) as Hx.
    destruct (net_socket_new net'); destruct Hx as (s' & E & _); eauto.
  - pose proof (forceReConnect_inv s Hi) as [_ E]. eexists. by apply run_ret.
Qed.

Lemma callbacks_never_abort_witness :
  let H := quiet_env in let C := default_config in let R := quiet_records in
  let s0 := (connect sample_net sample_psc).2 in
  let s := (bev_eventcb BEV_EVENT_CONNECTED s0).2 in
  connected (base s) = true ∧
  ((connected (base s) = true → session s ≠ None ∧ timer_active s = false) ∧
   (∀ evt, session s ≠ None → ∃ s', bev_eventcb evt s = (Ret tt, s')) ∧
   (∀ b, session s = Some b → enabled b = true → ∃ s', bev_datacb s = (Ret tt, s')) ∧
   (∀ net', timer_active s = true → ∃ s', bev_reconnect net' s = (Ret tt, s')) ∧
   (∃ s', forceReConnect s = (Ret tt, s'))).
Proof.
  intros H C R s0 s. split; [reflexivity|].
  apply (callbacks_never_abort "dev" "host" 8765 1 (ChainBuf.of_bytes []) sample_net s0 s (λ _, True)).
  - apply quiet_records_ok.
  - apply quiet_listeners_safe.
  - reflexivity.
  - eapply rtc_l; [|apply rtc_refl].
    apply (conn_event _ BEV_EVENT_CONNECTED); [done|].
    apply (run_ret (bev_eventcb BEV_EVENT_CONNECTED) s0 tt). vm_compute. reflexivity.
Defined.

(** C11: As long as new sessions can be allocated the driver never gives up: in every
    reachable state it has a session or the reconnect timer is running, and when the
    timer fires the callback leaves a session or the timer again. *)
Theorem always_reconnects {B} `{EvBufferLaws B} `{EpicsEnv} `{PscConfig}
    `{RecordSupport B} name host port mask sb net (s : PSC B) :
  records_ok → listeners_safe → net_socket_new net ≠ None →
  rtc (conn_step (λ net, net_socket_new net ≠ None))
    (connect net (new_PSC name host port mask sb)).2 s →
  (session s ≠ None ∨ timer_active s = true) ∧
  ∀ net' s', timer_active s = true → net_socket_new net' ≠ None →
    bev_reconnect net' s = (Ret tt, s') → session s' ≠ None ∨ timer_active s' = true.
Proof.
  intros Hrec Hsafe Hnet Hr.
  assert (Hg : good s).
  { pose proof (connect_spec net (new_PSC name host port mask sb) eq_refl eq_refl eq_refl) as Hc.
    destruct (net_socket_new net); [|done]. destruct Hc as (s0 & Hs0 & Hg0 & _).
    rewrite Hs0 in Hr. cbn [snd] in Hr. clear Hs0.
    induction Hr as [|s1 s2 s3 Hstep _ IH]; [done|]. destruct Hg0 as [Hi Ha]. apply IH.
    split; [by eapply conn_step_inv|by eapply conn_step_alive]. }
  split; [apply Hg|]. intros net' s' Ht Hok E. destruct Hg as [Hi Ha].
  pose proof (bev_reconnect_good net' s Hi Ht) as Hx.
  destruct (net_socket_new net'); [|done]. destruct Hx as (s1 & E1 & [_ Ha1]).
  rewrite E in E1. injection E1 as <-. exact Ha1.
Qed.

Lemma always_reconnects_witness :
  let H := quiet_env in let C := default_config in let R := quiet_records in
  let s := (bev_eventcb BEV_EVENT_EOF (connect sample_net sample_psc).2).2 in
  timer_active s = true ∧
  ((session s ≠ None ∨ timer_active s = true) ∧
   ∀ net' s', timer_active s = true → net_socket_new net' ≠ None →
    bev_reconnect net' s = (Ret tt, s') → session s' ≠ None ∨ timer_active s' = true).
Proof.
  intros H C R s. split; [reflexivity|].
  apply (always_reconnects "dev" "host" 8765 1 (ChainBuf.of_bytes []) sample_net s).
  - apply quiet_records_ok.
  - apply quiet_listeners_safe.
  - done.
  - eapply rtc_l; [|apply rtc_refl].
    apply (conn_event _ BEV_EVENT_EOF); [done|].
    apply (run_ret (bev_eventcb BEV_EVENT_EOF) (connect sample_net sample_psc).2 tt).
    vm_compute. reflexivity.
Defined.

(** When [bufferevent_socket_new] fails in the reconnect timer, [connect] throws after
    [timer_active] was cleared: the callback prints the exception and the driver is left
    with no session and no timer, and nothing that can happen afterwards connects it
    again. *)
Theorem failed_allocation_is_final {B} `{EvBufferLaws B} `{EpicsEnv} `{PscConfig}
    `{RecordSupport B} net (s : PSC B) ok :
  connected (base s) = false → session s = None → timer_active s = true →
  net_socket_new net = None →
  ∃ s', bev_reconnect net s = (Ret tt, s') ∧
    ∀ s'', rtc (conn_step ok) s' s'' →
      connected (base s'') = false ∧ session s'' = None ∧ timer_active s'' = false.
Proof.
  intros Hc Hs Ht Hnet.
  pose proof (bev_reconnect_good net s (conn_inv_closed s Hc Hs) Ht) as Hx.
  rewrite Hnet in Hx. destruct Hx as (s' & E & _ & Hdead). exists s'. split; [done|].
  clear E. intros s''. change (rtc (conn_step ok) s' s'' → dead s'').
  induction 1 as [|s1 s2 s3 Hstep _ IH]; [done|].
  exact (IH (conn_step_dead _ _ _ Hstep Hdead)).
Qed.

Lemma failed_allocation_is_final_witness :
  let H := quiet_env in let C := default_config in let R := quiet_records in
  let s := (bev_eventcb BEV_EVENT_EOF (connect sample_net sample_psc).2).2 in
  ∃ s', bev_reconnect (MkNet None 0 0) s = (Ret tt, s') ∧
    ∀ s'', rtc (conn_step (λ _, True)) s' s'' →
      connected (base s'') = false ∧ session s'' = None ∧ timer_active s'' = false.
Proof.
  intros H C R s.
  by apply (failed_allocation_is_final (MkNet None 0 0) s (λ _, True)).
Defined.

(** What the event callback reports.  Connecting enables reading, counts the
    connection, scans and processes the [ProcOnConn] records before anything else runs; an
    error, end of file or timeout closes the session, schedules a reconnect in 5 seconds
    and stores the reason; other events change nothing. *)
Theorem eventcb_reports {B} `{EvBufferLaws B} `{EpicsEnv} `{PscConfig}
    `{RecordSupport B} evt (s : PSC B) :
  records_ok → conn_inv s → session s ≠ None → procOnConnect (base s) = [] →
  ∃ s', bev_eventcb evt s = (Ret tt, s') ∧
    if has evt BEV_EVENT_CONNECTED then
      connected (base s') = true ∧ message (base s') = "Connected"%string ∧
      conncount (base s') = u32 (conncount (base s) + 1) ∧
      (∃ b', session s' = Some b' ∧ enabled b' = true) ∧
      log (base s') = log (base s) ++ [EScanOnConnect; EScanStatus]
    else if has evt BEV_EVENT_ERROR || has evt BEV_EVENT_EOF || has evt BEV_EVENT_TIMEOUT then
      connected (base s') = false ∧ session s' = None ∧ timer_active s' = true ∧
      message (base s') = event_message (connected (base s)) evt ∧
      log (base s') = log (base s) ++ [EFreeSession; ETimerAdd 5; EScanStatus]
    else s' = s.
Proof.
  intros Hrec Hi Hs Hp. unfold bev_eventcb, with_bev.
  destruct (session s) as [b|] eqn:Es; [|done].
  pose proof (ci_timer s Hi ltac:(by rewrite Es)) as Ht.
  assert (Hor : ∀ a b c, has evt (Z.lor a (Z.lor b c)) = has evt a || has evt b || has evt c).
  { intros x y z. unfold has. rewrite !Z.land_lor_distr_r.
    generalize (Z.land evt x), (Z.land evt y), (Z.land evt z). intros p q r.
    destruct (Z.eqb_spec p 0) as [->|Hx], (Z.eqb_spec q 0) as [->|Hy],
      (Z.eqb_spec r 0) as [->|Hz]; cbn [negb orb]; try done.
    all: apply negb_true_iff, Z.eqb_neq; intros [? [? ?]%Z.lor_eq_0_iff]%Z.lor_eq_0_iff; done. }
  mstep. rewrite Es. cbn [is_some].
  unfold catch, eventcb. unfold bind at 1. unfold get at 1. rewrite Hor, Hp.
  destruct (has evt BEV_EVENT_CONNECTED).
  - eexists. split.
    + unfold bind, on_session. rewrite Es. reflexivity.
    + cbn. split_and!; try done; [by eexists|]. by rewrite <-app_assoc.
  - destruct (has evt BEV_EVENT_ERROR || has evt BEV_EVENT_EOF || has evt BEV_EVENT_TIMEOUT); [|eauto].
    unfold start_reconnect, bind, get. rewrite Es, Ht. eexists. split; [reflexivity|].
    cbn. split_and!; try done. by rewrite <-!app_assoc.
Qed.

Lemma eventcb_reports_witness :
  let H := quiet_env in let C := default_config in let R := quiet_records in
  let s := (bev_eventcb BEV_EVENT_CONNECTED (connect sample_net sample_psc).2).2 in
  let evt := Z.lor BEV_EVENT_READING BEV_EVENT_TIMEOUT in
  event_message true evt = "RX Data Timeout"%string ∧
  ∃ s', bev_eventcb evt s = (Ret tt, s') ∧
    if has evt BEV_EVENT_CONNECTED then
      connected (base s') = true ∧ message (base s') = "Connected"%string ∧
      conncount (base s') = u32 (conncount (base s) + 1) ∧
      (∃ b', session s' = Some b' ∧ enabled b' = true) ∧
      log (base s') = log (base s) ++ [EScanOnConnect; EScanStatus]
    else if has evt BEV_EVENT_ERROR || has evt BEV_EVENT_EOF || has evt BEV_EVENT_TIMEOUT then
      connected (base s') = false ∧ session s' = None ∧ timer_active s' = true ∧
      message (base s') = event_message (connected (base s)) evt ∧
      log (base s') = log (base s) ++ [EFreeSession; ETimerAdd 5; EScanStatus]
    else s' = s.
Proof.
  intros H C R s evt. split; [reflexivity|]. apply (eventcb_reports evt s).
  - apply quiet_records_ok.
  - apply receiving_conn_inv. by split.
  - done.
  - reflexivity.
Defined.

(** A callback that the event loop has already taken, and that waits for the driver's
    lock while another thread forces a reconnect, then locks a null session: the callbacks
    use [psc->session] instead of the bufferevent they are called for. *)
Theorem stale_callback_crashes {B} `{EvBufferLaws B} `{EpicsEnv} `{PscConfig}
    `{RecordSupport B} (s : PSC B) :
  conn_inv s → connected (base s) = true →
  ∃ s', forceReConnect s = (Ret tt, s') ∧ bev_datacb s' = (Crash NullDeref, s') ∧
    ∀ evt, bev_eventcb evt s' = (Crash NullDeref, s').
Proof.
  intros Hi Hc. pose proof (ci_connected s Hi Hc) as Hs.
  destruct (start_reconnect_inv s Hs (ci_timer s Hi Hs)) as (s' & E & _ & _ & Hs' & _).
  exists s'. unfold forceReConnect, bind, get. rewrite Hc. cbn [negb]. split; [done|].
  unfold bev_datacb, bev_eventcb, with_bev, bind, get. by rewrite Hs'.
Qed.

Lemma stale_callback_crashes_witness :
  let H := quiet_env in let C := default_config in let R := quiet_records in
  let s := (bev_eventcb BEV_EVENT_CONNECTED (connect sample_net sample_psc).2).2 in
  ∃ s', forceReConnect s = (Ret tt, s') ∧ bev_datacb s' = (Crash NullDeref, s') ∧
    ∀ evt, bev_eventcb evt s' = (Crash NullDeref, s').
Proof.
  intros H C R s. apply (stale_callback_crashes s).
  - apply receiving_conn_inv. by split.
  - reflexivity.
Defined.

(** Shutdown.  [stopinloop] leaves no session and no timer, and cancels the timer that
    was running; but it frees the session only when the connection is established, so a
    session that is still connecting is dropped without being freed. *)
Theorem stopinloop_releases {B} `{EvBufferLaws B} (s : PSC B) :
  conn_inv s →
  ∃ s', stopinloop s = (Ret tt, s') ∧ session s' = None ∧ timer_active s' = false ∧
    log (base s') = log (base s) ++
      (if connected (base s) then [EFreeSession] else []) ++
      (if timer_active s then [ETimerDel] else []).
Proof.
  intros Hi. unfold stopinloop. mstep. destruct (connected (base s)) eqn:Hc.
  - pose proof (ci_connected s Hi Hc) as Hs. pose proof (ci_timer s Hi Hs) as Ht. rewrite Ht.
    destruct (session s); [|done]. eexists. split; [reflexivity|]. cbn.
    done.
  - destruct (timer_active s); (eexists; split; [reflexivity|]); cbn; by rewrite ?app_nil_r.
Qed.

Lemma stopinloop_releases_witness :
  let H := quiet_env in let C := default_config in let R := quiet_records in
  let s := (connect sample_net sample_psc).2 in
  session s ≠ None ∧
  ∃ s', stopinloop s = (Ret tt, s') ∧ session s' = None ∧ timer_active s' = false ∧
    log (base s') = log (base s) ++
      (if connected (base s) then [EFreeSession] else []) ++
      (if timer_active s then [ETimerDel] else []).
Proof. intros H C R s. split; [done|]. apply (stopinloop_releases s). split; cbn; intros; by simplify_eq. Defined.
