(* ===== verification/PscTcpTx.v ===== *)
(** * The TCP send queue

    Theorems about [queueHeader], [queueSend] and [flushSend] (coreApp/src/psc.cpp): what
    reaches the socket is a sequence of well formed messages, one for every call that
    returned, as long as messages are queued while connected. *)

From S2P Require Import Prelude EvBuffer Dbuffer Block Wire PscBase PscTcp PscTcpRx.

Section tx.
Context {B : Type} `{EvBufferLaws B} `{PscConfig}.
Implicit Types (s : PSC B) (q : list psc_msg).

(** ** The queue *)

(** The send buffer holds exactly the messages [q], each from another block, and the
    [queued] flags tell which. *)
Record tx_inv s q : Prop := {
  txq_data : evbuffer_data (sendbuf s) = encode_msgs q;
  txq_valid : Forall valid_msg q;
  txq_nodup : NoDup q.*1;
  txq_dom k : k ∈ q.*1 → is_Some (send_blocks (base s) !! k);
  txq_blocks k b : send_blocks (base s) !! k = Some b →
    code b = k ∧ 0 ≤ k < 2 ^ 16 ∧ (queued b = true ↔ k ∈ q.*1);
}.

(** A limit is set and the buffer has reached it. *)
Definition over_limit (len : Z) : bool := (PSCMaxSendBuffer >? 0) && (len >=? PSCMaxSendBuffer).

(** A message put into the queue: its bytes, the flag and the counter. *)
Definition enqueued s k b (sb : B) : PSC B :=
  set_base (set_send_blocks (<[k := incr_count (set_queued true b)]> (send_blocks (base s))) (base s))
    (set_sendbuf sb s).

Lemma queueHeader_spec s k b buflen :
  connected (base s) = true → send_blocks (base s) !! k = Some b → code b = k →
  0 ≤ buflen < 2 ^ 32 - 8 →
  queueHeader k buflen s =
    (if queued b then (Throw recAlarm, s)
     else if over_limit (zlen (evbuffer_data (sendbuf s)))
     then (Throw (RuntimeError "Enqueuing message would exceed buffer"), s)
     else match evbuffer_expand (sendbuf s) (8 + buflen) with
          | None => (Throw (RuntimeError "Unable to enqueue message.  Insufficient memory."), s)
          | Some sb =>
              match evbuffer_add sb (put_header k buflen) with
              | Some sb' => (Ret tt, set_sendbuf sb' s)
              | None => (Crash AssertFail, set_sendbuf sb s)
              end
          end).
Proof.
  intros Hc Hk Hcode Hn. unfold queueHeader. mstep. rewrite Hc. cbn [negb].
  erewrite bind_ret by (unfold base_op, zoom, send_block; rewrite Hk; reflexivity).
  replace (set_base (base s) s) with s by by destruct s.
  rewrite Hcode, evbuffer_length_data, wrapU_small by lia. unfold over_limit.
  destruct (queued b); [done|].
  destruct (_ && _); [done|].
  destruct (evbuffer_expand _ _) as [sb|]; [|done]. mstep.
  destruct (evbuffer_add sb _) as [sb'|]; [|done]. by destruct s.
Qed.

(** After the header is in, there is room for the body. *)
Lemma header_room (sb : B) k n sb0 :
  0 ≤ n → evbuffer_expand sb (8 + n) = Some sb0 →
  ∃ sb1, evbuffer_add sb0 (put_header k n) = Some sb1 ∧
    evbuffer_data sb1 = evbuffer_data sb ++ put_header k n ∧ n ≤ evbuffer_room sb1.
Proof.
  intros Hn He. apply evbuffer_expand_spec in He as [Hd Hr].
  destruct (evbuffer_add_room sb0 (put_header k n)) as (sb1 & Ha & Hr1).
  { rewrite zlen_put_header. unfold HEADER_SIZE. lia. }
  exists sb1. rewrite zlen_put_header in Hr1. unfold HEADER_SIZE in Hr1.
  pose proof (evbuffer_add_data sb0 _ _ Ha) as Hdata. rewrite Hdata, Hd.
  split_and!; [done|done|lia].
Qed.

Lemma mark_queued_spec s k b :
  send_blocks (base s) !! k = Some b →
  mark_queued k s = (Ret tt, enqueued s k b (sendbuf s)).
Proof.
  intros Hk. unfold mark_queued, base_op, zoom, upd_send, modify, enqueued.
  rewrite (alter_alt_Some _ _ _ b Hk). by destruct s.
Qed.

Lemma enqueued_inv s q k b sb body :
  tx_inv s q → send_blocks (base s) !! k = Some b → queued b = false →
  evbuffer_data sb = evbuffer_data (sendbuf s) ++ encode_msg (k, body) → zlen body < 2 ^ 32 →
  tx_inv (enqueued s k b sb) (q ++ [(k, body)]).
Proof.
  intros [Hd Hv Hn Hm Hb] Hk Hq Hsb Hlen. destruct (Hb k b Hk) as (Hcode & Hrng & Hiff). split; cbn.
  - by rewrite Hsb, Hd, encode_msgs_snoc.
  - apply Forall_app. split; [done|]. constructor; [|done]. by split.
  - rewrite fmap_app. apply list.NoDup_app. split_and!; [done| |apply NoDup_singleton].
    intros k' Hin. cbn. rewrite list_elem_of_singleton. intros ->. apply Hiff in Hin. congruence.
  - intros k'. rewrite fmap_app, elem_of_app. cbn. rewrite list_elem_of_singleton.
    intros [Hin| ->]; [|rewrite lookup_insert_eq; eauto].
    destruct (decide (k' = k)) as [->|]; [rewrite lookup_insert_eq; eauto|].
    rewrite lookup_insert_ne by done. by apply Hm.
  - intros k' b'. rewrite fmap_app, elem_of_app. cbn. rewrite list_elem_of_singleton.
    destruct (decide (k' = k)) as [->|Hne].
    + rewrite lookup_insert_eq. intros [= <-]. cbn. split; [done|]. split; [done|]. naive_solver.
    + rewrite lookup_insert_ne by done. intros Hk'. destruct (Hb k' b' Hk') as (? & ? & Hi').
      split; [done|]. split; [done|]. naive_solver.
Qed.

(** Every outcome of putting a message into the queue of a connected driver. *)
Definition enqueue_outcome s k b body (r : outcome unit * PSC B) : Prop :=
  match r with
  | (Ret _, s') =>
      queued b = false ∧ over_limit (zlen (evbuffer_data (sendbuf s))) = false ∧
      ∃ sb, s' = enqueued s k b sb ∧
        evbuffer_data sb = evbuffer_data (sendbuf s) ++ encode_msg (k, body)
  | (Throw e, s') =>
      s' = s ∧
      (if queued b then e = recAlarm
       else if over_limit (zlen (evbuffer_data (sendbuf s)))
       then e = RuntimeError "Enqueuing message would exceed buffer"
       else evbuffer_expand (sendbuf s) (8 + zlen body) = None ∧
            e = RuntimeError "Unable to enqueue message.  Insufficient memory.")
  | (Crash _, _) => False
  end.

Lemma queueSend_bytes_any s k b body :
  connected (base s) = true → send_blocks (base s) !! k = Some b → code b = k →
  zlen body < 2 ^ 32 - 8 → enqueue_outcome s k b body (queueSend_bytes k body s).
Proof.
  intros Hc Hk Hcode Hn. pose proof (zlen_nonneg body). unfold queueSend_bytes.
  unfold bind at 1. rewrite (queueHeader_spec s k b) by (done || lia).
  destruct (queued b) eqn:Hq; [by cbn; rewrite Hq|].
  destruct (over_limit _) eqn:Ho; [by cbn; rewrite Hq, Ho|].
  destruct (evbuffer_expand (sendbuf s) (8 + zlen body)) as [sb0|] eqn:He; [|by cbn; rewrite Hq, Ho].
  destruct (header_room (sendbuf s) k (zlen body) sb0) as (sb1 & -> & Hd1 & Hr1); [lia|done|].
  mstep. cbn [sendbuf set_sendbuf].
  destruct (evbuffer_add_room sb1 body Hr1) as (sb2 & Ha & _). rewrite Ha. mstep.
  rewrite (mark_queued_spec _ k b) by done.
  split; [done|]. split; [done|]. exists sb2. split; [done|].
  rewrite (evbuffer_add_data sb1 _ _ Ha), Hd1. unfold encode_msg. by rewrite <-app_assoc.
Qed.

Lemma queueSend_block_any s k b d :
  connected (base s) = true → send_blocks (base s) !! k = Some b → code b = k →
  dbuffer_wf d → zlen (contents d) < 2 ^ 32 - 8 →
  enqueue_outcome s k b (contents d) (queueSend_block k d s).
Proof.
  intros Hc Hk Hcode Hwf Hn. pose proof (zlen_nonneg (contents d)). unfold queueSend_block.
  rewrite dbuffer_size_contents, wrapU_small by lia.
  unfold bind at 1. rewrite (queueHeader_spec s k b) by (done || lia).
  destruct (queued b) eqn:Hq; [by cbn; rewrite Hq|].
  destruct (over_limit _) eqn:Ho; [by cbn; rewrite Hq, Ho|].
  destruct (evbuffer_expand (sendbuf s) _) as [sb0|] eqn:He; [|by cbn; rewrite Hq, Ho].
  destruct (header_room (sendbuf s) k (zlen (contents d)) sb0) as (sb1 & -> & Hd1 & Hr1); [lia|done|].
  destruct (copyout_strides_flat (contents d) (strides d) 0 sb1) as (sb2 & Hcopy & Hd2);
    [lia|done|lia|].
  erewrite bind_ret by (apply zoom_eq, Hcopy).
  rewrite (mark_queued_spec _ k b) by done.
  split; [done|]. split; [done|]. exists sb2. split; [done|].
  rewrite Hd2, zdrop_neg, Hd1 by lia. unfold encode_msg. by rewrite <-app_assoc.
Qed.

Lemma queueSend_bytes_outcome s q k b body :
  connected (base s) = true → tx_inv s q → send_blocks (base s) !! k = Some b →
  zlen body < 2 ^ 32 - 8 → enqueue_outcome s k b body (queueSend_bytes k body s).
Proof. intros Hc Hinv Hk. apply queueSend_bytes_any; [done..|]. by destruct (txq_blocks s q Hinv k b Hk). Qed.

Lemma queueSend_block_outcome s q k b d :
  connected (base s) = true → tx_inv s q → send_blocks (base s) !! k = Some b →
  dbuffer_wf d → zlen (contents d) < 2 ^ 32 - 8 →
  enqueue_outcome s k b (contents d) (queueSend_block k d s).
Proof. intros Hc Hinv Hk. apply queueSend_block_any; [done..|]. by destruct (txq_blocks s q Hinv k b Hk). Qed.

(** Every outcome of a flush of a connected driver. *)
Definition flushed s b (tx sb : B) : PSC B :=
  set_base (set_send_blocks (set_queued false <$> send_blocks (base s)) (base s))
    (set_sendbuf sb (set_session (Some (set_output tx b)) s)).

Lemma flushSend_spec s b :
  connected (base s) = true → session s = Some b →
  flushSend s =
    (if over_limit (zlen (evbuffer_data (output b)))
     then (Throw (RuntimeError "Sending message would exceed buffer"), s)
     else match evbuffer_add_buffer (output b) (sendbuf s) with
          | None =>
              (Throw (RuntimeError "Unable to send messages!"),
               set_sendbuf (evbuffer_drain (sendbuf s) (zlen (evbuffer_data (sendbuf s)))) s)
          | Some (tx, sb) => (Ret tt, flushed s b tx sb)
          end).
Proof.
  intros Hc Hs. unfold flushSend. mstep. rewrite Hc, Hs, !evbuffer_length_data. cbn [negb].
  unfold over_limit. destruct (_ && _); [done|].
  by destruct (evbuffer_add_buffer _ _) as [[tx sb]|].
Qed.

Lemma flushed_inv s q b tx sb :
  tx_inv s q → evbuffer_data sb = [] → tx_inv (flushed s b tx sb) [].
Proof.
  intros [Hd Hv Hn Hm Hb] Hsb. split; cbn; [done|done|constructor|by intros k ?%elem_of_nil|].
  intros k b'. rewrite lookup_fmap. destruct (send_blocks (base s) !! k) as [b0|] eqn:Hk; [|done].
  intros [= <-]. cbn. destruct (Hb k b0 Hk) as (? & ? & _). split; [done|]. split; [done|].
  split; [done|]. by intros ?%elem_of_nil.
Qed.

Lemma getSend_inv s q id :
  tx_inv s q →
  ∃ s' b, base_op (getSend (u16 id)) s = (Ret (u16 id), s') ∧ tx_inv s' q ∧
    send_blocks (base s') !! u16 id = Some b ∧
    session s' = session s ∧ connected (base s') = connected (base s) ∧ sendbuf s' = sendbuf s ∧
    dom (send_blocks (base s)) ⊆ dom (send_blocks (base s')).
Proof.
  intros Hinv. pose proof Hinv as [Hd Hv Hn Hm Hb]. unfold base_op, zoom, getSend.
  destruct (send_blocks (base s) !! u16 id) as [b|] eqn:Hk.
  - exists s, b. split; [by destruct s|]. split_and!; done.
  - eexists _, _. split; [reflexivity|]. split; [|cbn; by rewrite lookup_insert_eq, dom_insert_L; split_and!; try done; set_solver].
    split; cbn; try done.
    + intros k Hin. destruct (decide (k = u16 id)) as [->|]; [rewrite lookup_insert_eq; eauto|].
      rewrite lookup_insert_ne by done. by apply Hm.
    + intros k b. destruct (decide (k = u16 id)) as [->|]; [|rewrite lookup_insert_ne by done; apply Hb].
      rewrite lookup_insert_eq. intros [= <-]. cbn. rewrite wrapU_wrapU by lia.
      split; [done|]. split; [by apply wrapU_range|]. split; [done|].
      intros Hin. apply Hm in Hin as [? Hin]. congruence.
Qed.

(** ** Sequences of calls *)

Inductive tx_call :=
  | TxBytes (k : Z) (body : list byte)     (** [queueSend(Block*, buf, len)] *)
  | TxBlock (k : Z) (d : dbuffer B)        (** [queueSend(Block*, dbuffer)] *)
  | TxId (id : Z) (body : list byte)       (** [queueSend(id, buf, len)] *)
  | TxFlush.                               (** [flushSend()] *)

Definition tx_op (c : tx_call) : M (PSC B) unit :=
  match c with
  | TxBytes k body => queueSend_bytes k body
  | TxBlock k d => queueSend_block k d
  | TxId id body => queueSend id body
  | TxFlush => flushSend
  end.

Definition tx_msg (c : tx_call) : list psc_msg :=
  match c with
  | TxBytes k body => [(k, body)]
  | TxBlock k d => [(k, contents d)]
  | TxId id body => [(u16 id, body)]
  | TxFlush => []
  end.

(** A block pointer is to a send block; a message is shorter than 4 GiB. *)
Definition tx_ok (blocks : gset Z) (c : tx_call) : Prop :=
  match c with
  | TxBytes k body => k ∈ blocks ∧ zlen body < 2 ^ 32 - 8
  | TxBlock k d => k ∈ blocks ∧ dbuffer_wf d ∧ zlen (contents d) < 2 ^ 32 - 8
  | TxId id body => zlen body < 2 ^ 32 - 8
  | TxFlush => True
  end.

(** Run the calls; the caller handles exceptions.  Result: the messages whose call
    returned, and whether the process survived. *)
Fixpoint run_calls (l : list tx_call) s : list psc_msg * bool * PSC B :=
  match l with
  | [] => ([], true, s)
  | c :: r =>
      match tx_op c s with
      | (Ret _, s') => let '(acc, alive, s'') := run_calls r s' in (tx_msg c ++ acc, alive, s'')
      | (Throw _, s') => run_calls r s'
      | (Crash _, s') => ([], false, s')
      end
  end.

(** A connected driver that handed [sent] to libevent since its output was [out0], with
    [q] still in its queue. *)
Definition tx_state (blocks : gset Z) (out0 : list byte) s (sent q : list psc_msg) : Prop :=
  connected (base s) = true ∧ tx_inv s q ∧ blocks ⊆ dom (send_blocks (base s)) ∧
  ∃ b, session s = Some b ∧ evbuffer_data (output b) = out0 ++ encode_msgs sent ∧
    Forall valid_msg sent.

Lemma tx_state_enqueued blocks out0 s sent q k b body (r : outcome unit * PSC B) :
  tx_state blocks out0 s sent q → send_blocks (base s) !! k = Some b → zlen body < 2 ^ 32 →
  enqueue_outcome s k b body r →
  match r with
  | (Ret _, s') => tx_state blocks out0 s' sent (q ++ [(k, body)])
  | (Throw _, s') => tx_state blocks out0 s' sent q
  | (Crash _, _) => False
  end.
Proof.
  intros (Hc & Hinv & Hdom & bv & Hs & Ho & Hvs) Hk Hlen Hout.
  destruct r as [[[]|e|c] s']; [| |done].
  - destruct Hout as (Hq & _ & sb & -> & Hd). split; [done|].
    split; [by eapply enqueued_inv|]. split; [|by exists bv].
    cbn. rewrite dom_insert_L. set_solver.
  - destruct Hout as [-> _]. split; [done|]. split; [done|]. split; [done|]. by exists bv.
Qed.

Lemma lt_slack n : n < 2 ^ 32 - 8 → n < 2 ^ 32.
Proof. lia. Qed.

Lemma tx_op_state blocks out0 c s sent q :
  (∀ dst src : B, evbuffer_add_buffer dst src ≠ None) →
  tx_ok blocks c → tx_state blocks out0 s sent q →
  match tx_op c s with
  | (Ret _, s') =>
      tx_state blocks out0 s' sent (q ++ tx_msg c) ∨
      (tx_msg c = [] ∧ tx_state blocks out0 s' (sent ++ q) [])
  | (Throw _, s') => tx_state blocks out0 s' sent q
  | (Crash _, _) => False
  end.
Proof.
  intros Hadd Hok Hst. pose proof Hst as (Hc & Hinv & Hdom & bv & Hs & Ho & Hvs).
  destruct c as [k body|k d|id body|]; cbn [tx_op tx_msg tx_ok] in *.
  - destruct Hok as [Hk Hlen]. apply Hdom, elem_of_dom in Hk as [b Hk].
    pose proof (tx_state_enqueued blocks out0 s sent q k b body _ Hst Hk (lt_slack _ Hlen)
      (queueSend_bytes_outcome s q k b body Hc Hinv Hk Hlen)) as Hx.
    destruct (queueSend_bytes k body s) as [[]?]; eauto.
  - destruct Hok as (Hk & Hwf & Hlen). apply Hdom, elem_of_dom in Hk as [b Hk].
    pose proof (tx_state_enqueued blocks out0 s sent q k b (contents d) _ Hst Hk (lt_slack _ Hlen)
      (queueSend_block_outcome s q k b d Hc Hinv Hk Hwf Hlen)) as Hx.
    destruct (queueSend_block k d s) as [[]?]; eauto.
  - destruct (getSend_inv s q id Hinv) as (s1 & b & Hg & Hinv1 & Hk & Hs1 & Hc1 & Hsb1 & Hdom1).
    assert (Hst1 : tx_state blocks out0 s1 sent q).
    { split; [by rewrite Hc1|]. split; [done|]. split; [set_solver|]. exists bv. by rewrite Hs1. }
    unfold queueSend. erewrite bind_ret by exact Hg. cbv beta.
    pose proof (tx_state_enqueued blocks out0 s1 sent q (u16 id) b body _ Hst1 Hk (lt_slack _ Hok)
      (queueSend_bytes_outcome s1 q (u16 id) b body ltac:(by rewrite Hc1) Hinv1 Hk Hok)) as Hx.
    destruct (queueSend_bytes (u16 id) body s1) as [[]?]; eauto.
  - rewrite (flushSend_spec s bv Hc Hs). destruct (over_limit _); [done|].
    specialize (Hadd (output bv) (sendbuf s)).
    destruct (evbuffer_add_buffer (output bv) (sendbuf s)) as [[tx sb]|] eqn:Ha; [|done].
    apply evbuffer_add_buffer_data in Ha as [Htx Hsb]. right. split; [done|].
    split; [done|]. split; [by eapply flushed_inv|]. split; [cbn; by rewrite dom_fmap_L|].
    eexists. split; [reflexivity|]. cbn.
    rewrite Htx, Ho, (txq_data s q Hinv), encode_msgs_app, app_assoc. split; [done|].
    apply Forall_app. split; [done|]. apply (txq_valid s q Hinv).
Qed.

Lemma run_calls_state blocks out0 l s sent q :
  (∀ dst src : B, evbuffer_add_buffer dst src ≠ None) →
  Forall (tx_ok blocks) l → tx_state blocks out0 s sent q →
  ∃ acc s' sent' q', run_calls l s = (acc, true, s') ∧ sent ++ q ++ acc = sent' ++ q' ∧
    tx_state blocks out0 s' sent' q'.
Proof.
  intros Hadd Hok. revert s sent q. induction Hok as [|c l Hc _ IH]; intros s sent q Hst.
  - exists [], s, sent, q. by rewrite app_nil_r.
  - cbn [run_calls]. pose proof (tx_op_state blocks out0 c s sent q Hadd Hc Hst) as Hx.
    destruct (tx_op c s) as [[[]|e|e] s1]; [| |done].
    + destruct Hx as [Hx|[Hnil Hx]].
      * destruct (IH s1 _ _ Hx) as (acc & s' & sent' & q' & -> & Hl & Hst').
        exists (tx_msg c ++ acc), s', sent', q'. split; [done|]. split; [|done].
        by rewrite <-Hl, <-app_assoc.
      * destruct (IH s1 _ _ Hx) as (acc & s' & sent' & q' & -> & Hl & Hst').
        exists acc, s', sent', q'. rewrite Hnil. split; [done|]. split; [|done].
        by rewrite <-Hl, <-app_assoc.
    + by apply IH.
Qed.

(** ** When libevent refuses a flush *)

(** What holds of the queue even then: a queued message is flagged, but a flag may be left
    of a message that was lost. *)
Record framed s q : Prop := {
  fr_data : evbuffer_data (sendbuf s) = encode_msgs q;
  fr_valid : Forall valid_msg q;
  fr_nodup : NoDup q.*1;
  fr_dom k : k ∈ q.*1 → is_Some (send_blocks (base s) !! k);
  fr_blocks k b : send_blocks (base s) !! k = Some b →
    code b = k ∧ 0 ≤ k < 2 ^ 16 ∧ (k ∈ q.*1 → queued b = true);
}.

Lemma tx_inv_framed s q : tx_inv s q → framed s q.
Proof.
  intros [Hd Hv Hn Hm Hb]. split; [done..|]. intros k b Hk. destruct (Hb k b Hk) as (? & ? & ?). naive_solver.
Qed.

Lemma enqueued_framed s q k b sb body :
  framed s q → send_blocks (base s) !! k = Some b → queued b = false →
  evbuffer_data sb = evbuffer_data (sendbuf s) ++ encode_msg (k, body) → zlen body < 2 ^ 32 →
  framed (enqueued s k b sb) (q ++ [(k, body)]).
Proof.
  intros [Hd Hv Hn Hm Hb] Hk Hq Hsb Hlen. destruct (Hb k b Hk) as (Hcode & Hrng & Hif). split; cbn.
  - by rewrite Hsb, Hd, encode_msgs_snoc.
  - apply Forall_app. split; [done|]. constructor; [|done]. by split.
  - rewrite fmap_app. apply list.NoDup_app. split_and!; [done| |apply NoDup_singleton].
    intros k' Hin. cbn. rewrite list_elem_of_singleton. intros ->. apply Hif in Hin. congruence.
  - intros k'. rewrite fmap_app, elem_of_app. cbn. rewrite list_elem_of_singleton.
    intros Hin. destruct (decide (k' = k)) as [->|Hne]; [rewrite lookup_insert_eq; eauto|].
    rewrite lookup_insert_ne by done. destruct Hin; [by apply Hm|done].
  - intros k' b' Hk'. apply lookup_insert_Some in Hk' as [[<- <-]|[Hne Hk']]; [cbn; auto|].
    destruct (Hb k' b' Hk') as (? & ? & ?). do 2 (split; [done|]).
    rewrite fmap_app, elem_of_app. cbn. rewrite list_elem_of_singleton. naive_solver.
Qed.

(** As [tx_state], with the weaker invariant. *)
Definition tx_lossy (blocks : gset Z) (out0 : list byte) s (sent q : list psc_msg) : Prop :=
  connected (base s) = true ∧ framed s q ∧ blocks ⊆ dom (send_blocks (base s)) ∧
  ∃ b, session s = Some b ∧ evbuffer_data (output b) = out0 ++ encode_msgs sent ∧
    Forall valid_msg sent.

Lemma tx_state_lossy blocks out0 s sent q : tx_state blocks out0 s sent q → tx_lossy blocks out0 s sent q.
Proof. intros (Hc & Hi & Hr). split; [done|]. split; [by apply tx_inv_framed|done]. Qed.

(** libevent can refuse to move a buffer. *)
Definition may_refuse : Prop := ∃ dst src : B, evbuffer_add_buffer dst src = None.

(** A call that returns adds its message to the stream or moves the queue into it; one that
    throws changes nothing, but for a flush that libevent refuses, which drops the queue. *)
Definition lossy_outcome blocks out0 sent q (ms : list psc_msg) (r : outcome unit * PSC B) : Prop :=
  match r with
  | (Ret _, s') =>
      tx_lossy blocks out0 s' sent (q ++ ms) ∨ (ms = [] ∧ tx_lossy blocks out0 s' (sent ++ q) [])
  | (Throw _, s') => tx_lossy blocks out0 s' sent q ∨ (may_refuse ∧ tx_lossy blocks out0 s' sent [])
  | (Crash _, _) => False
  end.

Lemma lossy_enqueued blocks out0 s sent q k b body r :
  tx_lossy blocks out0 s sent q → send_blocks (base s) !! k = Some b → zlen body < 2 ^ 32 →
  enqueue_outcome s k b body r → lossy_outcome blocks out0 sent q [(k, body)] r.
Proof.
  intros (Hc & Hf & Hdom & bv & Hs & Ho & Hvs) Hk Hlen Hout.
  destruct r as [[[]|e|c] s']; [| |done].
  - destruct Hout as (Hq & _ & sb & -> & Hd). left. split; [done|].
    split; [by eapply enqueued_framed|]. split; [|by exists bv]. cbn. rewrite dom_insert_L. set_solver.
  - destruct Hout as [-> _]. left. split_and!; [done..|]. by exists bv.
Qed.

(** [getSend] adds a block that is not queued, or nothing. *)
Lemma getSend_lossy blocks out0 s sent q id :
  tx_lossy blocks out0 s sent q →
  ∃ s' b, base_op (getSend (u16 id)) s = (Ret (u16 id), s') ∧ tx_lossy blocks out0 s' sent q ∧
    send_blocks (base s') !! u16 id = Some b.
Proof.
  intros (Hc & [Hd Hv Hn Hm Hb] & Hdom & bv & Hs & Ho & Hvs). unfold base_op, zoom, getSend.
  destruct (send_blocks (base s) !! u16 id) as [b|] eqn:Hk.
  - exists s, b. split; [by destruct s|]. split; [|done]. split_and!; [done..|]. by exists bv.
  - eexists _, _. split; [reflexivity|]. cbn. rewrite lookup_insert_eq. split; [|done].
    split; [done|]. split; [|split; [cbn; rewrite dom_insert_L; set_solver|by exists bv]]. split; cbn; try done.
    + intros k Hin. apply lookup_insert_is_Some'. right. by apply Hm.
    + intros k b [[<- <-]|[_ Hk']]%lookup_insert_Some; [|by apply Hb]. cbn. rewrite wrapU_wrapU by lia.
      split; [done|]. split; [by apply wrapU_range|]. intros Hin. apply Hm in Hin as [? Hin]. congruence.
Qed.

Lemma flush_lossy blocks out0 s sent q :
  tx_lossy blocks out0 s sent q → lossy_outcome blocks out0 sent q [] (flushSend s).
Proof.
  intros Hst. pose proof Hst as (Hc & [Hd Hv Hn Hm Hb] & Hdom & bv & Hs & Ho & Hvs).
  rewrite (flushSend_spec s bv Hc Hs). destruct (over_limit _); [by left|].
  destruct (evbuffer_add_buffer (output bv) (sendbuf s)) as [[tx sb]|] eqn:Ha; right.
  - apply evbuffer_add_buffer_data in Ha as [Htx Hsb]. split; [done|]. split; [done|].
    split; [|split; [cbn; by rewrite dom_fmap_L|]].
    + split; cbn; [done|done|constructor|by intros k ?%elem_of_nil|]. intros k b'. rewrite lookup_fmap.
      destruct (send_blocks (base s) !! k) as [b0|] eqn:Hk; [|done]. intros [= <-].
      destruct (Hb k b0 Hk) as (? & ? & _). do 2 (split; [done|]). by intros ?%elem_of_nil.
    + eexists. split; [reflexivity|]. cbn. rewrite Htx, Ho, Hd, encode_msgs_app, app_assoc. split; [done|].
      by apply Forall_app.
  - split; [by eexists _, _|]. split; [done|]. split; [|split; [done|by exists bv]].
    split; cbn; [|done|constructor|by intros k ?%elem_of_nil|].
    + rewrite evbuffer_drain_data by apply zlen_nonneg. by apply zdrop_all.
    + intros k b Hk. destruct (Hb k b Hk) as (? & ? & _). do 2 (split; [done|]). by intros ?%elem_of_nil.
Qed.

Lemma tx_op_lossy blocks out0 c s sent q :
  tx_ok blocks c → tx_lossy blocks out0 s sent q → lossy_outcome blocks out0 sent q (tx_msg c) (tx_op c s).
Proof.
  intros Hok Hst. pose proof Hst as (Hc & Hf & Hdom & _).
  destruct c as [k body|k d|id body|]; cbn [tx_op tx_msg tx_ok] in *; [..|by apply flush_lossy].
  - destruct Hok as [Hk Hlen]. apply Hdom, elem_of_dom in Hk as [b Hk].
    eapply lossy_enqueued, queueSend_bytes_any; [done|done|by apply lt_slack|done|done| |done].
    by destruct (fr_blocks s q Hf k b Hk).
  - destruct Hok as (Hk & Hwf & Hlen). apply Hdom, elem_of_dom in Hk as [b Hk].
    eapply lossy_enqueued, queueSend_block_any; [done|done|by apply lt_slack|done|done| |done..].
    by destruct (fr_blocks s q Hf k b Hk).
  - destruct (getSend_lossy blocks out0 s sent q id Hst) as (s1 & b & Hg & Hst1 & Hk).
    pose proof Hst1 as (Hc1 & Hf1 & _). unfold queueSend. erewrite bind_ret by exact Hg. cbv beta.
    eapply lossy_enqueued, queueSend_bytes_any; [done|done|by apply lt_slack|done|done| |done].
    by destruct (fr_blocks s1 q Hf1 _ b Hk).
Qed.

(** Any calls: what was sent and what is queued is part of what was accepted, and all of it
    when libevent refuses no flush. *)
Lemma run_calls_lossy blocks out0 l s sent q :
  Forall (tx_ok blocks) l → tx_lossy blocks out0 s sent q →
  ∃ acc s' sent' q', run_calls l s = (acc, true, s') ∧
    sent' ++ q' `sublist_of` sent ++ q ++ acc ∧ (¬ may_refuse → sent ++ q ++ acc = sent' ++ q') ∧
    tx_lossy blocks out0 s' sent' q'.
Proof.
  intros Hok. revert s sent q. induction Hok as [|c l Hc _ IH]; intros s sent q Hst.
  - exists [], s, sent, q. by rewrite app_nil_r.
  - cbn [run_calls]. pose proof (tx_op_lossy blocks out0 c s sent q Hc Hst) as Hx.
    destruct (tx_op c s) as [[[]|e|e] s1]; [| |done].
    + assert (∃ sent1 q1, tx_lossy blocks out0 s1 sent1 q1 ∧ sent1 ++ q1 = sent ++ q ++ tx_msg c) as (sent1 & q1 & Hx1 & E1).
      { destruct Hx as [Hx|[-> Hx]]; [by exists sent, (q ++ tx_msg c)|exists (sent ++ q), []].
        by rewrite !app_nil_r. }
      destruct (IH s1 _ _ Hx1) as (acc & s' & sent' & q' & -> & Hl & Hm & Hst').
      exists (tx_msg c ++ acc), s', sent', q'.
      assert (E : sent ++ q ++ tx_msg c ++ acc = sent1 ++ q1 ++ acc).
      { rewrite (app_assoc sent1), E1. by rewrite <-!app_assoc. }
      by rewrite E.
    + destruct Hx as [Hx|[Hr Hx]]; destruct (IH s1 _ _ Hx) as (acc & s' & sent' & q' & -> & Hl & Hm & Hst');
        exists acc, s', sent', q'; split_and!; try done.
      etrans; [exact Hl|]. apply sublist_app; [done|]. by apply sublist_inserts_l.
Qed.

End tx.

(** ** Properties *)

(** A connected driver with send blocks 10 and 11 and an empty queue; used to evaluate. *)
Definition sample_tx : PSC ChainBuf.chainbuf :=
  let s := sample_rx [] in
  set_base (set_send_blocks {[10 := new_Block 10; 11 := new_Block 11]} (base s)) s.

Definition sample_config : PscConfig := {| PSCInactivityTime := 5; PSCMaxSendBuffer := 20 |}.

Lemma sample_tx_inv : tx_inv sample_tx [].
Proof.
  split; [reflexivity|constructor|constructor|by intros k ?%elem_of_nil|].
  intros k b. cbn. rewrite lookup_insert_Some.
  intros [[<- <-]|[Hne [<- <-]%lookup_singleton_Some]]; cbn; (split; [done|]); (split; [lia|]);
    (split; [done|]); by intros ?%elem_of_nil.
Qed.

Lemma sample_tx_state : tx_state {[10; 11]} [] sample_tx [] [].
Proof.
  split; [done|]. split; [apply sample_tx_inv|]. split; [|by eexists].
  apply (bool_decide_unpack _). vm_compute. reflexivity.
Qed.

(** C25: Every outcome of [queueSend] on a connected driver.  It throws [recAlarm] when the
    block is already queued, an error when the buffer limit is reached or memory is short,
    and then changes nothing; otherwise exactly the encoded message is appended, the
    block is flagged and counted, and the buffer is at most one message over the limit.
    It never fails an assertion. *)
Theorem queueSend_outcomes {B} `{EvBufferLaws B} `{PscConfig} (s : PSC B) q k b body :
  connected (base s) = true → tx_inv s q → send_blocks (base s) !! k = Some b →
  zlen body < 2 ^ 32 - 8 →
  match queueSend_bytes k body s with
  | (Ret _, s') =>
      queued b = false ∧ tx_inv s' (q ++ [(k, body)]) ∧
      evbuffer_data (sendbuf s') = evbuffer_data (sendbuf s) ++ put_header k (zlen body) ++ body ∧
      (∃ b', send_blocks (base s') !! k = Some b' ∧ queued b' = true ∧
         count b' = u32 (count b + 1)) ∧
      (0 < PSCMaxSendBuffer →
         zlen (evbuffer_data (sendbuf s')) < PSCMaxSendBuffer + HEADER_SIZE + zlen body)
  | (Throw e, s') =>
      s' = s ∧
      (if queued b then e = recAlarm
       else if over_limit (zlen (evbuffer_data (sendbuf s)))
       then e = RuntimeError "Enqueuing message would exceed buffer"
       else evbuffer_expand (sendbuf s) (8 + zlen body) = None ∧
            e = RuntimeError "Unable to enqueue message.  Insufficient memory.")
  | (Crash _, _) => False
  end.
Proof.
  intros Hc Hinv Hk Hlen.
  pose proof (queueSend_bytes_outcome s q k b body Hc Hinv Hk Hlen) as Hx.
  destruct (queueSend_bytes k body s) as [[[]|e|c] s']; [|done|done].
  destruct Hx as (Hq & Ho & sb & -> & Hd). split; [done|].
  split; [apply enqueued_inv; try done; lia|]. cbn. rewrite Hd. unfold encode_msg. cbn [fst snd].
  split; [done|]. split; [rewrite lookup_insert_eq; by eexists|].
  intros Hmax. unfold over_limit in Ho. assert ((PSCMaxSendBuffer >? 0) = true) as Hm
    by (rewrite Z.gtb_ltb; by apply Z.ltb_lt).
  rewrite Hm in Ho. cbn [andb] in Ho. bool_to_prop.
  rewrite zlen_app, zlen_app, zlen_put_header. lia.
Qed.

Lemma queueSend_outcomes_witness :
  let C := sample_config in
  let s := sample_tx in
  match queueSend_bytes 10 [Byte.x01] s with
  | (Ret _, s') =>
      queued (new_Block (B:=ChainBuf.chainbuf) 10) = false ∧ tx_inv s' ([] ++ [(10, [Byte.x01])]) ∧
      evbuffer_data (sendbuf s') =
        evbuffer_data (sendbuf s) ++ put_header 10 (zlen [Byte.x01]) ++ [Byte.x01] ∧
      (∃ b', send_blocks (base s') !! 10 = Some b' ∧ queued b' = true ∧
         count b' = u32 (count (new_Block (B:=ChainBuf.chainbuf) 10) + 1)) ∧
      (0 < PSCMaxSendBuffer →
         zlen (evbuffer_data (sendbuf s')) < PSCMaxSendBuffer + HEADER_SIZE + zlen [Byte.x01])
  | (Throw e, s') =>
      s' = s ∧
      (if queued (new_Block (B:=ChainBuf.chainbuf) 10) then e = recAlarm
       else if over_limit (zlen (evbuffer_data (sendbuf s)))
       then e = RuntimeError "Enqueuing message would exceed buffer"
       else evbuffer_expand (sendbuf s) (8 + zlen [Byte.x01]) = None ∧
            e = RuntimeError "Unable to enqueue message.  Insufficient memory.")
  | (Crash _, _) => False
  end.
Proof.
  intros C s. apply (queueSend_outcomes s [] 10 (new_Block 10) [Byte.x01]).
  - reflexivity.
  - apply sample_tx_inv.
  - reflexivity.
  - unfold zlen. cbn. lia.
Defined.

(** C3: Framing of the transmitted stream.  Let calls queue messages of less than 4 GiB on a
    connected driver with an empty queue, for blocks it has, and flush them, in any order and
    whichever of them throw.  None ends the program, and the bytes handed to libevent since are the encoding of
    a list of messages, the send buffer that of another, no block in it twice.  Together they
    are the messages whose call returned, in call order; only a flush that libevent refuses,
    for want of memory, takes away those queued then. *)
Theorem tx_stream_is_framed {B} `{EvBufferLaws B} `{PscConfig} (s : PSC B) blocks out0 l :
  Forall (tx_ok blocks) l → tx_state blocks out0 s [] [] →
  ∃ acc s' sent q b, run_calls l s = (acc, true, s') ∧
    sent ++ q `sublist_of` acc ∧ ((∀ dst src : B, evbuffer_add_buffer dst src ≠ None) → acc = sent ++ q) ∧
    session s' = Some b ∧ evbuffer_data (output b) = out0 ++ encode_msgs sent ∧
    evbuffer_data (sendbuf s') = encode_msgs q ∧ Forall valid_msg (sent ++ q) ∧ NoDup q.*1.
Proof.
  intros Hok Hst.
  destruct (run_calls_lossy blocks out0 l s [] [] Hok (tx_state_lossy _ _ _ _ _ Hst))
    as (acc & s' & sent & q & E & Hl & Hm & _ & [Hd Hv Hn _ _] & _ & b & Hs & Ho & Hvs).
  exists acc, s', sent, q, b. split_and!; try done.
  - intros Hadd. apply Hm. intros (dst & src & Hr). by apply (Hadd dst src).
  - by apply Forall_app.
Qed.

Definition sample_calls : list (tx_call (B:=ChainBuf.chainbuf)) :=
  [TxBytes 10 [Byte.x01]; TxBytes 10 [Byte.x02]; TxId 12 [Byte.x03; Byte.x04]; TxFlush;
   TxBlock 10 (dbuffer_assign [Byte.x05] dbuffer_empty)].

Lemma sample_calls_ok : Forall (tx_ok {[10; 11]}) sample_calls.
Proof.
  assert (10 ∈ ({[10; 11]} : gset Z)) by set_solver.
  repeat constructor; try done; unfold zlen; cbn; try lia.
Qed.

Lemma tx_stream_is_framed_witness :
  let C := sample_config in
  (run_calls sample_calls sample_tx).1.1 = [(10, [Byte.x01]); (12, [Byte.x03; Byte.x04]); (10, [Byte.x05])] ∧
  ∃ acc s' sent q b, run_calls sample_calls sample_tx = (acc, true, s') ∧
    sent ++ q `sublist_of` acc ∧
    ((∀ dst src : ChainBuf.chainbuf, evbuffer_add_buffer dst src ≠ None) → acc = sent ++ q) ∧
    session s' = Some b ∧ evbuffer_data (output b) = [] ++ encode_msgs sent ∧
    evbuffer_data (sendbuf s') = encode_msgs q ∧ Forall valid_msg (sent ++ q) ∧ NoDup q.*1.
Proof.
  intros C. split; [vm_compute; reflexivity|].
  apply (tx_stream_is_framed sample_tx {[10; 11]} [] sample_calls).
  - apply sample_calls_ok.
  - apply sample_tx_state.
Defined.

(** C4: Transmit, then receive.  What one driver flushes, another receives: for any
    sequence of queueing and flushing calls, and however the network cuts the bytes into
    reads, the receiver delivers exactly the flushed messages, in order, to its blocks,
    counters and listeners. *)
Theorem tx_rx_roundtrip {B} `{EvBufferLaws B} `{EpicsEnv} `{PscConfig}
    (s s' r r' : PSC B) b blocks l acc alive chunks :
  (∀ dst src : B, evbuffer_add_buffer dst src ≠ None) → listeners_safe →
  Forall (tx_ok blocks) l → tx_state blocks [] s [] [] →
  run_calls l s = (acc, alive, s') → session s' = Some b →
  receiving r → pending r = None → stream r = [] → counts_u32 (view (base r)) →
  reads r chunks r' → concat chunks = evbuffer_data (output b) →
  ∃ sent q, acc = sent ++ q ∧ evbuffer_data (sendbuf s') = encode_msgs q ∧
    receiving r' ∧ stream r' = [] ∧ msgs_done (view (base r)) sent (view (base r')).
Proof.
  intros Hadd Hsafe Hok Hst Hrun Hs Hr Hp Hstr Hcnt Hreads Hch.
  destruct (run_calls_state blocks [] l s [] [] Hadd Hok Hst)
    as (acc' & s1 & sent & q & E & Hl & _ & [Hd Hv _ _ _] & _ & b' & Hs' & Ho & Hvs).
  rewrite Hrun in E. injection E as <- _ <-. rewrite Hs in Hs'. injection Hs' as <-.
  cbn in Hl, Ho. exists sent, q. split; [done|]. split; [done|].
  apply (reads_msgs r chunks r' sent); try done. by rewrite Hch.
Qed.

Lemma tx_rx_roundtrip_witness :
  let H := quiet_env in
  let C := sample_config in
  let s' := (run_calls sample_calls sample_tx).2 in
  let acc := [(10, [Byte.x01]); (12, [Byte.x03; Byte.x04]); (10, [Byte.x05])] in
  let out := put_header 10 1 ++ [Byte.x01] ++ put_header 12 2 ++ [Byte.x03; Byte.x04] in
  let r := sample_rx [] in
  let r1 := set_session (Some (Bev (ChainBuf.of_bytes out) (ChainBuf.of_bytes [])
                          8 min_max_buf_size true (None, None))) r in
  let r' := (recvdata r1).2 in
  ∃ sent q, acc = sent ++ q ∧ evbuffer_data (sendbuf s') = encode_msgs q ∧
    receiving r' ∧ stream r' = [] ∧ msgs_done (view (base r)) sent (view (base r')).
Proof.
  intros H C s' acc out r r1 r'.
  apply (tx_rx_roundtrip sample_tx s' r r'
    (Bev (ChainBuf.of_bytes []) (ChainBuf.Chain [[]; []; put_header 10 1; [Byte.x01]; put_header 12 2; [Byte.x03; Byte.x04]] (2 ^ 40))
       8 min_max_buf_size true (None, None)) {[10; 11]} sample_calls acc true [out]).
  - done.
  - apply quiet_listeners_safe.
  - apply sample_calls_ok.
  - apply sample_tx_state.
  - vm_compute. reflexivity.
  - vm_compute. reflexivity.
  - apply sample_rx_receiving.
  - reflexivity.
  - reflexivity.
  - split; [reflexivity|]. apply (bool_decide_unpack _). vm_compute. reflexivity.
  - apply (reads_chunk _ _ r1 r').
    + eexists _, _. split; [reflexivity|]. split; [|reflexivity]. reflexivity.
    + apply (run_ret recvdata r1 tt). vm_compute. reflexivity.
    + apply reads_nil.
  - vm_compute. reflexivity.
Defined.

(** C37: Queueing while disconnected breaks the framing.  [queueHeader] returns without a
    header, a check or an exception, and [queueSend] appends the bare body and flags the
    block all the same.  The buffer survives the reconnection: when the first eight bytes
    do not happen to be a header, the receiver of the next flush sees a framing error
    before any of the messages queued behind them. *)
Theorem disconnected_send_breaks_framing {B} `{EvBufferLaws B} `{PscConfig}
    (s : PSC B) k b body :
  connected (base s) = false → send_blocks (base s) !! k = Some b →
  evbuffer_data (sendbuf s) = [] → zlen body ≤ evbuffer_room (sendbuf s) →
  HEADER_SIZE ≤ zlen body → bad_frame (ztake HEADER_SIZE body) = true →
  ∃ s', queueSend_bytes k body s = (Ret tt, s') ∧ evbuffer_data (sendbuf s') = body ∧
    (∃ b', send_blocks (base s') !! k = Some b' ∧ queued b' = true) ∧
    ∀ ms, let r := decode None (evbuffer_data (sendbuf s') ++ encode_msgs ms) in
      dec_error r = true ∧ dec_events r = [].
Proof.
  intros Hc Hk Hsb Hroom Hlen Hbad.
  destruct (evbuffer_add_room (sendbuf s) body Hroom) as (sb & Ha & _).
  unfold queueSend_bytes, queueHeader. unfold bind at 1, bind at 1, get at 1. rewrite Hc. cbn [negb].
  unfold ret at 1. mstep. rewrite Ha. mstep. rewrite (mark_queued_spec _ k b) by done.
  eexists. split; [reflexivity|]. cbn. apply evbuffer_add_data in Ha. rewrite Ha, Hsb. cbn [app].
  split; [done|]. split; [rewrite lookup_insert_eq; by eexists|]. intros ms.
  rewrite decode_app, decode_head_eq, Hbad by done. unfold continue_with. cbn. done.
Qed.

Lemma disconnected_send_breaks_framing_witness :
  let C := sample_config in
  let s := set_base (set_connected false (base sample_tx)) sample_tx in
  let body := replicate 9 Byte.x00 in
  ∃ s', queueSend_bytes 10 body s = (Ret tt, s') ∧ evbuffer_data (sendbuf s') = body ∧
    (∃ b', send_blocks (base s') !! 10 = Some b' ∧ queued b' = true) ∧
    ∀ ms, let r := decode None (evbuffer_data (sendbuf s') ++ encode_msgs ms) in
      dec_error r = true ∧ dec_events r = [].
Proof.
  intros C s body.
  apply (disconnected_send_breaks_framing s 10 (new_Block 10) body);
    [reflexivity|reflexivity|reflexivity|..|reflexivity]; vm_compute; congruence.
Defined.

(** A flush that libevent refuses loses the queue: the send buffer is emptied before
    the exception, but every [queued] flag stays, so each of those blocks raises an alarm
    instead of being queued again until some later flush succeeds. *)
Theorem failed_flush_loses_queue {B} `{EvBufferLaws B} `{PscConfig} (s : PSC B) q bv k b body :
  connected (base s) = true → session s = Some bv → tx_inv s q →
  over_limit (zlen (evbuffer_data (output bv))) = false →
  evbuffer_add_buffer (output bv) (sendbuf s) = None →
  send_blocks (base s) !! k = Some b → k ∈ q.*1 → zlen body < 2 ^ 32 - 8 →
  ∃ s', flushSend s = (Throw (RuntimeError "Unable to send messages!"), s') ∧
    evbuffer_data (sendbuf s') = [] ∧ session s' = Some bv ∧
    queueSend_bytes k body s' = (Throw recAlarm, s').
Proof.
  intros Hc Hs Hinv Ho Hfail Hk Hin Hlen. rewrite (flushSend_spec s bv Hc Hs), Ho, Hfail.
  eexists. split; [reflexivity|]. cbn. split.
  { rewrite evbuffer_drain_data by apply zlen_nonneg. by apply zdrop_all. }
  split; [done|]. unfold queueSend_bytes, queueHeader. unfold bind at 1, bind at 1, get at 1.
  cbn [base set_sendbuf]. rewrite Hc. cbn [negb].
  assert (Hq : queued b = true) by by apply (txq_blocks s q Hinv k b Hk).
  unfold bind at 1. unfold base_op at 1, zoom at 1, send_block at 1. cbn [base set_sendbuf].
  rewrite Hk, Hq. by destruct s.
Qed.

(** [sample_tx] with one message queued for block 10. *)
Definition sample_queued : PSC ChainBuf.chainbuf :=
  enqueued sample_tx 10 (new_Block 10) (ChainBuf.of_bytes (encode_msg (10, [Byte.x01]))).

Lemma failed_flush_loses_queue_witness :
  let C := sample_config in
  let E := ChainBuf.starved_evbuffer in
  let bv := Bev (ChainBuf.of_bytes []) (ChainBuf.of_bytes []) 8 min_max_buf_size true (None, None) in
  ∃ s', @flushSend _ E C sample_queued = (Throw (RuntimeError "Unable to send messages!"), s') ∧
    @evbuffer_data _ E (sendbuf s') = [] ∧ session s' = Some bv ∧
    @queueSend_bytes _ E C 10 [Byte.x02] s' = (Throw recAlarm, s').
Proof.
  intros C E bv.
  apply (@failed_flush_loses_queue _ E ChainBuf.starved_laws C sample_queued [(10, [Byte.x01])] bv
    10 (incr_count (set_queued true (new_Block 10))) [Byte.x02]).
  - reflexivity.
  - reflexivity.
  - apply (@enqueued_inv _ E sample_tx [] 10 (new_Block 10)).
    + destruct sample_tx_inv. by split.
    + reflexivity.
    + reflexivity.
    + vm_compute. reflexivity.
    + unfold zlen. cbn. lia.
  - vm_compute. reflexivity.
  - reflexivity.
  - reflexivity.
  - by left.
  - unfold zlen. cbn. lia.
Defined.
