(* ===== verification/PscUdp.v ===== *)
(** * The UDP driver

    Class [PSCUDP] (coreApp/src/pscudp.cpp): one message per datagram.  Packets to send
    go through three lists of buffers (queued, ready to send, free for reuse); received
    datagrams go through one scratch buffer that is never cleared. *)

From S2P Require Import Prelude EvBuffer Dbuffer Block Wire PscBase.

Module Udp.

(** ** State *)

Record PSCUDP (B : Type) := MkPSCUDP {
  ubase : PSCBase B;
  rxscratch : list byte;
  sendbuf : list (list byte);
  txbuf : list (list byte);
  readybuf : list (list byte);
}.
Arguments MkPSCUDP {B}.
Arguments ubase {B} _.
Arguments rxscratch {B} _.
Arguments sendbuf {B} _.
Arguments txbuf {B} _.
Arguments readybuf {B} _.

(** What [recvfrom] finds next on the socket: a datagram, with whether its source address
    is that of the device, or an error other than "try again". *)
Inductive rx_dgram :=
  | Dgram (from_ep : bool) (pkt : list byte)
  | RxError (text : string).

(** What [sendto] answers. *)
Inductive tx_result :=
  | TxSent (n : Z)
  | TxAgain
  | TxError (text : string).

(** The network: the answer to the [n]-th [sendto]; [event_add] of the two events. *)
Class UdpNet := {
  udp_sendto : nat → list byte → tx_result;
  event_add_rx : Z;
  event_add_tx : Z;
}.

(** [dbProcess] of a record. *)
Class UdpRecords (B : Type) := udp_dbProcess : Z → M (PSCUDP B) unit.

Definition EV_TIMEOUT : Z := 0x01.
Definition EV_READ : Z := 0x02.
Definition EV_WRITE : Z := 0x04.
Definition ev_has (evt flag : Z) : bool := negb (Z.land evt flag =? 0).

Section setters.
Context {B : Type}.

Definition set_ubase (v : PSCBase B) (s : PSCUDP B) : PSCUDP B :=
  MkPSCUDP v (rxscratch s) (sendbuf s) (txbuf s) (readybuf s).
Definition set_rxscratch (v : list byte) (s : PSCUDP B) : PSCUDP B :=
  MkPSCUDP (ubase s) v (sendbuf s) (txbuf s) (readybuf s).
Definition set_sendbuf (v : list (list byte)) (s : PSCUDP B) : PSCUDP B :=
  MkPSCUDP (ubase s) (rxscratch s) v (txbuf s) (readybuf s).
Definition set_txbuf (v : list (list byte)) (s : PSCUDP B) : PSCUDP B :=
  MkPSCUDP (ubase s) (rxscratch s) (sendbuf s) v (readybuf s).
Definition set_readybuf (v : list (list byte)) (s : PSCUDP B) : PSCUDP B :=
  MkPSCUDP (ubase s) (rxscratch s) (sendbuf s) (txbuf s) v.
End setters.

(** ** Operations *)

Section udp.
Context {B : Type} `{EvBuffer B} `{EpicsEnv} `{UdpNet} `{UdpRecords B}.
Implicit Types s : PSCUDP B.

Definition on_ubase {A} (m : M (PSCBase B) A) : M (PSCUDP B) A := zoom ubase set_ubase m.

(** [conncount++; message = text] *)
Definition note_error (text : string) : M (PSCUDP B) unit :=
  on_ubase (modify (λ b, set_conncount (u32 (conncount b + 1)) b)) ;;;
  on_ubase (modify (set_message text)).

Definition incr_ukncount : M (PSCUDP B) unit :=
  on_ubase (modify (λ b, set_ukncount (u32 (ukncount b + 1)) b)).

(** [PSCUDP::PSCUDP]: the scratch buffer holds 1024 zero bytes. *)
Definition new_PSCUDP (name host : string) (hostport : Z) : PSCUDP B :=
  MkPSCUDP (new_PSCBase name host hostport) (replicate 1024 Byte.x00) [] [] [].

Fixpoint process_records (l : list Z) : M (PSCUDP B) unit :=
  match l with
  | [] => ret tt
  | prec :: r => on_ubase (emit (EDbProcess prec)) ;;; udp_dbProcess prec ;;; process_records r
  end.

(** [PSCUDP::connect()] *)
Definition connect : M (PSCUDP B) unit :=
  if negb (event_add_rx =? 0) then throw (RuntimeError "Failed to add Rx event")
  else
    on_ubase (emit EEventAddRx) ;;;
    on_ubase (modify (set_connected true)) ;;;
    on_ubase (emit EScanOnConnect) ;;;
    s <- get ;;
    process_records (procOnConnect (ubase s)).

(** [event_add(evt_tx, &timeout)] *)
Definition add_tx_event : M (PSCUDP B) unit :=
  if negb (event_add_tx =? 0) then throw (RuntimeError "Failed to add Tx event")
  else on_ubase (emit EEventAddTx).

(** [else if(scratch.size()!=(size_t)ret)] *)
Definition note_sent (scratch : list byte) (k : Z) : M (PSCUDP B) unit :=
  if negb (zlen scratch =? k) then note_error "Tx socket truncate" else ret tt.

(** After a packet was sent: move it to the free list while that is short; otherwise a
    buffer is dropped, from [readybuf]. *)
Definition retire_front (scratch : list byte) (rest : list (list byte)) : M (PSCUDP B) unit :=
  s <- get ;;
  if zlen (readybuf s) <? 64 then
    modify (set_readybuf (readybuf s ++ [scratch])) ;;;
    modify (set_txbuf rest)
  else modify (set_readybuf (tail (readybuf s))).

(** The loop of [senddata]; the result is [scanme]. *)
Fixpoint send_loop (fuel : nat) (scanme : bool) : M (PSCUDP B) bool :=
  match fuel with
  | O => abort OutOfFuel
  | S fuel' =>
      s <- get ;;
      match txbuf s with
      | [] => ret scanme
      | scratch :: rest =>
          n <- on_ubase tick ;;
          on_ubase (emit (ESendTo scratch)) ;;;
          match udp_sendto n scratch with
          | TxAgain => ret scanme
          | TxError text =>
              note_error ("Tx socket error: " +:+ text)%string ;;;
              ret true
          | TxSent k =>
              note_sent scratch k ;;;
              retire_front scratch rest ;;;
              send_loop fuel' (scanme || negb (zlen scratch =? k))
          end
      end
  end.

(** A round takes a packet off [txbuf], or one off a full [readybuf] so that the next
    round can. *)
Definition send_fuel s : nat := S (2 * length (txbuf s) + (length (readybuf s) - 63)).

(** [PSCUDP::senddata(short evt)] *)
Definition senddata (evt : Z) : M (PSCUDP B) unit :=
  s <- get ;;
  scanme <- (if ev_has evt EV_WRITE then send_loop (send_fuel s) false else ret false) ;;
  s <- get ;;
  when (negb (bool_decide (txbuf s = []))) add_tx_event ;;;
  when scanme (on_ubase (emit EScanStatus)).

(** [bodyblock.count++; bodyblock.data.assign(hbuf+8, bodylen); requestScan; listeners] *)
Definition deliver_packet (k : Z) (body : list byte) : M (PSCUDP B) unit :=
  on_ubase
    ((stamp_rxtime k ;;; upd_recv k incr_count) ;;;
     upd_recv k (λ b, set_data (dbuffer_assign body (data b)) b) ;;;
     (requestScan_recv k ;;; call_listeners k)).

(** One datagram that [recvfrom] returned: the body of the loop in [recvdata].  [recvfrom]
    stores what fits into the scratch buffer and returns that length.  The result is the
    new [scanme]. *)
Definition recv_packet (from_ep : bool) (pkt : list byte) (scanme : bool) : M (PSCUDP B) bool :=
  s <- get ;;
  let got := ztake (zlen (rxscratch s)) pkt in
  let ret_ := zlen got in
  let buf := zblit 0 got (rxscratch s) in
  modify (set_rxscratch buf) ;;;
  if negb from_ep then ret scanme
  else if ret_ <? 8 then
    incr_ukncount ;;;
    on_ubase (modify (set_message "small packet")) ;;;
    ret true
  else if bad_frame buf then
    on_ubase (modify (set_message "Corrupt packet!")) ;;;
    ret true
  else
    let header := get_msgid buf in
    let bodylen := get_bodylen buf in
    if bodylen >? u64 (zlen buf - 8) then
      on_ubase (modify (set_message "truncated body")) ;;;
      modify (set_rxscratch (zresize Byte.x00 (u32 (bodylen + 8)) buf)) ;;;
      incr_ukncount ;;;
      ret true
    else
      match recv_blocks (ubase s) !! header with
      | Some _ => deliver_packet header (zslice 8 bodylen buf) ;;; ret scanme
      | None => incr_ukncount ;;; ret scanme
      end.

(** The loop of [recvdata] over what is waiting on the socket; [recvfrom] says "try again"
    when nothing is left. *)
Fixpoint recv_packets (queue : list rx_dgram) (scanme : bool) : M (PSCUDP B) bool :=
  match queue with
  | [] => ret scanme
  | RxError text :: _ =>
      note_error ("Rx socket error: " +:+ text)%string ;;;
      ret true
  | Dgram from_ep pkt :: r =>
      scanme <- recv_packet from_ep pkt scanme ;;
      recv_packets r scanme
  end.

(** [PSCUDP::recvdata(short evt)] *)
Definition recvdata (evt : Z) (queue : list rx_dgram) : M (PSCUDP B) unit :=
  if ev_has evt EV_TIMEOUT then
    note_error "Rx timeout" ;;;
    on_ubase (emit EScanStatus)
  else if negb (ev_has evt EV_READ) then ret tt
  else
    scanme <- recv_packets queue false ;;
    when scanme (on_ubase (emit EScanStatus)).

(** [PSCUDP::flushSend()] *)
Definition flushSend : M (PSCUDP B) unit :=
  s <- get ;;
  if negb (connected (ubase s)) then ret tt
  else if zlen (txbuf s) >=? 64
  then throw (RuntimeError "Sending message would exceed buffer")
  else
    modify (set_txbuf (txbuf s ++ sendbuf s)) ;;;
    modify (set_sendbuf []) ;;;
    on_ubase (modify (λ p, set_send_blocks (set_queued false <$> send_blocks p) p)) ;;;
    add_tx_event.

(** [PSCUDP::queueHeader(blk, id, buflen)]: the packet at the back of [sendbuf], sized and
    with its header.  Stores behind the end of the vector are undefined. *)
Definition queueHeader (k : Z) (buflen : Z) : M (PSCUDP B) unit :=
  s <- get ;;
  if zlen (sendbuf s) >=? 64 then throw (RuntimeError "UDP send queue limit exceeded")
  else
    blk <- on_ubase (send_block k) ;;
    let '(scratch, ready) :=
      match readybuf s with [] => ([], []) | b :: r => (b, r) end in
    let scratch := zresize Byte.x00 (u32 (8 + buflen)) scratch in
    modify (set_readybuf ready) ;;;
    modify (set_sendbuf (sendbuf s ++ [scratch])) ;;;
    if zlen scratch <? 8 then abort OutOfBounds
    else modify (set_sendbuf (sendbuf s ++ [zblit 0 (put_header (code blk) buflen) scratch])).

(** Store a body behind the header of the packet at the back of [sendbuf]. *)
Definition fill_packet (body : list byte) : M (PSCUDP B) unit :=
  modify (λ s,
    match list.last (sendbuf s) with
    | Some scratch =>
        set_sendbuf (take (pred (length (sendbuf s))) (sendbuf s) ++ [zblit 8 body scratch]) s
    | None => s
    end).

(** [blk->queued = true; blk->count++] *)
Definition mark_queued (k : Z) : M (PSCUDP B) unit :=
  on_ubase (upd_send k (λ b, incr_count (set_queued true b))).

Definition back_size s : Z := match list.last (sendbuf s) with Some b => zlen b | None => 0 end.

(** [PSCUDP::queueSend(Block*, const dbuffer&)] *)
Definition queueSend_block (k : Z) (buf : dbuffer B) : M (PSCUDP B) unit :=
  queueHeader k (u32 (dbuffer_size buf)) ;;;
  s <- get ;;
  assert_ (back_size s =? 8 + dbuffer_size buf) ;;;
  (match dbuffer_copyout buf 0 (dbuffer_size buf) with
   | Ret (_, bytes) => fill_packet bytes
   | Throw e => throw e
   | Crash c => abort c
   end) ;;;
  mark_queued k.

(** [PSCUDP::queueSend(Block*, const void*, epicsUInt32)] *)
Definition queueSend_bytes (k : Z) (buf : list byte) : M (PSCUDP B) unit :=
  queueHeader k (zlen buf) ;;;
  s <- get ;;
  assert_ (back_size s =? u32 (8 + zlen buf)) ;;;
  fill_packet buf ;;;
  mark_queued k.

(** [PSCUDP::queueSend(epicsUInt16, const void*, epicsUInt32)] *)
Definition queueSend (id : Z) (buf : list byte) : M (PSCUDP B) unit :=
  k <- on_ubase (getSend (u16 id)) ;;
  queueSend_bytes k buf.

(** [PSCUDP::forceReConnect()], [PSCUDP::stopinloop()] *)
Definition forceReConnect : M (PSCUDP B) unit := ret tt.
Definition stopinloop : M (PSCUDP B) unit := ret tt.

(** The event callbacks (pscwrap.cpp) print exceptions. *)
Definition ev_send (evt : Z) : M (PSCUDP B) unit := catch (senddata evt) (λ _, ret tt).
Definition ev_recv (evt : Z) (queue : list rx_dgram) : M (PSCUDP B) unit :=
  catch (recvdata evt queue) (λ _, ret tt).

#[global] Instance udp_virtual : PSCVirtual B (PSCUDP B) := {|
  psc_base := ubase;
  put_base := set_ubase;
  queueSend_id := queueSend;
  queueSend_dbuffer := queueSend_block;
  queueSend_buf := queueSend_bytes;
  psc_flushSend := flushSend;
  psc_forceReConnect := forceReConnect;
|}.

#[global] Instance udp_virtual_laws : PSCVirtualLaws B (PSCUDP B).
Proof. split; [done| |done]. by intros []. Qed.

End udp.

(** ** Sending *)

Section send.
Context {B : Type} `{EvBuffer B} `{EpicsEnv} `{UdpNet} `{UdpRecords B}.
Implicit Types s : PSCUDP B.

Definition send_measure s : nat := (2 * length (txbuf s) + (length (readybuf s) - 63))%nat.

Lemma note_sent_spec scratch k s :
  ∃ bs, note_sent scratch k s = (Ret tt, set_ubase bs s).
Proof.
  unfold note_sent. destruct (negb (zlen scratch =? k)).
  - by eexists.
  - exists (ubase s). by destruct s.
Qed.

Lemma retire_front_spec scratch rest s :
  retire_front scratch rest s =
    (Ret tt, if zlen (readybuf s) <? 64
             then set_txbuf rest (set_readybuf (readybuf s ++ [scratch]) s)
             else set_readybuf (tail (readybuf s)) s).
Proof. unfold retire_front. mstep. by destruct (zlen (readybuf s) <? 64). Qed.

(** Enough fuel: the loop ends, in at most [send_measure] rounds. *)
Lemma send_loop_terminates fuel s scanme :
  (send_measure s < fuel)%nat → ∃ b s', send_loop fuel scanme s = (Ret b, s').
Proof.
  revert s scanme. induction fuel as [|fuel IH]; intros s scanme Hf; [lia|].
  cbn [send_loop]. mstep. destruct (txbuf s) as [|scratch rest] eqn:Et; [by eexists _, _|].
  do 2 mstep. destruct (udp_sendto _ _) as [k| |text]; [|by eexists _, _|].
  - unfold send_measure in Hf. rewrite Et in Hf. cbn [length] in Hf.
    match goal with |- context [bind (note_sent _ _) _ ?x] =>
      destruct (note_sent_spec scratch k x) as [bs Hn] end.
    erewrite bind_ret by exact Hn. clear Hn.
    erewrite bind_ret by apply retire_front_spec. apply IH. unfold send_measure. cbn.
    unfold zlen. destruct (Z.of_nat (length (readybuf s)) <? 64) eqn:E64; bool_to_prop; cbn.
    + rewrite length_app. cbn. lia.
    + rewrite Et. cbn. destruct (readybuf s); cbn in *; lia.
  - by eexists _, _.
Qed.

(** What is handed to the network when every send succeeds, with [r] buffers on the free
    list: a packet is sent again when the free list is full. *)
Fixpoint sends (r : nat) (l : list (list byte)) : list (list byte) :=
  match l with
  | [] => []
  | p :: l' => if Nat.ltb r 64 then p :: sends (S r) l' else p :: p :: sends 64 l'
  end.

Lemma sends_alt r l :
  (r ≤ 64)%nat →
  sends r l = take (64 - r) l ++ (drop (64 - r) l ≫= λ p, [p; p]).
Proof.
  revert r. induction l as [|p l IH]; intros r Hr; cbn [sends].
  - by rewrite take_nil, drop_nil.
  - destruct (Nat.ltb_spec r 64).
    + replace (64 - r)%nat with (S (64 - S r)) by lia. cbn. rewrite IH by lia. done.
    + replace (64 - r)%nat with 0%nat by lia. cbn. rewrite IH by lia. done.
Qed.

(** Packets handed to the network so far. *)
Definition sent_packets (l : list effect) : list (list byte) :=
  omap (λ e, match e with ESendTo p => Some p | _ => None end) l.

Lemma sent_packets_app a b : sent_packets (a ++ b) = sent_packets a ++ sent_packets b.
Proof. apply omap_app. Qed.

Lemma send_loop_all fuel s :
  (∀ n pkt, udp_sendto n pkt = TxSent (zlen pkt)) → (send_measure s < fuel)%nat →
  (length (readybuf s) ≤ 64)%nat →
  ∃ s', send_loop fuel false s = (Ret false, s') ∧ txbuf s' = [] ∧
    sent_packets (log (ubase s')) =
      sent_packets (log (ubase s)) ++ sends (length (readybuf s)) (txbuf s) ∧
    length (readybuf s') = Nat.min 64 (length (readybuf s) + length (txbuf s)) ∧
    sendbuf s' = sendbuf s ∧ send_blocks (ubase s') = send_blocks (ubase s).
Proof.
  intros Hnet. revert s. induction fuel as [|fuel IH]; intros s Hf Hr; [lia|].
  cbn [send_loop]. mstep. destruct (txbuf s) as [|scratch rest] eqn:Et.
  { exists s. rewrite Nat.add_0_r. cbn [sends]. rewrite app_nil_r. split_and!; try done. cbn [length]. lia. }
  do 2 mstep. rewrite Hnet. unfold note_sent. rewrite Z.eqb_refl. cbn [negb]. mstep.
  erewrite bind_ret by apply retire_front_spec. cbn [orb].
  unfold send_measure in *. rewrite Et in Hf. cbn [length] in Hf.
  match goal with |- context [send_loop fuel false ?x] => set (s1 := x) end.
  destruct (IH s1) as (s' & E & Htx & Hlog & Hrd & Hsb & Hblk).
  { subst s1. cbn. unfold zlen. destruct (Z.of_nat (length (readybuf s)) <? 64) eqn:E64; bool_to_prop; cbn.
    - rewrite length_app. cbn. lia.
    - rewrite Et. cbn. destruct (readybuf s); cbn in *; lia. }
  { subst s1. cbn. unfold zlen. destruct (Z.of_nat (length (readybuf s)) <? 64) eqn:E64; bool_to_prop; cbn.
    - rewrite length_app. cbn. lia.
    - destruct (readybuf s); cbn in *; lia. }
  exists s'. split; [exact E|]. split; [done|].
  rewrite Hlog, Hrd, Hsb, Hblk. subst s1. unfold zlen. cbn [sends].
  cbn -[sends Nat.min tail Nat.ltb Z.ltb Z.of_nat].
  destruct (Nat.ltb_spec (length (readybuf s)) 64).
  - assert ((Z.of_nat (length (readybuf s)) <? 64) = true) as -> by (apply Z.ltb_lt; lia).
    cbn -[sends Nat.min]. rewrite length_app, sent_packets_app, <-app_assoc, Nat.add_1_r.
    split_and!; try done. cbn [length]. lia.
  - assert ((Z.of_nat (length (readybuf s)) <? 64) = false) as -> by (apply Z.ltb_ge; lia).
    assert (length (readybuf s) = 64)%nat as Hlen by lia.
    assert (length (tail (readybuf s)) = 63)%nat as Htl by (destruct (readybuf s); cbn in *; lia).
    cbn -[sends Nat.min tail]. rewrite Et, sent_packets_app, <-app_assoc, Htl.
    split_and!; try done. cbn [length]. lia.
Qed.

(** ** Bounds of the packet lists *)

Record bounded s : Prop := {
  bnd_sendbuf : zlen (sendbuf s) ≤ 64;
  bnd_txbuf : zlen (txbuf s) ≤ 127;
  bnd_readybuf : zlen (readybuf s) ≤ 64;
}.

Definition keeps s s' : Prop := bounded s → bounded s'.

#[export] Instance keeps_preorder : PreOrder keeps.
Proof. split; [intros s Hb; exact Hb|]. intros s1 s2 s3 H12 H23 Hb. by apply H23, H12. Qed.

Lemma keeps_ubase {A} (m : M (PSCBase B) A) : stays keeps (on_ubase m).
Proof. apply stays_zoom. intros s bs [? ? ?]. by split. Qed.

Lemma keeps_retire scratch rest s :
  txbuf s = scratch :: rest → keeps s (retire_front scratch rest s).2.
Proof.
  intros Et [Hs Ht Hr]. rewrite retire_front_spec. cbn [snd].
  rewrite Et, zlen_cons in Ht.
  destruct (zlen (readybuf s) <? 64) eqn:E; bool_to_prop; split; cbn; try lia.
  - rewrite zlen_app, zlen_cons, zlen_nil. lia.
  - rewrite Et, zlen_cons. lia.
  - destruct (readybuf s); cbn; [lia|]. rewrite zlen_cons in *. lia.
Qed.

Lemma keeps_send_loop fuel scanme : stays keeps (send_loop fuel scanme).
Proof.
  revert scanme. induction fuel as [|fuel IH]; intros scanme s; cbn [send_loop]; [done|].
  unfold bind at 1, get. destruct (txbuf s) as [|scratch rest] eqn:Et; [done|].
  do 2 mstep. destruct (udp_sendto _ _) as [k| |text].
  - match goal with |- context [bind (note_sent _ _) _ ?x] => set (s1 := x) end.
    destruct (note_sent_spec scratch k s1) as [bs Hn]. erewrite bind_ret by exact Hn. clear Hn.
    assert (Hk1 : keeps s (set_ubase bs s1)) by (intros [? ? ?]; by split).
    pose proof (keeps_retire scratch rest (set_ubase bs s1) Et) as Hk2.
    unfold bind. rewrite retire_front_spec in *. cbn [snd] in Hk2.
    etrans; [exact Hk1|]. etrans; [exact Hk2|]. apply IH.
  - intros [? ? ?]. by split.
  - mstep. intros [? ? ?]. by split.
Qed.

Lemma keeps_senddata evt : stays keeps (senddata evt).
Proof.
  unfold senddata. apply stays_bind; [apply _|apply stays_get, _|intros s].
  apply stays_bind; [apply _| |intros scanme].
  { destruct (ev_has evt EV_WRITE); [apply keeps_send_loop|apply stays_ret, _]. }
  apply stays_bind; [apply _|apply stays_get, _|intros s'].
  apply stays_bind; [apply _| |intros _].
  - apply stays_when; [apply _|]. unfold add_tx_event.
    destruct (negb _); [apply stays_throw, _|apply keeps_ubase].
  - apply stays_when; [apply _|]. apply keeps_ubase.
Qed.

Lemma keeps_flushSend : stays keeps flushSend.
Proof.
  intros s. unfold flushSend, bind at 1, get. destruct (negb (connected (ubase s))); [done|].
  destruct (zlen (txbuf s) >=? 64) eqn:E; [done|]. bool_to_prop. do 3 mstep.
  intros [Hs Ht Hr]. unfold add_tx_event.
  assert (bounded (set_sendbuf [] (set_txbuf (txbuf s ++ sendbuf s) s))).
  { split; cbn; [done| |done]. rewrite zlen_app. lia. }
  destruct (negb (event_add_tx =? 0)); destruct H3; by split.
Qed.

Lemma last_length {A} (l : list A) x : list.last l = Some x → (0 < length l)%nat.
Proof. destruct l; [done|cbn; lia]. Qed.

Lemma keeps_fill body : stays keeps (fill_packet (B:=B) body).
Proof.
  intros s [Hs Ht Hr]. unfold fill_packet, modify. cbn [snd].
  destruct (list.last (sendbuf s)) as [scratch|] eqn:El; [|by split].
  apply last_length in El. split; cbn; try done. unfold zlen in *.
  rewrite length_app, length_take. cbn. lia.
Qed.

Lemma keeps_queueHeader k n : stays keeps (queueHeader (B:=B) k n).
Proof.
  intros s. unfold queueHeader. unfold bind at 1, get.
  destruct (zlen (sendbuf s) >=? 64) eqn:E; [done|]. bool_to_prop.
  unfold bind at 1, on_ubase, zoom, send_block.
  destruct (send_blocks (ubase s) !! k) as [b|]; [|intros [? ? ?]; by split].
  intros [Hs Ht Hr].
  assert (Hready : zlen (match readybuf s with [] => [] | _ :: r => r end) ≤ 64).
  { destruct (readybuf s); [done|]. rewrite zlen_cons in Hr. lia. }
  destruct (readybuf s) as [|b0 r0]; do 2 mstep;
    (destruct (zlen (zresize _ _ _) <? 8); split; cbn; try done; rewrite zlen_app, zlen_cons, zlen_nil; lia).
Qed.

Lemma keeps_queueSend_bytes k body : stays keeps (queueSend_bytes (B:=B) k body).
Proof.
  apply stays_bind; [apply _|apply keeps_queueHeader|intros _].
  apply stays_bind; [apply _|apply stays_get, _|intros s].
  apply stays_bind; [apply _|apply stays_assert, _|intros _].
  apply stays_bind; [apply _|apply keeps_fill|intros _]. apply keeps_ubase.
Qed.

Lemma keeps_queueSend_block k d : stays keeps (queueSend_block k d).
Proof.
  apply stays_bind; [apply _|apply keeps_queueHeader|intros _].
  apply stays_bind; [apply _|apply stays_get, _|intros s].
  apply stays_bind; [apply _|apply stays_assert, _|intros _].
  apply stays_bind; [apply _| |intros _; apply keeps_ubase].
  destruct (dbuffer_copyout d 0 (dbuffer_size d)) as [[? ?]| |];
    [apply keeps_fill|apply stays_throw, _|apply stays_abort, _].
Qed.

Lemma keeps_recv_packet from_ep pkt scanme : stays keeps (recv_packet from_ep pkt scanme).
Proof.
  assert (Hscr : ∀ l, stays keeps (modify (S:=PSCUDP B) (set_rxscratch l)))
    by (intros l s [? ? ?]; by split).
  apply stays_bind; [apply _|apply stays_get, _|intros s]. cbv zeta.
  apply stays_bind; [apply _|apply Hscr|intros _].
  destruct (negb from_ep); [apply stays_ret, _|].
  destruct (_ <? 8).
  { repeat (apply stays_bind; [apply _|apply keeps_ubase|intros _]). apply stays_ret, _. }
  destruct (bad_frame _).
  { apply stays_bind; [apply _|apply keeps_ubase|intros _]. apply stays_ret, _. }
  destruct (_ >? _).
  { apply stays_bind; [apply _|apply keeps_ubase|intros _].
    apply stays_bind; [apply _|apply Hscr|intros _].
    apply stays_bind; [apply _|apply keeps_ubase|intros _]. apply stays_ret, _. }
  destruct (recv_blocks (ubase s) !! _);
    (apply stays_bind; [apply _|apply keeps_ubase|intros _]); apply stays_ret, _.
Qed.

Lemma keeps_recv_packets queue scanme : stays keeps (recv_packets queue scanme).
Proof.
  revert scanme. induction queue as [|[from_ep pkt|text] r IH]; intros scanme; cbn [recv_packets].
  - apply stays_ret, _.
  - apply stays_bind; [apply _|apply keeps_recv_packet|apply IH].
  - apply stays_bind; [apply _| |intros _; apply stays_ret, _].
    apply stays_bind; [apply _|apply keeps_ubase|intros _; apply keeps_ubase].
Qed.

Lemma keeps_recvdata evt queue : stays keeps (recvdata evt queue).
Proof.
  unfold recvdata. destruct (ev_has evt EV_TIMEOUT).
  { apply stays_bind; [apply _| |intros _; apply keeps_ubase].
    apply stays_bind; [apply _|apply keeps_ubase|intros _; apply keeps_ubase]. }
  destruct (negb _); [apply stays_ret, _|].
  apply stays_bind; [apply _|apply keeps_recv_packets|intros b].
  apply stays_when; [apply _|apply keeps_ubase].
Qed.

End send.

(** ** Receiving *)

Section recv.
Context {B : Type} `{EvBufferLaws B} `{EpicsEnv} `{UdpNet} `{UdpRecords B}.
Implicit Types s : PSCUDP B.

Lemma deliver_packet_spec k b body s :
  listeners_safe → recv_blocks (ubase s) !! k = Some b →
  ∃ bs, deliver_packet k body s = (Ret tt, set_ubase bs s) ∧
    view bs = spec_body k body (spec_head k (view (ubase s))) ∧ rest bs = rest (ubase s).
Proof.
  intros Hsafe Hk. destruct (head_known_spec k b (ubase s) Hk) as (s1 & E1 & Hv1 & Ho1).
  assert (Hk1 : ∃ b1, recv_blocks s1 !! k = Some b1).
  { apply (view_known (ubase s) s1 [RxHead k 0] k); [done|eauto]. }
  destruct Hk1 as [b1 Hk1].
  destruct (deliver_spec k b1 (dbuffer_assign body (data b1)) s1 Hsafe Hk1) as (s2 & E2 & Hv2 & Ho2).
  exists s2. split.
  - unfold deliver_packet, on_ubase. apply zoom_eq. erewrite bind_ret by exact E1.
    unfold bind at 1, upd_recv, modify.
    rewrite (alter_alt_Some _ _ _ b1 Hk1). exact E2.
  - rewrite Hv2, contents_assign, Hv1. split; [done|congruence].
Qed.

(** A well formed datagram from the device that fits is delivered. *)
Lemma recv_packet_message s m scanme :
  listeners_safe → valid_msg m → HEADER_SIZE + zlen m.2 ≤ zlen (rxscratch s) < 2 ^ 64 →
  ∃ s', recv_packet true (encode_msg m) scanme s = (Ret scanme, s') ∧
    view (ubase s') = spec_events (view (ubase s)) [RxHead m.1 (zlen m.2); RxBody m.1 m.2] ∧
    zlen (rxscratch s') = zlen (rxscratch s).
Proof.
  destruct m as [id body]. intros Hsafe [Hid Hn] [Hfit Hbig]. cbn [fst snd] in *.
  pose proof (zlen_nonneg body). unfold HEADER_SIZE in *.
  assert (Hlen : zlen (encode_msg (id, body)) = 8 + zlen body).
  { unfold encode_msg. cbn [fst snd]. rewrite zlen_app, zlen_put_header. done. }
  unfold recv_packet. mstep. rewrite ztake_all by lia. mstep. cbn [negb]. rewrite Hlen.
  case_if; bool_to_prop; [lia|].
  set (buf := zblit 0 (encode_msg (id, body)) (rxscratch s)).
  assert (Hbl : zlen buf = zlen (rxscratch s)) by (apply zlen_zblit; lia).
  assert (Hbuf : ∃ tl, buf = put_header id (zlen body) ++ body ++ tl).
  { exists (zdrop (0 + zlen (encode_msg (id, body))) (rxscratch s)). unfold buf, zblit.
    rewrite (ztake_neg 0) by lia. unfold encode_msg. cbn [fst snd app]. by rewrite <-app_assoc. }
  destruct Hbuf as [tl Hbuf].
  assert (Hhead : bad_frame buf = false ∧ get_msgid buf = id ∧ get_bodylen buf = zlen body).
  { rewrite Hbuf. split; [done|].
    change (get_msgid (put_header id (zlen body) ++ body ++ tl)) with (get_msgid (put_header id (zlen body))).
    change (get_bodylen (put_header id (zlen body) ++ body ++ tl))
      with (get_bodylen (put_header id (zlen body))).
    rewrite get_msgid_put_header, get_bodylen_put_header, !wrapU_small by lia. done. }
  destruct Hhead as (-> & -> & ->).
  rewrite Hbl, wrapU_small by lia. case_if; bool_to_prop; [lia|].
  assert (Hbody : zslice 8 (zlen body) buf = body).
  { unfold zslice. rewrite Hbuf. change 8 with (HEADER_SIZE).
    by rewrite zdrop_put_header, ztake_app_exact. }
  rewrite Hbody. destruct (recv_blocks (ubase s) !! id) as [b|] eqn:Hk.
  - destruct (deliver_packet_spec id b body (set_rxscratch buf s) Hsafe Hk) as (bs & E & Hv & _).
    erewrite bind_ret by exact E. eexists. split; [reflexivity|]. cbn. done.
  - mstep. eexists. split; [reflexivity|]. cbn. split; [|done].
    rewrite (head_unknown_spec id) by done. unfold spec_body, spec_head. cbn.
    rewrite lookup_fmap, Hk. cbn. by rewrite lookup_fmap, Hk.
Qed.

Definition udp_events (ms : list psc_msg) : list rx_event :=
  ms ≫= λ m, [RxHead m.1 (zlen m.2); RxBody m.1 m.2].

Lemma recv_packets_messages ms s scanme :
  listeners_safe → Forall valid_msg ms → zlen (rxscratch s) < 2 ^ 64 →
  Forall (λ m, HEADER_SIZE + zlen m.2 ≤ zlen (rxscratch s)) ms →
  ∃ s', recv_packets ((λ m, Dgram true (encode_msg m)) <$> ms) scanme s = (Ret scanme, s') ∧
    view (ubase s') = spec_events (view (ubase s)) (udp_events ms).
Proof.
  intros Hsafe Hv Hbig. revert s Hbig. induction Hv as [|m ms Hm _ IH]; intros s Hbig Hfit.
  { exists s. done. }
  inv Hfit. cbn [fmap list_fmap recv_packets].
  destruct (recv_packet_message s m scanme Hsafe Hm) as (s1 & E & Hv1 & Hl1); [done|].
  erewrite bind_ret by exact E.
  destruct (IH s1) as (s2 & E2 & Hv2); [by rewrite Hl1|by rewrite Hl1|].
  exists s2. split; [exact E2|]. rewrite Hv2, Hv1. unfold udp_events.
  rewrite bind_cons, spec_events_app. done.
Qed.

End recv.

(** ** Datagrams that lie about their length *)

Section bad_length.
Context {B : Type} `{EvBufferLaws B} `{EpicsEnv} `{UdpNet} `{UdpRecords B}.
Implicit Types s : PSCUDP B.

Lemma spec_packet_data k body v b :
  rv_blocks v !! k = Some b →
  ∃ b', rv_blocks (spec_body k body (spec_head k v)) !! k = Some b' ∧ data b' = body.
Proof.
  intros Hk. unfold spec_head. rewrite Hk. unfold spec_body. cbn. rewrite lookup_insert_eq. cbn.
  rewrite lookup_insert_eq. eexists. split; [reflexivity|].
  by rewrite (proj1 (proj2 (requestScan_fields _ _))).
Qed.

(** The header of a datagram once it is in the scratch buffer. *)
Lemma scratch_header id n part s :
  0 ≤ id < 2 ^ 16 → 0 ≤ n < 2 ^ 32 → HEADER_SIZE + zlen part ≤ zlen (rxscratch s) →
  let buf := zblit 0 (put_header id n ++ part) (rxscratch s) in
  zlen buf = zlen (rxscratch s) ∧ bad_frame buf = false ∧ get_msgid buf = id ∧
  get_bodylen buf = n ∧ zdrop 8 buf = part ++ zdrop (8 + zlen part) (rxscratch s).
Proof.
  intros Hid Hn Hfit buf. unfold HEADER_SIZE in *.
  assert (Hlen : zlen (put_header id n ++ part) = 8 + zlen part)
    by (rewrite zlen_app, zlen_put_header; done).
  assert (Hbuf : buf = put_header id n ++ part ++ zdrop (8 + zlen part) (rxscratch s)).
  { unfold buf, zblit. rewrite (ztake_neg 0), Hlen by lia. cbn [app].
    by rewrite <-app_assoc, Z.add_0_l. }
  split; [apply zlen_zblit; lia|]. rewrite Hbuf. split; [done|].
  match goal with |- get_msgid (_ ++ ?tl) = _ ∧ _ =>
    change (get_msgid (put_header id n ++ tl)) with (get_msgid (put_header id n));
    change (get_bodylen (put_header id n ++ tl)) with (get_bodylen (put_header id n));
    change (zdrop 8 (put_header id n ++ tl)) with tl
  end.
  by rewrite get_msgid_put_header, get_bodylen_put_header, !wrapU_small by lia.
Qed.

Lemma recv_packet_short_body s id n part b scanme :
  listeners_safe → 0 ≤ id < 2 ^ 16 → zlen part < n < 2 ^ 32 →
  HEADER_SIZE + n ≤ zlen (rxscratch s) < 2 ^ 64 → recv_blocks (ubase s) !! id = Some b →
  ∃ s' b', recv_packet true (put_header id n ++ part) scanme s = (Ret scanme, s') ∧
    recv_blocks (ubase s') !! id = Some b' ∧
    contents (data b') = part ++ zslice (8 + zlen part) (n - zlen part) (rxscratch s) ∧
    message (ubase s') = message (ubase s) ∧ ukncount (ubase s') = ukncount (ubase s).
Proof.
  intros Hsafe Hid Hn Hfit Hk. pose proof (zlen_nonneg part).
  unfold HEADER_SIZE in Hfit.
  destruct (scratch_header id n part s) as (Hbl & Hframe & Hmid & Hblen & Hdrop);
    [done|lia|unfold HEADER_SIZE; lia|].
  assert (Hlen : zlen (put_header id n ++ part) = 8 + zlen part)
    by (rewrite zlen_app, zlen_put_header; done).
  unfold recv_packet. mstep. rewrite ztake_all by lia. mstep. cbn [negb]. rewrite Hlen.
  case_if; bool_to_prop; [lia|].
  set (buf := zblit 0 (put_header id n ++ part) (rxscratch s)) in *.
  rewrite Hframe, Hmid, Hblen, Hbl, wrapU_small by lia. case_if; bool_to_prop; [lia|].
  rewrite Hk.
  destruct (deliver_packet_spec id b (zslice 8 n buf) (set_rxscratch buf s) Hsafe Hk) as (bs & E & Hv & Ho).
  erewrite bind_ret by exact E.
  destruct (spec_packet_data id (zslice 8 n buf) (view (ubase s)) (map_data contents b)) as (b' & Hb' & Hd).
  { cbn. by rewrite lookup_fmap, Hk. }
  cbn [ubase set_rxscratch] in Hv. rewrite <-Hv in Hb'. cbn in Hb'. rewrite lookup_fmap in Hb'.
  destruct (recv_blocks bs !! id) as [b2|] eqn:Hk2; [|done]. injection Hb' as <-.
  eexists _, b2. split; [reflexivity|]. cbn. split; [done|]. cbn in Hd. split.
  - rewrite Hd. unfold zslice. rewrite Hdrop, ztake_app, (ztake_all n) by lia. done.
  - split; [unfold rest in Ho; cbn in Ho; congruence|].
    assert (Hu : rv_unk (view bs) = ukncount (ubase s)); [|exact Hu].
    rewrite Hv. unfold spec_head. cbn. rewrite lookup_fmap, Hk. unfold spec_body. cbn.
    by rewrite lookup_insert_eq.
Qed.

(** A scratch buffer too small for a header: nothing is received any more. *)
Definition deaf s : Prop := zlen (rxscratch s) < 8.

Definition stays_deaf s s' : Prop :=
  deaf s → deaf s' ∧ recv_blocks (ubase s') = recv_blocks (ubase s).

#[local] Instance stays_deaf_preorder : PreOrder stays_deaf.
Proof.
  split; [by intros s Hd|]. intros s1 s2 s3 H12 H23 Hd. destruct (H12 Hd) as [Hd2 <-].
  by apply H23.
Qed.

Lemma deaf_recv_packet from_ep pkt scanme : stays stays_deaf (recv_packet from_ep pkt scanme).
Proof.
  intros s Hd. unfold deaf in *. unfold recv_packet. mstep. mstep.
  assert (Hgot : zlen (ztake (zlen (rxscratch s)) pkt) ≤ zlen (rxscratch s))
    by (rewrite zlen_ztake; pose proof (zlen_nonneg (rxscratch s)); lia).
  assert (Hbl : zlen (zblit 0 (ztake (zlen (rxscratch s)) pkt) (rxscratch s)) = zlen (rxscratch s))
    by (apply zlen_zblit; lia).
  destruct (negb from_ep); [cbn; split; [lia|done]|].
  case_if; bool_to_prop; [|lia]. cbn. split; [lia|done].
Qed.

Lemma deaf_recv_packets queue scanme : stays stays_deaf (recv_packets queue scanme).
Proof.
  revert scanme. induction queue as [|[from_ep pkt|text] r IH]; intros scanme; cbn [recv_packets].
  - apply stays_ret, _.
  - apply stays_bind; [apply _|apply deaf_recv_packet|apply IH].
  - by intros s Hd.
Qed.

Lemma deaf_ev_recv evt queue : stays stays_deaf (ev_recv evt queue).
Proof.
  apply stays_catch; [apply _| |intros e; apply stays_ret, _].
  unfold recvdata. destruct (ev_has evt EV_TIMEOUT); [by intros s Hd|].
  destruct (negb _); [apply stays_ret, _|].
  apply stays_bind; [apply _|apply deaf_recv_packets|intros b].
  apply stays_when; [apply _|by intros s Hd].
Qed.

Lemma recv_packet_oversize s id n part scanme :
  0 ≤ id < 2 ^ 16 → 2 ^ 32 - 8 ≤ n < 2 ^ 32 →
  HEADER_SIZE + zlen part ≤ zlen (rxscratch s) < 2 ^ 32 - 8 →
  ∃ s', recv_packet true (put_header id n ++ part) scanme s = (Ret true, s') ∧
    zlen (rxscratch s') = n + 8 - 2 ^ 32 ∧ recv_blocks (ubase s') = recv_blocks (ubase s).
Proof.
  intros Hid Hn Hfit. pose proof (zlen_nonneg part).
  destruct (scratch_header id n part s) as (Hbl & Hframe & Hmid & Hblen & _);
    [done|lia|lia|]. unfold HEADER_SIZE in Hfit.
  assert (Hlen : zlen (put_header id n ++ part) = 8 + zlen part)
    by (rewrite zlen_app, zlen_put_header; done).
  unfold recv_packet. mstep. rewrite ztake_all by lia. mstep. cbn [negb]. rewrite Hlen.
  case_if; bool_to_prop; [lia|].
  set (buf := zblit 0 (put_header id n ++ part) (rxscratch s)) in *.
  rewrite Hframe, Hblen, Hbl, wrapU_small by lia. case_if; bool_to_prop; [|lia].
  do 3 mstep. eexists. split; [reflexivity|]. split; [|done]. cbn.
  assert (Hw : wrapU 32 (n + 8) = n + 8 - 2 ^ 32).
  { unfold wrapU. replace (n + 8) with (n + 8 - 2 ^ 32 + 1 * 2 ^ 32) at 1 by lia.
    rewrite Z_mod_plus_full. apply Z.mod_small. lia. }
  rewrite Hw. apply zlen_zresize. lia.
Qed.

End bad_length.

(** ** Properties *)

(** A network that sends everything, records that do nothing, a connected driver. *)
Definition good_net : UdpNet :=
  {| udp_sendto _ pkt := TxSent (zlen pkt); event_add_rx := 0; event_add_tx := 0 |}.
Definition quiet_udp : UdpRecords ChainBuf.chainbuf := λ _, ret tt.
Definition sample_udp : PSCUDP ChainBuf.chainbuf :=
  let b := new_PSCBase "dev" "host" 8765 in
  set_ubase (set_connected true
      (set_send_blocks {[10 := new_Block 10]}
        (set_recv_blocks {[42 := set_listeners [(100, 1)] (new_Block 42)]} b)))
    (new_PSCUDP "dev" "host" 8765).

(** What [senddata] puts on the network when every send succeeds: the ready packets, in
    order and all of them; but once 64 buffers are on the free list, the code drops a
    buffer from that list instead of the packet it sent, so each further packet is sent
    twice. *)
Theorem senddata_sends {B} `{EvBuffer B} `{EpicsEnv} `{UdpNet} `{UdpRecords B} (s : PSCUDP B) :
  (∀ n pkt, udp_sendto n pkt = TxSent (zlen pkt)) → (length (readybuf s) ≤ 64)%nat →
  let once := (64 - length (readybuf s))%nat in
  ∃ s', senddata EV_WRITE s = (Ret tt, s') ∧ txbuf s' = [] ∧
    sent_packets (log (ubase s')) =
      sent_packets (log (ubase s)) ++ take once (txbuf s) ++
        (drop once (txbuf s) ≫= λ p, [p; p]).
Proof.
  intros Hnet Hr once.
  destruct (send_loop_all (send_fuel s) s Hnet) as (s' & E & Htx & Hlog & _);
    [unfold send_measure, send_fuel; lia|done|].
  exists s'. unfold senddata. mstep. change (ev_has EV_WRITE EV_WRITE) with true. cbv iota.
  erewrite bind_ret by exact E. mstep. rewrite Htx. split; [done|]. split; [done|].
  rewrite Hlog. by rewrite sends_alt.
Qed.

Lemma senddata_sends_witness :
  let H := quiet_env in let N := good_net in let R := quiet_udp in
  let s := set_readybuf (replicate 63 []) (set_txbuf [[Byte.x01]; [Byte.x02]] sample_udp) in
  let once := (64 - length (readybuf s))%nat in
  (once = 1%nat) ∧
  ∃ s', senddata EV_WRITE s = (Ret tt, s') ∧ txbuf s' = [] ∧
    sent_packets (log (ubase s')) =
      sent_packets (log (ubase s)) ++ take once (txbuf s) ++
        (drop once (txbuf s) ≫= λ p, [p; p]).
Proof.
  intros H N R s once. split; [reflexivity|]. apply (senddata_sends s).
  - done.
  - cbn. lia.
Defined.

(** C36: [senddata] ends for every behaviour of the network, although a round may leave the
    queue as it was: it returns, or throws because the event could not be added. *)
Theorem senddata_ends {B} `{EvBuffer B} `{EpicsEnv} `{UdpNet} `{UdpRecords B} evt (s : PSCUDP B) :
  ∃ s', senddata evt s = (Ret tt, s') ∨
    (senddata evt s = (Throw (RuntimeError "Failed to add Tx event"), s') ∧ txbuf s' ≠ []).
Proof.
  assert (Hloop : ∃ b s1, (if ev_has evt EV_WRITE then send_loop (send_fuel s) false
                           else ret false) s = (Ret b, s1)).
  { destruct (ev_has evt EV_WRITE); [|by eexists _, _].
    apply send_loop_terminates. unfold send_measure, send_fuel. lia. }
  destruct Hloop as (b & s1 & E). unfold senddata. mstep. erewrite bind_ret by exact E. mstep.
  destruct (bool_decide (txbuf s1 = [])) eqn:Et; cbn [negb when].
  - mstep. destruct b; eexists; left; reflexivity.
  - apply bool_decide_eq_false in Et. unfold add_tx_event. destruct (negb (event_add_tx =? 0)).
    + exists s1. by right.
    + mstep. destruct b; eexists; left; reflexivity.
Qed.

(** What records do to a UDP driver. *)
Inductive udp_call {B} `{EvBuffer B} `{UdpNet} : PSCUDP B → PSCUDP B → Prop :=
  | udp_flush s : udp_call s (flushSend s).2
  | udp_bytes s k body : udp_call s (queueSend_bytes k body s).2
  | udp_block s k d : udp_call s (queueSend_block k d s).2
  | udp_id s id body : udp_call s (queueSend id body s).2.

(** Records that are processed on connection make such calls. *)
Definition udp_records_ok {B} `{EvBuffer B} `{UdpNet} `{UdpRecords B} : Prop :=
  ∀ prec s, rtc udp_call s (udp_dbProcess prec s).2.

(** Anything that can happen to a UDP driver. *)
Inductive udp_step {B} `{EvBuffer B} `{EpicsEnv} `{UdpNet} `{UdpRecords B} :
    PSCUDP B → PSCUDP B → Prop :=
  | udp_connect s : udp_step s (connect s).2
  | udp_send s evt : udp_step s (ev_send evt s).2
  | udp_recv s evt queue : udp_step s (ev_recv evt queue s).2
  | udp_called s s' : udp_call s s' → udp_step s s'.

Lemma udp_call_keeps {B} `{EvBuffer B} `{EpicsEnv} `{UdpNet} `{UdpRecords B} (s s' : PSCUDP B) :
  udp_call s s' → keeps s s'.
Proof.
  destruct 1.
  - apply keeps_flushSend.
  - apply keeps_queueSend_bytes.
  - apply keeps_queueSend_block.
  - apply (stays_bind keeps); [apply keeps_ubase|intros ?; apply keeps_queueSend_bytes].
Qed.

Lemma udp_calls_keep {B} `{EvBuffer B} `{EpicsEnv} `{UdpNet} `{UdpRecords B} (s s' : PSCUDP B) :
  rtc udp_call s s' → keeps s s'.
Proof. induction 1 as [|s1 s2 s3 Hs _ IH]; [done|]. etrans; [by apply udp_call_keeps|done]. Qed.

(** The records of [procOnConnect] do what records do. *)
Lemma process_records_stays {B} `{EvBuffer B} `{EpicsEnv} `{UdpNet} `{UdpRecords B}
    (R : PSCUDP B → PSCUDP B → Prop) `{!PreOrder R} l :
  (∀ prec, stays R (udp_dbProcess prec)) → (∀ e, stays R (on_ubase (emit e))) →
  stays R (process_records l).
Proof.
  intros Hr Hb. induction l as [|prec l IH]; cbn [process_records]; [apply stays_ret, _|].
  apply stays_bind; [apply _|apply Hb|intros _]. apply stays_bind; [apply _|apply Hr|intros _; apply IH].
Qed.

Lemma keeps_connect {B} `{EvBuffer B} `{EpicsEnv} `{UdpNet} `{UdpRecords B} :
  udp_records_ok → stays keeps (connect (B:=B)).
Proof.
  intros Hrec. unfold connect. destruct (negb _); [apply stays_throw, _|].
  do 3 (apply stays_bind; [apply _|apply keeps_ubase|intros _]).
  apply stays_bind; [apply _|apply stays_get, _|intros s].
  apply process_records_stays; [apply _| |intros e; apply keeps_ubase].
  intros prec s1. by apply udp_calls_keep.
Qed.

Lemma udp_step_keeps {B} `{EvBuffer B} `{EpicsEnv} `{UdpNet} `{UdpRecords B} (s s' : PSCUDP B) :
  udp_records_ok → udp_step s s' → keeps s s'.
Proof.
  intros Hrec. destruct 1.
  - by apply keeps_connect.
  - apply (stays_catch keeps); [apply keeps_senddata|intros ?; apply stays_ret, _].
  - apply (stays_catch keeps); [apply keeps_recvdata|intros ?; apply stays_ret, _].
  - by apply udp_call_keeps.
Qed.

(** C28: The packet lists are bounded.  Let a new driver be connected, by the event loop, and
    anything be called on it, in any order and with any exceptions: records queue and flush,
    also those processed on connection, and the socket becomes readable and writable.  At
    most 64 packets wait to be flushed, 127 to be sent and 64 are kept for reuse. *)
Theorem udp_queues_bounded {B} `{EvBuffer B} `{EpicsEnv} `{UdpNet} `{UdpRecords B}
    name host port (s : PSCUDP B) :
  udp_records_ok → rtc udp_step (new_PSCUDP name host port) s →
  zlen (sendbuf s) ≤ 64 ∧ zlen (txbuf s) ≤ 127 ∧ zlen (readybuf s) ≤ 64.
Proof.
  intros Hrec Hr. assert (Hb : bounded s).
  { revert Hr. apply (rtc_ind_r (λ s, bounded s)); [by split|].
    intros s1 s2 _ Hs Hb. by eapply udp_step_keeps. }
  by destruct Hb.
Qed.

(** The bounds are reached: 63 packets are flushed, and 64 more. *)
Definition queue_packets {B} `{EvBuffer B} (n : nat) (s : PSCUDP B) : PSCUDP B :=
  Nat.iter n (λ s, (queueSend 10 [Byte.x01] s).2) s.

Lemma queue_packets_steps {B} `{EvBuffer B} `{EpicsEnv} `{UdpNet} `{UdpRecords B} n (s s0 : PSCUDP B) :
  rtc udp_step s0 s → rtc udp_step s0 (queue_packets n s).
Proof.
  intros Hs. induction n as [|n IH]; [done|]. eapply rtc_r; [exact IH|]. apply udp_called, udp_id.
Qed.

Lemma udp_queues_bounded_witness :
  let H := quiet_env in let N := good_net in let R := quiet_udp in
  let s0 := (connect (new_PSCUDP (B:=ChainBuf.chainbuf) "dev" "host" 8765)).2 in
  let s := (flushSend (queue_packets 64 (flushSend (queue_packets 63 s0)).2)).2 in
  zlen (txbuf s) = 127 ∧ (zlen (sendbuf s) ≤ 64 ∧ zlen (txbuf s) ≤ 127 ∧ zlen (readybuf s) ≤ 64).
Proof.
  intros H N R s0 s. split; [vm_compute; reflexivity|].
  apply (udp_queues_bounded "dev" "host" 8765 s).
  - intros prec s1. apply rtc_refl.
  - eapply rtc_r; [apply queue_packets_steps|apply udp_called, udp_flush].
    eapply rtc_r; [apply queue_packets_steps|apply udp_called, udp_flush].
    apply rtc_once, udp_connect.
Defined.

(** Datagrams from the device that hold one well formed message each, and fit into the
    scratch buffer, are delivered one by one and in order, also when the body is empty;
    no error is reported. *)
Theorem udp_delivers {B} `{EvBufferLaws B} `{EpicsEnv} `{UdpNet} `{UdpRecords B}
    (s : PSCUDP B) ms :
  listeners_safe → Forall valid_msg ms → zlen (rxscratch s) < 2 ^ 64 →
  Forall (λ m, HEADER_SIZE + zlen m.2 ≤ zlen (rxscratch s)) ms →
  ∃ s', recvdata EV_READ ((λ m, Dgram true (encode_msg m)) <$> ms) s = (Ret tt, s') ∧
    view (ubase s') = spec_events (view (ubase s)) (udp_events ms).
Proof.
  intros Hsafe Hv Hbig Hfit.
  destruct (recv_packets_messages ms s false Hsafe Hv Hbig Hfit) as (s' & E & Hview).
  exists s'. split; [|done]. unfold recvdata.
  change (ev_has EV_READ EV_TIMEOUT) with false. change (ev_has EV_READ EV_READ) with true.
  cbv iota. cbn [negb]. erewrite bind_ret by exact E. done.
Qed.

Lemma udp_delivers_witness :
  let H := quiet_env in let N := good_net in let R := quiet_udp in
  let ms := [(42, [Byte.x01; Byte.x02]); (42, []); (7, [Byte.x03])] in
  ∃ s', recvdata EV_READ ((λ m, Dgram true (encode_msg m)) <$> ms) sample_udp = (Ret tt, s') ∧
    view (ubase s') = spec_events (view (ubase sample_udp)) (udp_events ms).
Proof.
  intros H N R ms. apply (udp_delivers sample_udp ms).
  - apply quiet_listeners_safe.
  - repeat constructor; cbn; unfold zlen; cbn; lia.
  - vm_compute. reflexivity.
  - repeat constructor; vm_compute; congruence.
Defined.

(** A truncated datagram is taken for a whole one.  The body length of the header is
    compared with the size of the scratch buffer, not with what was received: when the
    datagram is shorter, the missing bytes of the block are those an earlier datagram left
    in the scratch buffer, and no error is counted or reported. *)
Theorem udp_short_datagram_reads_stale {B} `{EvBufferLaws B} `{EpicsEnv} `{UdpNet}
    `{UdpRecords B} (s : PSCUDP B) id n part b :
  listeners_safe → 0 ≤ id < 2 ^ 16 → zlen part < n < 2 ^ 32 →
  HEADER_SIZE + n ≤ zlen (rxscratch s) < 2 ^ 64 → recv_blocks (ubase s) !! id = Some b →
  ∃ s' b', recvdata EV_READ [Dgram true (put_header id n ++ part)] s = (Ret tt, s') ∧
    recv_blocks (ubase s') !! id = Some b' ∧
    contents (data b') = part ++ zslice (8 + zlen part) (n - zlen part) (rxscratch s) ∧
    message (ubase s') = message (ubase s) ∧ ukncount (ubase s') = ukncount (ubase s).
Proof.
  intros Hsafe Hid Hn Hfit Hk.
  destruct (recv_packet_short_body s id n part b false Hsafe Hid Hn Hfit Hk) as (s' & b' & E & Hrest).
  exists s', b'. split; [|done]. unfold recvdata.
  change (ev_has EV_READ EV_TIMEOUT) with false. change (ev_has EV_READ EV_READ) with true.
  cbv iota. cbn [negb recv_packets]. unfold bind at 1, bind at 1. rewrite E. done.
Qed.

Lemma udp_short_datagram_reads_stale_witness :
  let H := quiet_env in let N := good_net in let R := quiet_udp in
  let s := (ev_recv EV_READ [Dgram true (encode_msg (42, replicate 4 Byte.xaa))] sample_udp).2 in
  zslice (8 + zlen [Byte.x01]) (3 - zlen [Byte.x01]) (rxscratch s) = [Byte.xaa; Byte.xaa] ∧
  ∃ s' b', recvdata EV_READ [Dgram true (put_header 42 3 ++ [Byte.x01])] s = (Ret tt, s') ∧
    recv_blocks (ubase s') !! 42 = Some b' ∧
    contents (data b') =
      [Byte.x01] ++ zslice (8 + zlen [Byte.x01]) (3 - zlen [Byte.x01]) (rxscratch s) ∧
    message (ubase s') = message (ubase s) ∧ ukncount (ubase s') = ukncount (ubase s).
Proof.
  intros H N R s. split; [vm_compute; reflexivity|].
  assert (Hk : ∃ b, recv_blocks (ubase s) !! 42 = Some b) by (eexists; vm_compute; reflexivity).
  destruct Hk as [b Hk].
  apply (udp_short_datagram_reads_stale s 42 3 [Byte.x01] b).
  - apply quiet_listeners_safe.
  - lia.
  - unfold zlen. cbn. lia.
  - split; [vm_compute; congruence|vm_compute; reflexivity].
  - exact Hk.
Defined.

(** One datagram can silence the receiver for good.  When the header announces a body
    of 2^32 - 8 bytes or more, the new size of the scratch buffer, [bodylen+8], wraps
    around in 32 bits and the buffer shrinks below a header; from then on every datagram
    is "small" and, whatever arrives, no block is ever updated again. *)
Theorem udp_oversize_silences {B} `{EvBufferLaws B} `{EpicsEnv} `{UdpNet}
    `{UdpRecords B} (s : PSCUDP B) id n part :
  0 ≤ id < 2 ^ 16 → 2 ^ 32 - 8 ≤ n < 2 ^ 32 →
  HEADER_SIZE + zlen part ≤ zlen (rxscratch s) < 2 ^ 32 - 8 →
  let s1 := (ev_recv EV_READ [Dgram true (put_header id n ++ part)] s).2 in
  zlen (rxscratch s1) = n + 8 - 2 ^ 32 ∧
  ∀ later : list (Z * list rx_dgram),
    recv_blocks (ubase (foldl (λ s e, (ev_recv e.1 e.2 s).2) s1 later)) = recv_blocks (ubase s).
Proof.
  intros Hid Hn Hfit s1.
  destruct (recv_packet_oversize s id n part false Hid Hn Hfit) as (s' & E & Hlen & Hblk).
  assert (Hs1 : zlen (rxscratch s1) = n + 8 - 2 ^ 32 ∧ recv_blocks (ubase s1) = recv_blocks (ubase s)).
  { subst s1. unfold ev_recv, catch, recvdata.
    change (ev_has EV_READ EV_TIMEOUT) with false. change (ev_has EV_READ EV_READ) with true.
    cbv iota. cbn [negb recv_packets]. unfold bind. rewrite !E. cbn. by rewrite Hlen, Hblk. }
  clearbody s1. destruct Hs1 as [Hl1 Hb1]. split; [done|]. intros later. rewrite <-Hb1.
  assert (Hd : deaf s1) by (unfold deaf; lia). clear - Hd.
  revert s1 Hd. induction later as [|[evt q] later IH]; intros s1 Hd; [done|]. cbn [foldl fst snd].
  destruct (deaf_ev_recv evt q s1 Hd) as [Hd2 <-]. by apply IH.
Qed.

Lemma udp_oversize_silences_witness :
  let H := quiet_env in let N := good_net in let R := quiet_udp in
  let s1 := (ev_recv EV_READ [Dgram true (put_header 42 (2 ^ 32 - 8) ++ [])] sample_udp).2 in
  zlen (rxscratch s1) = 2 ^ 32 - 8 + 8 - 2 ^ 32 ∧
  ∀ later : list (Z * list rx_dgram),
    recv_blocks (ubase (foldl (λ s e, (ev_recv e.1 e.2 s).2) s1 later)) = recv_blocks (ubase sample_udp).
Proof.
  intros H N R. apply (udp_oversize_silences sample_udp 42 (2 ^ 32 - 8) []).
  - lia.
  - lia.
  - split; [vm_compute; congruence|vm_compute; reflexivity].
Defined.

(** A queued packet is the encoded message, whatever was in the buffer it reuses: the
    queue grows by exactly that packet, the block is flagged and counted; a full queue
    throws and changes nothing.  Neither the connection nor the flag of the block is
    checked. *)
Theorem udp_queue_packet {B} `{EvBuffer B} (s : PSCUDP B) k b body :
  send_blocks (ubase s) !! k = Some b → zlen body < 2 ^ 32 - 8 →
  if zlen (sendbuf s) >=? 64
  then queueSend_bytes k body s = (Throw (RuntimeError "UDP send queue limit exceeded"), s)
  else ∃ s', queueSend_bytes k body s = (Ret tt, s') ∧
    sendbuf s' = sendbuf s ++ [put_header (code b) (zlen body) ++ body] ∧
    readybuf s' = tail (readybuf s) ∧
    send_blocks (ubase s') = <[k := incr_count (set_queued true b)]> (send_blocks (ubase s)) ∧
    txbuf s' = txbuf s ∧ connected (ubase s') = connected (ubase s) ∧ log (ubase s') = log (ubase s).
Proof.
  intros Hk Hlen. pose proof (zlen_nonneg body).
  destruct (zlen (sendbuf s) >=? 64) eqn:E64.
  { unfold queueSend_bytes, queueHeader. unfold bind at 1, bind at 1, get at 1. by rewrite E64. }
  assert (Hq : ∃ scratch, zlen scratch = 8 + zlen body ∧ queueHeader k (zlen body) s =
    (Ret tt, set_sendbuf (sendbuf s ++ [zblit 0 (put_header (code b) (zlen body)) scratch])
               (set_readybuf (tail (readybuf s)) s))).
  { set (old := match readybuf s with [] => [] | b :: _ => b end).
    exists (zresize Byte.x00 (8 + zlen body) old). split; [apply zlen_zresize; lia|].
    unfold queueHeader. unfold bind at 1, get at 1. rewrite E64.
    erewrite bind_ret by (unfold on_ubase, zoom, send_block; rewrite Hk; reflexivity).
    rewrite wrapU_small by lia.
    replace (match readybuf s with [] => ([], []) | b0 :: r => (b0, r) end)
      with (old, tail (readybuf s)) by (subst old; by destruct (readybuf s)).
    do 2 mstep. rewrite zlen_zresize by lia. case_if; bool_to_prop; [lia|]. by destruct s. }
  destruct Hq as (scratch & Hs & Hq). unfold queueSend_bytes. erewrite bind_ret by exact Hq. mstep.
  assert (Hz : zlen (zblit 0 (put_header (code b) (zlen body)) scratch) = 8 + zlen body).
  { rewrite zlen_zblit; [lia|lia|]. rewrite zlen_put_header. unfold HEADER_SIZE. lia. }
  assert (Hlast : list.last (sendbuf s ++ [zblit 0 (put_header (code b) (zlen body)) scratch]) =
    Some (zblit 0 (put_header (code b) (zlen body)) scratch)) by apply last_snoc.
  erewrite bind_ret.
  2:{ unfold back_size. cbn [sendbuf set_sendbuf]. rewrite Hlast, Hz, wrapU_small by lia.
      rewrite Z.eqb_refl. reflexivity. }
  unfold fill_packet at 1. mstep. cbn [sendbuf set_sendbuf]. rewrite Hlast.
  rewrite length_app. cbn [length]. rewrite Nat.add_1_r. cbn [pred]. rewrite take_app_length.
  unfold mark_queued, on_ubase, zoom, upd_send, modify. eexists. split; [reflexivity|]. cbn.
  split; [|split; [done|by rewrite (alter_alt_Some _ _ _ b)]].
  do 2 f_equal. unfold zblit at 2. rewrite (ztake_neg 0) by lia. cbn [app].
  rewrite zlen_put_header. unfold HEADER_SIZE. rewrite Z.add_0_l.
  unfold zblit. change 8 with HEADER_SIZE at 1 2. rewrite ztake_put_header.
  replace (zdrop (HEADER_SIZE + zlen body) _) with (@nil byte); [by rewrite app_nil_r|].
  symmetry. apply zdrop_all. rewrite zlen_app, zlen_put_header, zlen_zdrop. unfold HEADER_SIZE. lia.
Qed.

Lemma udp_queue_packet_witness :
  let s := set_readybuf [replicate 20 Byte.xff] sample_udp in
  if zlen (sendbuf s) >=? 64
  then queueSend_bytes 10 [Byte.x01] s = (Throw (RuntimeError "UDP send queue limit exceeded"), s)
  else ∃ s', queueSend_bytes 10 [Byte.x01] s = (Ret tt, s') ∧
    sendbuf s' = sendbuf s ++
      [put_header (code (new_Block (B:=ChainBuf.chainbuf) 10)) (zlen [Byte.x01]) ++ [Byte.x01]] ∧
    readybuf s' = tail (readybuf s) ∧
    send_blocks (ubase s') =
      <[10 := incr_count (set_queued true (new_Block 10))]> (send_blocks (ubase s)) ∧
    txbuf s' = txbuf s ∧ connected (ubase s') = connected (ubase s) ∧ log (ubase s') = log (ubase s).
Proof.
  intros s. apply (udp_queue_packet s 10 (new_Block 10) [Byte.x01]).
  - reflexivity.
  - unfold zlen. cbn. lia.
Defined.

End Udp.
