(* ===== verification/Ieee.v ===== *)
(** * IEEE-754 numbers as the compiler stores them

    [float] and [double] of the C++ source: the arithmetic of the standard library's
    [SpecFloat] (round to nearest even), the bit patterns behind the values, and the
    conversions the device support relies on.  All NaNs are one value, so the payload
    of a NaN does not survive a conversion from bits to a value and back. *)

From Stdlib Require Export Floats.SpecFloat.
From S2P Require Import Prelude.

(** Precision (with the hidden bit), exponent of infinity, bits of the stored exponent. *)
Record format := Format { fprec : Z; femax : Z; febits : Z }.

Definition binary32 : format := Format 24 128 8.
Definition binary64 : format := Format 53 1024 11.

Section ieee.
Context (f : format).

Definition mant_bits : Z := fprec f - 1.
Definition emin_of : Z := emin (fprec f) (femax f).
Definition exp_max : Z := 2 ^ febits f - 1.
Definition fwidth : Z := 1 + febits f + mant_bits.

(** The value a bit pattern stands for. *)
Definition of_bits (z : Z) : spec_float :=
  let s := Z.testbit z (fwidth - 1) in
  let m := z mod 2 ^ mant_bits in
  let e := (z / 2 ^ mant_bits) mod 2 ^ febits f in
  if e =? 0 then
    match m with
    | Z0 => S754_zero s
    | Zpos p => S754_finite s p emin_of
    | Zneg _ => S754_nan
    end
  else if e =? exp_max then (if m =? 0 then S754_infinity s else S754_nan)
  else
    match m + 2 ^ mant_bits with
    | Zpos p => S754_finite s p (emin_of + e - 1)
    | _ => S754_nan
    end.

(** The bit pattern of a value; a NaN is the quiet one without payload. *)
Definition to_bits (x : spec_float) : Z :=
  let sign (s : bool) := if s then 2 ^ (fwidth - 1) else 0 in
  match x with
  | S754_zero s => sign s
  | S754_infinity s => sign s + exp_max * 2 ^ mant_bits
  | S754_nan => exp_max * 2 ^ mant_bits + 2 ^ (mant_bits - 1)
  | S754_finite s m e =>
      if Zpos m <? 2 ^ mant_bits then sign s + Zpos m
      else sign s + (e - emin_of + 1) * 2 ^ mant_bits + (Zpos m - 2 ^ mant_bits)
  end.

(** Conversion of an integer, and of a value of another format. *)
Definition of_int (z : Z) : spec_float := binary_normalize (fprec f) (femax f) z 0 false.

Definition round_to (x : spec_float) : spec_float :=
  match x with
  | S754_finite s m e => binary_normalize (fprec f) (femax f) (cond_Zopp s (Zpos m)) e s
  | _ => x
  end.

Definition fadd := SFadd (fprec f) (femax f).
Definition fsub := SFsub (fprec f) (femax f).
Definition fmul := SFmul (fprec f) (femax f).
Definition fdiv := SFdiv (fprec f) (femax f).
Definition fsqrt := SFsqrt (fprec f) (femax f).
End ieee.

Definition isnan (x : spec_float) : bool := match x with S754_nan => true | _ => false end.

(** Conversion to a signed integer of [w] bits truncates; out of range it is undefined. *)
Definition trunc (x : spec_float) : option Z :=
  match x with
  | S754_zero _ => Some 0
  | S754_finite s m e =>
      Some (cond_Zopp s (if 0 <=? e then Zpos m * 2 ^ e else Zpos m / 2 ^ (- e)))
  | _ => None
  end.

Definition to_int (w : Z) (x : spec_float) : option Z :=
  match trunc x with
  | Some z => if (- 2 ^ (w - 1) <=? z) && (z <? 2 ^ (w - 1)) then Some z else None
  | None => None
  end.

(** ** Bits to value and back *)

Section roundtrip.
Context (f : format).
Hypothesis Hp : 1 < fprec f.
Hypothesis He : 1 < febits f.

Lemma fields_of_bits z :
  0 ≤ z < 2 ^ fwidth f →
  z = (if Z.testbit z (fwidth f - 1) then 2 ^ (fwidth f - 1) else 0)
      + (z / 2 ^ mant_bits f) mod 2 ^ febits f * 2 ^ mant_bits f + z mod 2 ^ mant_bits f.
Proof using Hp He.
  intros Hz. unfold fwidth in *. set (mb := mant_bits f) in *.
  assert (0 < mb) by (subst mb; unfold mant_bits; lia).
  pose proof (Z.div_mod z (2 ^ mb)) as E1.
  assert (0 < 2 ^ mb) by (apply Z.pow_pos_nonneg; lia).
  assert (0 < 2 ^ febits f) by (apply Z.pow_pos_nonneg; lia).
  pose proof (Z.div_mod (z / 2 ^ mb) (2 ^ febits f)) as E2.
  assert (Hq : z / 2 ^ mb / 2 ^ febits f = z / 2 ^ (1 + febits f + mb - 1)).
  { rewrite Z.div_div, <-Z.pow_add_r by lia. do 2 f_equal. lia. }
  assert (Ht : Z.testbit z (1 + febits f + mb - 1) = (z / 2 ^ (1 + febits f + mb - 1) =? 1)).
  { set (k := 1 + febits f + mb - 1) in *.
    assert (z / 2 ^ k < 2).
    { apply Z.div_lt_upper_bound; [apply Z.pow_pos_nonneg; lia|].
      replace (2 ^ k * 2) with (2 ^ (1 + febits f + mb)); [lia|].
      rewrite Z.mul_comm, <-Z.pow_succ_r by lia. f_equal. lia. }
    assert (0 ≤ z / 2 ^ k) by (apply Z.div_pos; [lia|apply Z.pow_pos_nonneg; lia]).
    rewrite Z.testbit_eqb by lia. rewrite Z.mod_small by lia. done. }
  rewrite Ht.
  replace (2 ^ (1 + febits f + mb - 1)) with (2 ^ mb * 2 ^ febits f) in *
    by (rewrite <-Z.pow_add_r by lia; f_equal; lia).
  assert (z / (2 ^ mb * 2 ^ febits f) = 0 ∨ z / (2 ^ mb * 2 ^ febits f) = 1) as Hc.
  { assert (z / (2 ^ mb * 2 ^ febits f) < 2).
    { apply Z.div_lt_upper_bound; [nia|].
      replace (2 ^ mb * 2 ^ febits f * 2) with (2 ^ (1 + febits f + mb)); [lia|].
      rewrite !Z.pow_add_r by lia. lia. }
    assert (0 ≤ z / (2 ^ mb * 2 ^ febits f)) by (apply Z.div_pos; nia). lia. }
  rewrite Hq in E2. destruct Hc as [Hc|Hc]; rewrite Hc in *; cbn [Z.eqb Pos.eqb]; nia.
Qed.

(** Every pattern that is not a NaN comes back. *)
Lemma to_bits_of_bits z :
  0 ≤ z < 2 ^ fwidth f → isnan (of_bits f z) = false → to_bits f (of_bits f z) = z.
Proof using Hp He.
  intros Hz. rewrite (fields_of_bits z Hz) at 3. unfold of_bits.
  assert (Hmb : 0 < mant_bits f) by (unfold mant_bits; lia).
  assert (0 < 2 ^ mant_bits f) by (apply Z.pow_pos_nonneg; lia).
  pose proof (Z.mod_pos_bound z (2 ^ mant_bits f)) as Hm.
  set (m := z mod 2 ^ mant_bits f) in *.
  set (e := (z / 2 ^ mant_bits f) mod 2 ^ febits f) in *.
  set (s := Z.testbit z (fwidth f - 1)).
  destruct (Z.eqb_spec e 0) as [E0|E0].
  - rewrite E0, Z.mul_0_l, Z.add_0_r. destruct m as [|p|p] eqn:Em; cbn [to_bits isnan]; [lia| |lia].
    intros _. case_if; bool_to_prop; lia.
  - destruct (Z.eqb_spec e (exp_max f)) as [E1|E1].
    + destruct (Z.eqb_spec m 0) as [->|]; [|done]. intros _. cbn [to_bits]. rewrite E1. lia.
    + destruct (m + 2 ^ mant_bits f) as [|p|p] eqn:Ep; cbn [to_bits isnan]; [lia| |lia].
      intros _. case_if; bool_to_prop; [lia|]. nia.
Qed.
End roundtrip.

Lemma binary32_bits z :
  0 ≤ z < 2 ^ 32 → isnan (of_bits binary32 z) = false → to_bits binary32 (of_bits binary32 z) = z.
Proof. by apply (to_bits_of_bits binary32). Qed.

Lemma binary64_bits z :
  0 ≤ z < 2 ^ 64 → isnan (of_bits binary64 z) = false → to_bits binary64 (of_bits binary64 z) = z.
Proof. by apply (to_bits_of_bits binary64). Qed.

(** ** Small integers are exact *)

Lemma digits2_log2 m : Zpos (digits2_pos m) = Z.log2 (Zpos m) + 1.
Proof.
  induction m as [m IH|m IH|]; cbn [digits2_pos]; [..|done].
  - rewrite Pos2Z.inj_succ, IH, Pos2Z.inj_xI, Z.log2_succ_double by lia. lia.
  - rewrite Pos2Z.inj_succ, IH, Pos2Z.inj_xO, Z.log2_double by lia. lia.
Qed.

Lemma iter_xO m k : Zpos (Pos.iter xO m k) = Zpos m * 2 ^ Zpos k.
Proof.
  induction k as [|k IH] using Pos.peano_ind; [cbn; lia|].
  rewrite Pos.iter_succ, Pos2Z.inj_xO, IH, Pos2Z.inj_succ, Z.pow_succ_r by lia. ring.
Qed.

(** A mantissa of full length is kept by rounding. *)
Lemma round_aux_exact s m e :
  Zpos (digits2_pos m) = 53 → -1074 ≤ e ≤ 971 →
  binary_round_aux 53 1024 s (Zpos m) e loc_Exact = S754_finite s m e.
Proof.
  intros Hd He. unfold binary_round_aux, shr_fexp. cbn [shr_record_of_loc Zdigits2].
  rewrite Hd. assert (fexp 53 1024 (53 + e) - e = 0) as -> by (unfold fexp, emin; lia).
  cbn [shr shr_m loc_of_shr_record round_nearest_even Zdigits2].
  rewrite Hd. assert (fexp 53 1024 (53 + e) - e = 0) as -> by (unfold fexp, emin; lia).
  cbn [shr shr_m]. destruct (Z.leb_spec e (1024 - 53)); [done|lia].
Qed.

Lemma round_small s m :
  Zpos m < 2 ^ 53 →
  ∃ mz e, binary_round 53 1024 s m 0 = S754_finite s mz e ∧ -53 ≤ e ≤ 0 ∧
    Zpos mz = Zpos m * 2 ^ (- e) ∧ 2 ^ 52 ≤ Zpos mz < 2 ^ 53.
Proof.
  intros Hm. unfold binary_round, shl_align. rewrite Z.add_0_r, digits2_log2.
  assert (Hl : 0 ≤ Z.log2 (Zpos m) < 53).
  { split; [apply Z.log2_nonneg|]. apply Z.log2_lt_pow2; lia. }
  assert (fexp 53 1024 (Z.log2 (Zpos m) + 1) = Z.log2 (Zpos m) + 1 - 53) as ->.
  { unfold fexp, emin. lia. }
  rewrite Z.sub_0_r. destruct (Z.log2 (Zpos m) + 1 - 53) as [|k|k] eqn:E; [|lia|].
  - exists m, 0. rewrite round_aux_exact; [|rewrite digits2_log2; lia|lia].
    pose proof (Z.log2_spec (Zpos m)). assert (Z.log2 (Zpos m) = 52) as El by lia. rewrite El in *.
    split_and!; [done|lia|lia|lia|lia|lia].
  - exists (Pos.iter xO m k), (Zneg k).
    assert (Zpos (digits2_pos (Pos.iter xO m k)) = 53).
    { rewrite digits2_log2, iter_xO, Z.log2_mul_pow2 by lia. lia. }
    rewrite round_aux_exact by lia. split_and!; [done|lia|lia|apply iter_xO|..].
    all: pose proof (Z.log2_spec (Zpos (Pos.iter xO m k))); rewrite digits2_log2 in *.
    all: assert (Z.log2 (Zpos (Pos.iter xO m k)) = 52) as El by lia; rewrite El in *; lia.
Qed.

(** An integer below 2^53 converts to [double] and back unchanged. *)
Lemma trunc_of_int z : Z.abs z < 2 ^ 53 → trunc (of_int binary64 z) = Some z.
Proof.
  intros Hz. unfold of_int, binary_normalize. cbn [fprec femax binary64].
  destruct z as [|m|m]; [done|..].
  all: match goal with |- context [binary_round _ _ ?s _ _] =>
         destruct (round_small s m) as (mz & e & -> & He & Hm & _); [lia|] end.
  all: cbn [trunc cond_Zopp]; rewrite Hm.
  all: destruct (Z.leb_spec 0 e); [assert (e = 0) as -> by lia; f_equal; lia|].
  all: rewrite Z.div_mul by (apply Z.pow_nonzero; lia); done.
Qed.

Lemma to_int_of_int w z :
  0 < w ≤ 53 → - 2 ^ (w - 1) ≤ z < 2 ^ (w - 1) → to_int w (of_int binary64 z) = Some z.
Proof.
  intros Hw Hz. unfold to_int. rewrite trunc_of_int.
  - destruct (Z.leb_spec (- 2 ^ (w - 1)) z), (Z.ltb_spec z (2 ^ (w - 1))); done || lia.
  - assert (2 ^ (w - 1) ≤ 2 ^ 52) by (apply Z.pow_le_mono_r; lia). lia.
Qed.

(** The pattern of a normal [double], taken apart. *)
Lemma of_to_bits_normal s m e :
  2 ^ 52 ≤ Zpos m < 2 ^ 53 → -1074 ≤ e ≤ 971 →
  of_bits binary64 (to_bits binary64 (S754_finite s m e)) = S754_finite s m e.
Proof.
  intros Hm He. unfold to_bits.
  change (mant_bits binary64) with 52. change (fwidth binary64) with 64.
  change (emin_of binary64) with (-1074).
  destruct (Z.ltb_spec (Zpos m) (2 ^ 52)); [lia|].
  set (sg := if s then 2 ^ (64 - 1) else 0). set (f := Zpos m - 2 ^ 52). set (k := e - -1074 + 1).
  set (z := sg + k * 2 ^ 52 + f).
  assert (Hz : z = (sg / 2 ^ 52 + k) * 2 ^ 52 + f).
  { subst z sg. destruct s; [|change (0 / 2 ^ 52) with 0; lia].
    change (2 ^ (64 - 1)) with (2 ^ 11 * 2 ^ 52). rewrite Z.div_mul by lia. lia. }
  assert (Hf : z mod 2 ^ 52 = f) by (rewrite Hz, Z.add_comm, Z_mod_plus_full; apply Z.mod_small; lia).
  assert (Hq : z / 2 ^ 52 = sg / 2 ^ 52 + k).
  { rewrite Hz, Z.div_add_l, (Z.div_small f) by lia. lia. }
  assert (Hk : (z / 2 ^ 52) mod 2 ^ 11 = k).
  { rewrite Hq. subst sg. destruct s.
    - change (2 ^ (64 - 1) / 2 ^ 52) with (1 * 2 ^ 11).
      rewrite Z.add_comm, Z_mod_plus_full. apply Z.mod_small. lia.
    - change (0 / 2 ^ 52) with 0. apply Z.mod_small. lia. }
  assert (Hs : Z.testbit z (64 - 1) = s).
  { rewrite Z.testbit_eqb by lia. change (2 ^ (64 - 1)) with (2 ^ 52 * 2 ^ 11).
    rewrite <-Z.div_div, Hq by lia. subst sg. destruct s.
    - change (2 ^ (64 - 1) / 2 ^ 52) with (1 * 2 ^ 11).
      rewrite Z.div_add_l, (Z.div_small k) by lia. done.
    - change (0 / 2 ^ 52) with 0. rewrite Z.div_small by lia. done. }
  unfold of_bits. change (mant_bits binary64) with 52. change (fwidth binary64) with 64.
  change (emin_of binary64) with (-1074). change (febits binary64) with 11.
  change (exp_max binary64) with 2047. rewrite Hk, Hf, Hs.
  destruct (Z.eqb_spec k 0); [lia|]. destruct (Z.eqb_spec k 2047); [lia|].
  assert (f + 2 ^ 52 = Zpos m) as -> by lia. f_equal. lia.
Qed.

(** The bits of a [double] with a small integer value convert back. *)
Lemma int_through_bits z :
  Z.abs z < 2 ^ 53 →
  of_bits binary64 (to_bits binary64 (of_int binary64 z)) = of_int binary64 z.
Proof.
  intros Hz. unfold of_int, binary_normalize. cbn [fprec femax binary64].
  destruct z as [|m|m]; [done|..].
  all: match goal with |- context [binary_round _ _ ?s _ _] =>
         destruct (round_small s m) as (mz & e & -> & He & _ & Hm); [lia|] end.
  all: apply of_to_bits_normal; lia.
Qed.

Lemma int_bits_range z : Z.abs z < 2 ^ 53 → 0 ≤ to_bits binary64 (of_int binary64 z) < 2 ^ 64.
Proof.
  intros Hz. unfold of_int, binary_normalize. cbn [fprec femax binary64].
  destruct z as [|m|m]; [done|..].
  all: match goal with |- context [binary_round _ _ ?s _ _] =>
         destruct (round_small s m) as (mz & e & -> & He & _ & Hm); [lia|] end.
  all: unfold to_bits; change (mant_bits binary64) with 52; change (fwidth binary64) with 64;
    change (emin_of binary64) with (-1074).
  all: destruct (Z.ltb_spec (Zpos mz) (2 ^ 52)); lia.
Qed.

(** ** Order *)

(** Comparison is lexicographic: sign and kind, then exponent, then mantissa. *)
Definition fkey (x : spec_float) : Z * Z * Z :=
  match x with
  | S754_infinity true => (-2, 0, 0)
  | S754_finite true m e => (-1, - e, - Zpos m)
  | S754_zero _ | S754_nan => (0, 0, 0)
  | S754_finite false m e => (1, e, Zpos m)
  | S754_infinity false => (2, 0, 0)
  end.

Definition key_lt (a b : Z * Z * Z) : Prop :=
  a.1.1 < b.1.1 ∨ a.1.1 = b.1.1 ∧ (a.1.2 < b.1.2 ∨ a.1.2 = b.1.2 ∧ a.2 < b.2).

(** The three outcomes of a comparison. *)
Lemma compare_key x y :
  match SFcompare x y with
  | Some Lt => key_lt (fkey x) (fkey y)
  | Some Eq => fkey x = fkey y
  | Some Gt => key_lt (fkey y) (fkey x)
  | None => isnan x = true ∨ isnan y = true
  end.
Proof.
  destruct x as [[]|[]| |[] m e], y as [[]|[]| |[] m' e']; cbn; unfold key_lt; cbn; auto; try (left; reflexivity).
  all: destruct (Z.compare_spec e e') as [->|He|He]; try (right; lia).
  all: change (Pos.compare_cont Eq m m') with (Pos.compare m m').
  all: destruct (Pos.compare_spec m m') as [->|Hm|Hm]; cbn; try done; right; split; auto; right; lia.
Qed.

(** [x<y] and [x<=y] of numbers. *)
Lemma flt_key x y :
  isnan x = false → isnan y = false → SFltb x y = true ↔ key_lt (fkey x) (fkey y).
Proof.
  intros Hx Hy. pose proof (compare_key x y) as Hk. unfold SFltb.
  destruct (SFcompare x y) as [[]|]; unfold key_lt in *; [|by split|split; [done|lia]|destruct Hk; congruence].
  rewrite Hk. split; [done|lia].
Qed.

Lemma fle_key x y :
  isnan x = false → isnan y = false → SFleb x y = true ↔ ¬ key_lt (fkey y) (fkey x).
Proof.
  intros Hx Hy. pose proof (compare_key x y) as Hk. unfold SFleb.
  destruct (SFcompare x y) as [[]|]; unfold key_lt in *; [|split; [lia|done]|by split|destruct Hk; congruence].
  rewrite Hk. split; [lia|done].
Qed.

Lemma flt_not_nan x y : SFltb x y = true → isnan x = false ∧ isnan y = false.
Proof. destruct x, y; done. Qed.

Lemma flt_fle x y : isnan x = false → isnan y = false → SFltb x y = negb (SFleb y x).
Proof.
  intros Hx Hy. pose proof (flt_key x y Hx Hy). pose proof (fle_key y x Hy Hx).
  destruct (SFltb x y), (SFleb y x); cbn; try done; exfalso; tauto.
Qed.

Lemma fle_refl x : isnan x = false → SFleb x x = true.
Proof. intros Hx. apply fle_key; [done|done|]. unfold key_lt. lia. Qed.

Lemma fle_trans x y z :
  isnan x = false → isnan y = false → isnan z = false →
  SFleb x y = true → SFleb y z = true → SFleb x z = true.
Proof. intros Hx Hy Hz. rewrite !fle_key by done. unfold key_lt. lia. Qed.

Lemma flt_le_trans x y z :
  isnan x = false → isnan y = false → isnan z = false →
  SFltb x y = true → SFleb y z = true → SFltb x z = true.
Proof. intros Hx Hy Hz. rewrite !flt_key, fle_key by done. unfold key_lt. lia. Qed.

(** Integers below 2^53 keep their order. *)
Lemma fle_of_int i j : 0 ≤ i ≤ j → j < 2 ^ 53 → SFleb (of_int binary64 i) (of_int binary64 j) = true.
Proof.
  intros Hi Hj. unfold of_int, binary_normalize. cbn [fprec femax binary64].
  destruct i as [|i|i], j as [|j|j]; try lia; [done|..].
  - destruct (round_small false j) as (mz & e & -> & _); [lia|]. done.
  - destruct (round_small false i) as (mi & ei & -> & Hei & Hmi & Hri); [lia|].
    destruct (round_small false j) as (mj & ej & -> & Hej & Hmj & Hrj); [lia|].
    apply fle_key; [done|done|]. unfold key_lt. cbn. intros [?|[_ Hk]]; [lia|].
    assert (Hlt : ej < ei ∨ ej = ei ∧ Zpos mj < Zpos mi) by lia. clear Hk.
    destruct Hlt as [Hlt|[-> Hlt]]; [|nia].
    assert (E : 2 ^ (- ej) = 2 ^ (- ei) * 2 ^ (ei - ej)) by (rewrite <-Z.pow_add_r by lia; f_equal; lia).
    assert (2 ^ 1 ≤ 2 ^ (ei - ej)) by (apply Z.pow_le_mono_r; lia).
    assert (0 < 2 ^ (- ei)) by (apply Z.pow_pos_nonneg; lia). nia.
Qed.

Lemma of_int_not_nan i : Z.abs i < 2 ^ 53 → isnan (of_int binary64 i) = false.
Proof.
  intros Hi. pose proof (trunc_of_int i Hi). by destruct (of_int binary64 i).
Qed.
