(* ===== verification/DevCommon.v ===== *)
(** * Device support: common parts

    coreApp/src/psc/devcommon.h and devcommon.cpp: byte order conversion, the private
    data of a record, its alarms and time stamp, link parsing and the analog conversions.
    The device supports ([DevReg], [DevSingle], [DevWf], [DevString], [DevCtrl]) are
    written over these and over the interface [PSCVirtual] of a driver.

    A call holds the lock of its driver ([Guard g(psc->lock)]) from beginning to end, so
    it is one step of the state. *)

From Stdlib Require Import Strings.Ascii Strings.String.
From S2P Require Import Prelude EvBuffer Dbuffer Block PscBase Ieee.

(** ** Byte order *)

(** What the compiler decides: byte order, and the alignment of 8 byte members of a
    struct. *)
Class Host := {
  big_endian : bool;
  align8 : Z;
}.

(** x86-64 *)
Definition pc_host : Host := {| big_endian := false; align8 := 8 |}.

(** [sizeof(T)] of the types [hton] is instantiated with. *)
Inductive width := W1 | W2 | W4 | W8.
#[export] Instance width_eq_decision : EqDecision width.
Proof. solve_decision. Defined.

Definition sizeof (w : width) : nat := match w with W1 => 1 | W2 => 2 | W4 => 4 | W8 => 8 end.
Definition bits (w : width) : Z := 8 * Z.of_nat (sizeof w).

Section byteorder.
Context `{Host}.

(** The unsigned value of an object with the given bytes in memory, and its bytes. *)
Definition host_val (bs : list byte) : Z := be_val (if big_endian then bs else rev bs).
Definition host_bytes (n : nat) (z : Z) : list byte :=
  if big_endian then be_bytes n z else rev (be_bytes n z).

(** [htons], [htonl]: the value whose bytes in memory are big-endian. *)
Definition htons (z : Z) : Z := host_val (be_bytes 2 z).
Definition htonl (z : Z) : Z := host_val (be_bytes 4 z).

(** [detail::nswap<L>::op], on bit patterns. *)
Definition nswap (w : width) (v : Z) : Z :=
  match w with
  | W1 => v
  | W2 => htons v
  | W4 => htonl v
  | W8 =>
      let h := u32 (Z.shiftr v 32) in
      let l := u32 v in
      Z.lor (u64 (Z.shiftl (htonl l) 32)) (htonl h)
  end.

Definition hton (w : width) (v : Z) : Z := nswap w v.
Definition ntoh (w : width) (v : Z) : Z := hton w v.

(** [bytes2val<T>(bytes)] *)
Definition bytes2val (w : width) (bs : list byte) : Z := ntoh w (host_val bs).
End byteorder.

(** ** Records *)

(** Calls into EPICS base: the pending alarm after [recGblSetSevr(prec, status,
    severity)], the conversion of a time stamp to [epicsTime], and [epicsStrCaseCmp]
    being zero. *)
Class EpicsRecord := {
  recGblSetSevr : Z → Z → Z * Z → Z * Z;
  epicsTime_of_stamp : epicsTime → outcome epicsTime;
  epicsStrCaseEq : string → string → bool;
}.

(** What EPICS documents: the alarm with the higher severity is kept. *)
Definition base_record : EpicsRecord := {|
  recGblSetSevr st sv a := if sv >? a.2 then (st, sv) else a;
  epicsTime_of_stamp t :=
    if nsec t <? 1000000000 then Ret t else Throw (LogicError "overflow in nano-seconds field");
  epicsStrCaseEq a b := bool_decide (a = b);
|}.

(** Fields of [dbCommon]; [prec_id] stands for the record's address. *)
Record dbCommon := MkCommon {
  prec_id : Z;
  nsta : Z;
  nsev : Z;
  udf : Z;
  tse : Z;
  time : epicsTime;
}.

Inductive block_ptr := RecvBlk (k : Z) | SendBlk (k : Z).

(** [struct Priv]; [psc] is the name of the driver pointed to. *)
Record Priv := MkPriv {
  psc : string;
  bid : Z;
  block : option block_ptr;
  offset : Z;
  step : Z;
  timeFromBlock : bool;
  tsoffset : Z;
}.

(** A record with fields [R] of its type, private data [V] of its device support, and the
    drivers by name ([PSCBase::pscmap]). *)
Record devst (R V P : Type) := DevSt {
  com : dbCommon;
  rec : R;
  dpvt : option V;
  pscmap : gmap string P;
}.
Arguments DevSt {R V P}.
Arguments com {R V P} _.
Arguments rec {R V P} _.
Arguments dpvt {R V P} _.
Arguments pscmap {R V P} _.

(** What device support returns. *)
Inductive dev_status := Status (z : Z) | S_dev_badRequest.

(** [tse] of a record that takes its time from device support; seconds from 1970 to 1990. *)
Definition epicsTimeEventDeviceTime : Z := -2.
Definition POSIX_TIME_AT_EPICS_EPOCH : Z := 631152000.

Definition set_alarm (a : Z * Z) (c : dbCommon) : dbCommon :=
  MkCommon (prec_id c) a.1 a.2 (udf c) (tse c) (time c).
Definition set_udf (v : Z) (c : dbCommon) : dbCommon :=
  MkCommon (prec_id c) (nsta c) (nsev c) v (tse c) (time c).
Definition set_time (t : epicsTime) (c : dbCommon) : dbCommon :=
  MkCommon (prec_id c) (nsta c) (nsev c) (udf c) (tse c) t.

Section setters.
Context {R V P : Type}.
Implicit Types s : devst R V P.

Definition set_com (c : dbCommon) s : devst R V P := DevSt c (rec s) (dpvt s) (pscmap s).
Definition set_rec (r : R) s : devst R V P := DevSt (com s) r (dpvt s) (pscmap s).
Definition set_dpvt (v : option V) s : devst R V P := DevSt (com s) (rec s) v (pscmap s).
Definition set_pscmap (m : gmap string P) s : devst R V P := DevSt (com s) (rec s) (dpvt s) m.
End setters.

(** ** Alarms, time stamps, access to the block *)

Section devcommon.
Context {B P R V : Type} `{EvBuffer B} `{!PSCVirtual B P} `{Host} `{EpicsRecord}.
Implicit Types s : devst R V P.
Implicit Types priv : Priv.

Definition lift {S A} (o : outcome A) : M S A := λ st, (o, st).

(** [recGblSetSevr(prec, st, sv)] *)
Definition setSevr (st sv : Z) : M (devst R V P) unit :=
  modify (λ s, set_com (set_alarm (recGblSetSevr st sv (nsta (com s), nsev (com s))) (com s)) s).

(** [try { m } CATCH(NAME, REC)] *)
Definition CATCH (m : M (devst R V P) dev_status) : M (devst R V P) dev_status :=
  catch m (λ e,
    (match e with
     | RecAlarm st sv => setSevr st sv
     | _ => setSevr COMM_ALARM INVALID_ALARM
     end) ;;;
    ret S_dev_badRequest).

(** The body of a processing function: nothing without private data. *)
Definition with_priv {A} (k : A → M (devst R A P) dev_status) : M (devst R A P) dev_status :=
  s <- get ;;
  match dpvt s with
  | None => ret (Status (-1))
  | Some v => k v
  end.

(** A call on [priv->psc]. *)
Definition on_psc {A} priv (m : M P A) : M (devst R V P) A := λ s,
  match pscmap s !! psc priv with
  | None => (Crash NullDeref, s)
  | Some p => let '(o, p') := m p in (o, set_pscmap (<[psc priv := p']> (pscmap s)) s)
  end.

Definition isConnected priv : M (devst R V P) bool := on_psc priv (gets (λ p, connected (psc_base p))).

(** [*priv->block] *)
Definition the_block priv : M (devst R V P) (Block (dbuffer B)) :=
  match block priv with
  | None => abort NullDeref
  | Some (RecvBlk k) => on_psc priv (on_base (recv_block k))
  | Some (SendBlk k) => on_psc priv (on_base (send_block k))
  end.

(** [priv->block->data = d] *)
Definition put_data priv (d : dbuffer B) : M (devst R V P) unit :=
  match block priv with
  | None => abort NullDeref
  | Some (RecvBlk k) => on_psc priv (on_base (upd_recv k (set_data d)))
  | Some (SendBlk k) => on_psc priv (on_base (upd_send k (set_data d)))
  end.

(** The time stamp of the block data, when it is asked for and there. *)
Definition block_time priv : M (devst R V P) (option epicsTime) :=
  if timeFromBlock priv && negb (bool_decide (block priv = None)) then
    b <- the_block priv ;;
    r <- lift (dbuffer_copyout_shape (data b) (tsoffset priv) 8 0 1) ;;
    ret (if r.1 =? 1 then
           Some (EpicsTime
                   (u32 (ntoh W4 (host_val (ztake 4 r.2)) - POSIX_TIME_AT_EPICS_EPOCH))
                   (ntoh W4 (host_val (zslice 4 4 r.2))))
         else None)
  else ret None.

(** [setRecTimestamp(priv)] *)
Definition setRecTimestamp priv : M (devst R V P) unit :=
  s <- get ;;
  if negb (tse (com s) =? epicsTimeEventDeviceTime) then ret tt
  else
    ts <- block_time priv ;;
    result <- (match ts with
               | Some ts => lift (epicsTime_of_stamp ts)
               | None => b <- the_block priv ;; ret (rxtime b)
               end) ;;
    modify (λ s, set_com (set_time result (com s)) s).

(** [get_iointr_info] of the input records: the block whose scan list the record joins. *)
Definition get_iointr_info : M (devst R Priv P) (dev_status * option block_ptr) :=
  s <- get ;;
  match dpvt s with
  | None => ret (Status (-1), None)
  | Some priv =>
      match block priv with
      | None => abort NullDeref
      | Some b => ret (Status 0, Some b)
      end
  end.

End devcommon.

(** ** Links *)

(** [std::istringstream] with its state bits; extraction in the C locale. *)
Module IStream.

Record istream := Istream { chars : list ascii; eof : bool; fail : bool }.

Definition istringstream (s : string) : istream := Istream (list_ascii_of_string s) false false.

Definition isspace (c : ascii) : bool :=
  let n := Z.of_nat (nat_of_ascii c) in (n =? 32) || ((9 <=? n) && (n <=? 13)).

Definition digit (c : ascii) : option Z :=
  let n := Z.of_nat (nat_of_ascii c) in
  if (48 <=? n) && (n <=? 57) then Some (n - 48) else None.

Fixpoint skipws (l : list ascii) : list ascii :=
  match l with
  | c :: r => if isspace c then skipws r else l
  | [] => []
  end.

Definition at_end (l : list ascii) : bool := match l with [] => true | _ => false end.

(** The sentry of a formatted extraction. *)
Definition sentry (st : istream) : istream :=
  if eof st || fail st then Istream (chars st) (eof st) true
  else let r := skipws (chars st) in Istream r (at_end r) (at_end r).

Fixpoint word (l : list ascii) : list ascii * list ascii :=
  match l with
  | c :: r => if isspace c then ([], l) else let '(w, k) := word r in (c :: w, k)
  | [] => ([], [])
  end.

Fixpoint digits (l : list ascii) (acc : Z) (n : nat) : Z * nat * list ascii :=
  match l with
  | c :: r => match digit c with
              | Some d => digits r (10 * acc + d) (S n)
              | None => (acc, n, l)
              end
  | [] => (acc, n, [])
  end.

(** [strm >> std::string] *)
Definition get_string : M istream string := λ st,
  let st := sentry st in
  if fail st then (Ret EmptyString, st)
  else let '(w, r) := word (chars st) in
       (Ret (string_of_list_ascii w), Istream r (at_end r) false).

Definition minus : ascii := "-"%char.
Definition plus : ascii := "+"%char.

(** [strm >> n] for an integer between [lo] and [hi]; a negative number wraps when the
    type is unsigned.  The value is used only when the stream has not failed. *)
Definition get_num (lo hi : Z) : M istream Z := λ st,
  let st := sentry st in
  if fail st then (Ret 0, st)
  else
    let '(neg, r) :=
      match chars st with
      | c :: r => if bool_decide (c = minus) then (true, r)
                  else if bool_decide (c = plus) then (false, r) else (false, chars st)
      | [] => (false, [])
      end in
    let '(v, n, r) := digits r 0 0 in
    if (n =? 0)%nat then (Ret 0, Istream r (at_end r) true)
    else if lo =? 0 then
      if v >? hi then (Ret hi, Istream r (at_end r) true)
      else (Ret (if neg then (- v) mod (hi + 1) else v), Istream r (at_end r) false)
    else
      let z := if neg then - v else v in
      if z <? lo then (Ret lo, Istream r (at_end r) true)
      else if z >? hi then (Ret hi, Istream r (at_end r) true)
      else (Ret z, Istream r (at_end r) false).

Definition get_uint : M istream Z := get_num 0 (2 ^ 32 - 1).
Definition get_ulong : M istream Z := get_num 0 (2 ^ 64 - 1).
Definition get_long : M istream Z := get_num (- 2 ^ 63) (2 ^ 63 - 1).

Definition unless_eof {A} (d : A) (m : M istream A) : M istream A :=
  st <- get ;; if eof st then ret d else m.

End IStream.

(** The extractions of [parse_link]: name, block, offset and step, or nothing when the
    stream failed. *)
Definition parse_fields (link : string) : option (string * Z * Z * Z) :=
  match
    (name <- IStream.get_string ;;
     blk <- IStream.get_uint ;;
     off <- IStream.unless_eof 0 IStream.get_ulong ;;
     stp <- IStream.unless_eof 0 IStream.get_long ;;
     ret (name, blk, off, stp)) (IStream.istringstream link)
  with
  | (Ret r, st) => if IStream.fail st then None else Some r
  | _ => None
  end.

(** The [TimeFromBlock] tag: the offset, when the text parses. *)
Definition parse_tsoffset (tag : option string) : option Z :=
  match tag with
  | None => None
  | Some txt =>
      match IStream.get_ulong (IStream.istringstream txt) with
      | (Ret z, st) => if IStream.fail st then None else Some z
      | _ => None
      end
  end.

Section parse.
Context {B P R V : Type} `{EvBuffer B} `{!PSCVirtual B P} `{Host} `{EpicsRecord}.
Implicit Types s : devst R V P.

(** [parse_link(priv, link, direction)]; [info] are the info tags of the record, [None]
    when the database does not know the record. *)
Definition parse_link (link : string) (info : option (string → option string)) (direction : Z)
    : M (devst R V P) Priv :=
  match parse_fields link with
  | None => throw (RuntimeError "Link parsing error")
  | Some (name, blk, off, stp) =>
      s <- get ;;
      match pscmap s !! name with
      | None => throw (RuntimeError "PSC name not known")
      | Some _ =>
          match info with
          | None => throw (LogicError "Record not found")
          | Some info =>
              let ts := parse_tsoffset (info "TimeFromBlock"%string) in
              let onconn := match info "SYNC"%string with
                            | Some scan => epicsStrCaseEq scan "ProcOnConn"
                            | None => false
                            end in
              let priv b := MkPriv name (u16 blk) b off stp
                              (bool_decide (is_Some ts)) (default 0 ts) in
              b <- (if direction =? 0 then
                      k <- on_psc (priv None) (on_base (getRecv (u16 blk))) ;; ret (Some (RecvBlk k))
                    else if direction =? 1 then
                      k <- on_psc (priv None) (on_base (getSend (u16 blk))) ;; ret (Some (SendBlk k))
                    else ret None) ;;
              when (onconn && negb (direction =? 0))
                (on_psc (priv None)
                   (on_base (modify (λ p, set_procOnConnect
                                            (procOnConnect p ++ [prec_id (com s)]) p)))) ;;;
              if bool_decide (b = None) && (direction <=? 1)
              then throw (RuntimeError "PSC can't get block #")
              else ret (priv b)
          end
      end
  end.

End parse.

Section init.
Context {B P R : Type} `{EvBuffer B} `{!PSCVirtual B P} `{Host} `{EpicsRecord}.

(** The common shape of the [init_record] functions: the link must be an INST_IO link,
    [extra] adjusts the record, and the private data is stored when the link parses. *)
Definition init_record (inst_io : bool) (extra : R → R) (link : string)
    (info : option (string → option string)) (direction : Z) : M (devst R Priv P) dev_status :=
  assert_ inst_io ;;;
  modify (λ s, set_rec (extra (rec s)) s) ;;;
  CATCH (priv <- parse_link link info direction ;;
         modify (set_dpvt (Some priv)) ;;;
         ret (Status 0)).
End init.

(** ** Analog conversion *)

(** The fields of an analog record the conversions read; [roff] is an unsigned word. *)
Record analog := Analog {
  roff : Z;
  aslo : spec_float;
  aoff : spec_float;
  linr : Z;
  eoff : spec_float;
  eslo : spec_float;
}.

(** menuConvert.dbd *)
Definition menuConvertNO_CONVERSION : Z := 0.
Definition menuConvertSLOPE : Z := 1.
Definition menuConvertLINEAR : Z := 2.

Definition linear_conv (a : analog) : bool :=
  (linr a =? menuConvertLINEAR) || (linr a =? menuConvertSLOPE).

Definition fzero : spec_float := S754_zero false.
Definition fone : spec_float := of_int binary64 1.

(** [analogRaw2EGU<double>(prec, rval)], with [(double)rval] given. *)
Definition analogRaw2EGU (a : analog) (rval : spec_float) : spec_float :=
  let v := fadd binary64 rval (of_int binary64 (roff a)) in
  let v := if negb (SFeqb (aslo a) fzero) then fmul binary64 v (aslo a) else v in
  let v := fadd binary64 v (aoff a) in
  if linear_conv a then fmul binary64 (fadd binary64 v (eoff a)) (eslo a) else v.

(** [analogEGU2Raw<I>(prec, v)] before the final conversion to [I]. *)
Definition analogEGU2Raw (a : analog) (v : spec_float) : spec_float :=
  let v := if linear_conv a then fdiv binary64 (fsub binary64 v (eoff a)) (eslo a) else v in
  let v := fsub binary64 v (aoff a) in
  let v := if negb (SFeqb (aslo a) fzero) then fdiv binary64 v (aslo a) else v in
  fsub binary64 v (of_int binary64 (roff a)).

(** ** Lemmas: byte order *)

Section byteorder_lemmas.
Context `{Host}.

Lemma host_val_range bs : 0 ≤ host_val bs < 256 ^ Z.of_nat (length bs).
Proof.
  unfold host_val. destruct big_endian; [apply be_val_range|].
  rewrite <-(length_rev bs). apply be_val_range.
Qed.

Lemma length_host_bytes n z : length (host_bytes n z) = n.
Proof. unfold host_bytes. destruct big_endian; rewrite ?length_rev; apply length_be_bytes. Qed.

Lemma host_val_bytes n z : 0 ≤ z < 256 ^ Z.of_nat n → host_val (host_bytes n z) = z.
Proof.
  intros Hz. unfold host_val, host_bytes.
  destruct big_endian; rewrite ?rev_involutive, be_val_be_bytes; by apply Z.mod_small.
Qed.

Lemma host_bytes_val bs : host_bytes (length bs) (host_val bs) = bs.
Proof.
  unfold host_bytes, host_val. destruct big_endian; [apply be_bytes_be_val|].
  rewrite <-(length_rev bs), be_bytes_be_val. apply rev_involutive.
Qed.

(** The word whose memory is the big-endian form of a value read from memory. *)
Lemma net_word bs : host_val (be_bytes (length bs) (host_val bs)) = be_val bs.
Proof.
  unfold host_val. destruct big_endian; [by rewrite be_bytes_be_val|].
  rewrite <-(length_rev bs), be_bytes_be_val. by rewrite rev_involutive.
Qed.

Lemma be_val_app a b : be_val (a ++ b) = be_val a * 256 ^ Z.of_nat (length b) + be_val b.
Proof.
  induction a as [|x a IH]; cbn [be_val app]; [lia|].
  rewrite IH, length_app, Nat2Z.inj_add, Z.pow_add_r by lia. lia.
Qed.

Lemma lor_high a b : 0 ≤ b < 2 ^ 32 → Z.lor (a * 2 ^ 32) b = a * 2 ^ 32 + b.
Proof.
  intros Hb. assert (Hl : Z.land (a * 2 ^ 32) b = 0).
  { apply Z.bits_inj'. intros n Hn. rewrite Z.land_spec, Z.bits_0.
    destruct (Z.lt_ge_cases n 32); [by rewrite Z.mul_pow2_bits_low|].
    rewrite <-(Z.mod_small b (2 ^ 32)), Z.mod_pow2_bits_high by lia. apply andb_false_r. }
  pose proof (Z.add_lor_land (a * 2 ^ 32) b). lia.
Qed.

(** The halves of an 8 byte word, swapped and put together. *)
Lemma nswap8_halves a b :
  length a = 4%nat → length b = 4%nat →
  nswap W8 (be_val a * 2 ^ 32 + be_val b) =
    host_val (be_bytes 4 (be_val b)) * 2 ^ 32 + host_val (be_bytes 4 (be_val a)).
Proof.
  intros Ha Hb. pose proof (be_val_range a) as Ra. pose proof (be_val_range b) as Rb.
  rewrite Ha in Ra. rewrite Hb in Rb. change (256 ^ Z.of_nat 4) with (2 ^ 32) in *.
  unfold nswap, htonl.
  assert (Z.shiftr (be_val a * 2 ^ 32 + be_val b) 32 = be_val a) as ->.
  { rewrite Z.shiftr_div_pow2, Z.div_add_l, (Z.div_small (be_val b)) by lia. lia. }
  rewrite (wrapU_small 32 (be_val a)) by lia.
  assert (u32 (be_val a * 2 ^ 32 + be_val b) = be_val b) as ->.
  { unfold wrapU. rewrite Z.add_comm, Z_mod_plus_full. by apply Z.mod_small. }
  pose proof (host_val_range (be_bytes 4 (be_val a))) as R1.
  pose proof (host_val_range (be_bytes 4 (be_val b))) as R2.
  rewrite length_be_bytes in R1, R2. change (256 ^ Z.of_nat 4) with (2 ^ 32) in *.
  rewrite Z.shiftl_mul_pow2, wrapU_small by lia. by apply lor_high.
Qed.

(** The byte order conversion that works: not the 8 byte one of a big-endian host. *)
Definition swaps (w : width) : Prop := big_endian = false ∨ w ≠ W8.

Lemma ntoh_host_val w bs :
  swaps w → length bs = sizeof w → ntoh w (host_val bs) = be_val bs.
Proof.
  intros Hs Hl. unfold ntoh, hton. destruct w; cbn [sizeof] in Hl.
  - destruct bs as [|x [|]]; try done. cbn. unfold host_val. by destruct big_endian.
  - cbn. unfold htons. rewrite <-Hl. apply net_word.
  - cbn. unfold htonl. rewrite <-Hl. apply net_word.
  - destruct Hs as [Hle|]; [|done].
    unfold host_val at 1. rewrite Hle.
    rewrite <-(take_drop 4 bs), rev_app_distr, be_val_app.
    rewrite length_rev, length_take, Hl. change (256 ^ Z.of_nat (4 `min` 8)) with (2 ^ 32).
    rewrite nswap8_halves by (rewrite length_rev, ?length_take, ?length_drop; lia).
    assert (Hr : ∀ l, length l = 4%nat → host_val (be_bytes 4 (be_val (rev l))) = be_val l).
    { intros l <-. unfold host_val. rewrite Hle, <-(length_rev l), be_bytes_be_val.
      by rewrite rev_involutive. }
    rewrite !Hr by (rewrite ?length_take, ?length_drop; lia).
    rewrite be_val_app, length_drop, Hl. done.
Qed.

Lemma hton_bytes w v :
  swaps w → 0 ≤ v < 2 ^ bits w → host_bytes (sizeof w) (hton w v) = be_bytes (sizeof w) v.
Proof.
  intros Hs Hv. change (hton w v) with (ntoh w v).
  assert (E : 2 ^ bits w = 256 ^ Z.of_nat (sizeof w)) by (by destruct w). rewrite E in Hv.
  rewrite <-(host_val_bytes (sizeof w) v) at 1 by done.
  rewrite ntoh_host_val; [|done|apply length_host_bytes].
  set (hb := host_bytes (sizeof w) v).
  assert (Hl : length hb = sizeof w) by apply length_host_bytes.
  assert (Hv' : v = host_val hb) by (subst hb; by rewrite host_val_bytes).
  rewrite Hv'. clearbody hb. clear Hv' Hv E. unfold host_bytes, host_val.
  rewrite <-Hl. destruct big_endian.
  - done.
  - rewrite be_bytes_be_val. rewrite <-(length_rev hb), be_bytes_be_val. done.
Qed.

End byteorder_lemmas.

(** ** Lemmas: the block of a record *)

Section access.
Context {B P R V : Type} `{EvBufferLaws B} `{!PSCVirtual B P} `{!PSCVirtualLaws B P}.
Context `{Host} `{EpicsRecord}.
Implicit Types (s : devst R V P) (priv : Priv) (p : P) (blk : Block (dbuffer B)).

Definition block_of priv p : option (Block (dbuffer B)) :=
  match block priv with
  | None => None
  | Some (RecvBlk k) => recv_blocks (psc_base p) !! k
  | Some (SendBlk k) => send_blocks (psc_base p) !! k
  end.

Definition put_block priv blk p : P :=
  match block priv with
  | None => p
  | Some (RecvBlk k) =>
      put_base (set_recv_blocks (<[k := blk]> (recv_blocks (psc_base p))) (psc_base p)) p
  | Some (SendBlk k) =>
      put_base (set_send_blocks (<[k := blk]> (send_blocks (psc_base p))) (psc_base p)) p
  end.

(** The record's driver and block exist; the block buffer is well formed and addressable. *)
Record attached s priv p blk : Prop := {
  att_psc : pscmap s !! psc priv = Some p;
  att_block : block_of priv p = Some blk;
  att_wf : dbuffer_wf (data blk);
  att_size : dbuffer_size (data blk) < 2 ^ 63;
  att_offset : 0 ≤ offset priv ∧ 0 ≤ tsoffset priv;
}.

Definition put_psc priv p s : devst R V P := set_pscmap (<[psc priv := p]> (pscmap s)) s.

Lemma put_psc_id priv p s : pscmap s !! psc priv = Some p → put_psc priv p s = s.
Proof. intros E. unfold put_psc. rewrite insert_id by done. by destruct s. Qed.

Lemma on_psc_run {A} priv (m : M P A) p s o p' :
  pscmap s !! psc priv = Some p → m p = (o, p') → on_psc priv m s = (o, put_psc priv p' s).
Proof. intros E Em. unfold on_psc. by rewrite E, Em. Qed.

Lemma isConnected_spec priv p s :
  pscmap s !! psc priv = Some p → isConnected priv s = (Ret (connected (psc_base p)), s).
Proof.
  intros E. unfold isConnected. erewrite on_psc_run by done. by rewrite put_psc_id.
Qed.

Lemma on_base_read {A} (m : M (PSCBase B) A) p a :
  m (psc_base p) = (Ret a, psc_base p) → on_base m p = (Ret a, p).
Proof. intros E. unfold on_base. erewrite zoom_eq by done. by rewrite put_psc_base. Qed.

Lemma the_block_spec s priv p blk :
  attached s priv p blk → the_block priv s = (Ret blk, s).
Proof.
  intros [Ep Eb _ _ _]. unfold the_block, block_of in *.
  destruct (block priv) as [[k|k]|]; [..|done].
  all: rewrite (on_psc_run priv _ p s (Ret blk) p); [by rewrite put_psc_id|done|].
  all: apply on_base_read; unfold recv_block, send_block; by rewrite Eb.
Qed.

Lemma put_data_spec s priv p blk d :
  attached s priv p blk →
  put_data priv d s = (Ret tt, put_psc priv (put_block priv (set_data d blk) p) s).
Proof.
  intros [Ep Eb _ _ _]. unfold put_data, put_block, block_of in *.
  destruct (block priv) as [[k|k]|]; [..|done].
  all: apply (on_psc_run priv _ p); [done|]; unfold on_base, zoom, upd_recv, upd_send, modify.
  all: by rewrite (alter_alt_Some _ _ _ blk).
Qed.

Lemma block_of_put_block priv blk blk' p :
  block_of priv p = Some blk → block_of priv (put_block priv blk' p) = Some blk'.
Proof.
  unfold block_of, put_block. destruct (block priv) as [[k|k]|]; [..|done].
  all: intros _; rewrite psc_base_put; apply lookup_insert_eq.
Qed.

Lemma connected_put_block priv blk p :
  connected (psc_base (put_block priv blk p)) = connected (psc_base p).
Proof. unfold put_block. destruct (block priv) as [[k|k]|]; [..|done]; by rewrite psc_base_put. Qed.

Lemma put_block_put priv a b p : put_block priv a (put_block priv b p) = put_block priv a p.
Proof.
  unfold put_block. destruct (block priv) as [[k|k]|]; [..|done].
  all: rewrite psc_base_put, put_base_put; cbn; by rewrite insert_insert_eq.
Qed.

(** What is set besides the drivers does not detach a record. *)
Lemma attached_com s priv p blk c : attached s priv p blk → attached (set_com c s) priv p blk.
Proof. intros []. by split. Qed.

Lemma attached_rec s priv p blk r : attached s priv p blk → attached (set_rec r s) priv p blk.
Proof. intros []. by split. Qed.

Lemma attached_put s priv p blk d :
  attached s priv p blk → dbuffer_wf d → dbuffer_size d < 2 ^ 63 →
  attached (put_psc priv (put_block priv (set_data d blk) p) s) priv
    (put_block priv (set_data d blk) p) (set_data d blk).
Proof.
  intros [Ep Eb Hw Hs Ho] Hwf Hd. split; try done.
  - cbn. apply lookup_insert_eq.
  - by eapply block_of_put_block.
Qed.

Lemma setSevr_run st sv s :
  setSevr st sv s =
    (Ret tt, set_com (set_alarm (recGblSetSevr st sv (nsta (com s), nsev (com s))) (com s)) s).
Proof. done. Qed.

(** ** Lemmas: time stamps *)

(** The time a record takes from its block. *)
Definition record_time priv blk (tse : Z) (t0 : epicsTime) : outcome epicsTime :=
  if negb (tse =? epicsTimeEventDeviceTime) then Ret t0
  else if timeFromBlock priv && (tsoffset priv + 8 <=? dbuffer_size (data blk)) then
    epicsTime_of_stamp
      (EpicsTime (u32 (be_val (zslice (tsoffset priv) 4 (contents (data blk)))
                       - POSIX_TIME_AT_EPICS_EPOCH))
                 (be_val (zslice (tsoffset priv + 4) 4 (contents (data blk)))))
  else Ret (rxtime blk).

Lemma copyout_one d off n :
  dbuffer_wf d → 0 ≤ off → 0 < n < 2 ^ 63 → dbuffer_size d < 2 ^ 63 →
  dbuffer_copyout_shape d off n 0 1 =
    Ret (if off + n <=? dbuffer_size d then (1, zslice off n (contents d)) else (0, [])).
Proof.
  intros Hw Ho Hn Hs. rewrite copyout_shape_flat by (try done; lia).
  pose proof (zlen_nonneg (contents d)) as Hp. rewrite dbuffer_size_contents in *.
  unfold shape_count. change (1 =? 0) with false. cbn [orb]. rewrite Z.add_0_r.
  destruct (Z.leb_spec (off + n) (zlen (contents d))).
  - case_if; bool_to_prop; [lia|].
    pose proof (Z.div_le_lower_bound (zlen (contents d) - off) (n + 0) 1).
    rewrite Z.min_l by lia. change (Z.to_nat 1) with 1%nat. by rewrite elements_1.
  - case_if; bool_to_prop; [done|]. rewrite Z.div_small by lia. done.
Qed.

Lemma zslice_ztake n k off (l : list byte) :
  0 ≤ n → n ≤ k → ztake n (zslice off k l) = zslice off n l.
Proof. intros. unfold zslice. rewrite ztake_ztake. f_equal. lia. Qed.

Lemma zslice_of_zslice a n off k (l : list byte) :
  0 ≤ a → 0 ≤ off → 0 ≤ n → a + n ≤ k → zslice a n (zslice off k l) = zslice (off + a) n l.
Proof.
  intros. unfold zslice, ztake, zdrop. rewrite skipn_firstn_comm, take_take, drop_drop.
  f_equal; [lia|]. f_equal. lia.
Qed.

Lemma ntoh4_slice off (l : list byte) :
  0 ≤ off → off + 4 ≤ zlen l → ntoh W4 (host_val (zslice off 4 l)) = be_val (zslice off 4 l).
Proof.
  intros. apply ntoh_host_val; [by right|].
  pose proof (zlen_zslice off 4 l) as E. unfold zlen in *. cbn. lia.
Qed.

Lemma setRecTimestamp_spec s priv p blk :
  attached s priv p blk →
  setRecTimestamp priv s =
    match record_time priv blk (tse (com s)) (time (com s)) with
    | Ret t => (Ret tt, set_com (set_time t (com s)) s)
    | Throw e => (Throw e, s)
    | Crash c => (Crash c, s)
    end.
Proof.
  intros Ha. pose proof (the_block_spec _ _ _ _ Ha) as Hb. destruct Ha as [Ep Eb Hw Hs [_ Ho]].
  unfold setRecTimestamp, record_time. mstep. destruct (negb (tse (com s) =? _)).
  { destruct s as [[] ? ? ?]. done. }
  assert (Hnone : block priv ≠ None) by (unfold block_of in Eb; by destruct (block priv)).
  unfold block_time. rewrite bool_decide_eq_false_2, andb_true_r by done.
  destruct (timeFromBlock priv); cbn [andb].
  2:{ mstep. erewrite bind_ret; [|erewrite bind_ret by exact Hb; reflexivity]. done. }
  erewrite (bind_ret (bind (the_block priv) _)).
  2:{ erewrite bind_ret by exact Hb. cbv beta. unfold lift. rewrite copyout_one by (done || lia).
      reflexivity. }
  cbv beta. destruct (Z.leb_spec (tsoffset priv + 8) (dbuffer_size (data blk))); cbn [fst snd Z.eqb Pos.eqb].
  - rewrite dbuffer_size_contents in *.
    rewrite zslice_ztake, zslice_of_zslice, !ntoh4_slice by lia. unfold lift.
    unfold bind at 1. by destruct (epicsTime_of_stamp _).
  - erewrite bind_ret; [|erewrite bind_ret by exact Hb; reflexivity]. done.
Qed.
End access.
