(* ===== verification/DevSample.v ===== *)
(** * A driver to evaluate device support on

    A connected TCP driver with a received block (id 10) and a block to send (id 11),
    and a record attached to each. *)

From S2P Require Import Prelude EvBuffer Dbuffer Block Wire PscBase PscTcp DevCommon.

Definition sample_drv : Type := PSC ChainBuf.chainbuf.

Definition sample_limits : PscConfig := {| PSCInactivityTime := 5; PSCMaxSendBuffer := 1000 |}.

Definition sample_records : RecordSupport ChainBuf.chainbuf :=
  {| dbProcess _ := ret tt; socket_error := "Connection refused" |}.

Definition sample_driver : PSCVirtual ChainBuf.chainbuf sample_drv :=
  let E := quiet_env in let C := sample_limits in psc_virtual.

Lemma sample_driver_laws : @PSCVirtualLaws ChainBuf.chainbuf sample_drv sample_driver.
Proof. apply psc_virtual_laws. Qed.

(** Blocks: received data [body], and 16 bytes to send, twelve of them set. *)
Definition sample_dev (body : list byte) : sample_drv :=
  set_base
    (set_connected true
      (set_recv_blocks {[10 := set_data (dbuffer_assign body dbuffer_empty) (new_Block 10)]}
        (set_send_blocks
           {[11 := set_data (dbuffer_assign (replicate 16 Byte.xff) dbuffer_empty) (new_Block 11)]}
           (new_PSCBase "dev" "host" 8765))))
    (new_PSC "dev" "host" 8765 0 (ChainBuf.of_bytes [])).

(** Private data of a record at [off] of a block, without a time stamp from the data. *)
Definition sample_priv (b : block_ptr) (off : Z) : Priv :=
  MkPriv "dev" (match b with RecvBlk k | SendBlk k => k end) (Some b) off 0 false 0.

Definition sample_com : dbCommon := MkCommon 1 0 0 0 0 (EpicsTime 0 0).

Definition sample_rec {R} (b : block_ptr) (off : Z) (body : list byte) (r : R)
    : devst R Priv sample_drv :=
  DevSt sample_com r (Some (sample_priv b off)) {["dev"%string := sample_dev body]}.

Definition sample_block (b : block_ptr) (body : list byte) : Block (dbuffer ChainBuf.chainbuf) :=
  match b with
  | RecvBlk _ => set_data (dbuffer_assign body dbuffer_empty) (new_Block 10)
  | SendBlk _ => set_data (dbuffer_assign (replicate 16 Byte.xff) dbuffer_empty) (new_Block 11)
  end.

(** The records of these drivers are attached to their blocks. *)
Lemma sample_attached {R} b off body (r : R) :
  b = RecvBlk 10 ∨ b = SendBlk 11 → 0 ≤ off → zlen body < 2 ^ 63 →
  @attached _ _ _ _ _ sample_driver (sample_rec b off body r) (sample_priv b off)
    (sample_dev body) (sample_block b body).
Proof.
  intros Hb Ho Hl. split.
  - apply lookup_singleton_eq.
  - destruct Hb as [-> | ->]; apply lookup_singleton_eq.
  - destruct b; apply dbuffer_wf_assign.
  - rewrite dbuffer_size_contents. destruct b; cbn [data set_data sample_block];
      rewrite contents_assign; [done|]. rewrite zlen_replicate. lia.
  - split; [done|]. cbn. lia.
Qed.
