(* ===== verification/DevReg.v ===== *)
(** * Register device support

    coreApp/src/devPSCReg.cpp ("PSC Reg", "PSC Reg RB", and their F32 and F64 variants):
    records that hold one big-endian word of a block.  Input records read the received
    block, read-back records and output records the block to send. *)

From S2P Require Import Prelude EvBuffer Dbuffer Block PscBase Ieee DevCommon DevSample.

(** ** Records *)

(** bi, mbbi, mbbiDirect, bo, mbbo, mbboDirect: unsigned 32 bit fields. *)
Record binrec := BinRec { mask : Z; shft : Z; rval : Z }.

(** longin, longout, int64in, int64out: [val] is a signed integer. *)
Record valrec := ValRec { val : Z }.

(** ai, ao *)
Record airec := AiRec { ai_rval : Z; ai_val : spec_float; conv : analog }.

Definition set_rval (v : Z) (r : binrec) : binrec := BinRec (mask r) (shft r) v.
Definition set_ai_rval (v : Z) (r : airec) : airec := AiRec v (ai_val r) (conv r).
Definition set_ai_val (v : spec_float) (r : airec) : airec := AiRec (ai_rval r) v (conv r).

(** [extra_init<R>::op]: mbbi, mbbo and their Direct variants shift the mask. *)
Definition extra_init_mask (r : binrec) : binrec :=
  BinRec (u32 (Z.shiftl (mask r) (shft r))) (shft r) (rval r).

(** [float] or [double]; the bytes of a block hold its bit pattern. *)
Inductive fwide := F32 | F64.
Definition fformat (k : fwide) : format := match k with F32 => binary32 | F64 => binary64 end.
Definition fsize (k : fwide) : width := match k with F32 => W4 | F64 => W8 end.

Section reg.
Context {B P : Type} `{EvBuffer B} `{!PSCVirtual B P} `{Host} `{EpicsRecord}.

(** ** Initialization *)

(** [init_input], [init_rb], [init_output]; [extra] is [extra_init<R>::op]. *)
Definition init_input {R} (inst_io : bool) (extra : R → R) link info
    : M (devst R Priv P) dev_status := init_record inst_io extra link info 0.
Definition init_rb {R} (inst_io : bool) (extra : R → R) link info
    : M (devst R Priv P) dev_status := init_record inst_io extra link info 1.
Definition init_output {R} (inst_io : bool) (extra : R → R) link info
    : M (devst R Priv P) dev_status := init_record inst_io extra link info 1.

(** ** Reading *)

(** [read_to_field<T>(prec, priv, pfield)]: the bit pattern of the field. *)
Definition read_to_field {R} (w : width) (priv : Priv) : M (devst R Priv P) Z :=
  conn <- isConnected priv ;;
  when (negb conn) (setSevr READ_ALARM INVALID_ALARM) ;;;
  b <- the_block priv ;;
  r <- (if offset priv >? dbuffer_size (data b) then ret None
        else r <- lift (dbuffer_copyout_shape (data b) (offset priv)
                          (Z.of_nat (sizeof w)) 0 1) ;;
             ret (if r.1 =? 1 then Some r.2 else None)) ;;
  match r with
  | None => throw (RecAlarm SOFT_ALARM INVALID_ALARM)
  | Some bs => ret (ntoh w (host_val bs))
  end.

(** [read_binary] *)
Definition read_binary : M (devst binrec Priv P) dev_status :=
  with_priv (λ priv, CATCH (
    temp <- read_to_field W4 priv ;;
    s <- get ;;
    let temp := if negb (mask (rec s) =? 0) then Z.land temp (mask (rec s)) else temp in
    modify (λ s, set_rec (set_rval temp (rec s)) s) ;;;
    setRecTimestamp priv ;;;
    ret (Status 0))).

(** [read_to_val]; [w] is the size of the record's VAL field. *)
Definition read_to_val (w : width) : M (devst valrec Priv P) dev_status :=
  with_priv (λ priv, CATCH (
    v <- read_to_field w priv ;;
    modify (set_rec (ValRec (wrapS (bits w) v))) ;;;
    setRecTimestamp priv ;;;
    ret (Status 0))).

(** [read_ai] *)
Definition read_ai : M (devst airec Priv P) dev_status :=
  with_priv (λ priv, CATCH (
    v <- read_to_field W4 priv ;;
    modify (λ s, set_rec (set_ai_rval (s32 v) (rec s)) s) ;;;
    setRecTimestamp priv ;;;
    ret (Status 0))).

(** [read_ai_float<T>]: converts itself and tells record support not to. *)
Definition read_ai_float (k : fwide) : M (devst airec Priv P) dev_status :=
  with_priv (λ priv, CATCH (
    v <- read_to_field (fsize k) priv ;;
    let v := round_to binary64 (of_bits (fformat k) v) in
    modify (λ s, set_rec (set_ai_val (analogRaw2EGU (conv (rec s)) v) (rec s)) s) ;;;
    modify (λ s, set_com (set_udf (if isnan (ai_val (rec s)) then 1 else 0) (com s)) s) ;;;
    setRecTimestamp priv ;;;
    ret (Status 2))).

(** ** Writing *)

(** [priv->block->data.copyin(buf, offset, len)] *)
Definition copyin_block {R} (priv : Priv) (buf : list byte) : M (devst R Priv P) bool :=
  b <- the_block priv ;;
  let '(o, d) := dbuffer_copyin buf (offset priv) (data b) in
  put_data priv d ;;; lift o.

(** [write_from_field<T>(prec, priv, pfield)], [v] the bit pattern of the field. *)
Definition write_from_field {R} (w : width) (priv : Priv) (v : Z) : M (devst R Priv P) unit :=
  conn <- isConnected priv ;;
  when (negb conn) (setSevr WRITE_ALARM INVALID_ALARM) ;;;
  let temp := hton w v in
  b <- the_block priv ;;
  ok <- (if offset priv >? dbuffer_size (data b) then ret false
         else copyin_block priv (host_bytes (sizeof w) temp)) ;;
  if ok then ret tt else throw (RecAlarm SOFT_ALARM INVALID_ALARM).

(** [write_binary]: only the bits under the mask change. *)
Definition write_binary : M (devst binrec Priv P) dev_status :=
  with_priv (λ priv, CATCH (
    s <- get ;;
    temp <- (if negb (mask (rec s) =? 0) then
               temp <- read_to_field W4 priv ;;
               ret (Z.lor (Z.land temp (Z.lnot (mask (rec s)))) (Z.land (rval (rec s)) (mask (rec s))))
             else ret (rval (rec s))) ;;
    write_from_field W4 priv temp ;;;
    ret (Status 0))).

(** [write_from_val] *)
Definition write_from_val (w : width) : M (devst valrec Priv P) dev_status :=
  with_priv (λ priv, CATCH (
    s <- get ;;
    write_from_field w priv (wrapU (bits w) (val (rec s))) ;;;
    ret (Status 0))).

(** [write_ao] *)
Definition write_ao : M (devst airec Priv P) dev_status :=
  with_priv (λ priv, CATCH (
    s <- get ;;
    write_from_field W4 priv (u32 (ai_rval (rec s))) ;;;
    ret (Status 0))).

(** [write_ao_float<T>] *)
Definition write_ao_float (k : fwide) : M (devst airec Priv P) dev_status :=
  with_priv (λ priv, CATCH (
    s <- get ;;
    let v := round_to (fformat k) (analogEGU2Raw (conv (rec s)) (ai_val (rec s))) in
    write_from_field (fsize k) priv (to_bits (fformat k) v) ;;;
    ret (Status 0))).

End reg.

(** ** Lemmas *)

Section reg_lemmas.
Context {B P : Type} `{EvBufferLaws B} `{!PSCVirtual B P} `{!PSCVirtualLaws B P}.
Context `{Host} `{EpicsRecord}.

(** The alarm raised while the driver is not connected. *)
Definition conn_alarm {R} (st : Z) (p : P) (s : devst R Priv P) : devst R Priv P :=
  if connected (psc_base (B:=B) p) then s
  else set_com (set_alarm (recGblSetSevr st INVALID_ALARM (nsta (com s), nsev (com s))) (com s)) s.

(** The same with the alarm of an exception. *)
Definition caught {R} (st sv : Z) (s : devst R Priv P) : devst R Priv P :=
  set_com (set_alarm (recGblSetSevr st sv (nsta (com s), nsev (com s))) (com s)) s.

Lemma conn_alarm_attached {R} st p q (s : devst R Priv P) priv blk :
  attached s priv p blk → attached (conn_alarm st q s) priv p blk.
Proof. unfold conn_alarm. destruct (connected _); [done|apply attached_com]. Qed.

Lemma conn_alarm_rec {R} st p (s : devst R Priv P) : rec (conn_alarm st p s) = rec s.
Proof. unfold conn_alarm. by destruct (connected _). Qed.

Lemma conn_check {R} st priv p (s : devst R Priv P) {A} (k : unit → M (devst R Priv P) A) :
  pscmap s !! DevCommon.psc priv = Some p →
  (conn <- isConnected priv ;; bind (when (negb conn) (setSevr st INVALID_ALARM)) k) s
    = k tt (conn_alarm st p s).
Proof.
  intros Ep. erewrite bind_ret by (by apply isConnected_spec). cbv beta.
  unfold conn_alarm. by destruct (connected (psc_base p)).
Qed.

Lemma sizeof_pos w : 0 < Z.of_nat (sizeof w) ≤ 8.
Proof. by destruct w. Qed.

(** Field of a block: the unsigned big-endian word at [off]. *)
Definition field (w : width) (off : Z) (bs : list byte) : Z :=
  be_val (zslice off (Z.of_nat (sizeof w)) bs).

Definition field_fits (w : width) priv (blk : Block (dbuffer B)) : bool :=
  offset priv + Z.of_nat (sizeof w) <=? dbuffer_size (data blk).

Lemma read_to_field_spec {R} w priv p blk (s : devst R Priv P) :
  attached s priv p blk → swaps w →
  read_to_field w priv s =
    (if field_fits w priv blk then Ret (field w (offset priv) (contents (data blk)))
     else Throw (RecAlarm SOFT_ALARM INVALID_ALARM),
     conn_alarm READ_ALARM p s).
Proof.
  intros Ha Hs. unfold read_to_field, field_fits, field. rewrite (conn_check _ _ p) by apply Ha.
  pose proof (conn_alarm_attached READ_ALARM p p _ _ _ Ha) as Ha'.
  erewrite bind_ret by (by eapply the_block_spec). cbv beta.
  destruct Ha as [_ _ Hw Hsz [Ho _]]. pose proof (sizeof_pos w).
  rewrite Z.gtb_ltb. destruct (Z.ltb_spec (dbuffer_size (data blk)) (offset priv)).
  - mstep. destruct (Z.leb_spec (offset priv + Z.of_nat (sizeof w)) (dbuffer_size (data blk))); [lia|done].
  - erewrite bind_ret.
    2:{ unfold lift. erewrite bind_ret by (rewrite copyout_one by (done || lia); reflexivity).
        reflexivity. }
    cbv beta. destruct (Z.leb_spec (offset priv + Z.of_nat (sizeof w)) (dbuffer_size (data blk))); [|done].
    cbn. unfold ret. rewrite ntoh_host_val; [done|done|].
    rewrite dbuffer_size_contents in *.
    pose proof (zlen_zslice (offset priv) (Z.of_nat (sizeof w)) (contents (data blk))) as E.
    unfold zlen in *. lia.
Qed.

(** A block body with a word replaced. *)
Definition put_field (w : width) priv (v : Z) (d : dbuffer B) : dbuffer B :=
  Dbuffer (strides d) (zblit (offset priv) (be_bytes (sizeof w) v) (backingv d)) None.

Lemma zlen_be_bytes n v : zlen (be_bytes n v) = Z.of_nat n.
Proof. unfold zlen. by rewrite length_be_bytes. Qed.

Lemma put_field_laws w priv v blk :
  field_fits w priv blk = true → 0 ≤ offset priv → 0 ≤ v < 2 ^ bits w →
  dbuffer_wf (data blk) → backingb (data blk) = None →
  let d := put_field w priv v (data blk) in
  dbuffer_wf d ∧ dbuffer_size d = dbuffer_size (data blk) ∧
  field w (offset priv) (contents d) = v ∧
  ∀ i, Z.of_nat i < offset priv ∨ offset priv + Z.of_nat (sizeof w) ≤ Z.of_nat i →
       contents d !! i = contents (data blk) !! i.
Proof.
  unfold field_fits, put_field, field. intros Hf Ho Hv Hw Hb. bool_to_prop.
  unfold dbuffer_wf, dbuffer_size, contents in *. rewrite Hb in *. cbn.
  assert (E : zlen (be_bytes (sizeof w) v) = Z.of_nat (sizeof w)) by apply zlen_be_bytes.
  rewrite zlen_zblit by lia. split_and!; [done|done| |].
  - rewrite <-E, zslice_zblit by lia. rewrite be_val_be_bytes. apply Z.mod_small. by destruct w.
  - intros i Hi. apply zblit_lookup_outside; lia.
Qed.

Lemma hton_small w v : swaps w → 0 ≤ v < 2 ^ bits w → 0 ≤ hton w v < 2 ^ bits w.
Proof.
  intros Hs Hv. assert (E : 2 ^ bits w = 256 ^ Z.of_nat (sizeof w)) by (by destruct w).
  rewrite E in *. rewrite <-(host_val_bytes (sizeof w) v) by done. change (hton w) with (ntoh w).
  rewrite ntoh_host_val; [|done|apply length_host_bytes].
  pose proof (be_val_range (host_bytes (sizeof w) v)) as Hr. by rewrite length_host_bytes in Hr.
Qed.

Lemma copyin_block_spec {R} priv p blk buf (s : devst R Priv P) :
  attached s priv p blk → backingb (data blk) = None → offset priv ≤ dbuffer_size (data blk) →
  let moved := Z.min (zlen buf) (dbuffer_size (data blk) - offset priv) in
  copyin_block priv buf s =
    (Ret (moved =? zlen buf),
     put_psc priv (put_block priv (set_data
       (Dbuffer (strides (data blk)) (zblit (offset priv) (ztake moved buf) (backingv (data blk)))
          None) blk) p) s).
Proof.
  intros Ha Hb Hoff moved. unfold copyin_block.
  erewrite bind_ret by (by eapply the_block_spec). cbv beta.
  pose proof (copyin_flat (data blk) buf (offset priv) (att_wf _ _ _ _ Ha) Hb
                (conj (proj1 (att_offset _ _ _ _ Ha)) Hoff)) as E.
  cbn zeta in E. fold moved in E. rewrite E.
  erewrite bind_ret by (by eapply put_data_spec). done.
Qed.

(** A block body with as much of a word stored as fits behind the offset. *)
Definition store_word (w : width) priv (v : Z) (d : dbuffer B) : dbuffer B :=
  if dbuffer_size d <? offset priv then d
  else Dbuffer (strides d)
         (zblit (offset priv) (ztake (dbuffer_size d - offset priv) (be_bytes (sizeof w) v)) (backingv d))
         None.

Lemma store_word_fits w priv v blk :
  field_fits w priv blk = true → store_word w priv v (data blk) = put_field w priv v (data blk).
Proof.
  unfold field_fits, store_word, put_field. intros Hf. bool_to_prop. pose proof (sizeof_pos w).
  destruct (Z.ltb_spec (dbuffer_size (data blk)) (offset priv)); [lia|].
  by rewrite ztake_all by (rewrite zlen_be_bytes; lia).
Qed.

Lemma put_block_id priv p blk : block_of priv p = Some blk → put_block priv blk p = p.
Proof.
  unfold block_of, put_block. destruct (block priv) as [[k|k]|]; [..|done].
  all: intros Hk; rewrite insert_id by done; etrans; [|apply put_psc_base]; f_equal.
  all: by destruct (psc_base p).
Qed.

(** Writing a word, whether it fits or not: what does not fit raises the alarm after
    what fits of it is stored. *)
Lemma write_from_field_run {R} w priv p blk v (s : devst R Priv P) :
  attached s priv p blk → swaps w → backingb (data blk) = None → 0 ≤ v < 2 ^ bits w →
  write_from_field w priv v s =
    (if field_fits w priv blk then Ret tt else Throw (RecAlarm SOFT_ALARM INVALID_ALARM),
     put_psc priv (put_block priv (set_data (store_word w priv v (data blk)) blk) p)
       (conn_alarm WRITE_ALARM p s)).
Proof.
  intros Ha Hs Hb Hv. unfold write_from_field. rewrite (conn_check _ _ p) by apply Ha.
  pose proof (conn_alarm_attached WRITE_ALARM p p _ _ _ Ha) as Ha'.
  unfold field_fits, store_word. pose proof (sizeof_pos w).
  erewrite bind_ret by (by eapply the_block_spec). cbv beta.
  rewrite Z.gtb_ltb. destruct (Z.ltb_spec (dbuffer_size (data blk)) (offset priv)).
  - mstep. destruct (Z.leb_spec (offset priv + Z.of_nat (sizeof w)) (dbuffer_size (data blk))); [lia|].
    replace (set_data (data blk) blk) with blk by by destruct blk.
    rewrite put_block_id by apply Ha. by rewrite put_psc_id by apply Ha'.
  - erewrite bind_ret by (eapply copyin_block_spec; [done..|lia]). cbv beta.
    rewrite hton_bytes, !zlen_be_bytes by done.
    destruct (Z.leb_spec (offset priv + Z.of_nat (sizeof w)) (dbuffer_size (data blk))).
    + rewrite Z.min_l, Z.eqb_refl by lia.
      rewrite !ztake_all by (rewrite ?zlen_be_bytes; lia). done.
    + rewrite Z.min_r, (proj2 (Z.eqb_neq _ _)) by lia. done.
Qed.

Lemma write_from_field_spec {R} w priv p blk v (s : devst R Priv P) :
  attached s priv p blk → swaps w → backingb (data blk) = None → 0 ≤ v < 2 ^ bits w →
  field_fits w priv blk = true →
  write_from_field w priv v s =
    (Ret tt, put_psc priv (put_block priv (set_data (put_field w priv v (data blk)) blk) p)
               (conn_alarm WRITE_ALARM p s)).
Proof.
  intros Ha Hs Hb Hv Hf. rewrite (write_from_field_run w priv p blk), Hf by done.
  by rewrite store_word_fits.
Qed.

Lemma with_priv_some {R A} (k : A → M (devst R A P) dev_status) s v :
  dpvt s = Some v → with_priv k s = k v s.
Proof. intros E. unfold with_priv. mstep. by rewrite E. Qed.

Lemma CATCH_throw {R} m (s s' : devst R Priv P) st sv :
  m s = (Throw (RecAlarm st sv), s') → CATCH m s = (Ret S_dev_badRequest, caught st sv s').
Proof. intros E. unfold CATCH. erewrite catch_throw by exact E. done. Qed.

Lemma CATCH_ret {R V} m (s s' : devst R V P) a : m s = (Ret a, s') → CATCH m s = (Ret a, s').
Proof. intros E. unfold CATCH. erewrite catch_ret by exact E. done. Qed.

(** The end of a reading function that has set the value: the time stamp. *)
Lemma stamp_end {R} priv p blk (s : devst R Priv P) (st : dev_status) t :
  attached s priv p blk → record_time priv blk (tse (com s)) (time (com s)) = Ret t →
  (setRecTimestamp priv ;;; ret st) s = (Ret st, set_com (set_time t (com s)) s).
Proof.
  intros Ha Ht. pose proof (setRecTimestamp_spec s priv p blk Ha) as E. rewrite Ht in E.
  by rewrite (bind_ret _ _ _ _ _ E).
Qed.

End reg_lemmas.

(** ** Properties *)

Section reg_props.
Context {B P : Type} `{EvBufferLaws B} `{!PSCVirtual B P} `{!PSCVirtualLaws B P}.
Context `{Host} `{EpicsRecord}.

Lemma swaps4 : swaps W4.
Proof. by right. Qed.
Hint Resolve swaps4 : core.

Lemma field_range w off bs : 0 ≤ field w off bs < 2 ^ bits w.
Proof.
  unfold field. pose proof (be_val_range (zslice off (Z.of_nat (sizeof w)) bs)) as Hr.
  assert (Hl : (length (zslice off (Z.of_nat (sizeof w)) bs) ≤ sizeof w)%nat).
  { unfold zslice, ztake. rewrite length_take. lia. }
  assert (256 ^ Z.of_nat (length (zslice off (Z.of_nat (sizeof w)) bs)) ≤ 256 ^ Z.of_nat (sizeof w)).
  { apply Z.pow_le_mono_r; lia. }
  replace (2 ^ bits w) with (256 ^ Z.of_nat (sizeof w)) by (by destruct w). lia.
Qed.

Lemma bits32_range z : 0 ≤ z → (∀ i, 32 ≤ i → Z.testbit z i = false) → z < 2 ^ 32.
Proof.
  intros Hz Hb. destruct (Z.lt_ge_cases z (2 ^ 32)); [done|].
  assert (32 ≤ Z.log2 z) by (apply Z.log2_le_pow2; lia).
  pose proof (Hb (Z.log2 z)). rewrite Z.bit_log2 in *; [naive_solver|lia].
Qed.

Lemma bit_high z i : 0 ≤ z < 2 ^ 32 → 32 ≤ i → Z.testbit z i = false.
Proof. intros. rewrite <-(Z.mod_small z (2 ^ 32)) by done. apply Z.mod_pow2_bits_high. lia. Qed.

Lemma masked_range old m rv :
  0 ≤ old < 2 ^ 32 → 0 ≤ m < 2 ^ 32 → 0 ≤ rv < 2 ^ 32 →
  0 ≤ Z.lor (Z.land old (Z.lnot m)) (Z.land rv m) < 2 ^ 32.
Proof.
  intros Ho Hm Hr. assert (0 ≤ Z.lor (Z.land old (Z.lnot m)) (Z.land rv m)).
  { apply Z.lor_nonneg. split; apply Z.land_nonneg; lia. }
  split; [done|]. apply bits32_range; [done|]. intros i Hi.
  by rewrite Z.lor_spec, !Z.land_spec, (bit_high old), (bit_high rv) by done.
Qed.

Lemma read_to_val_run w (s : devst valrec Priv P) priv p blk t :
  attached s priv p blk → dpvt s = Some priv → swaps w → field_fits w priv blk = true →
  record_time priv blk (tse (com s)) (time (com s)) = Ret t →
  read_to_val w s =
    (Ret (Status 0),
     let c := conn_alarm READ_ALARM p s in
     set_com (set_time t (com c))
       (set_rec (ValRec (wrapS (bits w) (field w (offset priv) (contents (data blk))))) c)).
Proof.
  intros Ha Hd Hs Hf Ht. unfold read_to_val. rewrite (with_priv_some _ s priv) by done.
  apply CATCH_ret. erewrite bind_ret by (rewrite (read_to_field_spec w priv p blk), Hf by done; reflexivity).
  cbv beta. mstep.
  rewrite (stamp_end priv p blk _ (Status 0) t).
  - done.
  - by apply attached_rec, conn_alarm_attached.
  - cbn. unfold conn_alarm. by destruct (connected _).
Qed.

Lemma write_from_val_run w (s : devst valrec Priv P) priv p blk :
  attached s priv p blk → dpvt s = Some priv → swaps w → backingb (data blk) = None →
  write_from_val w s =
    (let d := store_word w priv (wrapU (bits w) (val (rec s))) (data blk) in
     let s' := put_psc priv (put_block priv (set_data d blk) p) (conn_alarm WRITE_ALARM p s) in
     if field_fits w priv blk then (Ret (Status 0), s')
     else (Ret S_dev_badRequest, caught SOFT_ALARM INVALID_ALARM s')).
Proof.
  intros Ha Hd Hs Hb. unfold write_from_val. rewrite (with_priv_some _ s priv) by done. cbn zeta.
  assert (Hv : 0 ≤ wrapU (bits w) (val (rec s)) < 2 ^ bits w) by (apply wrapU_range; by destruct w).
  pose proof (write_from_field_run w priv p blk _ s Ha Hs Hb Hv) as E.
  destruct (field_fits w priv blk).
  - apply CATCH_ret. mstep. by rewrite (bind_ret _ _ _ _ _ E).
  - apply CATCH_throw. mstep. by rewrite (bind_throw _ _ _ _ _ E).
Qed.

(** The word an output record with mask [m] makes of its value and of the old word. *)
Definition masked_word (m rv old : Z) : Z :=
  if negb (m =? 0) then Z.lor (Z.land old (Z.lnot m)) (Z.land rv m) else rv.

Lemma masked_word_range m rv old :
  0 ≤ old < 2 ^ 32 → 0 ≤ m < 2 ^ 32 → 0 ≤ rv < 2 ^ 32 → 0 ≤ masked_word m rv old < 2 ^ 32.
Proof. intros. unfold masked_word. case_if; [by apply masked_range|done]. Qed.

(** The alarm of the read that a mask needs. *)
Definition mask_alarm (p : P) (s : devst binrec Priv P) : devst binrec Priv P :=
  if negb (mask (rec s) =? 0) then conn_alarm READ_ALARM p s else s.

Lemma mask_alarm_attached s priv p blk :
  attached s priv p blk → attached (mask_alarm p s) priv p blk.
Proof. unfold mask_alarm. case_if; [apply conn_alarm_attached|done]. Qed.

Lemma write_binary_run (s : devst binrec Priv P) priv p blk :
  attached s priv p blk → dpvt s = Some priv → backingb (data blk) = None →
  0 ≤ mask (rec s) < 2 ^ 32 → 0 ≤ rval (rec s) < 2 ^ 32 →
  write_binary s =
    (let old := field W4 (offset priv) (contents (data blk)) in
     let d := store_word W4 priv (masked_word (mask (rec s)) (rval (rec s)) old) (data blk) in
     let s' := put_psc priv (put_block priv (set_data d blk) p) (conn_alarm WRITE_ALARM p (mask_alarm p s)) in
     if field_fits W4 priv blk then (Ret (Status 0), s')
     else if mask (rec s) =? 0 then (Ret S_dev_badRequest, caught SOFT_ALARM INVALID_ALARM s')
     else (Ret S_dev_badRequest, caught SOFT_ALARM INVALID_ALARM (mask_alarm p s))).
Proof.
  intros Ha Hd Hb Hm Hr. cbn zeta. pose proof (mask_alarm_attached s priv p blk Ha) as Ha1.
  set (old := field W4 (offset priv) (contents (data blk))).
  assert (Hv : 0 ≤ masked_word (mask (rec s)) (rval (rec s)) old < 2 ^ bits W4)
    by (apply masked_word_range; [apply (field_range W4)|done..]).
  pose proof (write_from_field_run W4 priv p blk _ _ Ha1 swaps4 Hb Hv) as E.
  pose proof (read_to_field_spec W4 priv p blk s Ha swaps4) as Er. fold old in Er.
  unfold write_binary. rewrite (with_priv_some _ s priv) by done.
  unfold masked_word, mask_alarm in *.
  destruct (mask (rec s) =? 0) eqn:Em, (field_fits W4 priv blk); cbn [negb] in *;
    first [apply CATCH_throw | apply CATCH_ret]; mstep; rewrite Em; cbn [negb].
  - mstep. by rewrite (bind_ret _ _ _ _ _ E).
  - mstep. by rewrite (bind_throw _ _ _ _ _ E).
  - erewrite bind_ret by (rewrite (bind_ret _ _ _ _ _ Er); reflexivity).
    by rewrite (bind_ret _ _ _ _ _ E).
  - erewrite bind_throw; [reflexivity|]. by apply bind_throw.
Qed.

Lemma wrapS_wrapU_small w v :
  0 < w → - 2 ^ (w - 1) ≤ v < 2 ^ (w - 1) → wrapS w (wrapU w v) = v.
Proof. intros. rewrite wrapS_wrapU by done. by apply wrapS_small. Qed.

(** A value written by an output record is what a read-back record at the same place of
    the same block reads, for every signed value of the record's width. *)
Theorem reg_write_readback w (s : devst valrec Priv P) priv p blk :
  attached s priv p blk → dpvt s = Some priv → swaps w → backingb (data blk) = None →
  field_fits w priv blk = true →
  - 2 ^ (bits w - 1) ≤ val (rec s) < 2 ^ (bits w - 1) →
  (write_from_val w s).1 = Ret (Status 0) ∧
  ∀ (r : devst valrec Priv P) privr,
    pscmap r = pscmap (write_from_val w s).2 → dpvt r = Some privr →
    psc privr = psc priv → block privr = block priv → offset privr = offset priv →
    0 ≤ tsoffset privr → tse (com r) ≠ epicsTimeEventDeviceTime →
    (read_to_val w r).1 = Ret (Status 0) ∧ val (rec (read_to_val w r).2) = val (rec s).
Proof.
  intros Ha Hd Hs Hb Hf Hv. set (v := wrapU (bits w) (val (rec s))).
  assert (Hv' : 0 ≤ v < 2 ^ bits w) by (apply wrapU_range; by destruct w).
  set (d := put_field w priv v (data blk)).
  destruct (put_field_laws w priv v blk Hf) as (Hwf & Hsz & Hfd & _); try done; [apply Ha..|].
  assert (E : write_from_val w s =
    (Ret (Status 0), put_psc priv (put_block priv (set_data d blk) p) (conn_alarm WRITE_ALARM p s))).
  { rewrite (write_from_val_run w s priv p blk), Hf by done. by rewrite store_word_fits. }
  rewrite E. split; [done|]. cbn [fst snd]. intros r privr Hm Hdr Hp Hbl Ho Hts Ht.
  assert (Har : attached r privr (put_block priv (set_data d blk) p) (set_data d blk)).
  { pose proof (block_of_put_block priv blk (set_data d blk) p (att_block _ _ _ _ Ha)) as Hbo.
    split; cbn [data set_data].
    - rewrite Hm, Hp. cbn. apply lookup_insert_eq.
    - unfold block_of in *. by rewrite Hbl.
    - exact Hwf.
    - pose proof (att_size _ _ _ _ Ha). subst d. lia.
    - rewrite Ho. split; [apply Ha|done]. }
  assert (Hfr : field_fits w privr (set_data d blk) = true).
  { unfold field_fits in *. rewrite Ho. cbn [data set_data]. subst d. by rewrite Hsz. }
  assert (Htr : record_time privr (set_data d blk) (tse (com r)) (time (com r)) = Ret (time (com r))).
  { unfold record_time. by rewrite (proj2 (Z.eqb_neq _ _) Ht). }
  rewrite (read_to_val_run w r privr _ _ _ Har Hdr Hs Hfr Htr). split; [done|].
  change (wrapS (bits w) (field w (offset privr) (contents d)) = val (rec s)).
  rewrite Ho. subst d. rewrite Hfd. apply wrapS_wrapU_small; [by destruct w|done].
Qed.

(** An output record with a mask replaces the bits under the mask in its 32 bit word and
    nothing else of the block; without a mask, the whole word. *)
Theorem write_binary_masked (s : devst binrec Priv P) priv p blk :
  attached s priv p blk → dpvt s = Some priv → backingb (data blk) = None →
  field_fits W4 priv blk = true →
  0 ≤ mask (rec s) < 2 ^ 32 → 0 ≤ rval (rec s) < 2 ^ 32 →
  ∃ d c, write_binary s =
      (Ret (Status 0), put_psc priv (put_block priv (set_data d blk) p) (set_com c s)) ∧
    (connected (psc_base p) = true → c = com s) ∧
    (∀ i, 0 ≤ i < 32 →
      Z.testbit (field W4 (offset priv) (contents d)) i =
        if (mask (rec s) =? 0) || Z.testbit (mask (rec s)) i then Z.testbit (rval (rec s)) i
        else Z.testbit (field W4 (offset priv) (contents (data blk))) i) ∧
    (∀ i, Z.of_nat i < offset priv ∨ offset priv + 4 ≤ Z.of_nat i →
      contents d !! i = contents (data blk) !! i).
Proof.
  intros Ha Hd Hb Hf Hm Hr. set (m := mask (rec s)) in *. set (rv := rval (rec s)) in *.
  set (old := field W4 (offset priv) (contents (data blk))).
  set (v := masked_word m rv old).
  assert (Hv : 0 ≤ v < 2 ^ bits W4) by (apply masked_word_range; [apply (field_range W4)|done..]).
  destruct (put_field_laws W4 priv v blk Hf) as (Hwf & Hsz & Hfd & Hout); try done; [apply Ha..|].
  assert (Hcom : ∃ c, conn_alarm WRITE_ALARM p (mask_alarm p s) = set_com c s ∧
    (connected (psc_base p) = true → c = com s)).
  { unfold mask_alarm, conn_alarm. destruct s, (negb _), (connected (psc_base p)); eexists; by split. }
  destruct Hcom as (c & Hc1 & Hc2).
  exists (put_field W4 priv v (data blk)), c. split_and!; [|done| |exact Hout].
  - rewrite <-Hc1, (write_binary_run s priv p blk), Hf by done. cbn zeta. fold old m rv v.
    by rewrite store_word_fits.
  - intros i Hi. rewrite Hfd. subst v. unfold masked_word. destruct (m =? 0); cbn [negb orb]; [done|].
    rewrite Z.lor_spec, !Z.land_spec, Z.lnot_spec by lia.
    by destruct (Z.testbit old i), (Z.testbit rv i), (Z.testbit m i).
Qed.

(** Processing a bi, mbbi or mbbiDirect record: without private data nothing happens; a
    word inside the block is stored in RVAL, big-endian and masked when there is a mask,
    with the block's time when the record asks for it; a word outside raises SOFT/INVALID
    and leaves the record's value.  A missing connection raises READ/INVALID as well. *)
Theorem read_binary_outcomes (s : devst binrec Priv P) priv p blk t :
  (dpvt s = Some priv → attached s priv p blk) →
  record_time priv blk (tse (com s)) (time (com s)) = Ret t →
  let c := conn_alarm READ_ALARM p s in
  let word := field W4 (offset priv) (contents (data blk)) in
  let word := if mask (rec s) =? 0 then word else Z.land word (mask (rec s)) in
  (dpvt s = None → read_binary s = (Ret (Status (-1)), s)) ∧
  (dpvt s = Some priv → read_binary s =
    if field_fits W4 priv blk
    then (Ret (Status 0), set_com (set_time t (com c)) (set_rec (set_rval word (rec s)) s))
    else (Ret S_dev_badRequest, caught SOFT_ALARM INVALID_ALARM c)).
Proof.
  intros Ha Ht c word0 word. split; intros Hd.
  { unfold read_binary, with_priv. mstep. by rewrite Hd. }
  specialize (Ha Hd). unfold read_binary. rewrite (with_priv_some _ s priv) by done.
  destruct (field_fits W4 priv blk) eqn:Hf.
  - apply CATCH_ret.
    erewrite bind_ret by (rewrite (read_to_field_spec W4 priv p blk), Hf by done; reflexivity).
    cbv beta. fold c word0. do 2 mstep. cbn zeta.
    assert (Hrec : rec c = rec s) by (subst c; apply conn_alarm_rec). rewrite Hrec.
    replace (if negb (mask (rec s) =? 0) then Z.land word0 (mask (rec s)) else word0) with word
      by (subst word; by destruct (mask (rec s) =? 0)).
    rewrite (stamp_end priv p blk _ (Status 0) t).
    + subst c. unfold conn_alarm. by destruct (connected _).
    + by apply attached_rec, conn_alarm_attached.
    + subst c. cbn. unfold conn_alarm. by destruct (connected _).
  - apply CATCH_throw. erewrite bind_throw; [done|].
    rewrite (read_to_field_spec W4 priv p blk), Hf by done. reflexivity.
Qed.
End reg_props.

(** ** Witnesses *)

Lemma reg_write_readback_witness :
  let D := sample_driver in
  let L := sample_driver_laws in
  let Hh := pc_host in
  let Er := base_record in
  let s := sample_rec (SendBlk 11) 4 [] (ValRec (-2)) in
  (write_from_val W8 s).1 = Ret (Status 0) ∧
  ∀ (r : devst valrec Priv sample_drv) privr,
    pscmap r = pscmap (write_from_val W8 s).2 → dpvt r = Some privr →
    psc privr = "dev"%string → block privr = Some (SendBlk 11) → offset privr = 4 →
    0 ≤ tsoffset privr → tse (com r) ≠ epicsTimeEventDeviceTime →
    (read_to_val W8 r).1 = Ret (Status 0) ∧ val (rec (read_to_val W8 r).2) = -2.
Proof.
  intros D L Hh Er s.
  apply (reg_write_readback W8 s (sample_priv (SendBlk 11) 4) (sample_dev []) (sample_block (SendBlk 11) [])).
  - apply sample_attached; [by right|lia|done].
  - reflexivity.
  - by left.
  - reflexivity.
  - reflexivity.
  - vm_compute. split; congruence.
Defined.

Lemma write_binary_masked_witness :
  let D := sample_driver in
  let L := sample_driver_laws in
  let Hh := pc_host in
  let Er := base_record in
  let s := sample_rec (SendBlk 11) 4 [] (BinRec 0x30000 16 0x10000) in
  let priv := sample_priv (SendBlk 11) 4 in
  let blk := sample_block (SendBlk 11) [] in
  ∃ d c, write_binary s =
      (Ret (Status 0), put_psc priv (put_block priv (set_data d blk) (sample_dev [])) (set_com c s)) ∧
    (connected (psc_base (sample_dev [])) = true → c = com s) ∧
    (∀ i, 0 ≤ i < 32 →
      Z.testbit (field W4 4 (contents d)) i =
        if (0x30000 =? 0) || Z.testbit 0x30000 i then Z.testbit 0x10000 i
        else Z.testbit (field W4 4 (contents (data blk))) i) ∧
    (∀ i, Z.of_nat i < 4 ∨ 4 + 4 ≤ Z.of_nat i → contents d !! i = contents (data blk) !! i).
Proof.
  intros D L Hh Er s priv blk. apply (write_binary_masked s priv (sample_dev []) blk).
  - apply sample_attached; [by right|lia|done].
  - reflexivity.
  - reflexivity.
  - reflexivity.
  - vm_compute. split; congruence.
  - vm_compute. split; congruence.
Defined.

Lemma read_binary_outcomes_witness :
  let D := sample_driver in
  let L := sample_driver_laws in
  let Hh := pc_host in
  let Er := base_record in
  let body := [Byte.x00; Byte.x00; Byte.x01; Byte.x02; Byte.x03; Byte.x04] in
  let s := sample_rec (RecvBlk 10) 2 body (BinRec 0xff00 0 0) in
  read_binary s = (Ret (Status 0), set_rec (BinRec 0xff00 0 0x0300) s) ∧
  (dpvt s = None → read_binary s = (Ret (Status (-1)), s)).
Proof.
  intros D L Hh Er body s.
  destruct (read_binary_outcomes s (sample_priv (RecvBlk 10) 2) (sample_dev body)
    (sample_block (RecvBlk 10) body) (EpicsTime 0 0)) as [Hn Hs].
  - intros _. apply sample_attached; [by left|lia|done].
  - reflexivity.
  - split; [|exact Hn]. rewrite Hs by reflexivity. vm_compute. reflexivity.
Defined.
