(* ===== verification/DevSingle.v ===== *)
(** * Single register device support

    coreApp/src/devPSCSingle.cpp ("PSC Single ..."): output records that queue a message
    with an address and one value, and, with the tag SYNC set to SAME, listen for messages
    of the same form.  What the compiler leaves in the padding of the message struct is an
    argument, as is the content of an uninitialized variable. *)

From S2P Require Import Prelude EvBuffer Dbuffer Block PscBase Ieee DevCommon DevSample DevReg.

(** [struct SinglePriv]: the received message to copy, the number of [callbackRequest]
    calls on [syncCB], and whether the record is processed by that callback. *)
Record SinglePriv := MkSingle {
  spriv : Priv;
  syncData : list byte;
  syncCB : nat;
  syncNow : bool;
}.

Definition set_syncData (d : list byte) (v : SinglePriv) : SinglePriv :=
  MkSingle (spriv v) d (syncCB v) (syncNow v).
Definition set_syncCB (n : nat) (v : SinglePriv) : SinglePriv :=
  MkSingle (spriv v) (syncData v) n (syncNow v).
Definition set_syncNow (b : bool) (v : SinglePriv) : SinglePriv :=
  MkSingle (spriv v) (syncData v) (syncCB v) b.

Section single.
Context {B P : Type} `{EvBuffer B} `{!PSCVirtual B P} `{Host} `{EpicsRecord}.

(** [union msg<T>]: offset of the value behind the 4 byte address, and size. *)
Definition val_offset (w : width) : Z := match w with W8 => align8 | _ => 4 end.
Definition msg_size (w : width) : Z := val_offset w + Z.of_nat (sizeof w).

Definition upd_single {R} (f : SinglePriv → SinglePriv) : M (devst R SinglePriv P) unit :=
  modify (λ s, set_dpvt (f <$> dpvt s) s).

(** [received_block(raw, block)]: the listener of a record with SYNC; [garbage] are the
    four bytes of the uninitialized address. *)
Definition received_block {R} (garbage : list byte) : M (devst R SinglePriv P) unit :=
  s <- get ;;
  match dpvt s with
  | None => abort NullDeref
  | Some v =>
      b <- the_block (spriv v) ;;
      r <- lift (dbuffer_copyout (data b) 0 4) ;;
      if (r : bool * list byte).1 then ret tt
      else
        let addr := ntoh W4 (host_val (ztake 4 (r.2 ++ garbage))) in
        if negb (offset (spriv v) =? addr) then ret tt
        else
          let alreadyQueued := negb (bool_decide (syncData v = [])) in
          let size := dbuffer_size (data b) in
          upd_single (λ v, set_syncData (zresize Byte.x00 size (syncData v)) v) ;;;
          r <- lift (dbuffer_copyout (data b) 0 size) ;;
          let actual := if (r : bool * list byte).1 then 1 else 0 in
          upd_single (λ v, set_syncData (zresize Byte.x00 actual (zblit 0 r.2 (syncData v))) v) ;;;
          when (negb alreadyQueued) (upd_single (λ v, set_syncCB (S (syncCB v)) v))
  end.

(** [sync_callback]: process the record with [syncNow] set; [process] is [dbProcess]. *)
Definition sync_callback {R} (process : M (devst R SinglePriv P) unit)
    : M (devst R SinglePriv P) unit :=
  upd_single (set_syncNow true) ;;;
  process ;;;
  upd_single (set_syncNow false).

(** [init_output]: with SYNC set to SAME the record listens to the received block [fn] is
    the address of [received_block], [user] of the new private data. *)
Definition init_output {R} (inst_io : bool) (extra : R → R) (link : string)
    (info : option (string → option string)) (fn user : Z)
    : M (devst R SinglePriv P) dev_status :=
  assert_ inst_io ;;;
  modify (λ s, set_rec (extra (rec s)) s) ;;;
  CATCH (
    match info with
    | None => throw (LogicError "Record not found")
    | Some tags =>
        let syncme := bool_decide (tags "SYNC"%string = Some "SAME"%string) in
        priv <- parse_link link info (if syncme then 0 else 2) ;;
        match block priv with
        | Some (RecvBlk k) =>
            on_psc priv (on_base (upd_recv k
              (λ b, set_listeners (CBList.add fn user (listeners b)) b)))
        | Some (SendBlk k) =>
            on_psc priv (on_base (upd_send k
              (λ b, set_listeners (CBList.add fn user (listeners b)) b)))
        | None => ret tt
        end ;;;
        modify (set_dpvt (Some (MkSingle priv [] 0 false))) ;;;
        ret (Status 0)
    end).

(** [write_msg<T>(prec, priv, value)]; [v] is the bit pattern of the value, [pad] the
    bytes between address and value. *)
Definition write_msg {R} (w : width) (priv : Priv) (pad : list byte) (v : Z)
    : M (devst R SinglePriv P) unit :=
  let tosend := host_bytes 4 (hton W4 (u32 (offset priv))) ++ ztake (val_offset w - 4) pad
                ++ host_bytes (sizeof w) (hton w v) in
  conn <- isConnected priv ;;
  if negb conn then throw (RecAlarm WRITE_ALARM INVALID_ALARM)
  else on_psc priv (queueSend_id (bid priv) tosend).

(** [read_msg<T>(prec, priv, value)]: the new value, [None] when it is left alone. *)
Definition read_msg {R} (w : width) : M (devst R SinglePriv P) (option Z) :=
  s <- get ;;
  match dpvt s with
  | None => abort NullDeref
  | Some v =>
      b <- the_block (spriv v) ;;
      if dbuffer_size (data b) <? msg_size w then ret None
      else if zlen (syncData v) <? msg_size w then abort OutOfBounds
      else
        let torecv := ztake (msg_size w) (syncData v) in
        upd_single (set_syncData []) ;;;
        assert_ (offset (spriv v) =? ntoh W4 (host_val (ztake 4 torecv))) ;;;
        modify (λ s,
          if (nsta (com s) =? UDF_ALARM) && (nsev (com s) =? INVALID_ALARM)
          then set_com (set_alarm (0, 0) (com s)) s else s) ;;;
        ret (Some (ntoh w (host_val (zdrop (val_offset w) torecv))))
  end.

(** [prec->udf = isnan(prec->val)] and the alarm of an undefined value. *)
Definition check_udf {R} (x : spec_float) : M (devst R SinglePriv P) unit :=
  modify (λ s, set_com (set_udf (if isnan x then 1 else 0) (com s)) s) ;;;
  when (isnan x) (setSevr UDF_ALARM INVALID_ALARM).

(** [write_msg_val]: longout and int64out. *)
Definition write_msg_val (w : width) (pad : list byte) : M (devst valrec SinglePriv P) dev_status :=
  with_priv (λ v, CATCH (
    s <- get ;;
    (if negb (syncNow v) then write_msg w (spriv v) pad (wrapU (bits w) (val (rec s)))
     else
       r <- read_msg w ;;
       match r with
       | Some z => modify (set_rec (ValRec (wrapS (bits w) z)))
       | None => ret tt
       end) ;;;
    modify (λ s, set_com (set_udf 0 (com s)) s) ;;;
    ret (Status 0))).

(** [write_msg_rval]: ao, as a signed word. *)
Definition write_msg_rval : M (devst airec SinglePriv P) dev_status :=
  with_priv (λ v, CATCH (
    s <- get ;;
    (if negb (syncNow v) then write_msg W4 (spriv v) [] (u32 (ai_rval (rec s)))
     else
       r <- read_msg W4 ;;
       match r with
       | Some z => modify (λ s, set_rec (set_ai_rval (s32 z) (rec s)) s)
       | None => ret tt
       end ;;;
       modify (λ s, set_rec (set_ai_val
         (analogRaw2EGU (conv (rec s)) (of_int binary64 (ai_rval (rec s)))) (rec s)) s) ;;;
       s <- get ;;
       check_udf (ai_val (rec s))) ;;;
    ret (Status 0))).

(** [write_msg_binary_rval]: bo, mbbo and mbboDirect. *)
Definition write_msg_binary_rval : M (devst binrec SinglePriv P) dev_status :=
  with_priv (λ v, CATCH (
    s <- get ;;
    (if negb (syncNow v) then
       let val := rval (rec s) in
       let val := if negb (mask (rec s) =? 0) then Z.land val (mask (rec s)) else val in
       write_msg W4 (spriv v) [] val
     else
       r <- read_msg W4 ;;
       modify (λ s, set_rec (set_rval (default 0 r) (rec s)) s)) ;;;
    ret (Status 0))).

(** [write_msg_val_ao<T>] *)
Definition write_msg_val_ao (k : fwide) (pad : list byte) : M (devst airec SinglePriv P) dev_status :=
  with_priv (λ v, CATCH (
    s <- get ;;
    (if negb (syncNow v) then
       let x := round_to (fformat k) (analogEGU2Raw (conv (rec s)) (ai_val (rec s))) in
       write_msg (fsize k) (spriv v) pad (to_bits (fformat k) x)
     else
       r <- read_msg (fsize k) ;;
       let x := match r with Some z => of_bits (fformat k) z | None => fzero end in
       modify (λ s, set_rec (set_ai_val
         (analogRaw2EGU (conv (rec s)) (round_to binary64 x)) (rec s)) s) ;;;
       s <- get ;;
       check_udf (ai_val (rec s))) ;;;
    ret (Status 0))).

End single.

(** ** Properties *)

Section single_props.
Context {B P : Type} `{EvBufferLaws B} `{!PSCVirtual B P} `{!PSCVirtualLaws B P}.
Context `{Host} `{EpicsRecord}.

(** The message of a write: the address, padding when the value is 8 bytes wide, the value. *)
Definition single_body (w : width) (off : Z) (pad : list byte) (v : Z) : list byte :=
  be_bytes 4 off ++ ztake (val_offset w - 4) pad ++ be_bytes (sizeof w) v.

Lemma be_bytes_u32 z : be_bytes 4 (u32 z) = be_bytes 4 z.
Proof. apply (be_bytes_mod 4 z 4). done. Qed.

Lemma write_msg_spec {R} w priv p pad v (s : devst R SinglePriv P) :
  pscmap s !! psc priv = Some p → swaps w → 0 ≤ v < 2 ^ bits w →
  write_msg w priv pad v s =
    if connected (psc_base p)
    then let '(o, p') := queueSend_id (bid priv) (single_body w (offset priv) pad v) p in
         (o, put_psc priv p' s)
    else (Throw (RecAlarm WRITE_ALARM INVALID_ALARM), s).
Proof.
  intros Ep Hs Hv. unfold write_msg, single_body.
  rewrite (hton_bytes W4 _ swaps4 (wrapU_range 32 (offset priv) ltac:(lia))).
  rewrite (hton_bytes w) by done. cbn [sizeof]. rewrite be_bytes_u32.
  erewrite bind_ret by (by apply isConnected_spec). cbv beta.
  destruct (connected (psc_base p)); cbn [negb]; [|done].
  unfold on_psc. by rewrite Ep.
Qed.

(** A longout or int64out record of this support queues one message, whose body is the
    big-endian address followed by the big-endian value (with a gap before an 8 byte value,
    as the compiler aligns it); an error of the queue becomes the record's alarm, and
    without a connection nothing is queued and the alarm is WRITE/INVALID. *)
Theorem single_write_frames w pad (s : devst valrec SinglePriv P) v p :
  dpvt s = Some v → syncNow v = false → pscmap s !! psc (spriv v) = Some p → swaps w →
  let body := single_body w (offset (spriv v)) pad (wrapU (bits w) (val (rec s))) in
  write_msg_val w pad s =
    if connected (psc_base p) then
      match queueSend_id (bid (spriv v)) body p with
      | (Ret _, p') =>
          (Ret (Status 0), put_psc (spriv v) p' (set_com (set_udf 0 (com s)) s))
      | (Throw (RecAlarm st sv), p') =>
          (Ret S_dev_badRequest, put_psc (spriv v) p'
             (set_com (set_alarm (recGblSetSevr st sv (nsta (com s), nsev (com s))) (com s)) s))
      | (Throw _, p') =>
          (Ret S_dev_badRequest, put_psc (spriv v) p'
             (set_com (set_alarm (recGblSetSevr COMM_ALARM INVALID_ALARM
                                    (nsta (com s), nsev (com s))) (com s)) s))
      | (Crash c, p') => (Crash c, put_psc (spriv v) p' s)
      end
    else
      (Ret S_dev_badRequest,
       set_com (set_alarm (recGblSetSevr WRITE_ALARM INVALID_ALARM
                             (nsta (com s), nsev (com s))) (com s)) s).
Proof.
  intros Hd Hn Ep Hs body. unfold write_msg_val, with_priv. mstep. rewrite Hd, Hn. cbn [negb].
  unfold CATCH, catch. mstep.
  assert (Hv : 0 ≤ wrapU (bits w) (val (rec s)) < 2 ^ bits w) by (apply wrapU_range; by destruct w).
  unfold bind at 1. rewrite (write_msg_spec w (spriv v) p pad _ s Ep Hs Hv). fold body.
  destruct (connected (psc_base p)); [|done].
  destruct (queueSend_id (bid (spriv v)) body p) as [[[]|[]|c] p']; done.
Qed.

(** The SYNC data of a record that has only ever been filled by its listener. *)
Definition sync_short (v : SinglePriv) : Prop := zlen (syncData v) ≤ 1.

(** The SYNC tag never has the documented effect.  A message that could carry address
    and value leaves the record alone (the test of the copied address is inverted); a
    shorter one stores at most one byte, from which no value can be read: the resulting
    processing leaves the value or reads outside the stored bytes. *)
Theorem single_sync_ignored {R} (s : devst R SinglePriv P) v p blk garbage :
  dpvt s = Some v → attached s (spriv v) p blk → sync_short v → 0 ≤ align8 →
  (4 ≤ dbuffer_size (data blk) → received_block garbage s = (Ret tt, s)) ∧
  (∃ v', received_block garbage s = (Ret tt, set_dpvt (Some v') s) ∧
         spriv v' = spriv v ∧ sync_short v') ∧
  (∀ w, (read_msg w s).1 = Ret None ∨ (read_msg w s).1 = Crash OutOfBounds).
Proof.
  intros Hd Ha Hv Hal. pose proof (the_block_spec _ _ _ _ Ha) as Hb.
  destruct Ha as [_ _ Hw Hsz _]. pose proof (zlen_nonneg (contents (data blk))) as Hp.
  assert (Hid : s = set_dpvt (Some v) s) by (destruct s; cbn in *; by rewrite Hd).
  assert (H4 : 4 ≤ dbuffer_size (data blk) → received_block garbage s = (Ret tt, s)).
  { intros Hl. unfold received_block. mstep. rewrite Hd. erewrite bind_ret by exact Hb. cbv beta.
    unfold lift. rewrite copyout_flat by (try done; lia). done. }
  split_and!; [exact H4| |].
  - destruct (Z.le_gt_cases 4 (dbuffer_size (data blk))) as [Hl|Hl].
    { exists v. rewrite H4 by done. split; [by rewrite <-Hid|done]. }
    unfold received_block. mstep. rewrite Hd. erewrite bind_ret by exact Hb. cbv beta.
    unfold lift at 1. rewrite copyout_short by (try done; lia). mstep. cbn [fst snd].
    case_if; [exists v; split; [by rewrite <-Hid|done]|].
    do 1 mstep. unfold lift.
    assert (Hc : ∃ ok bs, dbuffer_copyout (data blk) 0 (dbuffer_size (data blk)) = Ret (ok, bs)).
    { destruct (Z.eq_dec (dbuffer_size (data blk)) 0) as [E0|].
      - rewrite E0. unfold dbuffer_copyout, dbuffer_copyout_shape. rewrite E0. by eexists _, _.
      - rewrite dbuffer_size_contents in *. rewrite copyout_flat; rewrite ?dbuffer_size_contents;
          [by eexists _, _|done|lia|lia|lia|lia]. }
    destruct Hc as (ok & bs & ->). do 2 mstep. cbn [fst snd].
    set (n := if ok then 1 else 0). assert (Hn : 0 ≤ n ≤ 1) by (subst n; by destruct ok).
    unfold when. case_if; eexists; unfold ret, upd_single, modify; cbn; rewrite Hd; cbn.
    all: split; [reflexivity|]; split; [done|]; unfold sync_short; cbn; rewrite zlen_zresize; lia.
  - intros w. unfold read_msg. mstep. rewrite Hd. erewrite bind_ret by exact Hb. cbv beta.
    case_if; [by left|]. right. bool_to_prop. unfold sync_short in Hv.
    assert (2 ≤ msg_size w) by (unfold msg_size, val_offset; destruct w; cbn; lia).
    destruct (Z.ltb_spec (zlen (syncData v)) (msg_size w)); [done|lia].
Qed.

End single_props.

(** ** Witnesses *)

(** A longout record at address 128 of message 11, as in documentation/devsup.rst. *)
Definition sample_single : devst valrec SinglePriv sample_drv :=
  let s := sample_rec (SendBlk 11) 128 [] (ValRec (-2)) in
  DevSt (com s) (rec s) (Some (MkSingle (sample_priv (SendBlk 11) 128) [] 0 false)) (pscmap s).

Lemma single_write_frames_witness :
  let D := sample_driver in
  let L := sample_driver_laws in
  let Hh := pc_host in
  let Er := base_record in
  let body := [Byte.x00; Byte.x00; Byte.x00; Byte.x80; Byte.xff; Byte.xff; Byte.xff; Byte.xfe] in
  ∃ p', write_msg_val W4 [] sample_single =
      (Ret (Status 0), put_psc (sample_priv (SendBlk 11) 128) p'
                         (set_com (set_udf 0 (com sample_single)) sample_single)) ∧
    evbuffer_data (PscTcp.sendbuf p') = Wire.put_header 11 8 ++ body.
Proof.
  intros D L Hh Er body.
  set (v := MkSingle (sample_priv (SendBlk 11) 128) [] 0 false).
  set (sent := queueSend_id (bid (spriv v))
    (single_body W4 (offset (spriv v)) [] (wrapU (bits W4) (val (rec sample_single)))) (sample_dev [])).
  assert (E : sent = (Ret tt, sent.2)) by (apply (run_ret _ (sample_dev []) tt); vm_compute; reflexivity).
  exists sent.2. split; [|vm_compute; reflexivity].
  pose proof (single_write_frames W4 [] sample_single v (sample_dev [])
    eq_refl eq_refl eq_refl (or_introl eq_refl)) as T.
  cbv zeta in T. fold sent in T. rewrite E in T. exact T.
Defined.

Lemma single_sync_ignored_witness :
  let D := sample_driver in
  let L := sample_driver_laws in
  let Hh := pc_host in
  let Er := base_record in
  let body := [Byte.x00; Byte.x00; Byte.x00; Byte.x80; Byte.x00; Byte.x00; Byte.x00; Byte.x07] in
  let s0 := sample_rec (RecvBlk 10) 128 body (ValRec 1) in
  let v := MkSingle (sample_priv (RecvBlk 10) 128) [] 0 false in
  let s := DevSt (com s0) (rec s0) (Some v) (pscmap s0) in
  received_block [] s = (Ret tt, s) ∧
  (∃ v', received_block [] s = (Ret tt, set_dpvt (Some v') s) ∧
         spriv v' = spriv v ∧ sync_short v') ∧
  (∀ w, (read_msg w s).1 = Ret None ∨ (read_msg w s).1 = Crash OutOfBounds).
Proof.
  intros D L Hh Er body s0 v s.
  destruct (single_sync_ignored s v (sample_dev body) (sample_block (RecvBlk 10) body) [])
    as (H1 & H2 & H3).
  - reflexivity.
  - pose proof (sample_attached (RecvBlk 10) 128 body (ValRec 1)) as [? ? ? ? ?];
      [by left|lia|done|]. by split.
  - unfold sync_short. vm_compute. congruence.
  - vm_compute. congruence.
  - split; [apply H1; vm_compute; congruence|]. by split.
Defined.
