(* ===== verification/DevWf.v ===== *)
(** * Waveform device support

    coreApp/src/devPSCWf.cpp ("PSC Block ... In", "PSC Block ... Out"): waveform records
    that hold the array of a block.  Arrays of numbers are kept as [double]; reading copies
    the raw elements into the record's buffer and widens them there, back to front.  The
    buffer is modelled as the bytes of its memory. *)

From S2P Require Import Prelude EvBuffer Dbuffer Block PscBase Ieee DevCommon DevSample DevReg.

(** [FTVL] of a waveform record. *)
Inductive ftype := menuFtypeCHAR | menuFtypeUCHAR | menuFtypeDOUBLE | OtherFtype.
#[export] Instance ftype_eq_decision : EqDecision ftype.
Proof. solve_decision. Defined.

(** Fields of waveformRecord; [bptr] are the bytes of the array. *)
Record wfrec := WfRec { ftvl : ftype; nelm : Z; nord : Z; bptr : list byte }.

Definition set_bptr (m : list byte) (r : wfrec) : wfrec := WfRec (ftvl r) (nelm r) (nord r) m.
Definition set_nord (n : Z) (r : wfrec) : wfrec := WfRec (ftvl r) (nelm r) n (bptr r).

(** The element types of the numeric supports. *)
Inductive elem := I16 | I32 | E32 | E64.
Definition esize (t : elem) : width := match t with I16 => W2 | I32 | E32 => W4 | E64 => W8 end.

(** [(double)raw] of an element with bit pattern [v], as the bit pattern of the [double]. *)
Definition widen (t : elem) (v : Z) : Z :=
  match t with
  | I16 => to_bits binary64 (of_int binary64 (wrapS 16 v))
  | I32 => to_bits binary64 (of_int binary64 (wrapS 32 v))
  | E32 => to_bits binary64 (round_to binary64 (of_bits binary32 v))
  | E64 => v
  end.

(** [T ival = pfrom[i]]: the bit pattern of the element; converting a number out of the
    range of an integer type is undefined. *)
Definition narrow (t : elem) (d : Z) : option Z :=
  match t with
  | I16 => wrapU 16 <$> to_int 16 (of_bits binary64 d)
  | I32 => wrapU 32 <$> to_int 32 (of_bits binary64 d)
  | E32 => Some (to_bits binary32 (round_to binary32 (of_bits binary64 d)))
  | E64 => Some d
  end.

Section wf.
Context {B P : Type} `{EvBuffer B} `{!PSCVirtual B P} `{Host} `{EpicsRecord}.

(** [init_wf_record<dir>] *)
Definition init_wf_record (dir : Z) (inst_io : bool) link info : M (devst wfrec Priv P) dev_status :=
  assert_ inst_io ;;;
  s <- get ;;
  if negb (bool_decide (ftvl (rec s) = menuFtypeDOUBLE)) then ret (Status 0)
  else init_record true (λ r, r) link info dir.

(** [init_wf_record_bytes<dir>] *)
Definition init_wf_record_bytes (dir : Z) (inst_io : bool) link info
    : M (devst wfrec Priv P) dev_status :=
  assert_ inst_io ;;;
  s <- get ;;
  if negb (bool_decide (ftvl (rec s) = menuFtypeCHAR) || bool_decide (ftvl (rec s) = menuFtypeUCHAR))
  then ret (Status 0)
  else init_record true (λ r, r) link info dir.

(** The early end of a record that is not connected. *)
Definition if_connected (priv : Priv) (m : M (devst wfrec Priv P) dev_status)
    : M (devst wfrec Priv P) dev_status :=
  conn <- isConnected priv ;;
  if negb conn then setSevr READ_ALARM INVALID_ALARM ;;; ret (Status 0) else m.

(** A store of [bs] at byte [off] of the array. *)
Definition store (off : Z) (bs : list byte) : M (devst wfrec Priv P) unit :=
  s <- get ;;
  if zlen (bptr (rec s)) <? off + zlen bs then abort OutOfBounds
  else modify (λ s, set_rec (set_bptr (zblit off bs (bptr (rec s))) (rec s)) s).

(** [((double* )bptr)[i-1] = ntoh(((T* )bptr)[i-1])] for i from [n] down to 1. *)
Fixpoint expand (t : elem) (n : nat) : M (devst wfrec Priv P) unit :=
  match n with
  | O => ret tt
  | S i =>
      s <- get ;;
      let sz := Z.of_nat (sizeof (esize t)) in
      let raw := host_val (zslice (Z.of_nat i * sz) sz (bptr (rec s))) in
      store (Z.of_nat i * 8) (host_bytes 8 (widen t (ntoh (esize t) raw))) ;;;
      expand t i
  end.

(** [read_wf_real<T>] *)
Definition read_wf_real (t : elem) : M (devst wfrec Priv P) dev_status :=
  with_priv (λ priv, CATCH (if_connected priv (
    s <- get ;;
    let sz := Z.of_nat (sizeof (esize t)) in
    let stp := if negb (step priv =? 0) then u64 (step priv) else sz in
    let skip := if stp >=? sz then stp - sz else 0 in
    b <- the_block priv ;;
    r <- lift (dbuffer_copyout_shape (data b) (offset priv) sz skip (nelm (rec s))) ;;
    store 0 r.2 ;;;
    expand t (Z.to_nat r.1) ;;;
    modify (λ s, set_rec (set_nord r.1 (rec s)) s) ;;;
    setRecTimestamp priv ;;;
    ret (Status 0)))).

(** [read_wf_bytes]: [copyout] returns a [bool], which becomes the length. *)
Definition read_wf_bytes : M (devst wfrec Priv P) dev_status :=
  with_priv (λ priv, CATCH (if_connected priv (
    s <- get ;;
    b <- the_block priv ;;
    r <- lift (dbuffer_copyout (data b) (offset priv) (nelm (rec s))) ;;
    store 0 r.2 ;;;
    let len := if (r : bool * list byte).1 then 1 else 0 in
    modify (λ s, set_rec (set_nord len (rec s)) s) ;;;
    setRecTimestamp priv ;;;
    ret (Status 0)))).

(** The vector [to] of [write_wf], as bytes: elements [i] to [i + n - 1]. *)
Fixpoint to_vector (t : elem) (mem : list byte) (i : Z) (n : nat) : option (list byte) :=
  match n with
  | O => Some []
  | S k =>
      v ← narrow t (host_val (zslice (i * 8) 8 mem));
      r ← to_vector t mem (i + 1) k;
      Some (host_bytes (sizeof (esize t)) (hton (esize t) v) ++ r)
  end.

(** [priv->psc->queueSend(priv->block, buf, len)] *)
Definition queue_block {R V} (priv : Priv) (buf : list byte) : M (devst R V P) unit :=
  match block priv with
  | Some (SendBlk k) | Some (RecvBlk k) => on_psc priv (queueSend_buf k buf)
  | None => abort NullDeref
  end.

(** [write_wf<T>] *)
Definition write_wf (t : elem) : M (devst wfrec Priv P) dev_status :=
  with_priv (λ priv, CATCH (
    s <- get ;;
    match to_vector t (bptr (rec s)) 0 (Z.to_nat (nord (rec s))) with
    | None => abort Undefined
    | Some to => if_connected priv (queue_block priv to ;;; ret (Status 0))
    end)).

(** [write_wf_bytes] *)
Definition write_wf_bytes : M (devst wfrec Priv P) dev_status :=
  with_priv (λ priv, CATCH (if_connected priv (
    s <- get ;;
    queue_block priv (ztake (nord (rec s)) (bptr (rec s))) ;;;
    ret (Status 0)))).

End wf.

(** ** Widening in place *)

Section expand.
Context {B P : Type} `{EvBufferLaws B} `{!PSCVirtual B P} `{!PSCVirtualLaws B P}.
Context `{Host} `{EpicsRecord}.
Implicit Types s : devst wfrec Priv P.

Lemma store_fits off bs s :
  off + zlen bs ≤ zlen (bptr (rec s)) →
  store off bs s = (Ret tt, set_rec (set_bptr (zblit off bs (bptr (rec s))) (rec s)) s).
Proof. intros Hf. unfold store. mstep. case_if; bool_to_prop; [lia|done]. Qed.

(** The memory [expand] leaves: element [k] widened from where it was, the rest kept. *)
Definition expanded (t : elem) (n : nat) (mem mem' : list byte) : Prop :=
  let sz := Z.of_nat (sizeof (esize t)) in
  zlen mem' = zlen mem ∧
  (∀ k, 0 ≤ k < Z.of_nat n → zslice (k * 8) 8 mem' =
     host_bytes 8 (widen t (ntoh (esize t) (host_val (zslice (k * sz) sz mem))))) ∧
  (∀ k, Z.of_nat n ≤ k → k * 8 + 8 ≤ zlen mem → zslice (k * 8) 8 mem' = zslice (k * 8) 8 mem).

(** Going down, no element is overwritten before it is read. *)
Lemma expand_spec t n s :
  8 * Z.of_nat n ≤ zlen (bptr (rec s)) →
  ∃ mem', expand t n s = (Ret tt, set_rec (set_bptr mem' (rec s)) s) ∧
    expanded t n (bptr (rec s)) mem'.
Proof.
  revert s. induction n as [|n IH]; intros s Hn.
  { exists (bptr (rec s)). split; [by destruct s as [? [] ? ?]|]. split_and!; [done|lia|done]. }
  cbn [expand]. mstep. set (sz := Z.of_nat (sizeof (esize t))).
  assert (Hsz : 0 < sz ≤ 8) by apply sizeof_pos.
  set (hb := host_bytes 8 _). assert (Hhb : zlen hb = 8) by (subst hb; unfold zlen; by rewrite length_host_bytes).
  erewrite bind_ret by (apply store_fits; lia).
  set (mem1 := zblit (Z.of_nat n * 8) hb (bptr (rec s))).
  assert (Hm1 : zlen mem1 = zlen (bptr (rec s))) by (apply zlen_zblit; lia).
  destruct (IH (set_rec (set_bptr mem1 (rec s)) s)) as (mem' & E & Hl & Hlow & Hhigh); [cbn; lia|].
  exists mem'. rewrite E. split; [done|]. cbn [rec bptr set_rec set_bptr] in *. fold sz in Hlow |- *.
  split_and!; [congruence| |].
  - intros k Hk. destruct (decide (k = Z.of_nat n)) as [->|].
    + rewrite Hhigh by lia. subst mem1.
      rewrite zslice_zblit_inside, Z.sub_diag by lia. unfold zslice.
      rewrite zdrop_neg, ztake_all by lia. done.
    + rewrite Hlow by lia. subst mem1. rewrite zslice_zblit_outside; [done|nia|nia|lia|lia|nia].
  - intros k Hk Hfit. rewrite Hhigh by lia. apply zslice_zblit_outside; lia.
Qed.

End expand.

(** ** Properties *)

Section wf_props.
Context {B P : Type} `{EvBufferLaws B} `{!PSCVirtual B P} `{!PSCVirtualLaws B P}.
Context `{Host} `{EpicsRecord}.
Implicit Types (s r : devst wfrec Priv P) (priv : Priv).

Definition esz (t : elem) : Z := Z.of_nat (sizeof (esize t)).

(** Distance of elements in the block: the link's step, at least the element size. *)
Definition stride (t : elem) priv : Z := if step priv =? 0 then esz t else Z.max (esz t) (step priv).

(** Elements of the block that fit into the record. *)
Definition wf_count (t : elem) priv (blk : Block (dbuffer B)) (r : wfrec) : Z :=
  shape_count (dbuffer_size (data blk)) (offset priv) (esz t) (stride t priv - esz t) (nelm r).

(** A numeric waveform record whose array has its declared size. *)
Record wf_ok (t : elem) s priv (blk : Block (dbuffer B)) : Prop := {
  wf_priv : dpvt s = Some priv;
  wf_step : 0 ≤ step priv < 2 ^ 62;
  wf_size : dbuffer_size (data blk) < 2 ^ 62;
  wf_nelm : 0 ≤ nelm (rec s);
  wf_bptr : zlen (bptr (rec s)) = 8 * nelm (rec s);
  wf_swaps : swaps (esize t);
}.

Lemma esz_range t : 0 < esz t ≤ 8.
Proof. apply sizeof_pos. Qed.

Lemma stride_eq t priv :
  0 ≤ step priv < 2 ^ 62 →
  (let stp := if negb (step priv =? 0) then u64 (step priv) else esz t in
   if stp >=? esz t then stp - esz t else 0) = stride t priv - esz t.
Proof.
  intros Hs. unfold stride. pose proof (esz_range t).
  destruct (step priv =? 0) eqn:E; cbn [negb]; bool_to_prop.
  - rewrite Z.geb_leb, Z.leb_refl. done.
  - rewrite wrapU_small by lia. case_if; bool_to_prop; lia.
Qed.

(** What the count says: the elements are inside block and record. *)
Lemma wf_count_fits t s priv blk p :
  attached s priv p blk → wf_ok t s priv blk →
  let n := wf_count t priv blk (rec s) in
  0 ≤ n ≤ nelm (rec s) ∧
  (0 < n → offset priv + n * stride t priv - (stride t priv - esz t) ≤ zlen (contents (data blk))).
Proof.
  intros [_ _ _ _ [Ho _]] [_ Hs Hsz Hn _ _] n. subst n. unfold wf_count, shape_count.
  rewrite dbuffer_size_contents in *. pose proof (esz_range t).
  assert (Hst : esz t ≤ stride t priv).
  { unfold stride. case_if; bool_to_prop; lia. }
  case_if; [lia|]. bool_to_prop. replace (esz t + (stride t priv - esz t)) with (stride t priv) by lia.
  set (tot := zlen (contents (data blk)) - offset priv + (stride t priv - esz t)).
  assert (0 ≤ tot / stride t priv) by (apply Z.div_pos; lia).
  pose proof (Z.mul_div_le tot (stride t priv)). split; [lia|].
  intros Hn0. assert (Z.min (nelm (rec s)) (tot / stride t priv) * stride t priv
    ≤ tot / stride t priv * stride t priv) by (apply Z.mul_le_mono_nonneg_r; lia). lia.
Qed.

(** The record after a read of [n] elements. *)
Definition wf_after (n : Z) (mem : list byte) (tm : epicsTime) s : devst wfrec Priv P :=
  set_com (set_time tm (com s)) (set_rec (set_nord n (set_bptr mem (rec s))) s).

Lemma read_wf_real_run t s priv p blk tm :
  attached s priv p blk → wf_ok t s priv blk → connected (psc_base p) = true →
  record_time priv blk (tse (com s)) (time (com s)) = Ret tm →
  let n := wf_count t priv blk (rec s) in
  let els := elements (contents (data blk)) (offset priv) (esz t) (stride t priv - esz t) (Z.to_nat n) in
  ∃ mem', read_wf_real t s = (Ret (Status 0), wf_after n mem' tm s) ∧
    expanded t (Z.to_nat n) (zblit 0 els (bptr (rec s))) mem' ∧ zlen els = n * esz t.
Proof.
  intros Ha Hok Hc Ht n els. destruct (wf_count_fits t s priv blk p Ha Hok) as [Hn Hfit]. fold n in Hn, Hfit.
  pose proof (the_block_spec _ _ _ _ Ha) as Hb. pose proof Hok as [Hd Hs Hsz Hne Hbp Hsw].
  pose proof (esz_range t) as Hez. pose proof Ha as [Ep _ Hw _ [Ho _]].
  assert (Hst : 0 ≤ stride t priv - esz t < 2 ^ 62).
  { unfold stride. case_if; bool_to_prop; lia. }
  assert (Hle : zlen els = n * esz t).
  { destruct (Z.eq_dec n 0) as [E0|].
    { assert (Hnil : els = []) by (subst els; by rewrite E0). rewrite Hnil, E0. done. }
    subst els. rewrite zlen_elements; [rewrite Z2Nat.id by lia; done|lia|lia|lia|].
    rewrite Z2Nat.id by lia. replace (esz t + (stride t priv - esz t)) with (stride t priv) by lia. lia. }
  unfold read_wf_real. rewrite (with_priv_some _ s priv) by done.
  assert (Hfits0 : 0 + zlen els ≤ zlen (bptr (rec s))) by (rewrite Hle, Hbp; nia).
  set (s1 := set_rec (set_bptr (zblit 0 els (bptr (rec s))) (rec s)) s).
  destruct (expand_spec t (Z.to_nat n) s1) as (mem' & E & Hexp).
  { cbn. rewrite zlen_zblit by lia. lia. }
  exists mem'. split_and!; [|exact Hexp|exact Hle].
  apply CATCH_ret. unfold if_connected.
  erewrite bind_ret by (by apply isConnected_spec). cbv beta. rewrite Hc. cbn [negb]. mstep.
  erewrite bind_ret by exact Hb. cbv beta.
  fold (esz t). pose proof (stride_eq t priv Hs) as Hse. cbn zeta in Hse. rewrite Hse.
  rewrite (copyout_shape_flat (data blk)) by (try done; lia).
  fold (wf_count t priv blk (rec s)). fold n els.
  erewrite (bind_ret (lift _)) by reflexivity. cbv beta. cbn [fst snd].
  erewrite bind_ret by (by apply store_fits). cbv beta. fold s1.
  rewrite (bind_ret _ _ _ _ _ E). mstep.
  rewrite (stamp_end priv p blk _ (Status 0) tm).
  - done.
  - by do 3 apply attached_rec.
  - exact Ht.
Qed.

(** The elements of the block, widened, from the memory [read_wf_real] leaves. *)
Lemma expanded_values t s priv p blk mem' :
  attached s priv p blk → wf_ok t s priv blk →
  let n := wf_count t priv blk (rec s) in
  let els := elements (contents (data blk)) (offset priv) (esz t) (stride t priv - esz t) (Z.to_nat n) in
  zlen els = n * esz t → expanded t (Z.to_nat n) (zblit 0 els (bptr (rec s))) mem' →
  zlen mem' = zlen (bptr (rec s)) ∧ ∀ k, 0 ≤ k < n →
    zslice (k * 8) 8 mem' = host_bytes 8
      (widen t (be_val (zslice (offset priv + k * stride t priv) (esz t) (contents (data blk))))).
Proof.
  intros Ha Hok n els Hle (Hl & Hel & _).
  destruct (wf_count_fits t s priv blk p Ha Hok) as [Hn Hfit]. fold n in Hn, Hfit.
  pose proof Hok as [_ Hs Hsz _ Hbp Hsw]. pose proof (esz_range t) as Hez.
  pose proof (att_offset _ _ _ _ Ha) as [Ho _].
  assert (Hst : esz t ≤ stride t priv) by (unfold stride; case_if; bool_to_prop; lia).
  rewrite zlen_zblit in Hl by (rewrite ?Hle, ?Hbp; nia).
  split; [exact Hl|].
  intros k Hk. rewrite Hel by lia. fold (esz t). do 2 f_equal.
    assert (Hin : zslice (k * esz t) (esz t) (zblit 0 els (bptr (rec s))) =
      zslice (offset priv + k * stride t priv) (esz t) (contents (data blk))).
    { rewrite zslice_zblit_inside by (rewrite ?Hle, ?Hbp; nia). rewrite Z.sub_0_r. subst els.
      rewrite zslice_elements; [f_equal; lia|lia|lia|lia|lia|].
      rewrite Z2Nat.id by lia. replace (esz t + (stride t priv - esz t)) with (stride t priv) by lia. lia. }
    rewrite Hin. apply ntoh_host_val; [done|].
    assert (Hz : zlen (zslice (offset priv + k * stride t priv) (esz t) (contents (data blk))) = esz t).
    { apply zlen_zslice; [nia|lia|]. nia. }
    unfold zlen in Hz. assert (esz t = Z.of_nat (sizeof (esize t))) by done. lia.
Qed.

(** Reading a numeric waveform of a connected device: NORD is the number of whole
    elements of the block, from the link's offset at the link's step, that fit into the
    record, and element [k] of the record is element [k] of the block, big-endian and
    converted to [double], although both share the record's memory while it is widened. *)
Theorem wf_read_values t s priv p blk tm :
  attached s priv p blk → wf_ok t s priv blk → connected (psc_base p) = true →
  record_time priv blk (tse (com s)) (time (com s)) = Ret tm →
  let n := wf_count t priv blk (rec s) in
  ∃ mem', read_wf_real t s = (Ret (Status 0), wf_after n mem' tm s) ∧
    zlen mem' = zlen (bptr (rec s)) ∧ 0 ≤ n ≤ nelm (rec s) ∧
    (n < nelm (rec s) → offset priv < dbuffer_size (data blk) →
     dbuffer_size (data blk) < offset priv + n * stride t priv + esz t) ∧
    ∀ k, 0 ≤ k < n →
      zslice (k * 8) 8 mem' = host_bytes 8
        (widen t (be_val (zslice (offset priv + k * stride t priv) (esz t) (contents (data blk))))).
Proof.
  intros Ha Hok Hc Ht n.
  destruct (read_wf_real_run t s priv p blk tm Ha Hok Hc Ht) as (mem' & E & Hexp & Hle).
  destruct (expanded_values t s priv p blk mem' Ha Hok Hle Hexp) as [Hl Hval].
  fold n in E, Hval. destruct (wf_count_fits t s priv blk p Ha Hok) as [Hn Hfit]. fold n in Hn, Hfit.
  pose proof Hok as [_ Hs Hsz _ Hbp Hsw]. pose proof (esz_range t) as Hez.
  assert (Hst : esz t ≤ stride t priv) by (unfold stride; case_if; bool_to_prop; lia).
  exists mem'. split_and!; [exact E|exact Hl|lia|lia| |exact Hval].
  intros Hlt Hoff. subst n. unfold wf_count, shape_count in *. pose proof (zlen_nonneg (contents (data blk))).
  rewrite dbuffer_size_contents in *. case_if.
  { apply orb_true_iff in Heqb as [?|?]; bool_to_prop; lia. }
  replace (esz t + (stride t priv - esz t)) with (stride t priv) in * by lia.
  set (tot := zlen (contents (data blk)) - offset priv + (stride t priv - esz t)) in *.
  pose proof (Z.mul_succ_div_gt tot (stride t priv)). nia.
Qed.

(** *** Writing what was read *)

Lemma wrapS_range w v : 0 < w → - 2 ^ (w - 1) ≤ wrapS w v < 2 ^ (w - 1).
Proof.
  intros. unfold wrapS. assert (2 ^ w = 2 * 2 ^ (w - 1)) as E.
  { rewrite <-Z.pow_succ_r by lia. f_equal. lia. }
  pose proof (Z.mod_pos_bound (v + 2 ^ (w - 1)) (2 ^ w)).
  assert (0 < 2 ^ (w - 1)) by (apply Z.pow_pos_nonneg; lia). lia.
Qed.

Lemma wrapU_wrapS w v : 0 < w → 0 ≤ v < 2 ^ w → wrapU w (wrapS w v) = v.
Proof.
  intros Hw Hv. unfold wrapU, wrapS. rewrite Zminus_mod_idemp_l, Z.add_simpl_r. by apply Z.mod_small.
Qed.

(** Converting an integer element to [double] and back keeps it. *)
Lemma narrow_widen t v :
  t ≠ E32 → 0 ≤ v < 2 ^ bits (esize t) → narrow t (widen t v) = Some v ∧ 0 ≤ widen t v < 2 ^ 64.
Proof.
  intros Ht Hv. destruct t; [| |done|done]; cbn [narrow widen].
  - pose proof (wrapS_range 16 v). assert (Z.abs (wrapS 16 v) < 2 ^ 53) by lia.
    rewrite int_through_bits, to_int_of_int by lia. cbn. rewrite wrapU_wrapS by done.
    split; [done|by apply int_bits_range].
  - pose proof (wrapS_range 32 v). assert (Z.abs (wrapS 32 v) < 2 ^ 53) by lia.
    rewrite int_through_bits, to_int_of_int by lia. cbn. rewrite wrapU_wrapS by done.
    split; [done|by apply int_bits_range].
Qed.

Lemma to_vector_elements t (mem con : list byte) off st n i :
  t ≠ E32 → swaps (esize t) → 0 ≤ i → 0 ≤ off → esz t ≤ st →
  off + (i + Z.of_nat n) * st - (st - esz t) ≤ zlen con →
  (∀ k, i ≤ k < i + Z.of_nat n →
     zslice (k * 8) 8 mem = host_bytes 8 (widen t (be_val (zslice (off + k * st) (esz t) con)))) →
  to_vector t mem i n = Some (elements con (off + i * st) (esz t) (st - esz t) n).
Proof.
  intros Ht Hsw. revert i. induction n as [|n IH]; intros i Hi Ho Hst Hfit Hm; [done|].
  cbn [to_vector elements]. pose proof (esz_range t).
  set (el := zslice (off + i * st) (esz t) con) in *.
  assert (Hel : length el = sizeof (esize t)).
  { assert (E : zlen el = esz t) by (apply zlen_zslice; nia). unfold zlen, esz in E. lia. }
  destruct (narrow_widen t (be_val el)) as [Hnw Hr]; [done| |].
  { pose proof (be_val_range el) as R. rewrite Hel in R.
    replace (2 ^ bits (esize t)) with (256 ^ Z.of_nat (sizeof (esize t))) by (by destruct t). lia. }
  rewrite Hm by lia. fold el. rewrite host_val_bytes by (change (256 ^ Z.of_nat 8) with (2 ^ 64); lia).
  rewrite Hnw. cbn [mbind option_bind]. rewrite IH; [|lia|lia|lia|nia|intros; apply Hm; lia].
  rewrite hton_bytes; [|done|].
  - replace (off + (i + 1) * st) with (off + i * st + esz t + (st - esz t)) by lia.
    by rewrite <-Hel, be_bytes_be_val.
  - pose proof (be_val_range el) as R. rewrite Hel in R.
    replace (2 ^ bits (esize t)) with (256 ^ Z.of_nat (sizeof (esize t))) by (by destruct t). lia.
Qed.

(** A waveform that was read can be sent back: writing the record an integer array was
    read into queues exactly the bytes of the block's elements, in order. *)
Theorem wf_write_reproduces t s priv p blk tm r privw q k :
  attached s priv p blk → wf_ok t s priv blk → connected (psc_base p) = true →
  record_time priv blk (tse (com s)) (time (com s)) = Ret tm → t ≠ E32 →
  rec r = rec (read_wf_real t s).2 → dpvt r = Some privw → block privw = Some (SendBlk k) →
  pscmap r !! psc privw = Some q → connected (psc_base q) = true →
  write_wf t r =
    CATCH (on_psc privw (queueSend_buf k
             (elements (contents (data blk)) (offset priv) (esz t) (stride t priv - esz t)
                (Z.to_nat (wf_count t priv blk (rec s))))) ;;;
           ret (Status 0)) r.
Proof.
  intros Ha Hok Hc Ht Hne Hrec Hd Hk Hq Hcq.
  destruct (read_wf_real_run t s priv p blk tm Ha Hok Hc Ht) as (mem' & E & Hexp & Hle).
  destruct (expanded_values t s priv p blk mem' Ha Hok Hle Hexp) as [Hl Hval].
  destruct (wf_count_fits t s priv blk p Ha Hok) as [Hn Hfit].
  set (n := wf_count t priv blk (rec s)) in *.
  assert (Hst : esz t ≤ stride t priv).
  { unfold stride. pose proof (esz_range t). case_if; bool_to_prop; lia. }
  pose proof (att_offset _ _ _ _ Ha) as [Ho _].
  rewrite E in Hrec. unfold write_wf. rewrite (with_priv_some _ r privw) by done.
  unfold CATCH, catch. mstep. rewrite Hrec. cbn [rec nord bptr set_rec set_com set_nord set_bptr snd wf_after].
  assert (Hv : to_vector t mem' 0 (Z.to_nat n) = Some (elements (contents (data blk)) (offset priv)
                 (esz t) (stride t priv - esz t) (Z.to_nat n))).
  { destruct (Z.eq_dec n 0) as [E0|]; [by rewrite E0|].
    rewrite (to_vector_elements t mem' (contents (data blk)) (offset priv) (stride t priv));
      [do 2 f_equal; lia|done|apply Hok|lia|done|done|rewrite Z2Nat.id; lia|].
    intros j Hj. apply Hval. lia. }
  rewrite Hv. unfold if_connected. erewrite bind_ret by (by apply isConnected_spec). cbv beta.
  rewrite Hcq. cbn [negb]. unfold queue_block. by rewrite Hk.
Qed.

(** The byte waveform support sets NORD from the truth value [copyout] returns: a block
    with at least NELM bytes fills the array but leaves NORD at 1, and a shorter block is
    not read at all and leaves NORD at 0. *)
Theorem wf_bytes_length s priv p blk tm :
  attached s priv p blk → dpvt s = Some priv → connected (psc_base p) = true →
  record_time priv blk (tse (com s)) (time (com s)) = Ret tm →
  0 < nelm (rec s) < 2 ^ 63 → zlen (bptr (rec s)) = nelm (rec s) →
  read_wf_bytes s =
    (Ret (Status 0),
     if offset priv + nelm (rec s) <=? dbuffer_size (data blk)
     then wf_after 1 (zslice (offset priv) (nelm (rec s)) (contents (data blk))) tm s
     else wf_after 0 (bptr (rec s)) tm s).
Proof.
  intros Ha Hd Hc Ht Hn Hbp. pose proof (the_block_spec _ _ _ _ Ha) as Hb.
  pose proof Ha as [Ep _ Hw Hsz [Ho _]].
  unfold read_wf_bytes. rewrite (with_priv_some _ s priv) by done. apply CATCH_ret. unfold if_connected.
  erewrite bind_ret by (by apply isConnected_spec). cbv beta. rewrite Hc. cbn [negb]. mstep.
  erewrite bind_ret by exact Hb. cbv beta.
  destruct (Z.leb_spec (offset priv + nelm (rec s)) (dbuffer_size (data blk))).
  - rewrite copyout_flat by (try done; lia). mstep. cbn [fst snd].
    assert (Hz : zlen (zslice (offset priv) (nelm (rec s)) (contents (data blk))) = nelm (rec s)).
    { rewrite dbuffer_size_contents in *. apply zlen_zslice; lia. }
    erewrite bind_ret by (apply store_fits; lia). cbv beta. rewrite zblit_all by congruence. mstep.
    by rewrite (stamp_end priv p blk _ (Status 0) tm) by (done || by do 2 apply attached_rec).
  - rewrite copyout_short by (try done; lia). mstep. cbn [fst snd].
    erewrite bind_ret by (apply store_fits; unfold zlen at 1; cbn [length]; lia). cbv beta. rewrite zblit_nil. mstep.
    by rewrite (stamp_end priv p blk _ (Status 0) tm) by (done || by do 2 apply attached_rec).
Qed.

End wf_props.

(** ** Witnesses *)

(** A record of three elements, reading every other 16 bit word from offset 2. *)
Definition sample_wf : devst wfrec Priv sample_drv :=
  let body := z2b <$> [9; 9; 0; 1; 9; 9; 255; 254; 9; 9; 0; 3; 9] in
  DevSt sample_com (WfRec menuFtypeDOUBLE 3 0 (replicate 24 Byte.x00))
    (Some (MkPriv "dev" 10 (Some (RecvBlk 10)) 2 4 false 0)) {["dev"%string := sample_dev body]}.

Definition sample_wf_body : list byte := z2b <$> [9; 9; 0; 1; 9; 9; 255; 254; 9; 9; 0; 3; 9].
Definition sample_wf_priv : Priv := MkPriv "dev" 10 (Some (RecvBlk 10)) 2 4 false 0.

Lemma sample_wf_attached :
  @attached _ _ _ _ _ sample_driver sample_wf sample_wf_priv (sample_dev sample_wf_body)
    (sample_block (RecvBlk 10) sample_wf_body).
Proof.
  pose proof (sample_attached (RecvBlk 10) 2 sample_wf_body ()) as [? ? ? ? ?];
    [by left|lia|done|]. by split.
Qed.

Lemma sample_wf_ok :
  let Hh := pc_host in wf_ok I16 sample_wf sample_wf_priv (sample_block (RecvBlk 10) sample_wf_body).
Proof. split; try done. by left. Qed.

Lemma wf_read_values_witness :
  let D := sample_driver in
  let L := sample_driver_laws in
  let Hh := pc_host in
  let Er := base_record in
  ∃ mem', read_wf_real I16 sample_wf = (Ret (Status 0), wf_after 3 mem' (EpicsTime 0 0) sample_wf) ∧
    zslice 8 8 mem' = host_bytes 8 (to_bits binary64 (of_int binary64 (-2))).
Proof.
  intros D L Hh Er.
  destruct (wf_read_values I16 sample_wf sample_wf_priv (sample_dev sample_wf_body)
    (sample_block (RecvBlk 10) sample_wf_body) (EpicsTime 0 0)) as (mem' & E & _ & _ & _ & Hv).
  - apply sample_wf_attached.
  - apply sample_wf_ok.
  - reflexivity.
  - reflexivity.
  - exists mem'. split; [exact E|].
    etrans; [apply (Hv 1); vm_compute; by split|]. vm_compute. reflexivity.
Defined.

Lemma wf_write_reproduces_witness :
  let D := sample_driver in
  let L := sample_driver_laws in
  let Hh := pc_host in
  let Er := base_record in
  let w := MkPriv "dev" 11 (Some (SendBlk 11)) 0 0 false 0 in
  let r := DevSt sample_com (rec (read_wf_real I16 sample_wf).2) (Some w) (pscmap sample_wf) in
  write_wf I16 r =
    CATCH (on_psc w (queueSend_buf 11 (z2b <$> [0; 1; 255; 254; 0; 3])) ;;; ret (Status 0)) r.
Proof.
  intros D L Hh Er w r.
  etrans; [apply (wf_write_reproduces I16 sample_wf sample_wf_priv (sample_dev sample_wf_body)
    (sample_block (RecvBlk 10) sample_wf_body) (EpicsTime 0 0) r w (sample_dev sample_wf_body) 11)|].
  - apply sample_wf_attached.
  - apply sample_wf_ok.
  - reflexivity.
  - reflexivity.
  - done.
  - reflexivity.
  - reflexivity.
  - reflexivity.
  - reflexivity.
  - reflexivity.
  - match goal with |- context [queueSend_buf 11 ?l] =>
      replace l with (z2b <$> [0; 1; 255; 254; 0; 3]) by (vm_compute; reflexivity) end.
    reflexivity.
Defined.

Lemma wf_bytes_length_witness :
  let D := sample_driver in
  let L := sample_driver_laws in
  let Hh := pc_host in
  let Er := base_record in
  let s := DevSt sample_com (WfRec menuFtypeCHAR 4 0 (replicate 4 Byte.x00)) (Some sample_wf_priv)
             (pscmap sample_wf) in
  read_wf_bytes s =
    (Ret (Status 0), wf_after 1 (z2b <$> [0; 1; 9; 9]) (EpicsTime 0 0) s).
Proof.
  intros D L Hh Er s.
  etrans; [apply (wf_bytes_length s sample_wf_priv (sample_dev sample_wf_body)
    (sample_block (RecvBlk 10) sample_wf_body) (EpicsTime 0 0))|].
  - pose proof sample_wf_attached as [? ? ? ? ?]. by split.
  - reflexivity.
  - reflexivity.
  - reflexivity.
  - vm_compute. by split.
  - reflexivity.
  - vm_compute. reflexivity.
Defined.
