(* ===== verification/DevString.v ===== *)
(** * String device support

    coreApp/src/devPSCString.cpp ("PSC Block In" and "PSC Block Out" of stringin and
    stringout records): a block body as text.  [Guard(priv->psc->lock)] in this file makes a
    temporary that unlocks at once, so, unlike elsewhere, the calls are atomic only as far as
    the caller's record lock makes them so. *)

From S2P Require Import Prelude EvBuffer Dbuffer Block PscBase Ieee DevCommon DevSample DevReg DevWf.

(** [MAX_STRING_SIZE] of EPICS base; the VAL field is that many bytes. *)
Definition MAX_STRING_SIZE : Z := 40.

Record strrec := StrRec { sval : list byte }.

(** [strnlen(s, n)]; the bytes of a C string up to its terminator. *)
Fixpoint cstr (l : list byte) : list byte :=
  match l with
  | b :: r => if bool_decide (b = Byte.x00) then [] else b :: cstr r
  | [] => []
  end.

Definition strnlen (l : list byte) (n : Z) : Z := zlen (cstr (ztake n l)).

Section string.
Context {B P : Type} `{EvBuffer B} `{!PSCVirtual B P} `{Host} `{EpicsRecord}.

(** [init_si_record], [init_so_record] *)
Definition init_si_record (inst_io : bool) link info : M (devst strrec Priv P) dev_status :=
  init_record inst_io (λ r, r) link info 0.
Definition init_so_record (inst_io : bool) link info : M (devst strrec Priv P) dev_status :=
  init_record inst_io (λ r, r) link info 1.

(** A store into VAL. *)
Definition put_val (off : Z) (bs : list byte) : M (devst strrec Priv P) unit :=
  s <- get ;;
  if zlen (sval (rec s)) <? off + zlen bs then abort OutOfBounds
  else modify (λ s, set_rec (StrRec (zblit off bs (sval (rec s)))) s).

(** [read_si] *)
Definition read_si : M (devst strrec Priv P) dev_status :=
  with_priv (λ priv, CATCH (
    conn <- isConnected priv ;;
    if negb conn then setSevr READ_ALARM INVALID_ALARM ;;; ret (Status 0)
    else
      b <- the_block priv ;;
      let len := dbuffer_size (data b) in
      let len := if len >=? MAX_STRING_SIZE then MAX_STRING_SIZE - 1 else len in
      (if offset priv >? len then put_val 0 [Byte.x00]
       else
         let len := len - offset priv in
         r <- lift (dbuffer_copyout_shape (data b) (offset priv) len 0 1) ;;
         put_val 0 (r : Z * list byte).2 ;;;
         put_val len [Byte.x00]) ;;;
      setRecTimestamp priv ;;;
      ret (Status 0))).

(** [write_so] *)
Definition write_so : M (devst strrec Priv P) dev_status :=
  with_priv (λ priv, CATCH (
    conn <- isConnected priv ;;
    if negb conn then setSevr WRITE_ALARM INVALID_ALARM ;;; ret (Status 0)
    else
      s <- get ;;
      let len := strnlen (sval (rec s)) MAX_STRING_SIZE in
      queue_block priv (ztake len (sval (rec s))) ;;;
      b <- the_block priv ;;
      put_data priv (dbuffer_assign (ztake len (sval (rec s))) (data b)) ;;;
      ret (Status 0))).

End string.

(** ** Properties *)

Section string_props.
Context {B P : Type} `{EvBufferLaws B} `{!PSCVirtual B P} `{!PSCVirtualLaws B P}.
Context `{Host} `{EpicsRecord}.
Implicit Types (s : devst strrec Priv P) (priv : Priv).

Lemma put_val_fits off bs s :
  off + zlen bs ≤ zlen (sval (rec s)) →
  put_val off bs s = (Ret tt, set_rec (StrRec (zblit off bs (sval (rec s)))) s).
Proof. intros Hf. unfold put_val. mstep. case_if; bool_to_prop; [lia|done]. Qed.

(** The text of a block that a record at [off] can hold. *)
Definition si_text (off : Z) (body : list byte) : list byte :=
  let len := Z.min (zlen body) (MAX_STRING_SIZE - 1) in
  if off <=? len then zslice off (len - off) body else [].

Lemma zlen_si_text off body : 0 ≤ off → zlen (si_text off body) = Z.max 0 (Z.min (zlen body) 39 - off).
Proof.
  intros Ho. unfold si_text, MAX_STRING_SIZE. change (40 - 1) with 39.
  case_if; bool_to_prop; [|rewrite zlen_nil; lia]. rewrite zlen_zslice; lia.
Qed.

(** Copying the text out of the block, where it starts inside. *)
Lemma si_copy (d : dbuffer B) off :
  dbuffer_wf d → dbuffer_size d < 2 ^ 63 → 0 ≤ off ≤ Z.min (dbuffer_size d) 39 →
  dbuffer_copyout_shape d off (Z.min (dbuffer_size d) 39 - off) 0 1 =
    if (off =? 39) && (40 <=? dbuffer_size d) then Crash DivByZero
    else Ret (if off =? Z.min (dbuffer_size d) 39 then 0 else 1, si_text off (contents d)).
Proof.
  intros Hw Hs Ho. rewrite dbuffer_size_contents in *.
  assert (Hz := zlen_si_text off (contents d) (proj1 Ho)).
  destruct (Z.eqb_spec off (Z.min (zlen (contents d)) 39)) as [E|Hne].
  - replace (Z.min (zlen (contents d)) 39 - off) with 0 by lia.
    assert (Hnil : si_text off (contents d) = []) by (apply zlen_0_nil; rewrite Hz; lia). rewrite Hnil.
    unfold dbuffer_copyout_shape. rewrite dbuffer_size_contents. change (1 =? 0) with false. cbn [orb].
    destruct (Z.eqb_spec off 39), (Z.leb_spec 40 (zlen (contents d))), (off >=? zlen (contents d)) eqn:Eg;
      cbn [andb]; bool_to_prop; done || lia.
  - assert ((off =? 39) = false) as -> by (apply Z.eqb_neq; lia). cbn [andb].
    rewrite copyout_one by (rewrite ?dbuffer_size_contents; done || lia).
    rewrite dbuffer_size_contents. case_if; bool_to_prop; [|lia].
    unfold si_text, MAX_STRING_SIZE. change (40 - 1) with 39.
    destruct (Z.leb_spec off (Z.min (zlen (contents d)) 39)); [done|lia].
Qed.

(** VAL with a text and its terminator stored. *)
Lemma text_stored n (text v : list byte) :
  zlen v = n → zlen text < n →
  let v' := zblit (zlen text) [Byte.x00] (zblit 0 text v) in
  zlen v' = n ∧ ztake (zlen text + 1) v' = text ++ [Byte.x00].
Proof.
  intros Hv Ht v'. subst v'. assert (E1 : zlen [Byte.x00] = 1) by done. pose proof (zlen_nonneg text).
  assert (Hb : zblit (zlen text) [Byte.x00] (zblit 0 text v) = zblit 0 (text ++ [Byte.x00]) v).
  { rewrite <-zblit_zblit by lia. done. }
  assert (E2 : zlen (text ++ [Byte.x00]) = zlen text + 1) by (rewrite zlen_app; lia).
  rewrite Hb, zlen_zblit by lia. split; [done|].
  unfold zblit. rewrite (ztake_neg 0) by lia. cbn [app]. rewrite <-E2. apply ztake_app_exact.
Qed.

(** A stringin record of a connected device: VAL becomes the text of the block from the
    record's offset, cut to what fits and terminated inside VAL's 40 bytes; with one
    exception: a record at offset 39 of a block of at least 40 bytes divides by zero. *)
Theorem read_si_text s priv p blk tm :
  attached s priv p blk → dpvt s = Some priv → connected (psc_base p) = true →
  record_time priv blk (tse (com s)) (time (com s)) = Ret tm →
  zlen (sval (rec s)) = MAX_STRING_SIZE →
  if (offset priv =? 39) && (40 <=? dbuffer_size (data blk))
  then read_si s = (Crash DivByZero, s)
  else
    let text := si_text (offset priv) (contents (data blk)) in
    ∃ v, read_si s = (Ret (Status 0), set_com (set_time tm (com s)) (set_rec (StrRec v) s)) ∧
      zlen v = MAX_STRING_SIZE ∧ zlen text ≤ 39 ∧
      ztake (zlen text + 1) v = text ++ [Byte.x00].
Proof.
  intros Ha Hd Hc Ht Hv. pose proof (the_block_spec _ _ _ _ Ha) as Hb.
  pose proof Ha as [Ep _ Hw Hsz [Ho _]].
  unfold MAX_STRING_SIZE in Hv |- *. pose proof (zlen_si_text (offset priv) (contents (data blk)) Ho) as Hz.
  assert (Hz39 : zlen (si_text (offset priv) (contents (data blk))) ≤ 39).
  { pose proof (zlen_nonneg (contents (data blk))). lia. }
  destruct (text_stored _ _ _ Hv (proj2 (Z.lt_succ_r _ _) Hz39)) as [H40 Htext].
  assert (Hlen : (if dbuffer_size (data blk) >=? 40 then 40 - 1 else dbuffer_size (data blk))
                 = Z.min (dbuffer_size (data blk)) 39) by (case_if; bool_to_prop; lia).
  unfold read_si. rewrite (with_priv_some _ s priv) by done. unfold CATCH, catch.
  erewrite bind_ret by (by apply isConnected_spec). cbv beta. rewrite Hc. cbn [negb].
  erewrite bind_ret by exact Hb. cbv beta. cbn zeta. unfold MAX_STRING_SIZE. rewrite Hlen.
  set (text := si_text (offset priv) (contents (data blk))) in *.
  destruct (Z.gtb_spec (offset priv) (Z.min (dbuffer_size (data blk)) 39)) as [Hgt|Hle].
  - assert ((offset priv =? 39) && (40 <=? dbuffer_size (data blk)) = false) as ->.
    { apply andb_false_iff. destruct (Z.eqb_spec (offset priv) 39), (Z.leb_spec 40 (dbuffer_size (data blk))); auto. lia. }
    assert (Hnil : text = []) by (apply zlen_0_nil; rewrite dbuffer_size_contents in *; rewrite Hz; lia).
    rewrite Hnil, zblit_nil in *. eexists. split_and!; [|exact H40|done|exact Htext].
    erewrite bind_ret by (apply put_val_fits; unfold zlen at 1; cbn [length]; lia). cbv beta.
    by rewrite (stamp_end priv p blk _ (Status 0) tm) by (done || by apply attached_rec).
  - rewrite si_copy by (done || lia). fold text. destruct ((offset priv =? 39) && _); [done|].
    eexists. split_and!; [|exact H40|exact Hz39|exact Htext].
    assert (Hzt : Z.min (dbuffer_size (data blk)) 39 - offset priv = zlen text).
    { rewrite dbuffer_size_contents in *. rewrite Hz. lia. }
    rewrite Hzt. pose proof (zlen_nonneg text).
    erewrite (bind_ret (bind (lift _) _)).
    2:{ unfold lift. mstep. cbn [snd]. erewrite bind_ret by (apply put_val_fits; lia). cbv beta.
        apply put_val_fits. cbn [rec sval set_rec]. rewrite zlen_zblit by lia. unfold zlen at 2. cbn [length]. lia. }
    by rewrite (stamp_end priv p blk _ (Status 0) tm) by (done || by do 2 apply attached_rec).
Qed.

Lemma cstr_prefix l : ztake (zlen (cstr l)) l = cstr l.
Proof.
  induction l as [|b l IH]; [done|]. cbn [cstr]. case_bool_decide; [done|].
  rewrite zlen_cons. unfold ztake in *. pose proof (zlen_nonneg (cstr l)).
  replace (Z.to_nat (1 + zlen (cstr l))) with (S (Z.to_nat (zlen (cstr l)))) by lia.
  cbn [take]. by rewrite IH.
Qed.

Lemma zlen_cstr l : zlen (cstr l) ≤ zlen l.
Proof. rewrite <-cstr_prefix at 1. rewrite zlen_ztake. lia. Qed.

Lemma strnlen_text l n : 0 ≤ n → ztake (strnlen l n) l = cstr (ztake n l).
Proof.
  intros Hn. unfold strnlen. rewrite <-(cstr_prefix (ztake n l)) at 2. rewrite ztake_ztake. f_equal.
  pose proof (zlen_cstr (ztake n l)). rewrite zlen_ztake in *. lia.
Qed.

(** A stringout record of a connected device queues its text, without terminator, and
    keeps it as the block's body; when the queue throws, the body stays. *)
Lemma write_so_text s priv p blk :
  attached s priv p blk → dpvt s = Some priv → connected (psc_base p) = true →
  let text := cstr (ztake MAX_STRING_SIZE (sval (rec s))) in
  match (queue_block priv text s : outcome unit * _) with
  | (Ret _, s') =>
      ∀ p' blk', attached s' priv p' blk' →
      ∃ d, contents d = text ∧
        write_so s = (Ret (Status 0), put_psc priv (put_block priv (set_data d blk') p') s')
  | (Throw _, s') => (write_so s).1 = Ret S_dev_badRequest ∧ pscmap (write_so s).2 = pscmap s'
  | (Crash c, s') => write_so s = (Crash c, s')
  end.
Proof.
  intros Ha Hd Hc text. unfold write_so. rewrite (with_priv_some _ s priv) by done.
  unfold CATCH, catch. erewrite bind_ret by (eapply isConnected_spec, Ha). cbv beta. rewrite Hc. cbn [negb].
  mstep. rewrite strnlen_text by done. fold text.
  destruct (queue_block priv text s) as [[[]|e|c] s'] eqn:Eq;
    [|by rewrite (bind_throw _ _ _ _ _ Eq); destruct e|by rewrite (bind_crash _ _ _ _ _ Eq)].
  rewrite (bind_ret _ _ _ _ _ Eq).
  intros p' blk' Ha'. exists (dbuffer_assign text (data blk')). split; [apply contents_assign|].
  rewrite (bind_ret _ _ _ _ _ (the_block_spec _ _ _ _ Ha')).
  by rewrite (bind_ret _ _ _ _ _ (put_data_spec _ _ _ _ _ Ha')).
Qed.
End string_props.

(** ** Witnesses *)

Definition sample_si (off : Z) (body : list byte) : devst strrec Priv sample_drv :=
  sample_rec (RecvBlk 10) off body (StrRec (replicate 40 Byte.xff)).

Lemma read_si_text_witness :
  let D := sample_driver in
  let L := sample_driver_laws in
  let Hh := pc_host in
  let Er := base_record in
  read_si (sample_si 39 (replicate 64 Byte.x41)) = (Crash DivByZero, sample_si 39 (replicate 64 Byte.x41)) ∧
  ∃ v, read_si (sample_si 1 [Byte.x41; Byte.x42; Byte.x43]) =
      (Ret (Status 0), set_com (set_time (EpicsTime 0 0) sample_com)
                         (set_rec (StrRec v) (sample_si 1 [Byte.x41; Byte.x42; Byte.x43]))) ∧
    zlen v = MAX_STRING_SIZE ∧ zlen [Byte.x42; Byte.x43] ≤ 39 ∧
    ztake 3 v = [Byte.x42; Byte.x43] ++ [Byte.x00].
Proof.
  intros D L Hh Er. split.
  - apply (read_si_text (sample_si 39 (replicate 64 Byte.x41)) (sample_priv (RecvBlk 10) 39)
      (sample_dev (replicate 64 Byte.x41)) (sample_block (RecvBlk 10) (replicate 64 Byte.x41)) (EpicsTime 0 0)).
    + apply sample_attached; [by left|lia|done].
    + reflexivity.
    + reflexivity.
    + reflexivity.
    + reflexivity.
  - apply (read_si_text (sample_si 1 [Byte.x41; Byte.x42; Byte.x43]) (sample_priv (RecvBlk 10) 1)
      (sample_dev [Byte.x41; Byte.x42; Byte.x43])
      (sample_block (RecvBlk 10) [Byte.x41; Byte.x42; Byte.x43]) (EpicsTime 0 0)).
    + apply sample_attached; [by left|lia|done].
    + reflexivity.
    + reflexivity.
    + reflexivity.
    + reflexivity.
Defined.
