(* ===== verification/DevCtrl.v ===== *)
(** * Control device support

    coreApp/src/devPSCCtrl.cpp ("PSC Ctrl ..."): records that show the state of a driver
    and command it.  Their private data is the driver, or, for the message counter of a
    block, the block. *)

From S2P Require Import Prelude EvBuffer Dbuffer Block Wire PscBase PscTcp PscTcpConn PscTcpTx.
From S2P Require Import PscTcpRx Ieee DevCommon DevSample DevReg DevString.

(** A string as the bytes of its characters. *)
Definition string_bytes (s : string) : list byte := String.list_byte_of_string s.

Section ctrl.
Context {B P : Type} `{EvBuffer B} `{!PSCVirtual B P} `{Host} `{EpicsRecord}.

(** [dpvt] is a driver: access to it by name. *)
Definition as_priv (name : string) : Priv := MkPriv name 0 None 0 0 false 0.

(** [init_common]: a name that is not known leaves the record without private data. *)
Definition init_common {R} (link : string) : M (devst R string P) dev_status :=
  s <- get ;;
  modify (set_dpvt (match pscmap s !! link with Some _ => Some link | None => None end)) ;;;
  ret (Status 0).

Definition init_input {R} (inst_io : bool) (link : string) : M (devst R string P) dev_status :=
  assert_ inst_io ;;; init_common link.
Definition init_output {R} (inst_io : bool) (link : string) : M (devst R string P) dev_status :=
  assert_ inst_io ;;; init_common link.

(** The extractions of [init_count]. *)
Definition parse_count (link : string) : option (string * Z * string) :=
  match
    (name <- IStream.get_string ;;
     blk <- IStream.get_ulong ;;
     dir <- IStream.get_string ;;
     ret (name, blk, dir)) (IStream.istringstream link)
  with
  | (Ret r, st) => if IStream.fail st then None else Some r
  | _ => None
  end.

(** [init_count]: the private data is the block. *)
Definition init_count (inst_io : bool) (link : string) : M (devst valrec Priv P) dev_status :=
  assert_ inst_io ;;;
  CATCH (
    match parse_count link with
    | None => throw (RuntimeError "Failed to parse INP")
    | Some (name, blk, dir) =>
        s <- get ;;
        match pscmap s !! name with
        | None => throw (RuntimeError "Can't find PSC")
        | Some _ =>
            b <- (if bool_decide (dir = "rx"%string) then
                    k <- on_psc (as_priv name) (on_base (getRecv (u16 blk))) ;; ret (RecvBlk k)
                  else if bool_decide (dir = "tx"%string) then
                    k <- on_psc (as_priv name) (on_base (getSend (u16 blk))) ;; ret (SendBlk k)
                  else throw (RuntimeError "Invalid direction")) ;;
            modify (set_dpvt (Some (MkPriv name (u16 blk) (Some b) 0 0 false 0))) ;;;
            ret (Status 0)
        end
    end).

(** The scan lists: status changes ([get_iointr_info]) and connections
    ([get_iointr_info_onConn]). *)
Inductive psc_scan := ScanStatus | ScanOnConnect.

Definition get_iointr_info {R} (which : psc_scan)
    : M (devst R string P) (dev_status * option psc_scan) :=
  s <- get ;;
  match dpvt s with
  | None => ret (Status (-1), None)
  | Some _ => ret (Status 0, Some which)
  end.

(** [read_bi_connected] *)
Definition read_bi_connected : M (devst binrec string P) dev_status :=
  with_priv (λ name, CATCH (
    c <- on_psc (as_priv name) (gets (λ p, connected (psc_base p))) ;;
    modify (λ s, set_rec (set_rval (if (c : bool) then 1 else 0) (rec s)) s) ;;;
    ret (Status 0))).

(** [strncpy(dst, src, n)]: the [n] bytes it stores. *)
Definition strncpy (src : list byte) (n : Z) : list byte :=
  let text := cstr (ztake n src) in text ++ replicate (Z.to_nat (n - zlen text)) Byte.x00.

Definition store_val (off : Z) (bs : list byte) : M (devst strrec string P) unit :=
  s <- get ;;
  if zlen (sval (rec s)) <? off + zlen bs then abort OutOfBounds
  else modify (λ s, set_rec (StrRec (zblit off bs (sval (rec s)))) s).

(** [read_si_message] *)
Definition read_si_message : M (devst strrec string P) dev_status :=
  with_priv (λ name, CATCH (
    msg <- on_psc (as_priv name) (gets (λ p, string_bytes (message (psc_base p)))) ;;
    let len := Z.max (zlen msg) MAX_STRING_SIZE in
    store_val 0 (strncpy msg len) ;;;
    store_val (MAX_STRING_SIZE - 1) [Byte.x00] ;;;
    ret (Status 0))).

(** [read_unknown_count], [read_connection_count]: an unsigned counter in a signed field. *)
Definition read_counter (f : PSCBase B → Z) : M (devst valrec string P) dev_status :=
  with_priv (λ name, CATCH (
    c <- on_psc (as_priv name) (gets (λ p, f (psc_base p))) ;;
    modify (set_rec (ValRec (s32 c))) ;;;
    ret (Status 0))).
Definition read_unknown_count : M (devst valrec string P) dev_status := read_counter ukncount.
Definition read_connection_count : M (devst valrec string P) dev_status := read_counter conncount.

(** [read_block_count] *)
Definition read_block_count : M (devst valrec Priv P) dev_status :=
  with_priv (λ priv, CATCH (
    b <- the_block priv ;;
    modify (set_rec (ValRec (s32 (count b)))) ;;;
    ret (Status 0))).

(** [write_force_reconnect] *)
Definition write_force_reconnect : M (devst binrec string P) dev_status :=
  with_priv (λ name, CATCH (on_psc (as_priv name) psc_forceReConnect ;;; ret (Status 0))).

(** [write_bo_send_changed] *)
Definition write_bo_send_changed : M (devst binrec string P) dev_status :=
  with_priv (λ name, CATCH (
    c <- on_psc (as_priv name) (gets (λ p, connected (psc_base p))) ;;
    (if negb c then setSevr WRITE_ALARM INVALID_ALARM
     else on_psc (as_priv name) psc_flushSend) ;;;
    ret (Status 0))).

(** [write_lo_send_block] *)
Definition write_lo_send_block : M (devst valrec string P) dev_status :=
  with_priv (λ name, CATCH (
    s <- get ;;
    (if (val (rec s) <? 0) || (val (rec s) >? 0xffff) then setSevr WRITE_ALARM INVALID_ALARM
     else on_psc (as_priv name) (PSCBase_send (val (rec s)))) ;;;
    ret (Status 0))).

End ctrl.

(** ** Properties *)

Section ctrl_props.
Context {B P : Type} `{EvBufferLaws B} `{!PSCVirtual B P} `{!PSCVirtualLaws B P}.
Context `{Host} `{EpicsRecord}.

Lemma cstr_no_nul l : Byte.x00 ∉ l → cstr l = l.
Proof.
  induction l as [|b l IH]; [done|]. intros [Hb Hl]%not_elem_of_cons. cbn [cstr].
  rewrite bool_decide_eq_false_2 by congruence. by rewrite IH.
Qed.

Lemma cstr_padded l n : Byte.x00 ∉ l → cstr ((l ++ replicate n Byte.x00) ++ [Byte.x00]) = l.
Proof.
  induction l as [|b l IH]; [by destruct n|]. intros [Hb Hl]%not_elem_of_cons. cbn [cstr app].
  rewrite bool_decide_eq_false_2 by congruence. by rewrite IH.
Qed.

Lemma zlen_strncpy src n : 0 ≤ n → zlen (strncpy src n) = n.
Proof.
  intros Hn. unfold strncpy. rewrite zlen_app, zlen_replicate.
  pose proof (zlen_cstr (ztake n src)). pose proof (zlen_nonneg (cstr (ztake n src))).
  rewrite zlen_ztake in *. lia.
Qed.

Lemma on_psc_gets {A R V} name (f : P → A) (s : devst R V P) p :
  pscmap s !! name = Some p → on_psc (as_priv name) (gets f) s = (Ret (f p), s).
Proof.
  intros Ep. unfold on_psc. cbn [DevCommon.psc as_priv]. rewrite Ep. cbn.
  rewrite insert_id by done. by destruct s.
Qed.

Lemma store_val_fits off bs (s : devst strrec string P) :
  off + zlen bs ≤ zlen (sval (rec s)) →
  store_val off bs s = (Ret tt, set_rec (StrRec (zblit off bs (sval (rec s)))) s).
Proof. intros Hf. unfold store_val. mstep. case_if; bool_to_prop; [lia|done]. Qed.

(** The message record shows the first 39 characters of the driver's message, when
    the message has at most 40 characters.  A longer one overruns VAL: the length is the
    larger, not the smaller, of the message's and the field's. *)
Theorem message_fits_or_overruns (s : devst strrec string P) name p :
  dpvt s = Some name → pscmap s !! name = Some p → zlen (sval (rec s)) = MAX_STRING_SIZE →
  let msg := string_bytes (message (psc_base p)) in
  Byte.x00 ∉ msg →
  if zlen msg <=? MAX_STRING_SIZE then
    ∃ v, read_si_message s = (Ret (Status 0), set_rec (StrRec v) s) ∧ zlen v = MAX_STRING_SIZE ∧
      cstr v = ztake 39 msg
  else read_si_message s = (Crash OutOfBounds, s).
Proof.
  intros Hd Ep Hv msg Hn. unfold MAX_STRING_SIZE in *. pose proof (zlen_nonneg msg).
  unfold read_si_message, with_priv. mstep. rewrite Hd. unfold CATCH, catch.
  erewrite bind_ret by (by apply on_psc_gets). cbv beta. fold msg. unfold MAX_STRING_SIZE.
  destruct (Z.leb_spec (zlen msg) 40).
  - replace (Z.max (zlen msg) 40) with 40 by lia.
    set (v0 := strncpy msg 40). assert (Hv0 : zlen v0 = 40) by (by apply zlen_strncpy).
    erewrite bind_ret by (apply store_val_fits; lia). cbv beta. rewrite zblit_all by lia.
    assert (E1 : zlen [Byte.x00] = 1) by done.
    exists (zblit 39 [Byte.x00] v0). split_and!; [|rewrite zlen_zblit; lia|].
    + by erewrite bind_ret by (apply store_val_fits; cbn [rec sval set_rec]; lia).
    + unfold zblit. rewrite zdrop_all, app_nil_r by (unfold zlen at 2; cbn [length]; lia).
      subst v0. unfold strncpy. rewrite (ztake_all 40 msg), (cstr_no_nul msg) by (done || lia).
      rewrite ztake_app. unfold ztake at 2. rewrite take_replicate. apply cstr_padded.
      intros Hin. apply Hn. unfold ztake in Hin. by apply elem_of_take in Hin as (i & ?%list_elem_of_lookup_2 & _).
  - replace (Z.max (zlen msg) 40) with (zlen msg) by lia.
    erewrite bind_crash; [done|]. unfold store_val. mstep. rewrite zlen_strncpy, Hv by lia.
    destruct (Z.ltb_spec 40 (0 + zlen msg)); [done|lia].
Qed.
End ctrl_props.

(** ** Sending a block of the TCP driver *)

Section ctrl_tcp.
Context {B : Type} `{EvBufferLaws B} `{EpicsEnv} `{PscConfig} `{RecordSupport B} `{EpicsRecord}.

(** A send record with a block id in range runs [PSCBase::send]. *)
Lemma send_block_runs (s : devst valrec string (PSC B)) name :
  dpvt s = Some name → 0 ≤ val (rec s) ≤ 0xffff →
  write_lo_send_block s =
    CATCH (on_psc (as_priv name) (PSCBase_send (val (rec s))) ;;; ret (Status 0)) s.
Proof.
  intros Hd Hr. unfold write_lo_send_block, with_priv. mstep. rewrite Hd. unfold CATCH, catch. mstep.
  assert ((val (rec s) <? 0) || (val (rec s) >? 65535) = false) as ->; [|done].
  apply orb_false_iff. rewrite Z.gtb_ltb, !Z.ltb_ge. lia.
Qed.

Lemma send_bad_id_run (s : devst valrec string (PSC B)) name :
  dpvt s = Some name → ¬ (0 ≤ val (rec s) ≤ 0xffff) →
  write_lo_send_block s =
    (Ret (Status 0), set_com (set_alarm (recGblSetSevr WRITE_ALARM INVALID_ALARM
                                          (nsta (com s), nsev (com s))) (com s)) s).
Proof.
  intros Hd Hr. unfold write_lo_send_block, with_priv. mstep. rewrite Hd. unfold CATCH, catch. mstep.
  assert ((val (rec s) <? 0) || (val (rec s) >? 65535) = true) as ->; [|done].
  apply orb_true_iff. rewrite Z.gtb_ltb, !Z.ltb_lt. lia.
Qed.

(** Nothing is sent for an id without a block. *)
Lemma send_unknown_run (s : devst valrec string (PSC B)) name p :
  dpvt s = Some name → pscmap s !! name = Some p → 0 ≤ val (rec s) ≤ 0xffff →
  send_blocks (base p) !! val (rec s) = None → write_lo_send_block s = (Ret (Status 0), s).
Proof.
  intros Hd Ep Hr Hb. rewrite (send_block_runs s name) by done. apply CATCH_ret.
  assert (E : PSCBase_send (val (rec s)) p = (Ret tt, p)).
  { unfold PSCBase_send. mstep. cbn. by rewrite Hb. }
  assert (Ep' : pscmap s !! DevCommon.psc (as_priv name) = Some p) by done.
  rewrite (bind_ret _ _ _ _ _ (on_psc_run _ _ _ _ _ _ Ep' E)). by rewrite put_psc_id.
Qed.

Definition comm_refused (s : devst valrec string (PSC B)) : devst valrec string (PSC B) :=
  set_com (set_alarm (recGblSetSevr COMM_ALARM INVALID_ALARM (nsta (com s), nsev (com s))) (com s)) s.

Lemma send_known_run (s : devst valrec string (PSC B)) name p q b :
  dpvt s = Some name → pscmap s !! name = Some p → connected (base p) = true → tx_inv p q →
  0 ≤ val (rec s) ≤ 0xffff → send_blocks (base p) !! val (rec s) = Some b →
  dbuffer_wf (Block.data b) → zlen (contents (Block.data b)) < 2 ^ 32 - 8 →
  (∃ sb, write_lo_send_block s =
      (Ret (Status 0), set_pscmap (<[name := enqueued p (val (rec s)) b sb]> (pscmap s)) s) ∧
     queued b = false ∧ over_limit (zlen (evbuffer_data (sendbuf p))) = false ∧
     evbuffer_data sb = evbuffer_data (sendbuf p) ++ encode_msg (val (rec s), contents (Block.data b))) ∨
  (write_lo_send_block s = (Ret S_dev_badRequest, comm_refused s) ∧
   (queued b = true ∨ over_limit (zlen (evbuffer_data (sendbuf p))) = true ∨
    evbuffer_expand (sendbuf p) (8 + zlen (contents (Block.data b))) = None)).
Proof.
  intros Hd Ep Hc Hinv Hr Hb Hwf Hlen. rewrite (send_block_runs s name) by done. set (id := val (rec s)) in *.
  assert (Hs : PSCBase_send id p = queueSend_block id (Block.data b) p).
  { unfold PSCBase_send. mstep. cbn. by rewrite Hb. }
  pose proof (queueSend_block_outcome p q id b (Block.data b) Hc Hinv Hb Hwf Hlen) as Ho.
  rewrite <-Hs in Ho. unfold CATCH, catch.
  destruct (PSCBase_send id p) as [[[]|e|c] p'] eqn:Es; cbn in Ho; [| |done].
  all: assert (Ep' : pscmap s !! DevCommon.psc (as_priv name) = Some p) by done.
  - destruct Ho as (Hq & Hov & sb & -> & Hsb). left. exists sb.
    by rewrite (bind_ret _ _ _ _ _ (on_psc_run _ _ _ _ _ _ Ep' Es)).
  - right. rewrite (bind_throw _ _ _ _ _ (on_psc_run _ _ _ _ _ _ Ep' Es)).
    destruct Ho as [-> He]. rewrite put_psc_id by done. unfold comm_refused.
    destruct (queued b); [subst e; by eauto|].
    destruct (over_limit _); [subst e; by eauto|]. destruct He as [He ->]. by eauto.
Qed.

(** A flush record on a connected driver. *)
Lemma flush_run (s : devst binrec string (PSC B)) name p bv :
  dpvt s = Some name → pscmap s !! name = Some p → connected (base p) = true →
  session p = Some bv → (∀ dst src : B, evbuffer_add_buffer dst src ≠ None) →
  if over_limit (zlen (evbuffer_data (output bv)))
  then ∃ s', write_bo_send_changed s = (Ret S_dev_badRequest, s') ∧ pscmap s' = pscmap s
  else ∃ tx sb, write_bo_send_changed s =
      (Ret (Status 0), set_pscmap (<[name := flushed p bv tx sb]> (pscmap s)) s) ∧
    evbuffer_data tx = evbuffer_data (output bv) ++ evbuffer_data (sendbuf p) ∧ evbuffer_data sb = [].
Proof.
  intros Hd Ep Hc Hs Hadd. pose proof (flushSend_spec p bv Hc Hs) as Hf.
  assert (Ep' : pscmap s !! DevCommon.psc (as_priv name) = Some p) by done.
  assert (E : write_bo_send_changed s = CATCH (on_psc (as_priv name) flushSend ;;; ret (Status 0)) s).
  { unfold write_bo_send_changed. rewrite (with_priv_some _ s name) by done. unfold CATCH, catch.
    rewrite (bind_ret _ _ _ _ _ (on_psc_gets name _ s p Ep)). cbn [psc_base psc_virtual]. by rewrite Hc. }
  rewrite E. unfold CATCH, catch. destruct (over_limit _).
  - rewrite (bind_throw _ _ _ _ _ (on_psc_run _ _ _ _ _ _ Ep' Hf)), put_psc_id by done. by eexists.
  - specialize (Hadd (output bv) (sendbuf p)).
    destruct (evbuffer_add_buffer (output bv) (sendbuf p)) as [[tx sb]|] eqn:Ha; [|done].
    apply evbuffer_add_buffer_data in Ha as [Htx Hsb]. exists tx, sb.
    by rewrite (bind_ret _ _ _ _ _ (on_psc_run _ _ _ _ _ _ Ep' Hf)).
Qed.

(** A "PSC Ctrl Send" record on a connected TCP driver: a VAL outside the 16 bit range
    only raises WRITE/INVALID; the id of a block to send appends that block, as it is
    stored, as one well formed message to the queue; or the record gets COMM/INVALID and
    nothing is queued, because the block is queued already, the send buffer is at its
    limit, or there is no memory. *)
Theorem send_record_queues_block (s : devst valrec string (PSC B)) name p q :
  dpvt s = Some name → pscmap s !! name = Some p → connected (base p) = true → tx_inv p q →
  let id := val (rec s) in
  (¬ (0 ≤ id ≤ 0xffff) →
     write_lo_send_block s =
       (Ret (Status 0), set_com (set_alarm (recGblSetSevr WRITE_ALARM INVALID_ALARM
                                             (nsta (com s), nsev (com s))) (com s)) s)) ∧
  (0 ≤ id ≤ 0xffff → ∀ b, send_blocks (base p) !! id = Some b →
     dbuffer_wf (Block.data b) → zlen (contents (Block.data b)) < 2 ^ 32 - 8 →
     (∃ p', write_lo_send_block s = (Ret (Status 0), set_pscmap (<[name := p']> (pscmap s)) s) ∧
        evbuffer_data (sendbuf p') =
          evbuffer_data (sendbuf p) ++ encode_msg (id, contents (Block.data b)) ∧
        tx_inv p' (q ++ [(id, contents (Block.data b))])) ∨
     (write_lo_send_block s =
        (Ret S_dev_badRequest, set_com (set_alarm (recGblSetSevr COMM_ALARM INVALID_ALARM
                                                    (nsta (com s), nsev (com s))) (com s)) s) ∧
      (queued b = true ∨ over_limit (zlen (evbuffer_data (sendbuf p))) = true ∨
       evbuffer_expand (sendbuf p) (8 + zlen (contents (Block.data b))) = None))).
Proof.
  intros Hd Ep Hc Hinv id. split; [by apply (send_bad_id_run s name)|].
  intros Hr b Hb Hwf Hlen.
  destruct (send_known_run s name p q b Hd Ep Hc Hinv Hr Hb Hwf Hlen) as [(sb & E & Hq & _ & Hsb)|Hx]; [left|by right].
  eexists. split; [exact E|]. split; [exact Hsb|]. apply enqueued_inv; done || lia.
Qed.
End ctrl_tcp.

(** ** Witnesses *)

(** A driver whose message is what a socket error leaves. *)
Definition sample_failed : sample_drv :=
  set_base (set_message "Socket Error: Transport endpoint is not connected" (base (sample_dev [])))
    (sample_dev []).

Definition sample_msg (p : sample_drv) : devst strrec string sample_drv :=
  DevSt sample_com (StrRec (replicate 40 Byte.x41)) (Some "dev"%string) {["dev"%string := p]}.

Lemma message_fits_or_overruns_witness :
  let D := sample_driver in
  let L := sample_driver_laws in
  let Hh := pc_host in
  let Er := base_record in
  read_si_message (sample_msg sample_failed) = (Crash OutOfBounds, sample_msg sample_failed) ∧
  ∃ v, read_si_message (sample_msg (sample_dev [])) =
         (Ret (Status 0), set_rec (StrRec v) (sample_msg (sample_dev []))) ∧
    zlen v = 40 ∧ cstr v = string_bytes "Initialize".
Proof.
  intros D L Hh Er.
  assert (Hf : (zlen (string_bytes (message (psc_base sample_failed))) <=? MAX_STRING_SIZE) = false)
    by (vm_compute; reflexivity).
  assert (Hi : (zlen (string_bytes (message (psc_base (sample_dev [])))) <=? MAX_STRING_SIZE) = true)
    by (vm_compute; reflexivity).
  pose proof (λ H, message_fits_or_overruns (sample_msg sample_failed) "dev" sample_failed
    eq_refl eq_refl eq_refl H) as T1.
  pose proof (λ H, message_fits_or_overruns (sample_msg (sample_dev [])) "dev" (sample_dev [])
    eq_refl eq_refl eq_refl H) as T2.
  cbv zeta in T1, T2. rewrite Hf in T1. rewrite Hi in T2. split.
  - apply T1. apply (bool_decide_unpack _). vm_compute. reflexivity.
  - apply T2. apply (bool_decide_unpack _). vm_compute. reflexivity.
Defined.

Lemma send_record_queues_block_witness :
  let E := quiet_env in
  let C := sample_config in
  let R := sample_records in
  let Er := base_record in
  let body := [Byte.x01; Byte.x02] in
  let b := set_data (dbuffer_assign body dbuffer_empty) (new_Block 10) in
  let p := set_base (set_send_blocks {[10 := b]} (base sample_tx)) sample_tx in
  let s := DevSt sample_com (ValRec 10) (Some "dev"%string) {["dev"%string := p]} in
  (∃ p', write_lo_send_block s = (Ret (Status 0), set_pscmap (<["dev"%string := p']> (pscmap s)) s) ∧
     evbuffer_data (sendbuf p') = [] ++ encode_msg (10, body) ∧ tx_inv p' ([] ++ [(10, body)])) ∨
  (write_lo_send_block s =
     (Ret S_dev_badRequest, set_com (set_alarm (recGblSetSevr COMM_ALARM INVALID_ALARM (0, 0)) sample_com) s) ∧
   (queued b = true ∨ over_limit (zlen (evbuffer_data (sendbuf p))) = true ∨
    evbuffer_expand (sendbuf p) (8 + zlen body) = None)).
Proof.
  intros E C R Er body b p s.
  destruct (send_record_queues_block s "dev" p []) as [_ Hsend].
  - reflexivity.
  - reflexivity.
  - reflexivity.
  - split; [reflexivity|constructor|constructor|by intros k ?%elem_of_nil|].
    intros k b'. cbn. intros [<- <-]%lookup_singleton_Some. cbn.
    split; [done|]. split; [lia|]. split; [done|]. by intros ?%elem_of_nil.
  - destruct (Hsend ltac:(cbn; lia) b eq_refl (dbuffer_wf_assign _ _) eq_refl) as [Hl|Hr].
    + left. exact Hl.
    + right. exact Hr.
Defined.
