(* ===== verification/DevTable.v ===== *)
(** * The tables of device support

    [MAKEDSET] of coreApp/src/psc/devcommon.h and its uses in coreApp/src/devPSC*.cpp: for
    each kind of record the functions EPICS base calls, to initialize a record, to find its
    I/O Intr scan list, and to process it.  What the functions do is in [DevReg], [DevSingle],
    [DevWf], [DevString] and [DevCtrl]; [DevSafe] proves of the tables that their records
    never end the program. *)

From S2P Require Import Prelude EvBuffer Dbuffer Block PscBase Ieee DevCommon DevSample DevReg.
From S2P Require DevSingle DevWf DevString DevCtrl.

(** [INP] or [OUT] of a record, and its info tags, [None] when the database does not know
    the record. *)
Notation link_init m := (bool → string → option (string → option string) → m).

(** [dset6<R>]: [com.init_record], [com.get_iointr_info] and [readwrite]; [R] are the fields
    of the record, [V] its private data and [L] what has scan lists. *)
Record dset (P R V L : Type) := MAKEDSET {
  init_record : link_init (M (devst R V P) dev_status);
  get_iointr_info : option (M (devst R V P) (dev_status * option L));
  readwrite : M (devst R V P) dev_status;
}.
Arguments MAKEDSET {P R V L}.
Arguments init_record {P R V L} _.
Arguments get_iointr_info {P R V L} _.
Arguments readwrite {P R V L} _.

Section tables.
Context {B P : Type} `{EvBuffer B} `{!PSCVirtual B P} `{Host} `{EpicsRecord}.

(** Initialization of records whose fields nothing adjusts, and of those with a shifted mask. *)
Definition plain {R} (r : R) : R := r.

(** ** Registers *)

Abbreviation reg R := (dset P R Priv block_ptr).

Definition reg_input {R} (extra : R → R) : link_init (M (devst R Priv P) dev_status) :=
  λ inst_io link info, DevReg.init_input inst_io extra link info.
Definition reg_rb {R} (extra : R → R) : link_init (M (devst R Priv P) dev_status) :=
  λ inst_io link info, DevReg.init_rb inst_io extra link info.
Definition reg_output {R} (extra : R → R) : link_init (M (devst R Priv P) dev_status) :=
  λ inst_io link info, DevReg.init_output inst_io extra link info.

(** Read data from the device. *)
Definition devPSCRegBi : reg binrec :=
  MAKEDSET (reg_input plain) (Some DevCommon.get_iointr_info) read_binary.
Definition devPSCRegMbbi : reg binrec :=
  MAKEDSET (reg_input extra_init_mask) (Some DevCommon.get_iointr_info) read_binary.
Definition devPSCRegMbbiDirect : reg binrec :=
  MAKEDSET (reg_input extra_init_mask) (Some DevCommon.get_iointr_info) read_binary.
Definition devPSCRegLi : reg valrec :=
  MAKEDSET (reg_input plain) (Some DevCommon.get_iointr_info) (read_to_val W4).
Definition devPSCRegI64i : reg valrec :=
  MAKEDSET (reg_input plain) (Some DevCommon.get_iointr_info) (read_to_val W8).
Definition devPSCRegAi : reg airec :=
  MAKEDSET (reg_input plain) (Some DevCommon.get_iointr_info) read_ai.
Definition devPSCRegF32Ai : reg airec :=
  MAKEDSET (reg_input plain) (Some DevCommon.get_iointr_info) (read_ai_float F32).
Definition devPSCRegF64Ai : reg airec :=
  MAKEDSET (reg_input plain) (Some DevCommon.get_iointr_info) (read_ai_float F64).

(** Echo back settings. *)
Definition devPSCRegRBBi : reg binrec :=
  MAKEDSET (reg_rb plain) None read_binary.
Definition devPSCRegRBMbbi : reg binrec :=
  MAKEDSET (reg_rb extra_init_mask) None read_binary.
Definition devPSCRegRBMbbiDirect : reg binrec :=
  MAKEDSET (reg_rb extra_init_mask) None read_binary.
Definition devPSCRegRBLi : reg valrec :=
  MAKEDSET (reg_rb plain) None (read_to_val W4).
Definition devPSCRegRBI64i : reg valrec :=
  MAKEDSET (reg_rb plain) None (read_to_val W8).
Definition devPSCRegRBAi : reg airec :=
  MAKEDSET (reg_rb plain) None read_ai.
Definition devPSCRegRBF32Ai : reg airec :=
  MAKEDSET (reg_rb plain) None (read_ai_float F32).
Definition devPSCRegRBF64Ai : reg airec :=
  MAKEDSET (reg_rb plain) None (read_ai_float F64).

(** Update settings. *)
Definition devPSCRegBo : reg binrec :=
  MAKEDSET (reg_output plain) None write_binary.
Definition devPSCRegMbbo : reg binrec :=
  MAKEDSET (reg_output extra_init_mask) None write_binary.
Definition devPSCRegMbboDirect : reg binrec :=
  MAKEDSET (reg_output extra_init_mask) None write_binary.
Definition devPSCRegLo : reg valrec :=
  MAKEDSET (reg_output plain) None (write_from_val W4).
Definition devPSCRegI64o : reg valrec :=
  MAKEDSET (reg_output plain) None (write_from_val W8).
Definition devPSCRegAo : reg airec :=
  MAKEDSET (reg_output plain) None write_ao.
Definition devPSCRegF32Ao : reg airec :=
  MAKEDSET (reg_output plain) None (write_ao_float F32).
Definition devPSCRegF64Ao : reg airec :=
  MAKEDSET (reg_output plain) None (write_ao_float F64).

(** ** Single registers *)

(** The listener [received_block], its argument, and the padding of the message struct. *)
Section single.
Variables (fn user : Z) (pad : list byte).

Abbreviation single R := (dset P R DevSingle.SinglePriv block_ptr).

Definition init_single {R} (extra : R → R) : link_init (M (devst R DevSingle.SinglePriv P) dev_status) :=
  λ inst_io link info, DevSingle.init_output inst_io extra link info fn user.

Definition devPSCSingleU32Bo : single binrec :=
  MAKEDSET (init_single plain) None DevSingle.write_msg_binary_rval.
Definition devPSCSingleU32Mbbo : single binrec :=
  MAKEDSET (init_single extra_init_mask) None DevSingle.write_msg_binary_rval.
Definition devPSCSingleU32MbboDirect : single binrec :=
  MAKEDSET (init_single extra_init_mask) None DevSingle.write_msg_binary_rval.
Definition devPSCSingleS32Lo : single valrec :=
  MAKEDSET (init_single plain) None (DevSingle.write_msg_val W4 pad).
Definition devPSCSingleS64I64o : single valrec :=
  MAKEDSET (init_single plain) None (DevSingle.write_msg_val W8 pad).
Definition devPSCSingleS32Ao : single airec :=
  MAKEDSET (init_single plain) None DevSingle.write_msg_rval.
Definition devPSCSingleF32Ao : single airec :=
  MAKEDSET (init_single plain) None (DevSingle.write_msg_val_ao F32 pad).
Definition devPSCSingleF64Ao : single airec :=
  MAKEDSET (init_single plain) None (DevSingle.write_msg_val_ao F64 pad).
End single.

(** ** Waveforms and strings *)

Abbreviation wf := (dset P DevWf.wfrec Priv block_ptr).

Definition devPSCBlockInWf8 : wf :=
  MAKEDSET (DevWf.init_wf_record_bytes 0) (Some DevCommon.get_iointr_info) DevWf.read_wf_bytes.
Definition devPSCBlockOutWf8 : wf :=
  MAKEDSET (DevWf.init_wf_record_bytes 1) (Some DevCommon.get_iointr_info) DevWf.write_wf_bytes.
Definition devPSCBlockInWf16 : wf :=
  MAKEDSET (DevWf.init_wf_record 0) (Some DevCommon.get_iointr_info) (DevWf.read_wf_real DevWf.I16).
Definition devPSCBlockOutWf16 : wf :=
  MAKEDSET (DevWf.init_wf_record 1) (Some DevCommon.get_iointr_info) (DevWf.write_wf DevWf.I16).
Definition devPSCBlockInWf32 : wf :=
  MAKEDSET (DevWf.init_wf_record 0) (Some DevCommon.get_iointr_info) (DevWf.read_wf_real DevWf.I32).
Definition devPSCBlockOutWf32 : wf :=
  MAKEDSET (DevWf.init_wf_record 1) (Some DevCommon.get_iointr_info) (DevWf.write_wf DevWf.I32).
Definition devPSCBlockInWfF32 : wf :=
  MAKEDSET (DevWf.init_wf_record 0) (Some DevCommon.get_iointr_info) (DevWf.read_wf_real DevWf.E32).
Definition devPSCBlockOutWfF32 : wf :=
  MAKEDSET (DevWf.init_wf_record 1) (Some DevCommon.get_iointr_info) (DevWf.write_wf DevWf.E32).
Definition devPSCBlockInWfF64 : wf :=
  MAKEDSET (DevWf.init_wf_record 0) (Some DevCommon.get_iointr_info) (DevWf.read_wf_real DevWf.E64).
Definition devPSCBlockOutWfF64 : wf :=
  MAKEDSET (DevWf.init_wf_record 1) (Some DevCommon.get_iointr_info) (DevWf.write_wf DevWf.E64).

Definition devPSCBlockSi : dset P DevString.strrec Priv block_ptr :=
  MAKEDSET DevString.init_si_record (Some DevCommon.get_iointr_info) DevString.read_si.
Definition devPSCBlockSo : dset P DevString.strrec Priv block_ptr :=
  MAKEDSET DevString.init_so_record (Some DevCommon.get_iointr_info) DevString.write_so.

(** ** Control *)

Abbreviation ctrl R := (dset P R string DevCtrl.psc_scan).
Definition init_ctrl_input {R} : link_init (M (devst R string P) dev_status) :=
  λ inst_io link _, DevCtrl.init_input inst_io link.
Definition init_ctrl_output {R} : link_init (M (devst R string P) dev_status) :=
  λ inst_io link _, DevCtrl.init_output inst_io link.

Definition devPSCConnectedBi : ctrl binrec :=
  MAKEDSET init_ctrl_input (Some (DevCtrl.get_iointr_info DevCtrl.ScanStatus)) DevCtrl.read_bi_connected.
Definition devPSCOnConnectBi : ctrl binrec :=
  MAKEDSET init_ctrl_input (Some (DevCtrl.get_iointr_info DevCtrl.ScanOnConnect)) DevCtrl.read_bi_connected.
Definition devPSCMessageSI : ctrl DevString.strrec :=
  MAKEDSET init_ctrl_input (Some (DevCtrl.get_iointr_info DevCtrl.ScanStatus)) DevCtrl.read_si_message.
Definition devPSCSendAllBo : ctrl binrec :=
  MAKEDSET init_ctrl_output None DevCtrl.write_bo_send_changed.
Definition devPSCForceReConn : ctrl binrec :=
  MAKEDSET init_ctrl_output None DevCtrl.write_force_reconnect.
Definition devPSCSendLo : ctrl valrec :=
  MAKEDSET init_ctrl_output None DevCtrl.write_lo_send_block.
Definition devPSCUknCountLi : ctrl valrec :=
  MAKEDSET init_ctrl_input (Some (DevCtrl.get_iointr_info DevCtrl.ScanStatus)) DevCtrl.read_unknown_count.
Definition devPSCConnCountLi : ctrl valrec :=
  MAKEDSET init_ctrl_input (Some (DevCtrl.get_iointr_info DevCtrl.ScanStatus)) DevCtrl.read_connection_count.
Definition devPSCBlockCountLi : reg valrec :=
  MAKEDSET (λ inst_io link _, DevCtrl.init_count inst_io link) None DevCtrl.read_block_count.

End tables.
