(* ===== verification/DevSafe.v ===== *)
(** * Device support does not abort

    The functions of the tables ([DevTable]) followed through every branch, for drivers that
    keep a contract ([SafeDriver]), which the TCP driver, the UDP driver and the fast
    receiver are shown to keep.  A record that is initialized, with whatever link and tags,
    and processed at whatever times, always gets a status back: no exception leaves device
    support, no assertion fails, no pointer dangles and no buffer overflows.

    The supports that do not have this property are not in the list: [devPSCBlockSi] divides
    by zero at offset 39 ([DevString]), [devPSCMessageSI] overruns VAL with a long message
    ([DevCtrl]), the integer waveforms to send convert numbers out of range ([DevWf]), and
    single registers with the tag SYNC set to SAME read a message that was cut short
    ([DevSingle]). *)

From S2P Require Import Prelude Hoare EvBuffer Dbuffer Block Wire PscBase PscTcp PscTcpRx.
From S2P Require Import PscTcpConn PscTcpTx PscUdp Ieee DevCommon DevSample DevReg DevTable.
From S2P Require DevSingle DevWf DevString DevCtrl.

(** ** The contract of a driver *)

Section contract.
Context {B : Type} `{EvBuffer B}.

(** The body of a block to send: memory of the driver, short of 4 GiB with its header. *)
Definition flat_body (d : dbuffer B) : Prop :=
  backingb d = None ∧ dbuffer_wf d ∧ dbuffer_size d < 2 ^ 32 - 8.

Record base_ok (b : PSCBase B) : Prop := {
  bo_recv : map_Forall (λ _ blk, dbuffer_wf (data blk)) (recv_blocks b);
  bo_send : map_Forall (λ _ blk, flat_body (data blk)) (send_blocks b);
}.

(** Blocks are never removed. *)
Definition grown (a b : PSCBase B) : Prop :=
  dom (recv_blocks a) ⊆ dom (recv_blocks b) ∧ dom (send_blocks a) ⊆ dom (send_blocks b).

#[export] Instance grown_preorder : PreOrder grown.
Proof. split; [by intros a|]. intros a b c [??] [??]. split; set_solver. Qed.

(** A driver goes on: it is still of its class, by [ty], and has the blocks it had. *)
Definition goes_on {P} `{!PSCVirtual B P} (ty : P → string) (p p' : P) : Prop :=
  grown (psc_base p) (psc_base p') ∧ ty p' = ty p.

#[export] Instance goes_on_preorder {P} `{!PSCVirtual B P} (ty : P → string) : PreOrder (goes_on ty).
Proof. split; [by intros p|]. intros a b c [G1 T1] [G2 T2]. split; [by etrans|congruence]. Qed.

(** A call on a driver ends, and leaves it as it should be. *)
Definition call_ok {P A} `{!PSCVirtual B P} (ty : P → string) (ok : P → Prop) (m : M P A) (p : P) : Prop :=
  let after p' := ok p' ∧ goes_on ty p p' in wp m (λ _, after) after p.
End contract.

(** What device support relies on.  The driver need not be connected where the supports do
    not check that it is. *)
Class SafeDriver (B P : Type) `{EvBuffer B} `{!PSCVirtual B P} := {
  driver_ok : P → Prop;
  driver_type : P → string;
  ok_base p : driver_ok p → base_ok (psc_base p);
  ok_put_base p (b : PSCBase B) :
    driver_ok p → base_ok b → connected b = connected (psc_base p) → driver_ok (put_base b p);
  type_put_base (p : P) (b : PSCBase B) : driver_type (put_base b p) = driver_type p;
  ok_queue_id id buf p :
    driver_ok p → connected (psc_base p) = true → zlen buf < 2 ^ 32 - 8 →
    call_ok driver_type driver_ok (queueSend_id id buf) p;
  ok_queue_buf k buf p :
    driver_ok p → connected (psc_base p) = true → is_Some (send_blocks (psc_base p) !! k) →
    zlen buf < 2 ^ 32 - 8 → call_ok driver_type driver_ok (queueSend_buf k buf) p;
  ok_queue_dbuffer k d p :
    driver_ok p → is_Some (send_blocks (psc_base p) !! k) → flat_body d →
    call_ok driver_type driver_ok (queueSend_dbuffer k d) p;
  ok_flush p : driver_ok p → call_ok driver_type driver_ok psc_flushSend p;
  ok_force p : driver_ok p → call_ok driver_type driver_ok psc_forceReConnect p;
}.

(** ** Records *)

Section records.
Context {B P : Type} `{EvBufferLaws B} `{!PSCVirtual B P} `{!PSCVirtualLaws B P} `{!SafeDriver B P}.
Context `{Host} `{EpicsRecord}.

Definition drivers_ok (m : gmap string P) : Prop := map_Forall (λ _ p, driver_ok p) m.

(** Drivers go on: none is deleted, changes its class or loses a block. *)
Definition later (m m' : gmap string P) : Prop :=
  ∀ n p, m !! n = Some p → ∃ p', m' !! n = Some p' ∧ goes_on driver_type p p'.

#[export] Instance later_preorder : PreOrder later.
Proof.
  split; [intros m n p Hp; by exists p|]. intros m1 m2 m3 H12 H23 n p Hp.
  destruct (H12 n p Hp) as (p2 & Hp2 & G12), (H23 n p2 Hp2) as (p3 & Hp3 & G23).
  exists p3. split; [done|]. by etrans.
Qed.

(** What the private data of a record refers to is there. *)
Definition block_there (b : block_ptr) (p : P) : Prop :=
  match b with
  | RecvBlk k => is_Some (recv_blocks (psc_base p) !! k)
  | SendBlk k => is_Some (send_blocks (psc_base p) !! k)
  end.

Definition driver_there (name : string) (m : gmap string P) : Prop := is_Some (m !! name).

Definition priv_there (priv : Priv) (m : gmap string P) : Prop :=
  0 ≤ offset priv ∧ ∃ p b, m !! psc priv = Some p ∧ block priv = Some b ∧ block_there b p.

Lemma block_there_grown b p p' : block_there b p → grown (psc_base p) (psc_base p') → block_there b p'.
Proof.
  intros Hb [Hr Hs]. destruct b; cbn in *; apply elem_of_dom; apply elem_of_dom in Hb; set_solver.
Qed.

Lemma driver_there_later n m m' : driver_there n m → later m m' → driver_there n m'.
Proof. intros [p Hp] Hl. destruct (Hl n p Hp) as (p' & ? & _). by exists p'. Qed.

Lemma priv_there_later priv m m' : priv_there priv m → later m m' → priv_there priv m'.
Proof.
  intros (Ho & p & b & Hp & Hb & Ht) Hl. split; [done|].
  destruct (Hl _ p Hp) as (p' & Hp' & Hg & _). exists p', b. split_and!; [done..|].
  by eapply block_there_grown.
Qed.

(** The kinds of record: what holds of the fields, which of them stay as they are when
    others are written, and what the private data refers to. *)
Record kind (R V : Type) := Kind {
  fields : R → Prop;
  fixed : R → R → Prop;
  tied : R → V → gmap string P → Prop;
  tied_later r v m m' : tied r v m → later m m' → tied r v m';
  tied_fixed r r' v m : tied r v m → fixed r r' → tied r' v m;
}.
Arguments fields {R V} _ _.
Arguments fixed {R V} _ _ _.
Arguments tied {R V} _ _ _ _.
Arguments tied_later {R V} _ _ _ _ _ _ _.
Arguments tied_fixed {R V} _ _ _ _ _ _ _.

Section of_kind.
Context {R V : Type} (c : kind R V).
Implicit Types (s : devst R V P) (m : gmap string P).

(** Between calls. *)
Record settled s : Prop := {
  st_drivers : drivers_ok (pscmap s);
  st_fields : fields c (rec s);
  st_tied v : dpvt s = Some v → tied c (rec s) v (pscmap s);
}.

(** During a call that began with the drivers [m] and works for [v]. *)
Definition inside m v s : Prop := settled s ∧ dpvt s = Some v ∧ later m (pscmap s).

(** A call for [v] that keeps all this, and may throw. *)
Definition safe m v {A} (k : M (devst R V P) A) : Prop :=
  ∀ s, inside m v s → wp k (λ _, inside m v) (inside m v) s.

(** A call that returns, and leaves the drivers fit for other records. *)
Definition returns {A} (k : M (devst R V P) A) s : Prop :=
  wp k (λ _ s', settled s' ∧ later (pscmap s) (pscmap s')) (λ _, False) s.

Lemma inside_com m v s com : inside m v s → inside m v (set_com com s).
Proof. intros ([] & ? & ?). by split_and!. Qed.

Lemma inside_rec m v s r : inside m v s → fields c r → fixed c (rec s) r → inside m v (set_rec r s).
Proof.
  intros ([Hd Hf Ht] & Ev & Hl) Hr Hx. split_and!; [split; [done..|]|done|done].
  intros v' Hv'. eapply tied_fixed; [by apply Ht|done].
Qed.

Lemma setSevr_safe m v st sv : safe m v (setSevr st sv).
Proof. intros s Hs. apply wp_modify. by apply inside_com. Qed.

(** [CATCH] turns an exception into a status and an alarm. *)
Lemma CATCH_wp (k : M (devst R V P) dev_status) (Q : dev_status → devst R V P → Prop) s :
  wp k Q (λ s', ∀ com, Q S_dev_badRequest (set_com com s')) s → wp (CATCH k) Q (λ _, False) s.
Proof.
  intros Hk. apply wp_catch. eapply wp_mono; [exact Hk|done|]. intros s' Hs' e. apply wp_bind.
  destruct e; apply wp_modify, wp_ret, Hs'.
Qed.

Lemma CATCH_inside (k : M (devst R V P) dev_status) v s :
  wp k (λ _, inside (pscmap s) v) (inside (pscmap s) v) s → returns (CATCH k) s.
Proof.
  intros Hk. apply CATCH_wp. eapply wp_mono; [exact Hk| |].
  - by intros a s' (? & _ & ?).
  - intros s' Hs' com. by destruct (inside_com _ _ _ com Hs') as (? & _ & ?).
Qed.

Lemma CATCH_returns (k : M (devst R V P) dev_status) v s :
  settled s → dpvt s = Some v → safe (pscmap s) v k → returns (CATCH k) s.
Proof. intros Hs Hv Hk. apply (CATCH_inside k v), Hk. by split_and!. Qed.

Lemma with_priv_returns (k : V → M (devst R V P) dev_status) s :
  settled s → (∀ v, dpvt s = Some v → returns (k v) s) → returns (with_priv k) s.
Proof.
  intros Hs Hk. apply wp_bind, wp_get. destruct (dpvt s) as [v|] eqn:E; [by apply Hk|].
  by apply wp_ret.
Qed.

(** A processing function: guarded by private data, its exceptions caught. *)
Lemma processing_returns (k : V → M (devst R V P) dev_status) s :
  settled s → (∀ v m, safe m v (k v)) → returns (with_priv (λ v, CATCH (k v))) s.
Proof. intros Hs Hk. apply with_priv_returns; [done|]. intros v Hv. by eapply CATCH_returns. Qed.
End of_kind.
End records.
Arguments Kind {B P _ _ _ R V}.
Arguments fields {B P _ _ _ R V}.
Arguments fixed {B P _ _ _ R V}.
Arguments tied {B P _ _ _ R V}.
Arguments tied_later {B P _ _ _ R V}.
Arguments tied_fixed {B P _ _ _ R V}.

(** ** Drivers and blocks *)

Section access.
Context {B P : Type} `{EvBufferLaws B} `{!PSCVirtual B P} `{!PSCVirtualLaws B P} `{!SafeDriver B P}.
Context `{Host} `{EpicsRecord}.

(** A change of the base class that a driver puts up with. *)
Record base_change (b b' : PSCBase B) : Prop := {
  bc_ok : base_ok b';
  bc_connected : connected b' = connected b;
  bc_grown : grown b b';
}.

Lemma base_change_id b : base_ok b → base_change b b.
Proof. by split. Qed.

Lemma put_base_goes_on (p : P) b : grown (psc_base p) b → goes_on driver_type p (put_base b p).
Proof. intros Hg. split; [by rewrite psc_base_put|apply type_put_base]. Qed.

Lemma on_base_ok {A} (k : M (PSCBase B) A) (p : P) (Q : A → PSCBase B → Prop) :
  driver_ok p →
  wp k (λ a b', base_change (psc_base p) b' ∧ Q a b') (base_change (psc_base p)) (psc_base p) →
  wp (on_base k) (λ a p', (driver_ok p' ∧ goes_on driver_type p p') ∧ Q a (psc_base p'))
    (λ p', driver_ok p' ∧ goes_on driver_type p p') p.
Proof.
  intros Hp Hk. apply wp_zoom. eapply wp_mono; [exact Hk|..].
  - intros a b' [[Hb Hc Hg] HQ]. rewrite psc_base_put.
    split; [split; [by apply ok_put_base|by apply put_base_goes_on]|done].
  - intros b' [Hb Hc Hg]. split; [by apply ok_put_base|by apply put_base_goes_on].
Qed.

Lemma new_block_wf k : dbuffer_wf (data (new_Block (B:=B) k)).
Proof. apply dbuffer_wf_empty. Qed.

Lemma new_block_flat k : flat_body (data (new_Block (B:=B) k)).
Proof. split_and!; [done|apply dbuffer_wf_empty|done]. Qed.

Lemma getRecv_wp k (b : PSCBase B) :
  base_ok b →
  wp (getRecv k) (λ k' b', base_change b b' ∧ k' = k ∧ is_Some (recv_blocks b' !! k')) (base_change b) b.
Proof.
  intros Hb. pose proof Hb as [Hr Hs]. unfold wp, getRecv. destruct (recv_blocks b !! k) as [blk|] eqn:E.
  { split; [by apply base_change_id|]. split; [done|]. by rewrite E. }
  split; [split|split; [done|cbn; by rewrite lookup_insert_eq]]; [|done|].
  - split; [|done]. cbn. apply map_Forall_insert_2; [apply new_block_wf|done].
  - split; cbn; [set_solver|done].
Qed.

Lemma getSend_wp k (b : PSCBase B) :
  base_ok b →
  wp (getSend k) (λ k' b', base_change b b' ∧ k' = k ∧ is_Some (send_blocks b' !! k')) (base_change b) b.
Proof.
  intros Hb. pose proof Hb as [Hr Hs]. unfold wp, getSend. destruct (send_blocks b !! k) as [blk|] eqn:E.
  { split; [by apply base_change_id|]. split; [done|]. by rewrite E. }
  split; [split|split; [done|cbn; by rewrite lookup_insert_eq]]; [|done|].
  - split; [done|]. cbn. apply map_Forall_insert_2; [apply new_block_flat|done].
  - split; cbn; [done|set_solver].
Qed.

(** Updating a block to send, with a body that is still flat. *)
Lemma upd_send_change k f (b : PSCBase B) :
  base_ok b → (∀ blk, flat_body (data blk) → flat_body (data (f blk))) →
  base_change b (set_send_blocks (alter f k (send_blocks b)) b).
Proof.
  intros [Hr Hs] Hf. split; [split; [done|]|done|split; cbn; [done|by rewrite dom_alter_L]].
  cbn. intros j blk [(Ej & b0 & Hb & ->)|[_ Hj]]%lookup_alter_Some; [|by apply (Hs j)].
  apply Hf, (Hs j b0 Hb).
Qed.

Lemma send_blocks_grown (b b' : PSCBase B) :
  recv_blocks b' = recv_blocks b → dom (send_blocks b') = dom (send_blocks b) → grown b b'.
Proof. intros Er Es. unfold grown. by rewrite Er, Es. Qed.

(** The drivers after a call on one of them; nothing else has changed. *)
Record drv_step {R V} (s s' : devst R V P) : Prop := {
  ds_drivers : drivers_ok (pscmap s');
  ds_later : later (pscmap s) (pscmap s');
  ds_rest : s' = set_pscmap (pscmap s') s;
}.

Lemma drv_step_id {R V} (s : devst R V P) : drivers_ok (pscmap s) → drv_step s s.
Proof. split; [done..|by destruct s]. Qed.

Lemma drv_step_trans {R V} (s1 s2 s3 : devst R V P) : drv_step s1 s2 → drv_step s2 s3 → drv_step s1 s3.
Proof. intros [_ L1 E1] [D2 L2 E2]. split; [done|by etrans|]. by rewrite E2, E1. Qed.

(** One driver goes on, the others are as they were. *)
Lemma put_allowed m n p p' :
  drivers_ok m → m !! n = Some p → driver_ok p' → goes_on driver_type p p' →
  drivers_ok (<[n := p']> m) ∧ later m (<[n := p']> m).
Proof.
  intros Hd Hn Hp Hg. split; [by apply map_Forall_insert_2|].
  intros n' q Hq. destruct (decide (n' = n)) as [->|].
  - simplify_eq. exists p'. by rewrite lookup_insert_eq.
  - exists q. by rewrite lookup_insert_ne.
Qed.

Lemma drv_step_put {R V} (s : devst R V P) n p p' :
  drivers_ok (pscmap s) → pscmap s !! n = Some p → driver_ok p' → goes_on driver_type p p' →
  drv_step s (set_pscmap (<[n := p']> (pscmap s)) s).
Proof. intros Hd Hn Hp Hg. by destruct (put_allowed _ _ _ _ Hd Hn Hp Hg). Qed.

(** A call on the driver of a record. *)
Lemma on_psc_wp {R V A} (priv : Priv) (k : M P A) (s : devst R V P) p (Q : A → P → Prop) :
  drivers_ok (pscmap s) → pscmap s !! psc priv = Some p →
  wp k (λ a p', (driver_ok p' ∧ goes_on driver_type p p') ∧ Q a p')
    (λ p', driver_ok p' ∧ goes_on driver_type p p') p →
  wp (on_psc priv k)
    (λ a s', drv_step s s' ∧ ∃ p', pscmap s' !! psc priv = Some p' ∧ Q a p') (drv_step s) s.
Proof.
  intros Hd Hp Hk. unfold wp, on_psc. rewrite Hp. unfold wp in Hk.
  destruct (k p) as [[a|e|cr] p']; [..|done].
  - destruct Hk as [[Hok Hg] HQ]. split; [by eapply drv_step_put|]. exists p'. cbn. by rewrite lookup_insert_eq.
  - destruct Hk as [Hok Hg]. by eapply drv_step_put.
Qed.

Section of_kind.
Context {R V : Type} (c : kind (P:=P) R V).
Implicit Types (s : devst R V P) (m : gmap string P).

Lemma inside_step m v s s' : inside c m v s → drv_step s s' → inside c m v s'.
Proof.
  intros ([Hd Hf Ht] & Hv & Hl) [Hd' Hl' ->]. split_and!; [split; [done..|]|done|by etrans].
  intros v' Hv'. eapply tied_later; [by apply Ht|done].
Qed.

Lemma call_safe {A} m v (priv : Priv) (k : M P A) s p :
  inside c m v s → pscmap s !! psc priv = Some p → call_ok driver_type driver_ok k p →
  wp (on_psc priv k) (λ _, inside c m v) (inside c m v) s.
Proof.
  intros Hi Hp Hk. eapply wp_mono; [apply (on_psc_wp priv k s p (λ _ _, True)); [apply Hi|done|]|..].
  - eapply wp_mono; [exact Hk|by intros|done].
  - intros a s' [? _]. by eapply inside_step.
  - intros s'. by apply inside_step.
Qed.

Lemma isConnected_wp (priv : Priv) s p (Q : bool → devst R V P → Prop) E :
  pscmap s !! psc priv = Some p → Q (connected (psc_base p)) s → wp (isConnected priv) Q E s.
Proof. intros Hp HQ. eapply wp_run; [by apply isConnected_spec|done]. Qed.

(** Reading from the driver. *)
Lemma on_psc_gets_wp {A} (priv : Priv) (f : P → A) s p (Q : A → devst R V P → Prop) E :
  pscmap s !! psc priv = Some p → Q (f p) s → wp (on_psc priv (gets f)) Q E s.
Proof.
  intros Hp HQ. eapply wp_run; [|exact HQ]. rewrite (on_psc_run priv _ p s (Ret (f p)) p) by done.
  by rewrite put_psc_id.
Qed.

Lemma lookup_ok s n p : settled c s → pscmap s !! n = Some p → driver_ok p.
Proof. intros Hs Hp. apply (st_drivers _ _ Hs n p Hp). Qed.

(** What the block of a record is known to be. *)
Definition block_known (priv : Priv) (b : Block (dbuffer B)) : Prop :=
  dbuffer_wf (data b) ∧ ∀ k, block priv = Some (SendBlk k) → flat_body (data b).

Lemma the_block_wp (priv : Priv) s (Q : Block (dbuffer B) → devst R V P → Prop) E :
  settled c s → priv_there priv (pscmap s) → (∀ b, block_known priv b → the_block priv s = (Ret b, s) → Q b s) →
  wp (the_block priv) Q E s.
Proof.
  intros Hs (Ho & p & b & Hp & Hb & Ht) HQ. pose proof (ok_base p (lookup_ok s _ p Hs Hp)) as [Hr Hsd].
  assert (Hblk : ∃ blk, the_block priv s = (Ret blk, s) ∧ block_known priv blk).
  { unfold the_block. rewrite Hb. destruct b as [k|k]; destruct Ht as [blk Hk]; cbn in Hk; exists blk.
    all: split; [rewrite (on_psc_run priv _ p s (Ret blk) p); [by rewrite put_psc_id|done|]|].
    1,3: apply on_base_read; unfold recv_block, send_block; by rewrite Hk.
    - split; [apply (Hr k blk Hk)|]. intros k' Hk'. congruence.
    - split; [apply (Hsd k blk Hk)|]. intros k' Hk'. apply (Hsd k blk Hk). }
  destruct Hblk as (blk & E1 & Hk). eapply wp_run; [exact E1|by apply HQ].
Qed.

(** Replacing the body of a block to send. *)
Lemma put_data_safe m v (priv : Priv) k d s :
  inside c m v s → priv_there priv (pscmap s) → block priv = Some (SendBlk k) → flat_body d →
  wp (put_data priv d) (λ _, inside c m v) (inside c m v) s.
Proof.
  intros Hi (Ho & p & b & Hp & Hb & Ht) Hk Hd. unfold put_data. rewrite Hk.
  pose proof (lookup_ok s _ p (proj1 Hi) Hp) as Hok.
  apply (call_safe m v priv _ s p); [done..|].
  eapply wp_mono; [apply (on_base_ok _ p (λ _ _, True)); [done|]|by intros ? ? [? _]|done].
  apply wp_modify. split; [|done]. apply upd_send_change; [by apply ok_base|done].
Qed.
End of_kind.
End access.

(** ** Records with a link to a block *)

Section blocks.
Context {B P : Type} `{EvBufferLaws B} `{!PSCVirtual B P} `{!PSCVirtualLaws B P} `{!SafeDriver B P}.
Context `{Host} `{EpicsRecord}.

(** Records of one type, with a condition [x] on fields and private data. *)
Definition priv_kind {R} (f : R → Prop) (fx : R → R → Prop) (x : R → Priv → Prop)
    (Hx : ∀ r r' v, x r v → fx r r' → x r' v) : kind (P:=P) R Priv.
Proof.
  refine (Kind f fx (λ r v m, priv_there v m ∧ x r v) _ _).
  - intros r v m m' [Hv ?] Hl. split; [by eapply priv_there_later|done].
  - intros r r' v m [? ?] Hf. split; [done|by eapply Hx].
Defined.

Definition to_send (v : Priv) : Prop := ∃ k, block v = Some (SendBlk k).

Context {R : Type} (c : kind (P:=P) R Priv).
Hypothesis (c_there : ∀ r v m, tied c r v m → priv_there v m).
Hypothesis (stamps : ∀ t cr, epicsTime_of_stamp t ≠ Crash cr).
Implicit Types (s : devst R Priv P) (m : gmap string P) (v : Priv).

Lemma inside_there m v s : inside c m v s → priv_there v (pscmap s).
Proof. intros (Hs & Hv & _). eapply c_there. by apply (st_tied _ _ Hs). Qed.

Lemma inside_driver m v s : inside c m v s → ∃ p, pscmap s !! psc v = Some p ∧ driver_ok p.
Proof.
  intros Hi. destruct (inside_there m v s Hi) as (_ & p & _ & Hp & _). exists p. split; [done|].
  by eapply lookup_ok; [apply Hi|].
Qed.

(** An alarm when the driver is not connected, and on. *)
Lemma conn_alarm_safe {A} m v st (k : M (devst R Priv P) A) :
  safe c m v k →
  safe c m v (conn <- isConnected v ;; when (negb conn) (setSevr st INVALID_ALARM) ;;; k).
Proof.
  intros Hk s Hs. destruct (inside_driver m v s Hs) as (p & Hp & _).
  apply wp_bind. eapply isConnected_wp; [exact Hp|]. apply wp_bind, wp_when; intros _.
  - eapply wp_mono; [by apply setSevr_safe|by intros a s' Hs'; apply Hk|done].
  - by apply Hk.
Qed.

Lemma wp_lift {T A} (o : outcome A) (Q : A → T → Prop) (E : T → Prop) t :
  match o with Ret a => Q a t | Throw _ => E t | Crash _ => False end → wp (lift o) Q E t.
Proof. by destruct o. Qed.

(** A read of a shape out of the block. *)
Lemma copyout_wp m v b off sz skip n s (Q : Z * list byte → devst R Priv P → Prop) :
  inside c m v s → block_known v b → 0 ≤ off → 0 ≤ sz → 0 ≤ skip → 0 ≤ n → u64 (sz + skip) ≠ 0 →
  (∀ cnt bs, 0 ≤ cnt ≤ n → zlen bs ≤ n * sz → Q (cnt, bs) s) →
  wp (lift (dbuffer_copyout_shape (data b) off sz skip n)) Q (inside c m v) s.
Proof.
  intros Hi [Hb _] Ho Hsz Hsk Hn Hu HQ. apply wp_lift.
  pose proof (copyout_shape_bounds (data b) off sz skip n Hb Ho Hsz Hsk Hn) as Hc.
  destruct (dbuffer_copyout_shape _ _ _ _ _) as [[cnt bs]|e|cr]; [|done|by destruct Hc].
  destruct Hc. by apply HQ.
Qed.

(** The same where how much was read does not matter. *)
Lemma copyout_no_crash (d : dbuffer B) off sz skip n :
  u64 (sz + skip) ≠ 0 →
  match dbuffer_copyout_shape d off sz skip n with Ret _ => True | Throw _ | Crash _ => False end.
Proof.
  intros Hu. unfold dbuffer_copyout_shape. case_if; [done|]. by case_if; bool_to_prop.
Qed.

Lemma setRecTimestamp_safe m v : safe c m v (setRecTimestamp v).
Proof.
  intros s Hs. unfold setRecTimestamp, block_time. apply wp_bind, wp_get. case_if; [by apply wp_ret|].
  apply wp_bind.
  assert (Hget : ∀ (Q : option epicsTime → devst R Priv P → Prop),
    (∀ t, Q t s) →
    wp (if timeFromBlock v && negb (bool_decide (block v = None)) then
          b <- the_block v ;;
          r <- lift (dbuffer_copyout_shape (data b) (tsoffset v) 8 0 1) ;;
          ret (if r.1 =? 1 then
            Some (EpicsTime (u32 (ntoh W4 (host_val (ztake 4 r.2)) - POSIX_TIME_AT_EPICS_EPOCH))
                    (ntoh W4 (host_val (zslice 4 4 r.2)))) else None)
        else ret None) Q (inside c m v) s).
  { intros Q HQ. case_if; [|by apply wp_ret]. apply wp_bind.
    eapply the_block_wp; [apply Hs|by eapply inside_there|]. intros b _ _. apply wp_bind, wp_lift.
    pose proof (copyout_no_crash (data b) (tsoffset v) 8 0 1) as Hc.
    destruct (dbuffer_copyout_shape _ _ _ _ _); [by apply wp_ret|by destruct Hc..]. }
  apply Hget. intros ts. apply wp_bind. destruct ts as [ts|].
  - apply wp_lift. pose proof (stamps ts) as Ht. destruct (epicsTime_of_stamp ts) as [t|e|cr].
    + apply wp_modify. by apply inside_com.
    + done.
    + by destruct (Ht cr).
  - apply wp_bind. eapply the_block_wp; [apply Hs|by eapply inside_there|]. intros b _ _.
    apply wp_ret, wp_modify. by apply inside_com.
Qed.

(** The end of a record that was read. *)
Lemma stamp_then m v (z : Z) : safe c m v (setRecTimestamp v ;;; ret (Status z)).
Proof.
  intros s Hs. apply wp_bind. eapply wp_mono; [by apply setRecTimestamp_safe|by intros|done].
Qed.

Lemma get_iointr_info_wp s :
  settled c s → wp DevCommon.get_iointr_info (λ _ s', s' = s) (λ _, False) s.
Proof.
  intros Hs. apply wp_bind, wp_get. destruct (dpvt s) as [v|] eqn:Ev; [|by apply wp_ret].
  destruct (c_there _ _ _ (st_tied _ _ Hs v Ev)) as (_ & p & b & _ & -> & _). by apply wp_ret.
Qed.

Lemma read_to_field_safe w m v : safe c m v (read_to_field w v).
Proof.
  apply conn_alarm_safe. intros s Hs. apply wp_bind.
  pose proof (inside_there m v s Hs) as Ht. eapply the_block_wp; [apply Hs|done|].
  intros b Hb _. apply wp_bind.
  assert (Hthen : ∀ r : option (list byte), wp (match r with
      | Some bs => ret (ntoh w (host_val bs))
      | None => throw (RecAlarm SOFT_ALARM INVALID_ALARM)
      end) (λ _, inside c m v) (inside c m v) s).
  { intros [bs|]; [by apply wp_ret|by apply wp_throw]. }
  case_if; [by apply wp_ret|]. apply wp_bind. pose proof (sizeof_pos w).
  eapply copyout_wp; [done..|apply Ht|lia|lia|lia| |].
  { rewrite Z.add_0_r, wrapU_small by lia. lia. }
  intros cnt bs _ _. by apply wp_ret.
Qed.

(** Reading a value, storing it in a field, and the time stamp. *)
Lemma field_then m v w z (f : Z → R → R) :
  (∀ x s, inside c m v s → inside c m v (set_rec (f x (rec s)) s)) →
  safe c m v (x <- read_to_field w v ;; modify (λ s, set_rec (f x (rec s)) s) ;;;
              setRecTimestamp v ;;; ret (Status z)).
Proof.
  intros Hf s Hs. apply wp_bind. eapply wp_mono; [by apply read_to_field_safe| |done].
  intros x s1 Hs1. apply wp_bind, wp_modify. apply stamp_then. by apply Hf.
Qed.

Lemma copyin_flat_body (d : dbuffer B) buf off :
  flat_body d → 0 ≤ off ≤ dbuffer_size d →
  ∃ ok d', dbuffer_copyin buf off d = (Ret ok, d') ∧ flat_body d'.
Proof.
  intros (Hb & Hw & Hl) Ho. rewrite copyin_flat by done.
  set (moved := Z.min (zlen buf) (dbuffer_size d - off)). eexists _, _. split; [done|].
  pose proof (zlen_nonneg buf).
  assert (E : zlen (zblit off (ztake moved buf) (backingv d)) = zlen (backingv d)).
  { subst moved. unfold dbuffer_size in *. rewrite Hb in *. apply zlen_zblit; [lia|]. rewrite zlen_ztake. lia. }
  unfold flat_body, dbuffer_wf, dbuffer_size, contents in *. cbn. rewrite Hb in *. by rewrite E.
Qed.

Lemma copyin_block_safe m v b buf s :
  inside c m v s → to_send v → block_known v b → the_block v s = (Ret b, s) →
  offset v ≤ dbuffer_size (data b) →
  wp (copyin_block v buf) (λ _, inside c m v) (inside c m v) s.
Proof.
  intros Hs [k Hk] [_ Hf] E Ho. pose proof (inside_there m v s Hs) as Ht.
  destruct (copyin_flat_body (data b) buf (offset v) (Hf k Hk)) as (ok & d & Ec & Hd).
  { split; [apply Ht|done]. }
  unfold copyin_block. apply wp_bind. eapply wp_run; [exact E|]. cbv beta. rewrite Ec.
  apply wp_bind. eapply wp_mono; [by eapply put_data_safe| |done]. intros [] s' Hs'. by apply wp_lift.
Qed.

Lemma write_from_field_safe w m v x : to_send v → safe c m v (write_from_field w v x).
Proof.
  intros Hk. apply conn_alarm_safe. intros s Hs. pose proof (inside_there m v s Hs) as Ht.
  apply wp_bind. eapply the_block_wp; [apply Hs|done|]. intros b Hb E. apply wp_bind.
  assert (Hthen : ∀ (ok : bool) s', inside c m v s' → wp (if ok then ret tt
      else throw (RecAlarm SOFT_ALARM INVALID_ALARM)) (λ _, inside c m v) (inside c m v) s').
  { intros [] s' Hs'; [by apply wp_ret|by apply wp_throw]. }
  case_if; bool_to_prop; [apply wp_ret; by apply (Hthen false)|].
  eapply wp_mono; [by eapply copyin_block_safe|by intros ok s' Hs'; apply Hthen|done].
Qed.
End blocks.

(** ** Initialization *)

(** Numbers that a link gives are not negative. *)
Lemma digits_nonneg l acc n : 0 ≤ acc → 0 ≤ (IStream.digits l acc n).1.1.
Proof.
  revert acc n. induction l as [|ch l IH]; intros acc n Ha; cbn; [done|].
  destruct (IStream.digit ch) as [d|] eqn:E; [|done]. apply IH. unfold IStream.digit in E.
  case_if; [|done]. injection E as <-. bool_to_prop. lia.
Qed.

Lemma get_num_nonneg hi st : 0 ≤ hi → ∃ z st', IStream.get_num 0 hi st = (Ret z, st') ∧ 0 ≤ z.
Proof.
  intros Hh. unfold IStream.get_num. cbn [Z.eqb].
  destruct (IStream.fail _); [by eexists _, _|].
  destruct (match IStream.chars _ with [] => _ | _ => _ end) as [neg r].
  pose proof (digits_nonneg r 0 0) as Hd. destruct (IStream.digits r 0 0) as [[v n] r']. cbn in Hd.
  destruct (n =? 0)%nat; [by eexists _, _|]. destruct (v >? hi); [by eexists _, _|].
  eexists _, _. split; [done|]. destruct neg; [apply Z.mod_pos_bound; lia|lia].
Qed.

Lemma unless_eof_nonneg hi st :
  0 ≤ hi → ∃ z st', IStream.unless_eof 0 (IStream.get_num 0 hi) st = (Ret z, st') ∧ 0 ≤ z.
Proof.
  intros Hh. unfold IStream.unless_eof. mstep. destruct (IStream.eof st); [by eexists _, _|].
  by apply get_num_nonneg.
Qed.

Lemma parse_fields_offset link name blk off stp :
  parse_fields link = Some (name, blk, off, stp) → 0 ≤ off.
Proof.
  unfold parse_fields. intros E.
  match type of E with match ?x with _ => _ end = _ => destruct x as [o st] eqn:Ex end.
  destruct o as [[[[n b] f] p]|e|c]; [|done..]. destruct (IStream.fail st); [done|].
  injection E as -> -> -> ->. revert Ex. unfold bind at 1.
  destruct (IStream.get_string _) as [[name'|e|c] st1]; [|done..].
  unfold bind at 1. destruct (IStream.get_uint st1) as [[blk'|e|c] st2]; [|done..].
  destruct (unless_eof_nonneg (2 ^ 64 - 1) st2) as (z & st3 & Ez & Hz); [done|].
  rewrite (bind_ret _ _ _ _ _ Ez). unfold bind. destruct (IStream.unless_eof 0 _ st3) as [[p'|e|c] st4]; [|done..].
  intros [= _ _ <- _ _]. done.
Qed.

Section init.
Context {B P : Type} `{EvBufferLaws B} `{!PSCVirtual B P} `{!PSCVirtualLaws B P} `{!SafeDriver B P}.
Context `{Host} `{EpicsRecord}.
Context {R V : Type}.
Implicit Types (s : devst R V P) (m : gmap string P).

(** What [parse_link] finds for a direction: 0 a received block, 1 a block to send. *)
Definition linked (dir : Z) (v : Priv) m : Prop :=
  0 ≤ offset v ∧ driver_there (psc v) m ∧
  (dir = 0 ∨ dir = 1 → priv_there v m) ∧ (dir = 1 → to_send v) ∧ (dir = 2 → block v = None).

(** A call on the base of a driver during initialization. *)
Lemma base_call {A} v (k : M (PSCBase B) A) s p (Q : A → PSCBase B → Prop) :
  drivers_ok (pscmap s) → pscmap s !! psc v = Some p →
  wp k (λ a b', base_change (psc_base p) b' ∧ Q a b') (base_change (psc_base p)) (psc_base p) →
  wp (on_psc v (on_base k))
    (λ a s', drv_step s s' ∧ ∃ p', pscmap s' !! psc v = Some p' ∧ Q a (psc_base p')) (drv_step s) s.
Proof.
  intros Hd Hp Hk. apply (on_psc_wp v _ s p (λ a p', Q a (psc_base p'))); [done..|].
  apply on_base_ok; [by apply (Hd _ p Hp)|done].
Qed.

Lemma parse_link_wp link info dir s :
  drivers_ok (pscmap s) →
  wp (parse_link link info dir) (λ v s', drv_step s s' ∧ linked dir v (pscmap s')) (drv_step s) s.
Proof.
  intros Hd. unfold parse_link. destruct (parse_fields link) as [[[[name blk] off] stp]|] eqn:Ef.
  2:{ apply wp_throw. by apply drv_step_id. }
  pose proof (parse_fields_offset _ _ _ _ _ Ef) as Ho. apply wp_bind, wp_get.
  destruct (pscmap s !! name) as [p|] eqn:Ep; [|apply wp_throw; by apply drv_step_id].
  destruct info as [info|]; [|apply wp_throw; by apply drv_step_id].
  set (ts := parse_tsoffset _). set (onconn := match info "SYNC"%string with Some _ => _ | None => _ end).
  apply wp_bind.
  set (priv b := MkPriv name (u16 blk) b off stp (bool_decide (is_Some ts)) (default 0 ts)).
  assert (Hblk : wp (if dir =? 0 then
      k <- on_psc (priv None) (on_base (getRecv (u16 blk))) ;; ret (Some (RecvBlk k))
    else if dir =? 1 then
      k <- on_psc (priv None) (on_base (getSend (u16 blk))) ;; ret (Some (SendBlk k))
    else ret None)
    (λ b s', drv_step s s' ∧ linked dir (priv b) (pscmap s')) (drv_step s) s).
  { pose proof (ok_base p (Hd _ p Ep)) as Hb.
    destruct (Z.eqb_spec dir 0) as [->|H0n]; [|destruct (Z.eqb_spec dir 1) as [->|H1n]].
    - apply wp_bind. eapply wp_mono; [apply (base_call (priv None) _ s p); [done..|by apply getRecv_wp]| |done].
      intros k s' (Hs & p' & Hp' & _ & Hk). apply wp_ret. split; [done|].
      split_and!; [done|by exists p'|intros _; split; [done|by exists p', (RecvBlk k)]|lia|lia].
    - apply wp_bind. eapply wp_mono; [apply (base_call (priv None) _ s p); [done..|by apply getSend_wp]| |done].
      intros k s' (Hs & p' & Hp' & _ & Hk). apply wp_ret. split; [done|].
      split_and!; [done|by exists p'|intros _; split; [done|by exists p', (SendBlk k)]|intros _; by exists k|lia].
    - apply wp_ret. split; [by apply drv_step_id|]. split_and!; [done|by exists p|lia|lia|done]. }
  eapply wp_mono; [exact Hblk| |done]. intros b s1 [Hs1 Hl]. apply wp_bind.
  assert (Hfin : ∀ s2, drv_step s s2 → linked dir (priv b) (pscmap s2) →
    wp (if bool_decide (b = None) && (dir <=? 1) then throw (RuntimeError "PSC can't get block #")
        else ret (priv b)) (λ v s', drv_step s s' ∧ linked dir v (pscmap s')) (drv_step s) s2).
  { intros s2 Hs2 Hl2. case_if; [by apply wp_throw|by apply wp_ret]. }
  apply wp_when; intros _; [|by apply Hfin].
  destruct Hl as (_ & [p1 Hp1] & Hl). pose proof (ds_drivers _ _ Hs1) as Hd1.
  eapply wp_mono; [apply (base_call (priv None) _ s1 p1 (λ _ _, True)); [done..|]| |].
  - pose proof (ok_base p1 (Hd1 _ p1 Hp1)) as []. apply wp_modify. split; [|done]. by split.
  - intros _ s2 (Hs2 & p2 & Hp2 & _). apply Hfin; [by eapply drv_step_trans|].
    split_and!; [done|by exists p2| |apply Hl|apply Hl]. intros Hdir.
    eapply priv_there_later; [by apply Hl|apply Hs2].
  - intros s2 Hs2. by eapply drv_step_trans.
Qed.
End init.

(** ** Registers *)

Section registers.
Context {B P : Type} `{EvBufferLaws B} `{!PSCVirtual B P} `{!PSCVirtualLaws B P} `{!SafeDriver B P}.
Context `{Host} `{EpicsRecord}.
Hypothesis (stamps : ∀ t cr, epicsTime_of_stamp t ≠ Crash cr).

(** The common initialization, where the link makes the private data what it has to be. *)
Lemma init_record_returns {R} (c : kind (P:=P) R Priv) extra link info dir (s : devst R Priv P) :
  drivers_ok (pscmap s) → fields c (rec s) → dpvt s = None → (∀ r, fields c r → fields c (extra r)) →
  (∀ v m, linked dir v m → tied c (extra (rec s)) v m) →
  returns c (DevCommon.init_record true extra link info dir) s.
Proof.
  intros Hd Hf Hv Hx Ht. unfold DevCommon.init_record. apply wp_bind, wp_assert; [done|].
  apply wp_bind, wp_modify, CATCH_wp. apply wp_bind.
  set (s1 := set_rec _ s).
  assert (Hstep : ∀ com s', drv_step s1 s' →
    settled c (set_com com s') ∧ later (pscmap s) (pscmap s')).
  { intros com s' [Hd' Hl' ->]. split; [|done]. split; [done|by apply Hx|]. cbn. by rewrite Hv. }
  eapply wp_mono; [by apply parse_link_wp|..].
  - intros v s' [Hs' Hv']. apply wp_bind, wp_modify, wp_ret.
    destruct Hs' as [Hd' Hl' ->]. split; [|done]. split; [done|by apply Hx|].
    intros v' [= <-]. by apply Ht.
  - intros s' Hs' com. exact (Hstep com s' Hs').
Qed.

(** Records that are read from a block, and those that store into a block to send. *)
Definition reads_block R : kind (P:=P) R Priv :=
  priv_kind (λ _, True) (λ _ _, True) (λ _ _, True) (λ _ _ _ H _, H).
Definition writes_block R : kind (P:=P) R Priv :=
  priv_kind (λ _, True) (λ _ _, True) (λ _ v, to_send v) (λ _ _ _ H _, H).

Lemma reads_there R r v m : tied (reads_block R) r v m → priv_there v m.
Proof. by intros [? _]. Qed.
Lemma writes_there R r v m : tied (writes_block R) r v m → priv_there v m.
Proof. by intros [? _]. Qed.

Lemma writes_to_send R m v (s : devst R Priv P) : inside (writes_block R) m v s → to_send v.
Proof. intros (Hs & Hv & _). by destruct (st_tied _ _ Hs v Hv). Qed.

Lemma reads_init {R} dir extra link info (s : devst R Priv P) :
  dir = 0 ∨ dir = 1 → drivers_ok (pscmap s) → dpvt s = None →
  returns (reads_block R) (DevCommon.init_record true extra link info dir) s.
Proof.
  intros Hdir Hd Hv. apply init_record_returns; [done..|]. intros v m (_ & _ & Hl & _).
  split; [by apply Hl|done].
Qed.

Lemma writes_init {R} extra link info (s : devst R Priv P) :
  drivers_ok (pscmap s) → dpvt s = None →
  returns (writes_block R) (DevCommon.init_record true extra link info 1) s.
Proof.
  intros Hd Hv. apply init_record_returns; [done..|]. intros v m (_ & _ & Hl & Hs & _).
  split; [apply Hl; by right|by apply Hs].
Qed.

(** Changing a record with no fixed fields. *)
Lemma reads_set R m v r s : inside (reads_block R) m v s → inside (reads_block R) m v (set_rec r s).
Proof. intros Hs. by apply inside_rec. Qed.

Lemma read_binary_returns s : settled (reads_block binrec) s → returns (reads_block binrec) read_binary s.
Proof.
  intros Hs. apply processing_returns; [done|]. intros v m s1 Hs1. apply wp_bind.
  eapply wp_mono; [by apply (read_to_field_safe _ (reads_there _))| |done].
  intros x s2 Hs2. apply wp_bind, wp_get, wp_bind, wp_modify.
  apply (stamp_then _ (reads_there _) stamps). by apply reads_set.
Qed.

Lemma read_to_val_returns w s : settled (reads_block valrec) s → returns (reads_block valrec) (read_to_val w) s.
Proof.
  intros Hs. apply processing_returns; [done|]. intros v m.
  apply (field_then _ (reads_there _) stamps m v w 0 (λ x _, ValRec (wrapS (bits w) x))).
  intros x s1 Hs1. by apply reads_set.
Qed.

Lemma read_ai_returns s : settled (reads_block airec) s → returns (reads_block airec) read_ai s.
Proof.
  intros Hs. apply processing_returns; [done|]. intros v m.
  apply (field_then _ (reads_there _) stamps m v W4 0 (λ x, set_ai_rval (s32 x))).
  intros x s1 Hs1. by apply reads_set.
Qed.

Lemma read_ai_float_returns k s :
  settled (reads_block airec) s → returns (reads_block airec) (read_ai_float k) s.
Proof.
  intros Hs. apply processing_returns; [done|]. intros v m s1 Hs1. apply wp_bind.
  eapply wp_mono; [by apply (read_to_field_safe _ (reads_there _))| |done].
  intros x s2 Hs2. apply wp_bind, wp_modify, wp_bind, wp_modify.
  apply (stamp_then _ (reads_there _) stamps). apply inside_com. by apply reads_set.
Qed.

(** Processing that ends with a store into the block. *)
Lemma store_then R m v w (x : R → Z) :
  safe (writes_block R) m v (s <- get ;; write_from_field w v (x (rec s)) ;;; ret (Status 0)).
Proof.
  intros s Hs. apply wp_bind, wp_get, wp_bind.
  eapply wp_mono; [apply (write_from_field_safe _ (writes_there _)); [by eapply writes_to_send|done]| |done].
  intros [] s' Hs'. by apply wp_ret.
Qed.

Lemma write_from_val_returns w s :
  settled (writes_block valrec) s → returns (writes_block valrec) (write_from_val w) s.
Proof.
  intros Hs. apply processing_returns; [done|]. intros v m.
  apply (store_then valrec m v w (λ r, wrapU (bits w) (val r))).
Qed.

Lemma write_ao_returns s : settled (writes_block airec) s → returns (writes_block airec) write_ao s.
Proof.
  intros Hs. apply processing_returns; [done|]. intros v m.
  apply (store_then airec m v W4 (λ r, u32 (ai_rval r))).
Qed.

Lemma write_ao_float_returns k s :
  settled (writes_block airec) s → returns (writes_block airec) (write_ao_float k) s.
Proof.
  intros Hs. apply processing_returns; [done|]. intros v m.
  apply (store_then airec m v (fsize k)
    (λ r, to_bits (fformat k) (round_to (fformat k) (analogEGU2Raw (conv r) (ai_val r))))).
Qed.

Lemma write_binary_returns s : settled (writes_block binrec) s → returns (writes_block binrec) write_binary s.
Proof.
  intros Hs. apply processing_returns; [done|]. intros v m s1 Hs1. apply wp_bind, wp_get, wp_bind.
  assert (Hput : ∀ x s2, inside (writes_block binrec) m v s2 →
    wp (write_from_field W4 v x ;;; ret (Status 0)) (λ _, inside (writes_block binrec) m v)
      (inside (writes_block binrec) m v) s2).
  { intros x s2 Hs2. apply wp_bind.
    eapply wp_mono; [apply (write_from_field_safe _ (writes_there _)); [by eapply writes_to_send|done]| |done].
    intros [] s3 Hs3. by apply wp_ret. }
  case_if; [|apply wp_ret; by apply Hput]. apply wp_bind.
  eapply wp_mono; [by apply (read_to_field_safe _ (writes_there _))| |done].
  intros x s2 Hs2. apply wp_ret. by apply Hput.
Qed.
End registers.

(** ** Single registers *)

Section single.
Context {B P : Type} `{EvBufferLaws B} `{!PSCVirtual B P} `{!PSCVirtualLaws B P} `{!SafeDriver B P}.
Context `{Host} `{EpicsRecord}.
Import DevSingle.

(** A record without SYNC has no block and is never processed by its own callback. *)
Definition no_sync (v : SinglePriv) (m : gmap string P) : Prop :=
  driver_there (psc (spriv v)) m ∧ block (spriv v) = None ∧ syncNow v = false.

Definition single_kind R : kind (P:=P) R SinglePriv.
Proof.
  refine (Kind (λ _, True) (λ _ _, True) (λ _ v m, no_sync v m) _ _).
  - intros r v m m' (Hd & ? & ?) Hl. split_and!; [by eapply driver_there_later|done..].
  - done.
Defined.

Definition not_same (info : option (string → option string)) : Prop :=
  ∀ tags, info = Some tags → tags "SYNC"%string ≠ Some "SAME"%string.

Lemma init_single_returns {R} fn user extra link info (s : devst R SinglePriv P) :
  not_same info → drivers_ok (pscmap s) → dpvt s = None →
  returns (single_kind R) (init_single fn user extra true link info) s.
Proof.
  intros Hn Hd Hv. unfold init_single, DevSingle.init_output. apply wp_bind, wp_assert; [done|].
  apply wp_bind, wp_modify, CATCH_wp. set (s1 := set_rec _ s).
  assert (Hstep : ∀ com s', drv_step s1 s' → settled (single_kind R) (set_com com s') ∧ later (pscmap s) (pscmap s')).
  { intros com s' [Hd' Hl' ->]. split; [|done]. split; [done..|]. cbn. by rewrite Hv. }
  destruct info as [tags|].
  2:{ apply wp_throw. intros com. apply (Hstep com s1). by apply drv_step_id. }
  rewrite (bool_decide_eq_false_2 (tags "SYNC"%string = _)) by by apply Hn. apply wp_bind.
  eapply wp_mono; [by apply (parse_link_wp link (Some tags) 2 s1)| |].
  - intros v s2 [Hs2 (_ & Ht & _ & _ & Hb)]. specialize (Hb eq_refl). rewrite Hb.
    apply wp_bind, wp_ret, wp_bind, wp_modify, wp_ret. destruct Hs2 as [Hd2 Hl2 ->]. split; [|done].
    split; [done..|]. by intros v' [= <-].
  - intros s2 Hs2 com. exact (Hstep com s2 Hs2).
Qed.

Lemma write_msg_safe {R} m v w pad x (s : devst R SinglePriv P) :
  inside (single_kind R) m v s → zlen pad ≤ 2 ^ 31 →
  wp (write_msg w (spriv v) pad x) (λ _, inside (single_kind R) m v) (inside (single_kind R) m v) s.
Proof.
  intros Hi Hpad. pose proof Hi as (Hs & Hv & _). destruct (st_tied _ _ Hs v Hv) as ([p Hp] & _ & _).
  unfold write_msg. apply wp_bind. eapply isConnected_wp; [exact Hp|].
  case_if; bool_to_prop; [by apply wp_throw|].
  apply (call_safe (single_kind R) m v _ _ s p); [done..|].
  apply ok_queue_id; [by eapply lookup_ok|done|].
  rewrite !zlen_app. unfold zlen at 1 3. rewrite !length_host_bytes, zlen_ztake.
  pose proof (sizeof_pos w). cbn [sizeof]. lia.
Qed.

(** A write that is not part of a synchronization. *)
Lemma single_write {R} m v w pad (x : devst R SinglePriv P → Z) sync
    (k : M (devst R SinglePriv P) dev_status) :
  zlen pad ≤ 2 ^ 31 → safe (single_kind R) m v k →
  safe (single_kind R) m v (s <- get ;;
    (if negb (syncNow v) then write_msg w (spriv v) pad (x s) else sync s) ;;; k).
Proof.
  intros Hpad Hk s Hs. apply wp_bind, wp_get, wp_bind.
  assert (Hn : syncNow v = false) by (destruct Hs as (Hs & Hv & _); by destruct (st_tied _ _ Hs v Hv) as (_ & _ & ?)).
  rewrite Hn. cbn [negb].
  eapply wp_mono; [by apply write_msg_safe| |done]. intros [] s' Hs'. by apply Hk.
Qed.

Lemma ret_safe {R V A} (c : kind (P:=P) R V) m v (a : A) : safe c m v (ret a).
Proof. intros s Hs. by apply wp_ret. Qed.

Lemma write_msg_val_returns w pad s :
  zlen pad ≤ 2 ^ 31 → settled (single_kind valrec) s → returns (single_kind valrec) (write_msg_val w pad) s.
Proof.
  intros Hpad Hs. apply processing_returns; [done|]. intros v m.
  apply (single_write m v w pad (λ s, wrapU (bits w) (val (rec s)))); [done|].
  intros s1 Hs1. apply wp_bind, wp_modify, wp_ret. by apply inside_com.
Qed.

Lemma write_msg_rval_returns s :
  settled (single_kind airec) s → returns (single_kind airec) write_msg_rval s.
Proof.
  intros Hs. apply processing_returns; [done|]. intros v m.
  apply (single_write m v W4 [] (λ s, u32 (ai_rval (rec s)))); [done|apply ret_safe].
Qed.

Lemma write_msg_binary_rval_returns s :
  settled (single_kind binrec) s → returns (single_kind binrec) write_msg_binary_rval s.
Proof.
  intros Hs. apply processing_returns; [done|]. intros v m.
  apply (single_write m v W4 [] (λ s, if negb (mask (rec s) =? 0) then Z.land (rval (rec s)) (mask (rec s)) else rval (rec s)));
    [done|apply ret_safe].
Qed.

Lemma write_msg_val_ao_returns k pad s :
  zlen pad ≤ 2 ^ 31 → settled (single_kind airec) s → returns (single_kind airec) (write_msg_val_ao k pad) s.
Proof.
  intros Hpad Hs. apply processing_returns; [done|]. intros v m.
  apply (single_write m v (fsize k) pad (λ s, to_bits (fformat k)
    (round_to (fformat k) (analogEGU2Raw (conv (rec s)) (ai_val (rec s)))))); [done|apply ret_safe].
Qed.
End single.

(** ** Waveforms *)

Section waveforms.
Context {B P : Type} `{EvBufferLaws B} `{!PSCVirtual B P} `{!PSCVirtualLaws B P} `{!SafeDriver B P}.
Context `{Host} `{EpicsRecord}.
Hypothesis (stamps : ∀ t cr, epicsTime_of_stamp t ≠ Crash cr).
Import DevWf.

(** Queueing for the block of a connected record. *)
Lemma queue_block_safe {R} (c : kind (P:=P) R Priv) m v buf s p :
  (∀ r v m, tied c r v m → priv_there v m) →
  inside c m v s → pscmap s !! psc v = Some p → connected (psc_base p) = true → to_send v →
  zlen buf < 2 ^ 32 - 8 →
  wp (queue_block v buf) (λ _, inside c m v) (inside c m v) s.
Proof.
  intros Hc Hs Hp Hconn [k Hk] Hl. unfold queue_block. rewrite Hk. apply (call_safe c m v _ _ s p); [done..|].
  destruct (inside_there c Hc m v s Hs) as (_ & p' & b & Hp' & Hb & Ht). simplify_eq.
  apply ok_queue_buf; [by eapply lookup_ok; [apply Hs|]|done..].
Qed.

(** Size of an array element, where it is known here. *)
Definition array_ok (r : wfrec) : Prop :=
  0 < nelm r < 2 ^ 29 - 1 ∧ 0 ≤ nord r ≤ nelm r ∧
  match ftvl r with
  | menuFtypeDOUBLE => zlen (bptr r) = 8 * nelm r
  | menuFtypeCHAR | menuFtypeUCHAR => zlen (bptr r) = nelm r
  | OtherFtype => True
  end.

Definition same_array (r r' : wfrec) : Prop := ftvl r' = ftvl r ∧ nelm r' = nelm r.

Definition wf_kind (numbers out : bool) : kind (P:=P) wfrec Priv.
Proof.
  refine (priv_kind array_ok same_array
    (λ r v, (if numbers then ftvl r = menuFtypeDOUBLE
             else ftvl r = menuFtypeCHAR ∨ ftvl r = menuFtypeUCHAR) ∧
            (if out then to_send v else True)) _).
  intros r r' v [Hf ?] [E _]. split; [|done]. by destruct numbers; rewrite E.
Defined.

Lemma wf_there numbers out r v m : tied (wf_kind numbers out) r v m → priv_there v m.
Proof. by intros [? _]. Qed.

Lemma wf_init_returns numbers (out : bool) link info (s : devst wfrec Priv P) :
  drivers_ok (pscmap s) → array_ok (rec s) → dpvt s = None →
  returns (wf_kind numbers out)
    ((if numbers then init_wf_record else init_wf_record_bytes) (if out then 1 else 0) true link info) s.
Proof.
  intros Hd Hf Hv.
  assert (Hno : settled (wf_kind numbers out) s) by (split; [done..|]; by rewrite Hv).
  destruct numbers; apply wp_bind, wp_assert; try done; apply wp_bind, wp_get; case_if;
    try (by apply wp_ret); apply init_record_returns; try done; intros v m (_ & _ & Hl & Hs & _);
    bool_to_prop; (split; [apply Hl; destruct out; auto|]); (split; [|destruct out; auto]).
  - by apply bool_decide_eq_true in Heqb.
  - destruct (bool_decide_reflect (ftvl (rec s) = menuFtypeCHAR)); [by left|].
    destruct (bool_decide_reflect (ftvl (rec s) = menuFtypeUCHAR)); [by right|done].
Qed.

(** What a waveform knows during its processing. *)
Lemma wf_inside numbers out m v s :
  inside (wf_kind numbers out) m v s →
  priv_there v (pscmap s) ∧ 0 < nelm (rec s) < 2 ^ 29 - 1 ∧ 0 ≤ nord (rec s) ≤ nelm (rec s) ∧
  zlen (bptr (rec s)) = (if numbers then 8 else 1) * nelm (rec s) ∧ (out = true → to_send v).
Proof.
  intros ([_ (Hn & Ho & Hb) Ht] & Hv & _). destruct (Ht v Hv) as [Hp [Hf Hx]].
  split_and!; [done|lia..| |by intros ->].
  destruct numbers; [by rewrite Hf in Hb|destruct Hf as [Hf|Hf]; rewrite Hf in Hb; lia].
Qed.

Lemma if_connected_safe numbers out m v (k : M (devst wfrec Priv P) dev_status) :
  (∀ s p, inside (wf_kind numbers out) m v s → pscmap s !! psc v = Some p → connected (psc_base p) = true →
     wp k (λ _, inside (wf_kind numbers out) m v) (inside (wf_kind numbers out) m v) s) →
  safe (wf_kind numbers out) m v (if_connected v k).
Proof.
  intros Hk s Hs. destruct (inside_driver _ (wf_there _ _) m v s Hs) as (p & Hp & _).
  apply wp_bind. eapply isConnected_wp; [exact Hp|]. case_if; bool_to_prop; [|by eapply Hk].
  apply wp_bind. eapply wp_mono; [by apply setSevr_safe| |done]. intros [] s' Hs'. by apply wp_ret.
Qed.

(** Setting the bytes of the array, or the number of elements. *)
Lemma inside_bptr numbers out m v mem s :
  inside (wf_kind numbers out) m v s → zlen mem = zlen (bptr (rec s)) →
  inside (wf_kind numbers out) m v (set_rec (set_bptr mem (rec s)) s).
Proof.
  intros Hs Hm. apply inside_rec; [done| |done]. destruct Hs as ([_ (Hn & Ho & Hb) _] & _).
  split; [done|]. split; [done|]. cbn. by rewrite Hm.
Qed.

Lemma inside_nord numbers out m v n s :
  inside (wf_kind numbers out) m v s → 0 ≤ n ≤ nelm (rec s) →
  inside (wf_kind numbers out) m v (set_rec (set_nord n (rec s)) s).
Proof.
  intros Hs Hm. apply inside_rec; [done| |done]. destruct Hs as ([_ (Hn & Ho & Hb) _] & _).
  split; [done|]. by split.
Qed.

Lemma store_safe numbers out m v bs s :
  inside (wf_kind numbers out) m v s → zlen bs ≤ zlen (bptr (rec s)) →
  wp (store 0 bs) (λ _ s', inside (wf_kind numbers out) m v s' ∧ nelm (rec s') = nelm (rec s))
    (inside (wf_kind numbers out) m v) s.
Proof.
  intros Hs Hb. eapply wp_run; [by apply store_fits|]. split; [|done]. apply inside_bptr; [done|].
  apply zlen_zblit; lia.
Qed.

(** The end of a waveform that was read. *)
Lemma nord_then numbers out m v n s :
  inside (wf_kind numbers out) m v s → 0 ≤ n ≤ nelm (rec s) →
  wp (modify (λ s, set_rec (set_nord n (rec s)) s) ;;; setRecTimestamp v ;;; ret (Status 0))
    (λ _, inside (wf_kind numbers out) m v) (inside (wf_kind numbers out) m v) s.
Proof.
  intros Hs Hn. apply wp_bind, wp_modify. apply (stamp_then _ (wf_there _ _) stamps). by apply inside_nord.
Qed.

Lemma read_wf_bytes_returns s :
  settled (wf_kind false false) s → returns (wf_kind false false) read_wf_bytes s.
Proof.
  intros Hs. apply processing_returns; [done|]. intros v m. apply if_connected_safe.
  intros s1 p Hs1 _ _. destruct (wf_inside _ _ _ _ _ Hs1) as (Ht & Hn & Ho & Hb & _).
  apply wp_bind, wp_get, wp_bind. eapply the_block_wp; [apply Hs1|done|]. intros b Hk _. apply wp_bind.
  assert (Hu : u64 (nelm (rec s1) + 0) ≠ 0) by (rewrite wrapU_small; lia).
  pose proof (copyout_shape_bounds (data b) (offset v) (nelm (rec s1)) 0 1 (proj1 Hk) (proj1 Ht)) as Hc.
  unfold dbuffer_copyout.
  destruct (dbuffer_copyout_shape _ _ _ _ _) as [[cnt bs]|e|cr];
    [|destruct Hc; lia|by destruct Hc as [_ ?]; [lia..|]].
  destruct Hc as [_ Hl]; [lia..|].
  apply wp_lift, wp_bind. eapply wp_mono; [apply (store_safe false false m v bs s1 Hs1); cbn; lia| |done].
  intros [] s2 [Hs2 En]. apply nord_then; [done|]. cbn. case_if; lia.
Qed.

Lemma read_wf_real_returns t s :
  settled (wf_kind true false) s → returns (wf_kind true false) (read_wf_real t) s.
Proof.
  intros Hs. apply processing_returns; [done|]. intros v m. apply if_connected_safe.
  intros s1 p Hs1 _ _. destruct (wf_inside _ _ _ _ _ Hs1) as (Ht & Hn & Ho & Hb & _).
  apply wp_bind, wp_get.
  pose proof (esz_range t) as Hz. fold (esz t).
  set (stp := if negb (step v =? 0) then u64 (step v) else esz t). cbv zeta.
  set (skip := if stp >=? esz t then stp - esz t else 0).
  assert (0 ≤ skip ∧ u64 (esz t + skip) ≠ 0) as [Hskip Hu].
  { assert (0 ≤ stp < 2 ^ 64).
    { subst stp. pose proof (wrapU_range 64 (step v)). case_if; lia. }
    subst skip. destruct (stp >=? esz t) eqn:E; bool_to_prop; split; rewrite ?wrapU_small; lia. }
  apply wp_bind. eapply the_block_wp; [apply Hs1|done|]. intros b Hk _. apply wp_bind.
  eapply copyout_wp; [exact Hs1|exact Hk|apply Ht|lia|exact Hskip|lia|exact Hu|].
  intros cnt bs Hcnt Hbs. cbn [fst snd]. apply wp_bind.
  eapply wp_mono; [apply (store_safe true false m v bs s1 Hs1); nia| |done].
  intros [] s2 [Hs2 En]. apply wp_bind.
  destruct (wf_inside _ _ _ _ _ Hs2) as (_ & _ & _ & Hb2 & _).
  destruct (expand_spec t (Z.to_nat cnt) s2) as (mem & E & [Hl _]); [lia|].
  eapply wp_run; [exact E|]. apply nord_then; [by apply inside_bptr|]. cbn [rec nelm set_rec set_bptr]. lia.
Qed.

(** Elements of a type that [double] is always converted to. *)
Definition converts (t : elem) : bool := match t with E32 | E64 => true | _ => false end.

Lemma to_vector_total t mem n i :
  converts t = true →
  ∃ to, to_vector t mem i n = Some to ∧ zlen to = Z.of_nat n * esz t.
Proof.
  intros Ht. revert i. induction n as [|n IH]; intros i; cbn [to_vector]; [by exists []|].
  destruct (IH (i + 1)) as (to & E & Hl).
  assert (Hv : is_Some (narrow t (host_val (zslice (i * 8) 8 mem)))) by (by destruct t).
  destruct Hv as [x Hx]. rewrite Hx. cbn. rewrite E. cbn. eexists. split; [done|].
  rewrite zlen_app, Hl. unfold zlen at 1. rewrite length_host_bytes. unfold esz. lia.
Qed.

Lemma write_wf_returns t s :
  converts t = true → settled (wf_kind true true) s → returns (wf_kind true true) (write_wf t) s.
Proof.
  intros Ht Hs. apply processing_returns; [done|]. intros v m s1 Hs1. apply wp_bind, wp_get.
  destruct (wf_inside _ _ _ _ _ Hs1) as (_ & Hn & Ho & _ & Hx).
  destruct (to_vector_total t (bptr (rec s1)) (Z.to_nat (nord (rec s1))) 0 Ht) as (to & -> & Hl).
  apply if_connected_safe; [|done]. intros s2 p Hs2 Hp Hc. apply wp_bind.
  pose proof (esz_range t).
  eapply wp_mono; [eapply queue_block_safe; [apply wf_there|done..|by apply Hx|nia]| |done].
  intros [] s3 Hs3. by apply wp_ret.
Qed.

Lemma write_wf_bytes_returns s :
  settled (wf_kind false true) s → returns (wf_kind false true) write_wf_bytes s.
Proof.
  intros Hs. apply processing_returns; [done|]. intros v m. apply if_connected_safe.
  intros s1 p Hs1 Hp Hc. destruct (wf_inside _ _ _ _ _ Hs1) as (_ & Hn & Ho & Hb & Hx).
  apply wp_bind, wp_get, wp_bind.
  eapply wp_mono; [eapply queue_block_safe; [apply wf_there|done..|by apply Hx|]| |done].
  - rewrite zlen_ztake. lia.
  - intros [] s2 Hs2. by apply wp_ret.
Qed.
End waveforms.

(** ** Strings and control records *)

Section others.
Context {B P : Type} `{EvBufferLaws B} `{!PSCVirtual B P} `{!PSCVirtualLaws B P} `{!SafeDriver B P}.
Context `{Host} `{EpicsRecord}.
Hypothesis (stamps : ∀ t cr, epicsTime_of_stamp t ≠ Crash cr).
Import DevString DevCtrl.

Definition so_kind : kind (P:=P) strrec Priv :=
  priv_kind (λ r, zlen (sval r) = MAX_STRING_SIZE) (λ _ _, True) (λ _ v, to_send v) (λ _ _ _ H _, H).

Lemma so_there r v m : tied so_kind r v m → priv_there v m.
Proof. by intros [? _]. Qed.

Lemma so_init_returns link info (s : devst strrec Priv P) :
  drivers_ok (pscmap s) → zlen (sval (rec s)) = MAX_STRING_SIZE → dpvt s = None →
  returns so_kind (init_so_record true link info) s.
Proof.
  intros Hd Hf Hv. apply init_record_returns; [done..|]. intros v m (_ & _ & Hl & Hs & _).
  split; [apply Hl; by right|by apply Hs].
Qed.

Lemma assign_flat buf (d : dbuffer B) : zlen buf < 2 ^ 32 - 8 → flat_body (dbuffer_assign buf d).
Proof.
  intros Hl. split; [done|]. split; [apply dbuffer_wf_assign|]. unfold dbuffer_assign, dbuffer_size.
  cbn. pose proof (zlen_nonneg buf).
  rewrite zlen_zblit; rewrite ?zlen_zresize; lia.
Qed.

Lemma write_so_returns s : settled so_kind s → returns so_kind write_so s.
Proof.
  intros Hs. apply processing_returns; [done|]. intros v m s1 Hs1.
  destruct (inside_driver _ so_there m v s1 Hs1) as (p & Hp & _).
  assert (Hsend : to_send v) by (destruct Hs1 as (Hs1 & Hv & _); apply (st_tied _ _ Hs1 v Hv)).
  apply wp_bind. eapply isConnected_wp; [exact Hp|]. case_if; bool_to_prop.
  { apply wp_bind. eapply wp_mono; [by apply setSevr_safe| |done]. intros [] s2 Hs2. by apply wp_ret. }
  apply wp_bind, wp_get. cbv zeta. set (text := ztake (strnlen (sval (rec s1)) MAX_STRING_SIZE) (sval (rec s1))).
  assert (Ht : zlen text < 2 ^ 32 - 8).
  { subst text. rewrite zlen_ztake. destruct Hs1 as ([_ Hf _] & _). cbn in Hf. unfold MAX_STRING_SIZE in *. lia. }
  apply wp_bind. eapply wp_mono; [by eapply queue_block_safe; [apply so_there|..]| |done].
  intros [] s2 Hs2. apply wp_bind. pose proof (inside_there _ so_there m v s2 Hs2) as Hth.
  eapply the_block_wp; [apply Hs2|done|]. intros b _ _. apply wp_bind. destruct Hsend as [k Hk].
  eapply wp_mono; [by eapply put_data_safe; [..|apply assign_flat]| |done]. intros [] s3 Hs3. by apply wp_ret.
Qed.

(** Records of a driver: the private data is its name. *)
Definition of_driver R : kind (P:=P) R string.
Proof.
  refine (Kind (λ _, True) (λ _ _, True) (λ _ n m, driver_there n m) _ _); [|done].
  intros r n m m'. apply driver_there_later.
Defined.

Lemma init_ctrl_returns {R} link (s : devst R string P) :
  drivers_ok (pscmap s) → dpvt s = None → returns (of_driver R) (init_common link) s.
Proof.
  intros Hd Hv. apply wp_bind, wp_get, wp_bind, wp_modify, wp_ret. split; [|done]. split; [done..|].
  intros n. cbn. destruct (pscmap s !! link) as [p|] eqn:E; [|done]. intros [= <-]. by exists p.
Qed.

Lemma ctrl_iointr_wp {R} which (s : devst R string P) :
  wp (DevCtrl.get_iointr_info which) (λ _ s', s' = s) (λ _, False) s.
Proof. apply wp_bind, wp_get. by destruct (dpvt s); apply wp_ret. Qed.

Lemma of_driver_there {R} m n (s : devst R string P) :
  inside (of_driver R) m n s → ∃ p, pscmap s !! psc (as_priv n) = Some p ∧ driver_ok p.
Proof.
  intros (Hs & Hv & _). destruct (st_tied _ _ Hs n Hv) as [p Hp]. exists p. split; [done|].
  by apply (st_drivers _ _ Hs n p).
Qed.

(** Showing something of the driver. *)
Lemma shown {R A} m n (f : P → A) (g : A → R) :
  safe (of_driver R) m n (a <- on_psc (as_priv n) (gets f) ;; modify (λ s, set_rec (g a) s) ;;; ret (Status 0)).
Proof.
  intros s Hs. destruct (of_driver_there m n s Hs) as (p & Hp & _). apply wp_bind.
  eapply on_psc_gets_wp; [exact Hp|]. apply wp_bind, wp_modify, wp_ret. by apply inside_rec.
Qed.

Lemma read_bi_connected_returns s :
  settled (of_driver binrec) s → returns (of_driver binrec) read_bi_connected s.
Proof.
  intros Hs. apply processing_returns; [done|]. intros n m s1 Hs1.
  destruct (of_driver_there m n s1 Hs1) as (p & Hp & _). apply wp_bind.
  eapply on_psc_gets_wp; [exact Hp|]. apply wp_bind, wp_modify, wp_ret. by apply inside_rec.
Qed.

Lemma read_counter_returns f s :
  settled (of_driver valrec) s → returns (of_driver valrec) (read_counter f) s.
Proof.
  intros Hs. apply processing_returns; [done|]. intros n m.
  apply (shown m n (λ p, f (psc_base p)) (λ x, ValRec (s32 x))).
Qed.

(** A command to the driver. *)
Lemma commanded {R} m n (k : M P unit) s p :
  inside (of_driver R) m n s → pscmap s !! psc (as_priv n) = Some p → call_ok driver_type driver_ok k p →
  wp (on_psc (as_priv n) k ;;; ret (Status 0)) (λ _, inside (of_driver R) m n) (inside (of_driver R) m n) s.
Proof.
  intros Hs Hp Hk. apply wp_bind. eapply wp_mono; [by apply (call_safe (of_driver R) m n _ _ s p)| |done].
  intros [] s' Hs'. by apply wp_ret.
Qed.

Lemma write_force_reconnect_returns s :
  settled (of_driver binrec) s → returns (of_driver binrec) write_force_reconnect s.
Proof.
  intros Hs. apply processing_returns; [done|]. intros n m s1 Hs1.
  destruct (of_driver_there m n s1 Hs1) as (p & Hp & Hok). apply (commanded m n _ s1 p); [done..|].
  by apply ok_force.
Qed.

(** Either an alarm or a command. *)
Lemma alarm_or {R} m n (b : bool) st (k : M P unit) s p :
  inside (of_driver R) m n s → pscmap s !! psc (as_priv n) = Some p → call_ok driver_type driver_ok k p →
  wp ((if b then setSevr st INVALID_ALARM else on_psc (as_priv n) k) ;;; ret (Status 0))
    (λ _, inside (of_driver R) m n) (inside (of_driver R) m n) s.
Proof.
  intros Hs Hp Hk. destruct b; [|by eapply commanded].
  apply wp_bind. eapply wp_mono; [by apply setSevr_safe| |done]. intros [] s2 Hs2. by apply wp_ret.
Qed.

Lemma write_bo_send_changed_returns s :
  settled (of_driver binrec) s → returns (of_driver binrec) write_bo_send_changed s.
Proof.
  intros Hs. apply processing_returns; [done|]. intros n m s1 Hs1.
  destruct (of_driver_there m n s1 Hs1) as (p & Hp & Hok). apply wp_bind.
  eapply on_psc_gets_wp; [exact Hp|]. apply (alarm_or m n _ _ _ s1 p); [done..|by apply ok_flush].
Qed.

Lemma PSCBase_send_ok id (p : P) : driver_ok p → call_ok driver_type driver_ok (PSCBase_send id) p.
Proof.
  intros Hp. apply wp_bind, wp_get. destruct (send_blocks (psc_base p) !! id) as [b|] eqn:E; [|by apply wp_ret].
  apply ok_queue_dbuffer; [done|by exists b|]. apply (bo_send _ (ok_base p Hp) id b E).
Qed.

Lemma write_lo_send_block_returns s :
  settled (of_driver valrec) s → returns (of_driver valrec) write_lo_send_block s.
Proof.
  intros Hs. apply processing_returns; [done|]. intros n m s1 Hs1.
  destruct (of_driver_there m n s1 Hs1) as (p & Hp & Hok). apply wp_bind, wp_get.
  apply (alarm_or m n _ _ _ s1 p); [done..|by apply PSCBase_send_ok].
Qed.

(** The message counter of a block. *)
Lemma init_count_returns link (s : devst valrec Priv P) :
  drivers_ok (pscmap s) → dpvt s = None → returns (reads_block valrec) (init_count true link) s.
Proof.
  intros Hd Hv. apply wp_bind, wp_assert; [done|]. apply CATCH_wp.
  assert (Hstep : ∀ com s', drv_step s s' →
    settled (reads_block valrec) (set_com com s') ∧ later (pscmap s) (pscmap s')).
  { intros com s' [Hd' Hl' ->]. split; [|done]. split; [done..|]. cbn. by rewrite Hv. }
  pose proof (λ com, Hstep com s (drv_step_id s Hd)) as Hsame.
  destruct (parse_count link) as [[[name blk] dir]|]; [|by apply wp_throw].
  apply wp_bind, wp_get. destruct (pscmap s !! name) as [p|] eqn:Ep; [|by apply wp_throw].
  pose proof (ok_base p (Hd _ p Ep)) as Hb. apply wp_bind.
  assert (Hfin : ∀ b s', drv_step s s' → (∃ p', pscmap s' !! name = Some p' ∧ block_there b p') →
    wp (modify (set_dpvt (Some (MkPriv name (u16 blk) (Some b) 0 0 false 0))) ;;; ret (Status 0))
      (λ _ s', settled (reads_block valrec) s' ∧ later (pscmap s) (pscmap s'))
      (λ s', ∀ com, settled (reads_block valrec) (set_com com s') ∧ later (pscmap s) (pscmap (set_com com s'))) s').
  { intros b s' [Hd' Hl' ->] (p' & Hp' & Hbt). apply wp_bind, wp_modify, wp_ret. split; [|done].
    split; [done..|]. intros v [= <-]. split; [|done]. split; [done|]. by exists p', b. }
  assert (Hthrow : ∀ s', drv_step s s' →
    ∀ com, settled (reads_block valrec) (set_com com s') ∧ later (pscmap s) (pscmap (set_com com s'))).
  { intros s' Hs' com. exact (Hstep com s' Hs'). }
  case_if; [|case_if; [|by apply wp_throw]]; apply wp_bind.
  - eapply wp_mono; [apply (base_call (as_priv name) _ s p); [done..|by apply getRecv_wp]| |exact Hthrow].
    intros k s' (Hs' & p' & Hp' & _ & Hk). apply wp_ret, Hfin; [done|]. by exists p'.
  - eapply wp_mono; [apply (base_call (as_priv name) _ s p); [done..|by apply getSend_wp]| |exact Hthrow].
    intros k s' (Hs' & p' & Hp' & _ & Hk). apply wp_ret, Hfin; [done|]. by exists p'.
Qed.

Lemma read_block_count_returns s :
  settled (reads_block valrec) s → returns (reads_block valrec) read_block_count s.
Proof.
  intros Hs. apply processing_returns; [done|]. intros v m s1 Hs1. apply wp_bind.
  eapply the_block_wp; [apply Hs1|by eapply inside_there; [apply reads_there|]|]. intros b _ _.
  apply wp_bind, wp_modify, wp_ret. by apply reads_set.
Qed.
End others.

(** ** All of them *)

Section all.
Context {B P : Type} `{EvBufferLaws B} `{!PSCVirtual B P} `{!PSCVirtualLaws B P} `{!SafeDriver B P}.
Context `{Host} `{EpicsRecord}.

(** A support of the tables, with the kind of its records and the links, tags and drivers it
    can be used with. *)
Record support := Support {
  S_rec : Type;
  S_priv : Type;
  S_lists : Type;
  S_dset : dset P S_rec S_priv S_lists;
  S_kind : kind (P:=P) S_rec S_priv;
  S_use : string → option (string → option string) → gmap string P → Prop;
}.

Definition any_use (link : string) (info : option (string → option string)) (m : gmap string P) : Prop := True.
Definition no_same (link : string) (info : option (string → option string)) (m : gmap string P) : Prop :=
  not_same info.

(** Supports that read a block, store into one, or send single messages; waveforms; and
    records of a driver. *)
Definition reading_supports : list support :=
  let rd R (d : dset P R Priv block_ptr) := Support R Priv block_ptr d (reads_block R) any_use in
  [
    rd binrec devPSCRegBi; rd binrec devPSCRegMbbi; rd binrec devPSCRegMbbiDirect;
    rd valrec devPSCRegLi; rd valrec devPSCRegI64i; rd airec devPSCRegAi;
    rd airec devPSCRegF32Ai; rd airec devPSCRegF64Ai; rd binrec devPSCRegRBBi;
    rd binrec devPSCRegRBMbbi; rd binrec devPSCRegRBMbbiDirect; rd valrec devPSCRegRBLi;
    rd valrec devPSCRegRBI64i; rd airec devPSCRegRBAi; rd airec devPSCRegRBF32Ai;
    rd airec devPSCRegRBF64Ai ].

Definition writing_supports : list support :=
  let wr R (d : dset P R Priv block_ptr) := Support R Priv block_ptr d (writes_block R) any_use in
  [
    wr binrec devPSCRegBo; wr binrec devPSCRegMbbo; wr binrec devPSCRegMbboDirect;
    wr valrec devPSCRegLo; wr valrec devPSCRegI64o; wr airec devPSCRegAo;
    wr airec devPSCRegF32Ao; wr airec devPSCRegF64Ao ].

Definition single_supports (fn user : Z) (pad : list byte) : list support :=
  let sg R (d : dset P R DevSingle.SinglePriv block_ptr) :=
    Support R DevSingle.SinglePriv block_ptr d (single_kind R) no_same in
  [
    sg binrec (devPSCSingleU32Bo fn user); sg binrec (devPSCSingleU32Mbbo fn user);
    sg binrec (devPSCSingleU32MbboDirect fn user);
    sg valrec (devPSCSingleS32Lo fn user pad); sg valrec (devPSCSingleS64I64o fn user pad);
    sg airec (devPSCSingleS32Ao fn user); sg airec (devPSCSingleF32Ao fn user pad);
    sg airec (devPSCSingleF64Ao fn user pad) ].

Definition wf_supports : list support :=
  let wf d numbers out := Support DevWf.wfrec Priv block_ptr d (wf_kind numbers out) any_use in
  [
    wf devPSCBlockInWf8 false false; wf devPSCBlockInWf16 true false;
    wf devPSCBlockInWf32 true false; wf devPSCBlockInWfF32 true false;
    wf devPSCBlockInWfF64 true false; wf devPSCBlockOutWf8 false true;
    wf devPSCBlockOutWfF32 true true; wf devPSCBlockOutWfF64 true true ].

Definition ctrl_supports : list support :=
  let ct R (d : dset P R string DevCtrl.psc_scan) :=
    Support R string DevCtrl.psc_scan d (of_driver R) any_use in
  [
    ct binrec devPSCConnectedBi; ct binrec devPSCOnConnectBi; ct binrec devPSCSendAllBo;
    ct binrec devPSCForceReConn; ct valrec devPSCSendLo; ct valrec devPSCUknCountLi;
    ct valrec devPSCConnCountLi ].

(** All supports but [devPSCBlockSi], [devPSCMessageSI] and the integer waveforms to send. *)
Definition device_supports (fn user : Z) (pad : list byte) : list support :=
  reading_supports ++ writing_supports ++ single_supports fn user pad ++ wf_supports ++ ctrl_supports ++
  [Support DevString.strrec Priv block_ptr devPSCBlockSo so_kind any_use;
   Support valrec Priv block_ptr devPSCBlockCountLi (reads_block valrec) any_use].

(** A record in service is processed, has fields written, and finds the drivers changed by
    their threads and by other records. *)
Inductive life (sup : support) : devst (S_rec sup) (S_priv sup) P → devst (S_rec sup) (S_priv sup) P → Prop :=
  | life_process st s s' : readwrite (S_dset sup) s = (Ret st, s') → life sup s s'
  | life_put c r s : fields (S_kind sup) r → fixed (S_kind sup) (rec s) r →
      life sup s (set_com c (set_rec r s))
  | life_others m s : drivers_ok m → later (pscmap s) m → life sup s (set_pscmap m s).

(** What each table is shown to have. *)
Record harmless (sup : support) : Prop := {
  h_init link info s : S_use sup link info (pscmap s) → drivers_ok (pscmap s) → fields (S_kind sup) (rec s) →
    dpvt s = None → returns (S_kind sup) (init_record (S_dset sup) true link info) s;
  h_iointr f s : get_iointr_info (S_dset sup) = Some f → settled (S_kind sup) s →
    wp f (λ _ s', s' = s) (λ _, False) s;
  h_process s : settled (S_kind sup) s → returns (S_kind sup) (readwrite (S_dset sup)) s;
}.

Lemma life_settled sup s s' : harmless sup → life sup s s' → settled (S_kind sup) s → settled (S_kind sup) s'.
Proof.
  intros Hh Hl Hs. destruct Hl as [st s s' E|c r s Hf Hx|m s Hd Hl].
  - pose proof (h_process sup Hh s Hs) as Hr. unfold returns, wp in Hr. rewrite E in Hr. apply Hr.
  - destruct Hs as [Hd _ Ht]. split; [done..|]. intros v Hv. eapply tied_fixed; [by apply Ht|done].
  - destruct Hs as [_ Hf Ht]. split; [done..|]. intros v Hv. eapply tied_later; [by apply Ht|done].
Qed.

Lemma lives_settled sup s s' :
  harmless sup → rtc (life sup) s s' → settled (S_kind sup) s → settled (S_kind sup) s'.
Proof. intros Hh. induction 1 as [|a b c Hstep _ IH]; [done|]. intros Ha. by eapply IH, life_settled. Qed.

Hypothesis (stamps : ∀ t cr, epicsTime_of_stamp t ≠ Crash cr).

Lemma reading_harmless {R} (d : dset P R Priv block_ptr) extra dir :
  dir = 0 ∨ dir = 1 → (∀ link info, init_record d true link info = DevCommon.init_record true extra link info dir) →
  get_iointr_info d = None ∨ get_iointr_info d = Some DevCommon.get_iointr_info →
  (∀ s, settled (reads_block R) s → returns (reads_block R) (readwrite d) s) →
  harmless (Support R Priv block_ptr d (reads_block R) any_use).
Proof.
  intros Hdir Hi Hio Hrw. split; cbn; [|intros f s Ef|done].
  - intros link info s _ Hd _ Hv. rewrite Hi. by apply reads_init.
  - intros Hs. destruct Hio as [E|E]; rewrite Ef in E; [done|]. injection E as ->.
    by apply (get_iointr_info_wp _ (reads_there R)).
Qed.

Lemma writing_harmless {R} (d : dset P R Priv block_ptr) extra :
  (∀ link info, init_record d true link info = DevCommon.init_record true extra link info 1) →
  get_iointr_info d = None →
  (∀ s, settled (writes_block R) s → returns (writes_block R) (readwrite d) s) →
  harmless (Support R Priv block_ptr d (writes_block R) any_use).
Proof.
  intros Hi Hio Hrw. split; cbn; [|intros f s Ef; congruence|done].
  intros link info s _ Hd _ Hv. rewrite Hi. by apply writes_init.
Qed.

Lemma single_harmless {R} (d : dset P R DevSingle.SinglePriv block_ptr) extra fn user :
  init_record d = init_single fn user extra → get_iointr_info d = None →
  (∀ s, settled (single_kind R) s → returns (single_kind R) (readwrite d) s) →
  harmless (Support R DevSingle.SinglePriv block_ptr d (single_kind R) no_same).
Proof.
  intros Hi Hio Hrw. split; cbn; [|intros f s Ef; congruence|done].
  intros link info s Hn Hd _ Hv. rewrite Hi. by apply init_single_returns.
Qed.

Lemma wf_harmless (d : dset P DevWf.wfrec Priv block_ptr) (numbers out : bool) :
  init_record d = (if numbers then DevWf.init_wf_record else DevWf.init_wf_record_bytes) (if out then 1 else 0) →
  get_iointr_info d = Some DevCommon.get_iointr_info →
  (∀ s, settled (wf_kind numbers out) s → returns (wf_kind numbers out) (readwrite d) s) →
  harmless (Support DevWf.wfrec Priv block_ptr d (wf_kind numbers out) any_use).
Proof.
  intros Hi Hio Hrw. split; cbn; [|intros f s Ef|done].
  - intros link info s _ Hd Hf Hv. rewrite Hi. by apply (wf_init_returns numbers out).
  - intros Hs. rewrite Hio in Ef. injection Ef as <-. by apply (get_iointr_info_wp _ (wf_there numbers out)).
Qed.

Lemma ctrl_harmless {R} (d : dset P R string DevCtrl.psc_scan) :
  (∀ link info, init_record d true link info = (assert_ true ;;; DevCtrl.init_common link)) →
  get_iointr_info d = None ∨ (∃ w, get_iointr_info d = Some (DevCtrl.get_iointr_info w)) →
  (∀ s, settled (of_driver R) s → returns (of_driver R) (readwrite d) s) →
  harmless (Support R string DevCtrl.psc_scan d (of_driver R) any_use).
Proof.
  intros Hi Hio Hrw. split; cbn; [|intros f s Ef|done].
  - intros link info s _ Hd _ Hv. rewrite Hi.
    apply wp_bind, wp_assert; [done|]. by apply init_ctrl_returns.
  - intros Hs. destruct Hio as [E|[w E]]; rewrite Ef in E; [done|]. injection E as ->. apply ctrl_iointr_wp.
Qed.

Lemma block_count_harmless :
  harmless (Support valrec Priv block_ptr devPSCBlockCountLi (reads_block valrec) any_use).
Proof.
  split; cbn; [|done|by apply read_block_count_returns].
  intros link info s _ Hd _ Hv. by apply init_count_returns.
Qed.

Lemma so_harmless :
  harmless (Support DevString.strrec Priv block_ptr devPSCBlockSo so_kind any_use).
Proof.
  split; cbn; [|intros f s [= <-]|by apply write_so_returns].
  - intros link info s _ Hd Hf Hv. by apply so_init_returns.
  - intros Hs. by apply (get_iointr_info_wp _ so_there).
Qed.

Lemma reading_all :
  Forall harmless reading_supports.
Proof.
  repeat (apply list.Forall_cons; split); [..|done].
  - apply (reading_harmless _ plain 0); [by left|done|by right|intros s; by apply read_binary_returns].
  - apply (reading_harmless _ extra_init_mask 0); [by left|done|by right|intros s; by apply read_binary_returns].
  - apply (reading_harmless _ extra_init_mask 0); [by left|done|by right|intros s; by apply read_binary_returns].
  - apply (reading_harmless _ plain 0); [by left|done|by right|intros s; by apply read_to_val_returns].
  - apply (reading_harmless _ plain 0); [by left|done|by right|intros s; by apply read_to_val_returns].
  - apply (reading_harmless _ plain 0); [by left|done|by right|intros s; by apply read_ai_returns].
  - apply (reading_harmless _ plain 0); [by left|done|by right|intros s; by apply read_ai_float_returns].
  - apply (reading_harmless _ plain 0); [by left|done|by right|intros s; by apply read_ai_float_returns].
  - apply (reading_harmless _ plain 1); [by right|done|by left|intros s; by apply read_binary_returns].
  - apply (reading_harmless _ extra_init_mask 1); [by right|done|by left|intros s; by apply read_binary_returns].
  - apply (reading_harmless _ extra_init_mask 1); [by right|done|by left|intros s; by apply read_binary_returns].
  - apply (reading_harmless _ plain 1); [by right|done|by left|intros s; by apply read_to_val_returns].
  - apply (reading_harmless _ plain 1); [by right|done|by left|intros s; by apply read_to_val_returns].
  - apply (reading_harmless _ plain 1); [by right|done|by left|intros s; by apply read_ai_returns].
  - apply (reading_harmless _ plain 1); [by right|done|by left|intros s; by apply read_ai_float_returns].
  - apply (reading_harmless _ plain 1); [by right|done|by left|intros s; by apply read_ai_float_returns].
Qed.

Lemma writing_all :
  Forall harmless writing_supports.
Proof.
  repeat (apply list.Forall_cons; split); [..|done].
  - apply (writing_harmless _ plain); [done|done|intros s; by apply write_binary_returns].
  - apply (writing_harmless _ extra_init_mask); [done|done|intros s; by apply write_binary_returns].
  - apply (writing_harmless _ extra_init_mask); [done|done|intros s; by apply write_binary_returns].
  - apply (writing_harmless _ plain); [done|done|intros s; by apply write_from_val_returns].
  - apply (writing_harmless _ plain); [done|done|intros s; by apply write_from_val_returns].
  - apply (writing_harmless _ plain); [done|done|intros s; by apply write_ao_returns].
  - apply (writing_harmless _ plain); [done|done|intros s; by apply write_ao_float_returns].
  - apply (writing_harmless _ plain); [done|done|intros s; by apply write_ao_float_returns].
Qed.

Lemma single_all fn user pad :
  zlen pad ≤ 2 ^ 31 →
  Forall harmless (single_supports fn user pad).
Proof.
  intros Hpad. repeat (apply list.Forall_cons; split); [..|done].
  - apply (single_harmless _ plain fn user); [done|done|intros s; by apply write_msg_binary_rval_returns].
  - apply (single_harmless _ extra_init_mask fn user); [done|done|intros s; by apply write_msg_binary_rval_returns].
  - apply (single_harmless _ extra_init_mask fn user); [done|done|intros s; by apply write_msg_binary_rval_returns].
  - apply (single_harmless _ plain fn user); [done|done|intros s; by apply write_msg_val_returns].
  - apply (single_harmless _ plain fn user); [done|done|intros s; by apply write_msg_val_returns].
  - apply (single_harmless _ plain fn user); [done|done|intros s; by apply write_msg_rval_returns].
  - apply (single_harmless _ plain fn user); [done|done|intros s; by apply write_msg_val_ao_returns].
  - apply (single_harmless _ plain fn user); [done|done|intros s; by apply write_msg_val_ao_returns].
Qed.

Lemma wf_all :
  Forall harmless wf_supports.
Proof.
  repeat (apply list.Forall_cons; split); [..|done].
  - apply (wf_harmless _ false false); [done|done|intros s; by apply read_wf_bytes_returns].
  - apply (wf_harmless _ true false); [done|done|intros s; by apply read_wf_real_returns].
  - apply (wf_harmless _ true false); [done|done|intros s; by apply read_wf_real_returns].
  - apply (wf_harmless _ true false); [done|done|intros s; by apply read_wf_real_returns].
  - apply (wf_harmless _ true false); [done|done|intros s; by apply read_wf_real_returns].
  - apply (wf_harmless _ false true); [done|done|intros s; by apply write_wf_bytes_returns].
  - apply (wf_harmless _ true true); [done|done|intros s; by apply write_wf_returns].
  - apply (wf_harmless _ true true); [done|done|intros s; by apply write_wf_returns].
Qed.

Lemma ctrl_all :
  Forall harmless ctrl_supports.
Proof.
  repeat (apply list.Forall_cons; split); [..|done].
  - apply ctrl_harmless; [done|by right; eexists|intros s; by apply read_bi_connected_returns].
  - apply ctrl_harmless; [done|by right; eexists|intros s; by apply read_bi_connected_returns].
  - apply ctrl_harmless; [done|by left|intros s; by apply write_bo_send_changed_returns].
  - apply ctrl_harmless; [done|by left|intros s; by apply write_force_reconnect_returns].
  - apply ctrl_harmless; [done|by left|intros s; by apply write_lo_send_block_returns].
  - apply ctrl_harmless; [done|by right; eexists|intros s; by apply read_counter_returns].
  - apply ctrl_harmless; [done|by right; eexists|intros s; by apply read_counter_returns].
Qed.

Lemma supports_harmless fn user pad :
  zlen pad ≤ 2 ^ 31 → Forall harmless (device_supports fn user pad).
Proof.
  intros Hpad. unfold device_supports. rewrite !list.Forall_app.
  split_and!; [apply reading_all|apply writing_all|by apply single_all|apply wf_all|apply ctrl_all|].
  repeat (apply list.Forall_cons; split); [apply so_harmless|apply block_count_harmless|done].
Qed.
End all.
