(* ===== verification/UdpFast.v ===== *)
(** * The fast UDP receiver

    Class [UDPFast] (udpApp/src/udpdrv.h, udpdrv.cpp) and the device support that works on
    its buffers (devudp.cpp).  Two threads share a pool of packet buffers: [rxfn] takes
    batches of datagrams off the socket, [cachefn] copies them to the received blocks,
    writes them to a file, keeps the first few and returns the buffers.

    A computation below is what a thread does while it holds a lock, or between two waits.
    [step] interleaves these sections. *)

From S2P Require Import Prelude EvBuffer Dbuffer Block Wire PscBase DevCommon.

Module Fast.

(** ** State *)

(** [UDPFast::pkt] *)
Record pkt := Pkt { body : list byte; bodylen : Z; rxtime : epicsTime; msgid : Z }.

(** A slot of [recvmmsg]: its body buffer and header buffer. *)
Record message := Message { buf : list byte; hbuf : list byte }.

(** A datagram on the socket: whether it comes from the peer, its bytes, and the overflow
    count the kernel attaches ([SO_RXQ_OVFL]). *)
Record dgram := Dgram { from_peer : bool; payload : list byte; overflow : option Z }.

(** An open data file: its name and what has been written to it. *)
Record file := File { fname : string; fdata : list byte }.

Record counters := Counters {
  rxcnt : Z;
  ntimeout : Z;
  ndrops : Z;
  nignore : Z;
  noom : Z;
  lastsize : Z;
  netrx : Z;
  storewrote : Z;
}.

(** Members of the class.  [vpool] is listed from its back; [vpoolStall] and
    [pendingReady] are binary events. *)
Record UDPFast (B : Type) := MkFast {
  fbase : PSCBase B;
  running : bool;
  batchSize : nat;
  vpoolTotal : Z;
  cnt : counters;
  vpool : list (list byte);
  pending : list pkt;
  vpoolStall : bool;
  pendingReady : bool;
  filedir : string;
  filebase : string;
  lastfile : string;
  lasterror : string;
  reopen : bool;
  record : bool;
  shortBuf : list pkt;
  shortLimit : Z;
}.
Arguments MkFast {B}.
Arguments fbase {B} _.
Arguments running {B} _.
Arguments batchSize {B} _.
Arguments vpoolTotal {B} _.
Arguments cnt {B} _.
Arguments vpool {B} _.
Arguments pending {B} _.
Arguments vpoolStall {B} _.
Arguments pendingReady {B} _.
Arguments filedir {B} _.
Arguments filebase {B} _.
Arguments lastfile {B} _.
Arguments lasterror {B} _.
Arguments reopen {B} _.
Arguments record {B} _.
Arguments shortBuf {B} _.
Arguments shortLimit {B} _.

(** Locals of [rxfn], and of [cachefn]: the packets in progress, the open file, the files
    closed so far, and the bytes written to the open one. *)
Record rxlocal := RxLocal {
  msgs : list message;
  prevndrops : Z;
  notifycache : bool;
}.

Record cachelocal := CacheLocal {
  inprog : list pkt;
  datafile : option file;
  closed : list file;
  filetotal : Z;
}.

Record sys (B : Type) := Sys {
  shared : UDPFast B;
  rxl : rxlocal;
  cal : cachelocal;
}.
Arguments Sys {B}.
Arguments shared {B} _.
Arguments rxl {B} _.
Arguments cal {B} _.

Section setters.
Context {B : Type}.

Definition set_fbase (v : PSCBase B) (s : UDPFast B) : UDPFast B :=
  MkFast v (running s) (batchSize s) (vpoolTotal s) (cnt s) (vpool s) (pending s)
    (vpoolStall s) (pendingReady s) (filedir s) (filebase s) (lastfile s) (lasterror s)
    (reopen s) (record s) (shortBuf s) (shortLimit s).
Definition set_running (v : bool) (s : UDPFast B) : UDPFast B :=
  MkFast (fbase s) v (batchSize s) (vpoolTotal s) (cnt s) (vpool s) (pending s)
    (vpoolStall s) (pendingReady s) (filedir s) (filebase s) (lastfile s) (lasterror s)
    (reopen s) (record s) (shortBuf s) (shortLimit s).
Definition set_batchSize (v : nat) (s : UDPFast B) : UDPFast B :=
  MkFast (fbase s) (running s) v (vpoolTotal s) (cnt s) (vpool s) (pending s) (vpoolStall s)
    (pendingReady s) (filedir s) (filebase s) (lastfile s) (lasterror s) (reopen s)
    (record s) (shortBuf s) (shortLimit s).
Definition set_vpoolTotal (v : Z) (s : UDPFast B) : UDPFast B :=
  MkFast (fbase s) (running s) (batchSize s) v (cnt s) (vpool s) (pending s) (vpoolStall s)
    (pendingReady s) (filedir s) (filebase s) (lastfile s) (lasterror s) (reopen s)
    (record s) (shortBuf s) (shortLimit s).
Definition set_cnt (v : counters) (s : UDPFast B) : UDPFast B :=
  MkFast (fbase s) (running s) (batchSize s) (vpoolTotal s) v (vpool s) (pending s)
    (vpoolStall s) (pendingReady s) (filedir s) (filebase s) (lastfile s) (lasterror s)
    (reopen s) (record s) (shortBuf s) (shortLimit s).
Definition set_vpool (v : list (list byte)) (s : UDPFast B) : UDPFast B :=
  MkFast (fbase s) (running s) (batchSize s) (vpoolTotal s) (cnt s) v (pending s)
    (vpoolStall s) (pendingReady s) (filedir s) (filebase s) (lastfile s) (lasterror s)
    (reopen s) (record s) (shortBuf s) (shortLimit s).
Definition set_pending (v : list pkt) (s : UDPFast B) : UDPFast B :=
  MkFast (fbase s) (running s) (batchSize s) (vpoolTotal s) (cnt s) (vpool s) v
    (vpoolStall s) (pendingReady s) (filedir s) (filebase s) (lastfile s) (lasterror s)
    (reopen s) (record s) (shortBuf s) (shortLimit s).
Definition set_vpoolStall (v : bool) (s : UDPFast B) : UDPFast B :=
  MkFast (fbase s) (running s) (batchSize s) (vpoolTotal s) (cnt s) (vpool s) (pending s) v
    (pendingReady s) (filedir s) (filebase s) (lastfile s) (lasterror s) (reopen s)
    (record s) (shortBuf s) (shortLimit s).
Definition set_pendingReady (v : bool) (s : UDPFast B) : UDPFast B :=
  MkFast (fbase s) (running s) (batchSize s) (vpoolTotal s) (cnt s) (vpool s) (pending s)
    (vpoolStall s) v (filedir s) (filebase s) (lastfile s) (lasterror s) (reopen s)
    (record s) (shortBuf s) (shortLimit s).
Definition set_filedir (v : string) (s : UDPFast B) : UDPFast B :=
  MkFast (fbase s) (running s) (batchSize s) (vpoolTotal s) (cnt s) (vpool s) (pending s)
    (vpoolStall s) (pendingReady s) v (filebase s) (lastfile s) (lasterror s) (reopen s)
    (record s) (shortBuf s) (shortLimit s).
Definition set_filebase (v : string) (s : UDPFast B) : UDPFast B :=
  MkFast (fbase s) (running s) (batchSize s) (vpoolTotal s) (cnt s) (vpool s) (pending s)
    (vpoolStall s) (pendingReady s) (filedir s) v (lastfile s) (lasterror s) (reopen s)
    (record s) (shortBuf s) (shortLimit s).
Definition set_lastfile (v : string) (s : UDPFast B) : UDPFast B :=
  MkFast (fbase s) (running s) (batchSize s) (vpoolTotal s) (cnt s) (vpool s) (pending s)
    (vpoolStall s) (pendingReady s) (filedir s) (filebase s) v (lasterror s) (reopen s)
    (record s) (shortBuf s) (shortLimit s).
Definition set_lasterror (v : string) (s : UDPFast B) : UDPFast B :=
  MkFast (fbase s) (running s) (batchSize s) (vpoolTotal s) (cnt s) (vpool s) (pending s)
    (vpoolStall s) (pendingReady s) (filedir s) (filebase s) (lastfile s) v (reopen s)
    (record s) (shortBuf s) (shortLimit s).
Definition set_reopen (v : bool) (s : UDPFast B) : UDPFast B :=
  MkFast (fbase s) (running s) (batchSize s) (vpoolTotal s) (cnt s) (vpool s) (pending s)
    (vpoolStall s) (pendingReady s) (filedir s) (filebase s) (lastfile s) (lasterror s) v
    (record s) (shortBuf s) (shortLimit s).
Definition set_record (v : bool) (s : UDPFast B) : UDPFast B :=
  MkFast (fbase s) (running s) (batchSize s) (vpoolTotal s) (cnt s) (vpool s) (pending s)
    (vpoolStall s) (pendingReady s) (filedir s) (filebase s) (lastfile s) (lasterror s)
    (reopen s) v (shortBuf s) (shortLimit s).
Definition set_shortBuf (v : list pkt) (s : UDPFast B) : UDPFast B :=
  MkFast (fbase s) (running s) (batchSize s) (vpoolTotal s) (cnt s) (vpool s) (pending s)
    (vpoolStall s) (pendingReady s) (filedir s) (filebase s) (lastfile s) (lasterror s)
    (reopen s) (record s) v (shortLimit s).
Definition set_shortLimit (v : Z) (s : UDPFast B) : UDPFast B :=
  MkFast (fbase s) (running s) (batchSize s) (vpoolTotal s) (cnt s) (vpool s) (pending s)
    (vpoolStall s) (pendingReady s) (filedir s) (filebase s) (lastfile s) (lasterror s)
    (reopen s) (record s) (shortBuf s) v.
Definition set_shared (v : UDPFast B) (s : sys B) : sys B :=
  Sys v (rxl s) (cal s).
Definition set_rxl (v : rxlocal) (s : sys B) : sys B :=
  Sys (shared s) v (cal s).
Definition set_cal (v : cachelocal) (s : sys B) : sys B :=
  Sys (shared s) (rxl s) v.
Definition set_rxcnt (v : Z) (s : counters) : counters :=
  Counters v (ntimeout s) (ndrops s) (nignore s) (noom s) (lastsize s) (netrx s)
    (storewrote s).
Definition set_ntimeout (v : Z) (s : counters) : counters :=
  Counters (rxcnt s) v (ndrops s) (nignore s) (noom s) (lastsize s) (netrx s)
    (storewrote s).
Definition set_ndrops (v : Z) (s : counters) : counters :=
  Counters (rxcnt s) (ntimeout s) v (nignore s) (noom s) (lastsize s) (netrx s)
    (storewrote s).
Definition set_nignore (v : Z) (s : counters) : counters :=
  Counters (rxcnt s) (ntimeout s) (ndrops s) v (noom s) (lastsize s) (netrx s)
    (storewrote s).
Definition set_noom (v : Z) (s : counters) : counters :=
  Counters (rxcnt s) (ntimeout s) (ndrops s) (nignore s) v (lastsize s) (netrx s)
    (storewrote s).
Definition set_lastsize (v : Z) (s : counters) : counters :=
  Counters (rxcnt s) (ntimeout s) (ndrops s) (nignore s) (noom s) v (netrx s)
    (storewrote s).
Definition set_netrx (v : Z) (s : counters) : counters :=
  Counters (rxcnt s) (ntimeout s) (ndrops s) (nignore s) (noom s) (lastsize s) v
    (storewrote s).
Definition set_storewrote (v : Z) (s : counters) : counters :=
  Counters (rxcnt s) (ntimeout s) (ndrops s) (nignore s) (noom s) (lastsize s) (netrx s) v.
Definition set_msgs (v : list message) (s : rxlocal) : rxlocal :=
  RxLocal v (prevndrops s) (notifycache s).
Definition set_prevndrops (v : Z) (s : rxlocal) : rxlocal :=
  RxLocal (msgs s) v (notifycache s).
Definition set_notifycache (v : bool) (s : rxlocal) : rxlocal :=
  RxLocal (msgs s) (prevndrops s) v.
Definition set_inprog (v : list pkt) (s : cachelocal) : cachelocal :=
  CacheLocal v (datafile s) (closed s) (filetotal s).
Definition set_datafile (v : option file) (s : cachelocal) : cachelocal :=
  CacheLocal (inprog s) v (closed s) (filetotal s).
Definition set_closed (v : list file) (s : cachelocal) : cachelocal :=
  CacheLocal (inprog s) (datafile s) v (filetotal s).
Definition set_filetotal (v : Z) (s : cachelocal) : cachelocal :=
  CacheLocal (inprog s) (datafile s) (closed s) v.
Definition set_buf (v : list byte) (m : message) : message := Message v (hbuf m).

(** Updates of the three parts of a system. *)
Definition on_shared (f : UDPFast B → UDPFast B) (s : sys B) : sys B := set_shared (f (shared s)) s.
Definition on_rx (f : rxlocal → rxlocal) (s : sys B) : sys B := set_rxl (f (rxl s)) s.
Definition on_cache (f : cachelocal → cachelocal) (s : sys B) : sys B := set_cal (f (cal s)) s.
Definition count_by (get : counters → Z) (put : Z → counters → counters) (n : Z) (s : sys B) : sys B :=
  on_shared (λ f, set_cnt (put (u64 (get (cnt f) + n)) (cnt f)) f) s.
End setters.

(** Sizes from the IOC shell: the limit on iovecs per [writev], the bytes a file may hold
    before a new one is opened, and the megabytes between two flushes. *)
Class FastConfig := {
  iovLimit : Z;
  maxLen : Z;
  PSCUDPDSyncSizeMB : Z;
}.

Section fast.
Context {B : Type} `{EvBuffer B} `{EpicsEnv} `{FastConfig}.
Implicit Types s : sys B.

Definition on_fbase {A} (m : M (PSCBase B) A) : M (sys B) A :=
  zoom (λ s, fbase (shared s)) (λ b s, on_shared (set_fbase b) s) m.

(** ** The receiving thread *)

(** The assignment loop of [rxfn]: slots keep their buffer or get one from the pool, as
    far as that goes.  The result counts the slots; [None] is the failed assertion. *)
Fixpoint assign (ms : list message) (pool : list (list byte))
    : option (list message * list (list byte) * nat) :=
  match ms with
  | [] => Some ([], pool, 0%nat)
  | m :: r =>
      if negb (bool_decide (buf m = [])) then
        '(r', p', n) ← assign r pool; Some (m :: r', p', S n)
      else
        match pool with
        | [] => Some (m :: r, pool, 0%nat)
        | b :: p =>
            if zlen b <? 8 then None
            else '(r', p', n) ← assign r p; Some (set_buf b m :: r', p', S n)
        end
  end.

(** The top of the loop: [None] when the pool is empty and the thread waits on
    [vpoolStall], otherwise the number of slots for [recvmmsg]. *)
Definition rx_assign : M (sys B) (option nat) :=
  s <- get ;;
  match vpool (shared s) with
  | [] => modify (count_by noom set_noom 1) ;;; ret None
  | _ =>
      match assign (msgs (rxl s)) (vpool (shared s)) with
      | None => abort AssertFail
      | Some (ms, pool, n) =>
          modify (on_rx (set_msgs ms)) ;;;
          modify (on_shared (set_vpool pool)) ;;;
          ret (Some n)
      end
  end.

(** Before [recvmmsg], unlocked: wake the other thread. *)
Definition rx_notify : M (sys B) unit :=
  s <- get ;;
  when (notifycache (rxl s))
    (modify (on_shared (set_pendingReady true)) ;;;
     modify (on_rx (set_notifycache false))).

(** [recvmmsg] fills the slots: 8 bytes to the header buffer, the rest to the body buffer,
    and what does not fit is cut off. *)
Definition fill_slot (d : dgram) (m : message) : message :=
  Message (zblit 0 (ztake (zlen (buf m)) (zdrop 8 (payload d))) (buf m))
    (zblit 0 (ztake 8 (payload d)) (hbuf m)).

Definition msg_len (d : dgram) (m : message) : Z := Z.min (zlen (payload d)) (8 + zlen (buf m)).

Fixpoint fill (ds : list dgram) (ms : list message) : list message :=
  match ds, ms with
  | d :: dr, m :: mr => fill_slot d m :: fill dr mr
  | _, _ => ms
  end.

(** The overflow message of a datagram. *)
Definition note_overflow (d : dgram) : M (sys B) unit :=
  match overflow d with
  | None => ret tt
  | Some n =>
      s <- get ;;
      when (negb (n =? prevndrops (rxl s)))
        (modify (count_by ndrops set_ndrops (u32 (n - prevndrops (rxl s)))) ;;;
         modify (on_rx (set_prevndrops n)))
  end.

Definition ignore_packet : M (sys B) Z := modify (count_by nignore set_nignore 1) ;;; ret 0.

(** The body of the loop over received packets, for slot [i]: bytes counted for the
    network rate. *)
Definition rx_packet (i : nat) (d : dgram) (now : epicsTime) : M (sys B) Z :=
  s <- get ;;
  match msgs (rxl s) !! i with
  | None => abort OutOfBounds
  | Some m =>
      let len := msg_len d m in
      note_overflow d ;;;
      if negb (from_peer d) then ignore_packet
      else if len <? 8 then ignore_packet
      else if bad_frame (hbuf m) then ignore_packet
      else
        let id := get_msgid (hbuf m) in
        let blen := get_bodylen (hbuf m) in
        if blen <? len - 8 then ignore_packet
        else
          s <- get ;;
          modify (on_rx (set_notifycache
            (notifycache (rxl s) || bool_decide (pending (shared s) = [])))) ;;;
          modify (on_shared (λ f, set_pending (pending f ++ [Pkt (buf m) blen now id]) f)) ;;;
          modify (on_rx (λ r, set_msgs (<[i := set_buf [] m]> (msgs r)) r)) ;;;
          ret (len + 16 + 20 + 8)
  end.

Fixpoint rx_packets (i : nat) (ds : list dgram) (now : epicsTime) : M (sys B) Z :=
  match ds with
  | [] => ret 0
  | d :: r => n <- rx_packet i d now ;; k <- rx_packets (S i) r now ;; ret (n + k)
  end.

(** What follows [recvmmsg], which returned [ds]; an empty list is a timeout or error. *)
Definition rx_batch (ds : list dgram) (timeout : bool) (now : epicsTime) : M (sys B) unit :=
  when timeout (modify (count_by ntimeout set_ntimeout 1)) ;;;
  modify (on_rx (λ r, set_msgs (fill ds (msgs r)) r)) ;;;
  modify (count_by rxcnt set_rxcnt (zlen ds)) ;;;
  totalrx <- rx_packets 0 ds now ;;
  modify (count_by netrx set_netrx totalrx).

(** ** The cache thread *)

(** Return the buffers of packets that still have one. *)
Fixpoint deassign (ps : list pkt) (pool : list (list byte)) : list (list byte) :=
  match ps with
  | [] => pool
  | p :: r => deassign r (if negb (bool_decide (body p = [])) then body p :: pool else pool)
  end.

Definition cache_deassign : M (sys B) unit :=
  s <- get ;;
  when (negb (bool_decide (inprog (cal s) = [])))
    (let pool := deassign (inprog (cal s)) (vpool (shared s)) in
     modify (on_shared (set_vpool pool)) ;;;
     modify (on_cache (set_inprog [])) ;;;
     when (bool_decide (vpool (shared s) = []) && negb (bool_decide (pool = [])))
       (modify (on_shared (set_vpoolStall true)))).

(** [inprog.swap(pending)] *)
Definition cache_grab : M (sys B) unit :=
  s <- get ;;
  modify (on_cache (set_inprog (pending (shared s)))) ;;;
  modify (on_shared (set_pending (inprog (cal s)))).

Definition close_file (c : cachelocal) : cachelocal :=
  match datafile c with
  | Some f => set_datafile None (set_closed (closed c ++ [f]) c)
  | None => c
  end.

(** Deliver one packet to its block. *)
Definition deliver_pkt (p : pkt) : M (sys B) unit :=
  s <- get ;;
  match recv_blocks (fbase (shared s)) !! msgid p with
  | None => on_fbase (modify (λ b, set_ukncount (u32 (ukncount b + 1)) b))
  | Some _ =>
      on_fbase (
        upd_recv (msgid p) incr_count ;;;
        upd_recv (msgid p) (set_rxtime (rxtime p)) ;;;
        upd_recv (msgid p) (λ b, set_data (dbuffer_assign (body p) (data b)) b) ;;;
        requestScan_recv (msgid p) ;;;
        call_listeners (msgid p))
  end.

Fixpoint deliver_pkts (ps : list pkt) : M (sys B) unit :=
  match ps with
  | [] => ret tt
  | p :: r => deliver_pkt p ;;; deliver_pkts r
  end.

(** With [lock] held: close the file when recording was switched off, then deliver.  The
    result tells whether there is more to do for the packets. *)
Definition cache_deliver : M (sys B) bool :=
  s <- get ;;
  when (negb (record (shared s)) && negb (bool_decide (datafile (cal s) = None)))
    (modify (on_cache close_file)) ;;;
  deliver_pkts (inprog (cal s)) ;;;
  ret (negb (bool_decide (inprog (cal s) = []))).

(** Open a new file when asked to or when the old one is full.  [name] is the text of the
    time, [err] the error number of [open], 0 when it succeeds; the result is the error. *)
Definition cache_open (stamp : string) (err : Z) : M (sys B) Z :=
  s <- get ;;
  when (negb (bool_decide (datafile (cal s) = None)) && (filetotal (cal s) >=? maxLen))
    (modify (on_shared (set_reopen true))) ;;;
  s <- get ;;
  let f := shared s in
  if record f && reopen f && negb (bool_decide (filebase f = ""%string)) then
    let name := ((if bool_decide (filedir f = ""%string) then "" else filedir f +:+ "/")
                   +:+ filebase f +:+ stamp +:+ ".dat")%string in
    modify (on_shared (set_reopen false)) ;;;
    modify (on_cache (set_filetotal 0)) ;;;
    modify (on_cache close_file) ;;;
    if negb (err =? 0) then modify (on_shared (set_record false)) ;;; ret err
    else
      modify (on_cache (set_datafile (Some (File name [])))) ;;;
      modify (on_shared (set_lastfile name)) ;;;
      ret 0
  else ret 0.

(** A packet in the data file: the [header_t] with the fields in network order and
    [bodylen] bytes from the packet's buffer; [None] when the buffer has fewer. *)
Definition file_record (p : pkt) : option (list byte) :=
  if zlen (body p) <? bodylen p then None
  else Some (put_header (msgid p) (bodylen p)
             ++ be_bytes 4 (secPastEpoch (rxtime p) + POSIX_TIME_AT_EPICS_EPOCH)
             ++ be_bytes 4 (nsec (rxtime p)) ++ ztake (bodylen p) (body p)).

Fixpoint file_records (ps : list pkt) : option (list byte) :=
  match ps with
  | [] => Some []
  | p :: r => a ← file_record p; b ← file_records r; Some (a ++ b)
  end.

Definition batchtotal (ps : list pkt) : Z := foldr (λ p n, 16 + bodylen p + n) 0 ps.

(** The number of packets per [writev]: [headers.size()]. *)
Definition headers_size : nat := Z.to_nat (iovLimit / 2).

(** The write loop: [wr k total] is what the [k]-th [writev] returns for [total] bytes, the
    negated error number or the bytes written.  The result is the number of bytes of the
    batches and the error number. *)
Fixpoint write_batches (wr : nat → Z → Z) (fuel k : nat) (ps : list pkt) (err : Z)
    : M (sys B) (Z * Z) :=
  match fuel with
  | O => abort OutOfFuel
  | S fuel' =>
      s <- get ;;
      match ps, datafile (cal s) with
      | [], _ | _, None => ret (0, err)
      | _, Some f =>
          let batch := take headers_size ps in
          let total := batchtotal batch in
          match file_records batch with
          | None => abort OutOfBounds
          | Some bytes =>
              let n := wr k total in
              let put r := modify (on_cache (set_datafile (Some (File (fname f) (fdata f ++ r))))) in
              let stop := modify (on_cache close_file) ;;; modify (on_shared (set_record false)) in
              (if n <? 0 then stop
               else put (ztake n bytes) ;;; when (negb (n =? total)) stop) ;;;
              r <- write_batches wr fuel' (S k) (drop headers_size ps) (if n <? 0 then - n else err) ;;
              ret (total + r.1, r.2)
          end
      end
  end.

(** Write the packets, unlocked; [syncerr] is the error number of [fdatasync]. *)
Definition cache_write (wr : nat → Z → Z) (syncerr err : Z) : M (sys B) Z :=
  s <- get ;;
  match datafile (cal s) with
  | None => ret err
  | Some _ =>
      r <- write_batches wr (S (length (inprog (cal s)))) 0 (inprog (cal s)) err ;;
      modify (count_by storewrote set_storewrote r.1) ;;;
      modify (on_cache (λ c, set_filetotal (u64 (filetotal c + r.1)) c)) ;;;
      modify (λ s, on_shared (λ f, set_cnt (set_lastsize (filetotal (cal s)) (cnt f)) f) s) ;;;
      s <- get ;;
      if negb (PSCUDPDSyncSizeMB =? 0) && negb (bool_decide (datafile (cal s) = None))
         && (filetotal (cal s) / 2 ^ 20 >=? u64 PSCUDPDSyncSizeMB)
      then modify (on_cache (set_filetotal 0)) ;;;
           ret (if negb (syncerr =? 0) then syncerr else r.2)
      else ret r.2
  end.

(** Keep the first packets for the "short" records: the packets change place with new,
    empty ones. *)
Definition empty_pkt : pkt := Pkt [] 0 (EpicsTime 0 0) 0.

Definition cache_short : M (sys B) unit :=
  s <- get ;;
  let istart := zlen (shortBuf (shared s)) in
  let nmove := Z.to_nat (Z.min (zlen (inprog (cal s))) (u64 (shortLimit (shared s) - istart))) in
  modify (on_shared (λ f, set_shortBuf (shortBuf f ++ take nmove (inprog (cal s))) f)) ;;;
  modify (on_cache (set_inprog (replicate nmove empty_pkt ++ drop nmove (inprog (cal s))))).

(** [lasterror], when there was an error; [text] is [strerror]. *)
Definition cache_error (err : Z) (text : string) : M (sys B) unit :=
  when (negb (err =? 0)) (modify (on_shared (set_lasterror text))).

(** ** Device support (devudp.cpp) *)

(** [devudp_clear_shortbuf]: the buffers go back to the pool; the result is added to VAL.
    The two locks it takes one after the other protect data no one else sees in between. *)
Fixpoint return_bufs (ps : list pkt) (pool : list (list byte)) : option (list (list byte)) :=
  match ps with
  | [] => Some pool
  | p :: r => if bool_decide (body p = []) then None else return_bufs r (body p :: pool)
  end.

Definition devudp_clear_shortbuf : M (sys B) Z :=
  s <- get ;;
  let temp := shortBuf (shared s) in
  modify (on_shared (set_shortBuf [])) ;;;
  match return_bufs temp (vpool (shared s)) with
  | None => abort AssertFail
  | Some pool => modify (on_shared (set_vpool pool)) ;;; ret (wrapS 32 (zlen temp))
  end.

(** [devudp_read_shortbuf]: the loop over the first packets; an element is left alone when
    its packet has another message id, and is 0, with an alarm, when the packet is short.
    [None]: the sum of the test wrapped around and the read is out of bounds. *)
Fixpoint short_values (block offset : Z) (ps : list pkt) (arr : list Z)
    : option (list Z * bool) :=
  match ps, arr with
  | p :: r, a :: ar =>
      '(vs, alarm) ← short_values block offset r ar;
      if negb (msgid p =? block) then Some (a :: vs, alarm)
      else if u64 (offset + 4) >? zlen (body p) then Some (0 :: vs, true)
      else if zlen (body p) <? offset + 4 then None
      else Some (be_val (zslice offset 4 (body p)) :: vs, alarm)
  | _, _ => Some (arr, false)
  end.

(** [nelm] elements in [arr]; the result is the new array, NORD, and whether the record gets
    READ/INVALID.  [shortLimit] grows to the largest NELM. *)
Definition devudp_read_shortbuf (block offset nelm : Z) (arr : list Z)
    : M (sys B) (list Z * Z * bool) :=
  s <- get ;;
  when (shortLimit (shared s) <? nelm) (modify (on_shared (set_shortLimit nelm))) ;;;
  let n := Z.min nelm (zlen (shortBuf (shared s))) in
  match short_values block offset (ztake n (shortBuf (shared s))) arr with
  | None => abort OutOfBounds
  | Some (vs, alarm) => ret (vs, n, alarm || negb (connected (fbase (shared s))))
  end.

(** [devudp_reopen], [devudp_set_record] *)
Definition devudp_reopen : M (sys B) unit :=
  modify (on_shared (set_reopen true)) ;;; modify (on_shared (set_pendingReady true)).
Definition devudp_set_record (v : bool) : M (sys B) unit :=
  modify (on_shared (set_record v)) ;;;
  modify (on_shared (set_reopen v)) ;;;
  when v (modify (on_shared (set_pendingReady true))).
Definition devudp_get_record : M (sys B) Z := gets (λ s, if record (shared s) then 1 else 0).

(** [UDPFast::connect], up to the start of the two threads. *)
Definition connect : M (sys B) unit := on_fbase (modify (set_connected true)).

(** [UDPFast::stop], up to the waits for the two threads. *)
Definition stop : M (sys B) unit :=
  on_fbase (modify (set_connected false)) ;;;
  modify (on_shared (set_running false)) ;;;
  modify (on_shared (set_vpoolStall true)) ;;;
  modify (on_shared (set_pendingReady true)).

End fast.

(** ** The two threads *)

(** Where a thread is: at the top of its loop, waiting for an event, in [recvmmsg], ... *)
Inductive rxpc := RxTop | RxStalled | RxAssigned (n : nat) | RxReceiving (n : nat) | RxEnd.
Inductive capc :=
  | CaTop | CaWait | CaGrab | CaWork | CaFile | CaWrite (err : Z) | CaShort (err : Z)
  | CaError (err : Z) | CaEnd.

Record config (B : Type) := Config { rpc : rxpc; cpc : capc; st : sys B }.
Arguments Config {B}.
Arguments rpc {B} _.
Arguments cpc {B} _.
Arguments st {B} _.

Section steps.
Context {B : Type} `{EvBuffer B} `{EpicsEnv} `{FastConfig}.
Implicit Types s : sys B.

(** Steps of the threads. *)
Inductive thread_step : config B → config B → Prop :=
  | rx_stalls s s' c :
      running (shared s) = true → rx_assign s = (Ret None, s') →
      thread_step (Config RxTop c s) (Config RxStalled c s')
  | rx_assigns s s' c n :
      running (shared s) = true → rx_assign s = (Ret (Some n), s') →
      thread_step (Config RxTop c s) (Config (RxAssigned n) c s')
  | rx_quits s c :
      running (shared s) = false → thread_step (Config RxTop c s) (Config RxEnd c s)
  | rx_wakes s c :
      vpoolStall (shared s) = true →
      thread_step (Config RxStalled c s) (Config RxTop c (on_shared (set_vpoolStall false) s))
  | rx_notifies s s' c n :
      rx_notify s = (Ret tt, s') →
      thread_step (Config (RxAssigned n) c s) (Config (RxReceiving n) c s')
  | rx_receives s s' c n ds timeout now :
      (length ds ≤ n)%nat → rx_batch ds timeout now s = (Ret tt, s') →
      thread_step (Config (RxReceiving n) c s) (Config RxTop c s')
  | cache_waits s s' r :
      cache_deassign s = (Ret tt, s') → running (shared s') = true →
      thread_step (Config r CaTop s) (Config r CaWait s')
  | cache_quits s s' r :
      cache_deassign s = (Ret tt, s') → running (shared s') = false →
      thread_step (Config r CaTop s) (Config r CaEnd s')
  | cache_wakes s r :
      pendingReady (shared s) = true →
      thread_step (Config r CaWait s) (Config r CaGrab (on_shared (set_pendingReady false) s))
  | cache_grabs s s' r :
      cache_grab s = (Ret tt, s') → thread_step (Config r CaGrab s) (Config r CaWork s')
  | cache_delivers s s' r more :
      cache_deliver s = (Ret more, s') →
      thread_step (Config r CaWork s) (Config r (if more then CaFile else CaTop) s')
  | cache_opens s s' r stamp operr err :
      cache_open stamp operr s = (Ret err, s') →
      thread_step (Config r CaFile s) (Config r (CaWrite err) s')
  | cache_writes s s' r wr syncerr err err' :
      cache_write wr syncerr err s = (Ret err', s') →
      thread_step (Config r (CaWrite err) s) (Config r (CaShort err') s')
  | cache_keeps s s' r err :
      cache_short s = (Ret tt, s') →
      thread_step (Config r (CaShort err) s) (Config r (CaError err) s')
  | cache_reports s s' r err text :
      cache_error err text s = (Ret tt, s') →
      thread_step (Config r (CaError err) s) (Config r CaTop s').

(** Steps of records that work on the buffers. *)
Inductive dev_step : config B → config B → Prop :=
  | dev_clears s s' r c n :
      devudp_clear_shortbuf s = (Ret n, s') → dev_step (Config r c s) (Config r c s')
  | dev_reads s s' r c block offset nelm arr v :
      0 ≤ nelm < 2 ^ 32 → devudp_read_shortbuf block offset nelm arr s = (Ret v, s') →
      dev_step (Config r c s) (Config r c s')
  | dev_records s s' r c v :
      devudp_set_record v s = (Ret tt, s') → dev_step (Config r c s) (Config r c s')
  | dev_reopens s s' r c :
      devudp_reopen s = (Ret tt, s') → dev_step (Config r c s) (Config r c s')
  | dev_stops s s' r c :
      stop s = (Ret tt, s') → dev_step (Config r c s) (Config r c s').

Definition step (a b : config B) : Prop := thread_step a b ∨ dev_step a b.

(** [UDPFast::UDPFast]: [total] buffers of [size] bytes, [batch] slots for [recvmmsg]
    (a local of [rxfn]). *)
Definition new_UDPFast (b : PSCBase B) (batch : nat) (total size : Z) : sys B :=
  Sys (MkFast b true batch total (Counters 0 0 0 0 0 0 0 0)
         (replicate (Z.to_nat total) (replicate (Z.to_nat size) Byte.x00)) [] false false
         "" "" "" "" true false [] 0)
      (RxLocal (replicate batch (Message [] (replicate 8 Byte.x00))) 0 false)
      (CacheLocal [] None [] 0).

(** [UDPFast::connect] on a new object: both threads start. *)
Definition start (b : PSCBase B) (batch : nat) (total size : Z) : config B :=
  Config RxTop CaTop (connect (new_UDPFast b batch total size)).2.

End steps.

End Fast.
