(* ===== verification/FastPool.v ===== *)
(** * The fast UDP receiver: its buffers

    The pool of packet buffers that the two threads of [Fast] and the "short" records pass
    around: no step loses one or fails an assertion, and one order of events that leaves
    both threads waiting for each other. *)

From S2P Require Import Prelude EvBuffer Dbuffer Block Wire PscBase PscTcp DevCommon DevSample UdpFast.
Import Fast.

(** A setting and a base to evaluate the threads on: two packets per [writev]. *)
Definition sample_config : FastConfig :=
  {| iovLimit := 4; maxLen := 2 ^ 20; PSCUDPDSyncSizeMB := 0 |}.

Definition sample_base : PSCBase ChainBuf.chainbuf :=
  set_recv_blocks {[10 := new_Block 10]} (new_PSCBase "dev" "host" 8765).

Section threads.
Context {B : Type} `{EvBuffer B} `{EpicsEnv} `{FastConfig}.
Implicit Types s : sys B.

(** ** The buffer pool *)

(** Buffers held in slots that may be empty. *)
Definition held (l : list (list byte)) : Z := zlen (filter (λ b, b ≠ []) l).

Section pool.
Context (size total : Z).
Hypothesis Hsize : 8 ≤ size.

Definition good (b : list byte) : Prop := zlen b = size.
Definition good_or_empty (b : list byte) : Prop := b = [] ∨ good b.

Record pool_inv s : Prop := {
  pi_vpool : Forall good (vpool (shared s));
  pi_pending : Forall good (body <$> pending (shared s));
  pi_short : Forall good (body <$> shortBuf (shared s));
  pi_inprog : Forall good_or_empty (body <$> inprog (cal s));
  pi_msgs : Forall good_or_empty (buf <$> msgs (rxl s));
  pi_count : zlen (vpool (shared s)) + zlen (pending (shared s))
             + held (body <$> inprog (cal s)) + held (buf <$> msgs (rxl s))
             + zlen (shortBuf (shared s)) = total;
  pi_limit : zlen (shortBuf (shared s)) ≤ shortLimit (shared s) < 2 ^ 64;
}.

(** The first [n] slots have buffers. *)
Definition slots_ready (n : nat) (ms : list message) : Prop :=
  ∀ j, (j < n)%nat → ∃ m, ms !! j = Some m ∧ good (buf m).

(** The invariant of both threads. *)
Definition config_inv (c : config B) : Prop :=
  pool_inv (st c) ∧
  (match rpc c with
   | RxAssigned n | RxReceiving n => slots_ready n (msgs (rxl (st c)))
   | _ => True
   end) ∧
  match cpc c with
  | CaWait | CaGrab | CaEnd => inprog (cal (st c)) = []
  | CaWork | CaFile | CaWrite _ | CaShort _ => Forall good (body <$> inprog (cal (st c)))
  | CaTop | CaError _ => True
  end.

Lemma held_nil : held [] = 0.
Proof. done. Qed.

Lemma held_cons b l : held (b :: l) = (if bool_decide (b = []) then 0 else 1) + held l.
Proof.
  unfold held. rewrite filter_cons. case_bool_decide; case_decide; try done. apply zlen_cons.
Qed.

Lemma held_app k l : held (k ++ l) = held k + held l.
Proof. induction k as [|b k IH]; [done|]. cbn [app]. rewrite !held_cons, IH. lia. Qed.

Lemma good_nonempty b : good b → b ≠ [].
Proof using Hsize. intros Hg ->. unfold good in Hg. rewrite zlen_nil in Hg. lia. Qed.

Lemma held_good l : Forall good l → held l = zlen l.
Proof using Hsize.
  induction 1 as [|b l Hb Hl IH]; [done|]. rewrite held_cons, zlen_cons, IH.
  by rewrite bool_decide_eq_false_2 by (by apply good_nonempty).
Qed.

(** Handing out buffers keeps their number. *)
Lemma assign_spec ms pool :
  Forall good pool → Forall good_or_empty (buf <$> ms) →
  ∃ ms' pool' n, assign ms pool = Some (ms', pool', n) ∧ Forall good pool' ∧
    Forall good_or_empty (buf <$> ms') ∧ slots_ready n ms' ∧
    held (buf <$> ms') + zlen pool' = held (buf <$> ms) + zlen pool.
Proof using Hsize.
  revert pool. induction ms as [|m ms IH]; intros pool Hp Hm.
  { exists [], pool, 0%nat. split_and!; try done. intros j. lia. }
  inv Hm. cbn [assign fmap list_fmap]. case_bool_decide as Hb; cbn [negb].
  - destruct pool as [|b pool].
    + exists (m :: ms), [], 0%nat. split_and!; try done; [by constructor|]. intros j. lia.
    + inv Hp. destruct (Z.ltb_spec (zlen b) 8); [unfold good in *; lia|].
      destruct (IH pool) as (ms' & pool' & n & -> & ? & ? & Hr & Hc); [done|done|].
      eexists _, _, _. split; [done|]. split_and!; [done| | |].
      * constructor; [by right|done].
      * intros [|j] Hj; [by eexists|]. apply Hr. lia.
      * cbn [fmap list_fmap buf set_buf]. rewrite !held_cons, zlen_cons, Hb.
        rewrite bool_decide_eq_false_2 by (by apply good_nonempty).
        rewrite bool_decide_eq_true_2 by done. lia.
  - destruct (IH pool) as (ms' & pool' & n & -> & ? & ? & Hr & Hc); [done|done|].
    eexists _, _, _. split; [done|]. split_and!; [done|by constructor| |].
    + intros [|j] Hj; [|apply Hr; lia]. exists m. split; [done|]. by destruct H4.
    + cbn [fmap list_fmap]. rewrite !held_cons. lia.
Qed.

(** Steps that leave the buffers where they are. *)
Record same_pool s s' : Prop := {
  sp_vpool : vpool (shared s') = vpool (shared s);
  sp_pending : pending (shared s') = pending (shared s);
  sp_short : shortBuf (shared s') = shortBuf (shared s);
  sp_limit : shortLimit (shared s') = shortLimit (shared s);
  sp_inprog : inprog (cal s') = inprog (cal s);
  sp_msgs : msgs (rxl s') = msgs (rxl s);
}.

#[local] Instance same_pool_preorder : PreOrder same_pool.
Proof.
  split; [by intros s|]. intros a b c [] []. split; congruence.
Qed.

Lemma same_pool_inv s s' : same_pool s s' → pool_inv s → pool_inv s'.
Proof. intros [Ev Ep Es El Ei Em] []. split; rewrite ?Ev, ?Ep, ?Es, ?El, ?Ei, ?Em; done. Qed.

Lemma note_overflow_run d s : ∃ s1, note_overflow d s = (Ret tt, s1) ∧ same_pool s s1.
Proof.
  unfold note_overflow. destruct (overflow d) as [n|]; [|by exists s]. mstep. unfold when.
  destruct (negb _); [|by exists s]. eexists. split; [reflexivity|]. done.
Qed.

(** ** The receiving thread keeps the pool *)

Lemma zlen_fill_slot d m : zlen (buf (fill_slot d m)) = zlen (buf m).
Proof.
  cbn. apply zlen_zblit; [done|]. rewrite zlen_ztake. pose proof (zlen_nonneg (buf m)). lia.
Qed.

Lemma fill_slot_empty d m : buf (fill_slot d m) = [] ↔ buf m = [].
Proof.
  pose proof (zlen_fill_slot d m) as E. split; intros Hb; apply zlen_0_nil; rewrite Hb in E; done.
Qed.

Lemma fill_held ds ms : held (buf <$> fill ds ms) = held (buf <$> ms).
Proof.
  revert ms. induction ds as [|d ds IH]; intros [|m ms]; try done.
  cbn [fill fmap list_fmap]. rewrite !held_cons, IH. f_equal.
  by rewrite (bool_decide_ext _ _ (fill_slot_empty d m)).
Qed.

Lemma fill_good ds ms : Forall good_or_empty (buf <$> ms) → Forall good_or_empty (buf <$> fill ds ms).
Proof.
  revert ms. induction ds as [|d ds IH]; intros [|m ms] Hf; try done.
  cbn [fill fmap list_fmap] in *. inv Hf. constructor; [|by apply IH].
  destruct H4 as [Hb|Hb]; [left; by apply fill_slot_empty|right].
  unfold good in *. by rewrite zlen_fill_slot.
Qed.

Lemma fill_ready n ds ms : slots_ready n ms → slots_ready n (fill ds ms).
Proof.
  revert n ms. induction ds as [|d ds IH]; intros n [|m ms] Hr; try done.
  intros [|j] Hj; cbn.
  - destruct (Hr 0%nat Hj) as (m' & [= <-] & Hg). eexists. split; [done|].
    unfold good in *. by rewrite zlen_fill_slot.
  - destruct n as [|n]; [lia|]. apply (IH n ms); [|lia].
    intros k Hk. apply (Hr (S k)). lia.
Qed.

(** Taking the buffer out of a slot. *)
Lemma held_take i m ms :
  ms !! i = Some m → good (buf m) →
  held (buf <$> <[i := set_buf [] m]> ms) = held (buf <$> ms) - 1.
Proof using Hsize.
  intros Hi Hg. rewrite list_fmap_insert. cbn [buf set_buf].
  rewrite <-(take_drop_middle (buf <$> ms) i (buf m)) at 1 2 by (by rewrite list_lookup_fmap, Hi).
  rewrite insert_app_r_alt by (rewrite length_take; lia).
  assert (Hl : (i < length (buf <$> ms))%nat).
  { apply lookup_lt_Some in Hi. by rewrite length_fmap. }
  rewrite length_take_le, Nat.sub_diag by lia. cbn [insert list_insert].
  rewrite !held_app, !held_cons.
  rewrite (bool_decide_eq_false_2 (buf m = [])) by (by apply good_nonempty).
  rewrite bool_decide_eq_true_2 by done. lia.
Qed.

Lemma rx_packet_pool i d now s m :
  pool_inv s → msgs (rxl s) !! i = Some m → good (buf m) →
  ∃ n s', rx_packet i d now s = (Ret n, s') ∧ pool_inv s' ∧ inprog (cal s') = inprog (cal s) ∧
    ∀ j, j ≠ i → msgs (rxl s') !! j = msgs (rxl s) !! j.
Proof using Hsize.
  intros Hinv Hi Hg. unfold rx_packet. mstep. rewrite Hi.
  destruct (note_overflow_run d s) as (s1 & E1 & Hs1). rewrite (bind_ret _ _ _ _ _ E1).
  assert (Hinv1 : pool_inv s1) by (by apply (same_pool_inv s)).
  assert (Hi1 : msgs (rxl s1) !! i = Some m) by (by rewrite (sp_msgs _ _ Hs1)).
  rewrite <-(sp_msgs _ _ Hs1), <-(sp_inprog _ _ Hs1). clear E1 Hs1 Hinv Hi.
  assert (Hign : ∃ n s', ignore_packet s1 = (Ret n, s') ∧ pool_inv s' ∧
    inprog (cal s') = inprog (cal s1) ∧ ∀ j, j ≠ i → msgs (rxl s') !! j = msgs (rxl s1) !! j).
  { eexists _, _. split; [reflexivity|]. split; [|done]. by apply (same_pool_inv s1). }
  repeat (case_if; [exact Hign|]). clear Hign.
  msteps. eexists _, _. split; [reflexivity|]. split_and!; [|done|].
  - destruct Hinv1 as [Hv Hp Hsh Hip Hm Hc Hl]. split; cbn; try done.
    + rewrite fmap_app. apply Forall_app. split; [done|]. by constructor.
    + rewrite list_fmap_insert. apply Forall_insert; [done|by left].
    + rewrite zlen_app, (held_take i m) by done. change (zlen [_]) with 1. lia.
  - intros j Hj. cbn. by rewrite list_lookup_insert_ne.
Qed.

Lemma rx_packets_pool i ds now s :
  pool_inv s →
  (∀ j, (i ≤ j < i + length ds)%nat → ∃ m, msgs (rxl s) !! j = Some m ∧ good (buf m)) →
  ∃ n s', rx_packets i ds now s = (Ret n, s') ∧ pool_inv s' ∧ inprog (cal s') = inprog (cal s).
Proof using Hsize.
  revert i s. induction ds as [|d ds IH]; intros i s Hinv Hr.
  { by eexists _, _. }
  cbn [rx_packets]. destruct (Hr i) as (m & Hm & Hg); [cbn; lia|].
  destruct (rx_packet_pool i d now s m Hinv Hm Hg) as (n & s1 & E & Hinv1 & Hi & Hkeep).
  rewrite (bind_ret _ _ _ _ _ E).
  destruct (IH (S i) s1 Hinv1) as (k & s2 & E2 & Hinv2 & Hi2).
  { intros j Hj. rewrite Hkeep by lia. apply Hr. cbn. lia. }
  rewrite (bind_ret _ _ _ _ _ E2), <-Hi, <-Hi2. by eexists _, _.
Qed.

Lemma rx_batch_pool ds timeout now s n :
  pool_inv s → slots_ready n (msgs (rxl s)) → (length ds ≤ n)%nat →
  ∃ s', rx_batch ds timeout now s = (Ret tt, s') ∧ pool_inv s' ∧ inprog (cal s') = inprog (cal s).
Proof using Hsize.
  intros Hinv Hr Hn. unfold rx_batch.
  set (s0 := if timeout then count_by ntimeout set_ntimeout 1 s else s).
  assert (E0 : when timeout (modify (count_by ntimeout set_ntimeout 1)) s = (Ret tt, s0))
    by (by destruct timeout).
  rewrite (bind_ret _ _ _ _ _ E0). msteps.
  match goal with |- context [bind (rx_packets _ _ _) _ ?x] => set (s1 := x) end.
  assert (Hinv1 : pool_inv s1).
  { subst s1 s0. destruct Hinv as [Hv Hp Hsh Hip Hm Hc Hl].
    split; destruct timeout; cbn; rewrite ?fill_held; try done; by apply fill_good. }
  assert (Hm1 : msgs (rxl s1) = fill ds (msgs (rxl s))) by (subst s1 s0; by destruct timeout).
  destruct (rx_packets_pool 0 ds now s1 Hinv1) as (k & s2 & E2 & Hinv2 & Hi2).
  { intros j Hj. rewrite Hm1. apply (fill_ready n); [done|lia]. }
  rewrite (bind_ret _ _ _ _ _ E2). eexists. split; [reflexivity|].
  split; [by apply (same_pool_inv s2)|]. cbn. rewrite Hi2. subst s1 s0. by destruct timeout.
Qed.

Lemma rx_assign_pool s :
  pool_inv s →
  ∃ r s', rx_assign s = (Ret r, s') ∧ pool_inv s' ∧
    match r with Some n => slots_ready n (msgs (rxl s')) | None => True end ∧
    inprog (cal s') = inprog (cal s).
Proof using Hsize.
  intros Hinv. pose proof Hinv as [Hv Hp Hsh Hip Hm Hc Hl]. unfold rx_assign. mstep.
  destruct (vpool (shared s)) as [|b pool] eqn:Ev.
  { eexists None, _. split; [reflexivity|]. split_and!; [|done|done]. by apply (same_pool_inv s). }
  destruct (assign_spec (msgs (rxl s)) (b :: pool) Hv Hm) as (ms & p' & n & -> & ? & ? & Hr & Hcnt).
  eexists (Some n), _. split; [reflexivity|]. split_and!; [|done|done].
  split; cbn; try done. lia.
Qed.

(** ** The cache thread and the records keep the pool *)

Lemma deassign_good ps pool :
  Forall good_or_empty (body <$> ps) → Forall good pool →
  Forall good (deassign ps pool) ∧ zlen (deassign ps pool) = held (body <$> ps) + zlen pool.
Proof.
  revert pool. induction ps as [|p ps IH]; intros pool Hps Hp; [done|].
  cbn [deassign fmap list_fmap] in *. inv Hps. rewrite held_cons.
  case_bool_decide; cbn [negb].
  - destruct (IH pool) as [? ->]; [done|done|]. split; [done|lia].
  - destruct (IH (body p :: pool)) as [? ->]; [done| |].
    + constructor; [|done]. by destruct H4.
    + split; [done|]. rewrite zlen_cons. lia.
Qed.

Lemma cache_deassign_pool s :
  pool_inv s →
  ∃ s', cache_deassign s = (Ret tt, s') ∧ pool_inv s' ∧ inprog (cal s') = [] ∧
    msgs (rxl s') = msgs (rxl s).
Proof.
  intros Hinv. pose proof Hinv as [Hv Hp Hsh Hip Hm Hc Hl]. unfold cache_deassign. mstep.
  case_bool_decide as Hi; cbn [negb when].
  { exists s. by rewrite Hi. }
  destruct (deassign_good _ _ Hip Hv) as [Hg Hz]. msteps.
  set (s1 := on_cache (set_inprog []) (on_shared (set_vpool (deassign (inprog (cal s)) (vpool (shared s)))) s)).
  assert (Hinv1 : pool_inv s1).
  { split; cbn; try done. rewrite held_nil. lia. }
  unfold when. case_if; (eexists; split; [reflexivity|]); split_and!; try done.
  by apply (same_pool_inv s1).
Qed.

Lemma cache_grab_pool s :
  pool_inv s → inprog (cal s) = [] →
  ∃ s', cache_grab s = (Ret tt, s') ∧ pool_inv s' ∧ Forall good (body <$> inprog (cal s')) ∧
    msgs (rxl s') = msgs (rxl s).
Proof using Hsize.
  intros [Hv Hp Hsh Hip Hm Hc Hl] Hi. eexists. split; [reflexivity|]. split; [|done].
  split; cbn; rewrite ?Hi in *; try done.
  - eapply Forall_impl; [|exact Hp]. by right.
  - rewrite held_good, zlen_fmap by done. cbn in Hc. rewrite held_nil in Hc. rewrite zlen_nil. lia.
Qed.

Lemma on_fbase_stays {A} (m : M (PSCBase B) A) : stays same_pool (on_fbase m).
Proof. apply stays_zoom. done. Qed.

Lemma close_file_same s : same_pool s (on_cache close_file s).
Proof. split; try done. cbn. unfold close_file. by destruct (datafile (cal s)). Qed.

(** Steps of the cache thread on what is not the pool. *)
Ltac cache_parts :=
  stays_parts; try first [apply on_fbase_stays | apply stays_modify, close_file_same | by apply stays_modify].

Lemma deliver_pkts_stays ps : stays same_pool (deliver_pkts ps).
Proof.
  induction ps as [|p ps IH]; cbn [deliver_pkts]; unfold deliver_pkt; cache_parts; apply IH.
Qed.

Lemma cache_deliver_stays : stays same_pool cache_deliver.
Proof. unfold cache_deliver. cache_parts. apply deliver_pkts_stays. Qed.

Lemma cache_open_stays stamp err : stays same_pool (cache_open stamp err).
Proof. unfold cache_open. cache_parts. Qed.

Lemma write_batches_stays wr fuel k ps err : stays same_pool (write_batches wr fuel k ps err).
Proof.
  revert k ps err. induction fuel as [|fuel IH]; intros k ps err; cbn [write_batches]; cache_parts. apply IH.
Qed.

Lemma cache_write_stays wr syncerr err : stays same_pool (cache_write wr syncerr err).
Proof. unfold cache_write. cache_parts. apply write_batches_stays. Qed.

Lemma cache_error_stays err text : stays same_pool (cache_error err text).
Proof. unfold cache_error. cache_parts. Qed.

Lemma held_replicate n : held (body <$> replicate n empty_pkt) = 0.
Proof. induction n as [|n IH]; [done|]. cbn [replicate fmap list_fmap]. by rewrite held_cons, IH. Qed.

Lemma cache_short_pool s :
  pool_inv s → Forall good (body <$> inprog (cal s)) →
  ∃ s', cache_short s = (Ret tt, s') ∧ pool_inv s' ∧ msgs (rxl s') = msgs (rxl s).
Proof using Hsize.
  intros [Hv Hp Hsh Hip Hm Hc Hl] Hg. unfold cache_short. msteps. eexists. split; [reflexivity|].
  split; [|done]. rewrite (wrapU_small 64) by (pose proof (zlen_nonneg (shortBuf (shared s))); lia).
  set (n := Z.to_nat (Z.min _ _)).
  assert (Hn : Z.of_nat n ≤ zlen (inprog (cal s)) ∧ zlen (shortBuf (shared s)) + Z.of_nat n ≤ shortLimit (shared s)).
  { pose proof (zlen_nonneg (inprog (cal s))). subst n. lia. }
  pose proof (take_drop n (inprog (cal s))) as Etd. rewrite <-Etd, fmap_app in Hg.
  apply Forall_app in Hg as [Hg1 Hg2].
  assert (Hz : zlen (take n (inprog (cal s))) = Z.of_nat n).
  { unfold zlen. rewrite length_take. unfold zlen in Hn. lia. }
  split; cbn; try done.
  - rewrite fmap_app. by apply Forall_app.
  - rewrite fmap_app. apply Forall_app. split.
    + apply Forall_fmap, Forall_replicate. by left.
    + eapply Forall_impl; [|exact Hg2]. by right.
  - rewrite fmap_app, held_app, held_replicate, zlen_app, Hz, (held_good (body <$> drop _ _)) by done.
    rewrite <-Etd, fmap_app, held_app, !held_good, !zlen_fmap, Hz in Hc by done.
    rewrite zlen_fmap. lia.
  - rewrite zlen_app, Hz. lia.
Qed.

Lemma return_bufs_good ps pool :
  Forall good (body <$> ps) → Forall good pool →
  ∃ pool', return_bufs ps pool = Some pool' ∧ Forall good pool' ∧ zlen pool' = zlen ps + zlen pool.
Proof using Hsize.
  revert pool. induction ps as [|p ps IH]; intros pool Hps Hp; [by exists pool|].
  cbn [return_bufs fmap list_fmap] in *. inv Hps.
  rewrite bool_decide_eq_false_2 by (by apply good_nonempty).
  destruct (IH (body p :: pool)) as (pool' & -> & ? & Hz); [done|by constructor|].
  exists pool'. rewrite Hz, !zlen_cons. split_and!; [done|done|lia].
Qed.

Lemma clear_pool s :
  pool_inv s →
  ∃ n s', devudp_clear_shortbuf s = (Ret n, s') ∧ pool_inv s' ∧ inprog (cal s') = inprog (cal s) ∧
    msgs (rxl s') = msgs (rxl s).
Proof using Hsize.
  intros [Hv Hp Hsh Hip Hm Hc Hl]. unfold devudp_clear_shortbuf. msteps.
  destruct (return_bufs_good _ _ Hsh Hv) as (pool' & -> & Hg & Hz). msteps.
  eexists _, _. split; [reflexivity|]. split; [|done]. split; cbn; try done.
  - rewrite zlen_nil. lia.
  - pose proof (zlen_nonneg (shortBuf (shared s))). rewrite zlen_nil. lia.
Qed.

Lemma read_pool block offset nelm arr s v s' :
  pool_inv s → 0 ≤ nelm < 2 ^ 32 → devudp_read_shortbuf block offset nelm arr s = (Ret v, s') →
  pool_inv s' ∧ inprog (cal s') = inprog (cal s) ∧ msgs (rxl s') = msgs (rxl s).
Proof.
  intros Hinv Hn. pose proof Hinv as [Hv Hp Hsh Hip Hm Hc Hl]. unfold devudp_read_shortbuf. mstep.
  set (s1 := if shortLimit (shared s) <? nelm then on_shared (set_shortLimit nelm) s else s).
  assert (E1 : when (shortLimit (shared s) <? nelm) (modify (on_shared (set_shortLimit nelm))) s = (Ret tt, s1)).
  { subst s1. unfold when. by destruct (_ <? _). }
  rewrite (bind_ret _ _ _ _ _ E1). destruct (short_values _ _ _ _) as [[vs alarm]|]; [|done]. intros [= _ <-].
  subst s1. case_if; [|done]. bool_to_prop. split; [|done]. split; cbn; try done. lia.
Qed.

Lemma thread_step_inv c c' : config_inv c → thread_step c c' → config_inv c'.
Proof using Hsize.
  intros (Hinv & Hrx & Hca) Hs. destruct Hs; cbn [rpc cpc st] in *.
  - destruct (rx_assign_pool s Hinv) as (r & s1 & E & Hinv1 & _ & Hi). rewrite E in H3. simplify_eq.
    split; [done|]. split; [done|]. cbn. by rewrite Hi.
  - destruct (rx_assign_pool s Hinv) as (r & s1 & E & Hinv1 & Hr & Hi). rewrite E in H3. simplify_eq.
    split; [done|]. split; [done|]. cbn. by rewrite Hi.
  - done.
  - split; [by apply (same_pool_inv s)|]. by split.
  - assert (Hsp : same_pool s s').
    { unfold rx_notify in H2. revert H2. mstep. unfold when. case_if; by intros [= <-]. }
    split; [by apply (same_pool_inv s)|]. cbn. rewrite (sp_msgs _ _ Hsp), (sp_inprog _ _ Hsp). done.
  - destruct (rx_batch_pool ds timeout now s n Hinv Hrx H2) as (s1 & E & Hinv1 & Hi).
    rewrite E in H3. simplify_eq. split; [done|]. split; [done|]. cbn. by rewrite Hi.
  - destruct (cache_deassign_pool s Hinv) as (s1 & E & Hinv1 & Hi & Hm). rewrite E in H2. simplify_eq.
    split; [done|]. cbn. by rewrite Hm.
  - destruct (cache_deassign_pool s Hinv) as (s1 & E & Hinv1 & Hi & Hm). rewrite E in H2. simplify_eq.
    split; [done|]. cbn. by rewrite Hm.
  - split; [by apply (same_pool_inv s)|]. by split.
  - destruct (cache_grab_pool s Hinv Hca) as (s1 & E & Hinv1 & Hi & Hm). rewrite E in H2. simplify_eq.
    split; [done|]. cbn. by rewrite Hm.
  - pose proof (stays_run cache_deliver_stays H2) as Hsp.
    split; [by apply (same_pool_inv s)|]. cbn. rewrite (sp_msgs _ _ Hsp).
    split; [done|]. destruct more; [|done]. by rewrite (sp_inprog _ _ Hsp).
  - pose proof (stays_run (cache_open_stays stamp operr) H2) as Hsp.
    split; [by apply (same_pool_inv s)|]. cbn. by rewrite (sp_msgs _ _ Hsp), (sp_inprog _ _ Hsp).
  - pose proof (stays_run (cache_write_stays wr syncerr err) H2) as Hsp.
    split; [by apply (same_pool_inv s)|]. cbn. by rewrite (sp_msgs _ _ Hsp), (sp_inprog _ _ Hsp).
  - destruct (cache_short_pool s Hinv Hca) as (s1 & E & Hinv1 & Hm). rewrite E in H2. simplify_eq.
    split; [done|]. cbn. by rewrite Hm.
  - pose proof (stays_run (cache_error_stays err text) H2) as Hsp.
    split; [by apply (same_pool_inv s)|]. cbn. by rewrite (sp_msgs _ _ Hsp).
Qed.

Lemma dev_step_inv c c' : config_inv c → dev_step c c' → config_inv c'.
Proof using Hsize.
  intros (Hinv & Hrx & Hca) Hs. destruct Hs; cbn [rpc cpc st] in *.
  - destruct (clear_pool s Hinv) as (k & s1 & E & Hinv1 & Hi & Hm). rewrite E in H2. simplify_eq.
    split; [done|]. cbn. by rewrite Hi, Hm.
  - destruct (read_pool block offset nelm arr s v s' Hinv H2 H3) as (Hinv1 & Hi & Hm).
    split; [done|]. cbn. by rewrite Hi, Hm.
  - assert (Hsp : same_pool s s').
    { revert H2. unfold devudp_set_record. msteps. unfold when. by destruct v; intros [= <-]. }
    split; [by apply (same_pool_inv s)|]. cbn. by rewrite (sp_msgs _ _ Hsp), (sp_inprog _ _ Hsp).
  - assert (Hsp : same_pool s s') by (revert H2; unfold devudp_reopen; msteps; by intros [= <-]).
    split; [by apply (same_pool_inv s)|]. cbn. by rewrite (sp_msgs _ _ Hsp), (sp_inprog _ _ Hsp).
  - assert (Hsp : same_pool s s') by (revert H2; unfold stop; msteps; by intros [= <-]).
    split; [by apply (same_pool_inv s)|]. cbn. by rewrite (sp_msgs _ _ Hsp), (sp_inprog _ _ Hsp).
Qed.

Lemma start_inv b batch : 0 ≤ total → config_inv (start b batch total size).
Proof using Hsize.
  intros Ht. assert (Hh : held (buf <$> replicate batch (Message [] (replicate 8 Byte.x00))) = 0).
  { rewrite fmap_replicate. cbn [buf]. induction batch as [|n IH]; [done|].
    cbn [replicate]. by rewrite held_cons, IH. }
  split; [|done]. split; try done.
  - apply Forall_replicate. unfold good. rewrite zlen_replicate. lia.
  - apply Forall_fmap, Forall_replicate. by left.
  - unfold start, connect, new_UDPFast. cbn [fst snd on_fbase zoom modify on_shared set_shared set_fbase st shared vpool pending shortBuf rxl cal msgs inprog].
    rewrite Hh, zlen_replicate, !zlen_nil. change (held (body <$> [])) with 0. lia.
Qed.

Lemma reachable_inv b batch c :
  0 ≤ total → rtc step (start b batch total size) c → config_inv c.
Proof using Hsize.
  intros Ht Hr. revert Hr. apply (rtc_ind_r config_inv); [by apply start_inv|].
  intros c1 c2 _ [Hs|Hs] Hinv; [by apply (thread_step_inv c1)|by apply (dev_step_inv c1)].
Qed.
End pool.

(** C38: No buffer is lost and no assertion of the pool fails.  In every state the two threads
    and the records reach, each of the [total] buffers, still of its first size, is in
    exactly one of the pool, the pending packets, the packets in progress, the slots of
    [recvmmsg] and the kept packets; and the loops that hand buffers out, take them back or
    attach received packets return. *)
Theorem pool_conserved size total b batch (c : config B) :
  8 ≤ size → 0 ≤ total → rtc step (start b batch total size) c →
  pool_inv size total (st c) ∧
  (∃ r s', rx_assign (st c) = (Ret r, s')) ∧
  (∃ n s', devudp_clear_shortbuf (st c) = (Ret n, s')) ∧
  ∀ n ds timeout now, rpc c = RxReceiving n → (length ds ≤ n)%nat →
    ∃ s', rx_batch ds timeout now (st c) = (Ret tt, s').
Proof.
  intros Hs Ht Hr. destruct (reachable_inv size total Hs b batch c Ht Hr) as (Hinv & Hrx & _).
  split; [done|]. split_and!.
  - destruct (rx_assign_pool size total Hs _ Hinv) as (r & s' & E & _). by exists r, s'.
  - destruct (clear_pool size total Hs _ Hinv) as (n & s' & E & _). by exists n, s'.
  - intros n ds timeout now E Hn. rewrite E in Hrx.
    destruct (rx_batch_pool size total Hs ds timeout now _ n Hinv Hrx Hn) as (s' & E' & _). by exists s'.
Qed.

(** ** A packet that is taken *)

(** The tests of [rx_packet], on a slot that was filled. *)
Definition accepts (d : dgram) (m : message) : bool :=
  from_peer d && (8 <=? msg_len d m) && negb (bad_frame (hbuf m))
  && (msg_len d m - 8 <=? get_bodylen (hbuf m)).

Definition accepted (i : nat) (m : message) (now : epicsTime) s : sys B :=
  on_rx (λ r, set_msgs (<[i := set_buf [] m]> (msgs r)) r)
    (on_shared (λ f, set_pending (pending f ++ [Pkt (buf m) (get_bodylen (hbuf m)) now (get_msgid (hbuf m))]) f)
      (on_rx (set_notifycache (notifycache (rxl s) || bool_decide (pending (shared s) = []))) s)).

Lemma rx_packet_eq i d now s m s1 :
  msgs (rxl s) !! i = Some m → note_overflow d s = (Ret tt, s1) →
  rx_packet i d now s =
    if accepts d m then (Ret (msg_len d m + 44), accepted i m now s1)
    else (Ret 0, count_by nignore set_nignore 1 s1).
Proof.
  intros Hm E. unfold rx_packet. mstep. rewrite Hm, (bind_ret _ _ _ _ _ E). unfold accepts.
  destruct (from_peer d); cbn [negb andb]; [|reflexivity].
  rewrite Z.ltb_antisym. destruct (8 <=? _); cbn [negb andb]; [|reflexivity].
  destruct (bad_frame _); cbn [negb andb]; [reflexivity|].
  rewrite Z.ltb_antisym. destruct (_ <=? _); cbn [negb]; [|reflexivity].
  msteps. unfold ret. f_equal. f_equal. lia.
Qed.

(** A slot after a datagram with a header. *)
Definition received (buf0 data : list byte) : list byte :=
  zblit 0 (ztake (zlen buf0) data) buf0.

Lemma fill_slot_message d m id n data :
  payload d = put_header id n ++ data → zlen (hbuf m) = 8 →
  fill_slot d m = Message (received (buf m) data) (put_header id n) ∧
  msg_len d (fill_slot d m) = 8 + Z.min (zlen data) (zlen (buf m)).
Proof.
  intros Hp Hh. pose proof (zlen_put_header id n) as Hz. unfold HEADER_SIZE in Hz.
  split.
  - unfold fill_slot. rewrite Hp. change 8 with HEADER_SIZE.
    rewrite zdrop_put_header, ztake_put_header, (zblit_all (put_header id n)) by lia. done.
  - unfold msg_len. rewrite zlen_fill_slot, Hp, zlen_app. lia.
Qed.

Lemma rx_message_eq i d now s m id n data s1 :
  msgs (rxl s) !! i = Some (fill_slot d m) → zlen (hbuf m) = 8 →
  payload d = put_header id n ++ data → 0 ≤ n < 2 ^ 32 → note_overflow d s = (Ret tt, s1) →
  rx_packet i d now s =
    if from_peer d && (Z.min (zlen data) (zlen (buf m)) <=? n)
    then (Ret (52 + Z.min (zlen data) (zlen (buf m))),
          accepted i (Message (received (buf m) data) (put_header id n)) now s1)
    else (Ret 0, count_by nignore set_nignore 1 s1).
Proof.
  intros Hm Hh Hp Hn E. destruct (fill_slot_message d m id n data Hp Hh) as [Ef El].
  rewrite (rx_packet_eq i _ now s _ s1 Hm E). unfold accepts. rewrite El, Ef.
  cbn [hbuf]. rewrite bad_frame_put_header, get_bodylen_put_header, wrapU_small by lia.
  pose proof (zlen_nonneg data). pose proof (zlen_nonneg (buf m)).
  rewrite (proj2 (Z.leb_le 8 _)) by lia. cbn [negb]. rewrite !andb_true_r.
  replace (8 + Z.min (zlen data) (zlen (buf m)) - 8) with (Z.min (zlen data) (zlen (buf m))) by lia.
  case_if; [|done]. f_equal. f_equal. lia.
Qed.

(** ** Both threads waiting *)

(** Any step but those of records that signal one of the two events. *)
Definition quiet_step (c c' : config B) : Prop :=
  thread_step c c' ∨
  dev_step c c' ∧ pendingReady (shared (st c')) = false ∧ vpoolStall (shared (st c')) = false.

(** Each thread waits for an event that only the other one signals. *)
Definition deadlocked (c : config B) : Prop :=
  rpc c = RxStalled ∧ cpc c = CaWait ∧
  vpoolStall (shared (st c)) = false ∧ pendingReady (shared (st c)) = false.

Lemma dev_step_waits (c c' : config B) :
  dev_step c c' →
  rpc c' = rpc c ∧ cpc c' = cpc c ∧ pending (shared (st c')) = pending (shared (st c)).
Proof.
  intros Hs. destruct Hs; cbn [rpc cpc st]; (split; [done|]); (split; [done|]).
  - revert H2. unfold devudp_clear_shortbuf. msteps. destruct (return_bufs _ _); [|done]. msteps.
    by intros [= _ <-].
  - revert H3. unfold devudp_read_shortbuf. mstep. unfold when.
    destruct (shortLimit (shared s) <? nelm); mstep;
      destruct (short_values _ _ _ _) as [[vs a]|]; by intros [= _ <-].
  - revert H2. unfold devudp_set_record. msteps. unfold when. by destruct v; intros [= <-].
  - revert H2. unfold devudp_reopen. msteps. by intros [= <-].
  - revert H2. unfold stop. msteps. by intros [= <-].
Qed.

Lemma deadlocked_step (c c' : config B) :
  deadlocked c → quiet_step c c' →
  deadlocked c' ∧ pending (shared (st c')) = pending (shared (st c)).
Proof.
  intros (Er & Ec & Ev & Ep) [Hs|(Hs & Ep' & Ev')].
  - destruct Hs; cbn [rpc cpc st] in *; congruence.
  - apply dev_step_waits in Hs as (Er' & Ec' & E). unfold deadlocked. by rewrite Er', Ec'.
Qed.

Lemma deadlocked_steps (c c' : config B) :
  deadlocked c → rtc quiet_step c c' →
  deadlocked c' ∧ pending (shared (st c')) = pending (shared (st c)).
Proof.
  intros Hd Hr. revert Hd. induction Hr as [c|c c1 c2 Hs _ IH]; intros Hd; [done|].
  destruct (deadlocked_step c c1 Hd Hs) as [Hd1 <-]. by apply IH.
Qed.

(** A datagram with a header and no body. *)
Definition header_dgram (id : Z) : dgram := Dgram true (put_header id 0) None.

Lemma rx_header_dgram i id now s m :
  msgs (rxl s) !! i = Some (fill_slot (header_dgram id) m) → zlen (hbuf m) = 8 →
  rx_packet i (header_dgram id) now s =
    (Ret 52, accepted i (Message (buf m) (put_header id 0)) now s).
Proof.
  intros Hm Hh. rewrite (rx_message_eq i (header_dgram id) now s m id 0 [] s); try done.
  pose proof (zlen_nonneg (buf m)). unfold received. rewrite zlen_nil, Z.min_l by done.
  rewrite ztake_all by (rewrite zlen_nil; done). by rewrite zblit_nil.
Qed.

(** C40: The two threads can wait for each other for ever.  With one buffer in the pool, one
    datagram that takes it is enough: the receiving thread then finds the pool empty and
    waits on [vpoolStall] before it gets to signal [pendingReady], and the other thread,
    which would return the buffer, waits on [pendingReady].  Until a record signals an event
    (REOPEN, RECORD) or the driver stops, nothing moves and the datagram stays pending. *)
Theorem pool_deadlock b batch size id :
  8 ≤ size →
  ∃ c : config B, rtc thread_step (start b (S batch) 1 size) c ∧ deadlocked c ∧
    msgid <$> pending (shared (st c)) = [u16 id] ∧
    ∀ c', rtc quiet_step c c' →
      deadlocked c' ∧ pending (shared (st c')) = pending (shared (st c)).
Proof.
  intros Hs. set (buf0 := replicate (Z.to_nat size) Byte.x00).
  assert (Hz : (zlen buf0 <? 8) = false).
  { subst buf0. rewrite zlen_replicate. apply Z.ltb_ge. lia. }
  assert (Hne : bool_decide (buf0 = []) = false).
  { apply bool_decide_eq_false. intros E. rewrite E in Hz. done. }
  set (s0 := st (start b (S batch) 1 size)).
  set (rest := replicate batch (Message [] (replicate 8 Byte.x00))).
  set (s1 := on_shared (set_vpool []) (on_rx (set_msgs (Message buf0 (replicate 8 Byte.x00) :: rest)) s0)).
  assert (E1 : rx_assign s0 = (Ret (Some 1%nat), s1)).
  { assert (Ha : assign (msgs (rxl s0)) (vpool (shared s0)) =
      Some (Message buf0 (replicate 8 Byte.x00) :: rest, [], 1%nat)).
    { change (assign (Message [] (replicate 8 Byte.x00) :: rest) [buf0] =
        Some (Message buf0 (replicate 8 Byte.x00) :: rest, [], 1%nat)).
      cbn [assign]. rewrite Hz. subst rest. by destruct batch. }
    unfold rx_assign. mstep. rewrite Ha. reflexivity. }
  assert (E2 : ∃ s2, rx_batch [header_dgram id] false (EpicsTime 0 0) s1 = (Ret tt, s2) ∧
    vpool (shared s2) = [] ∧ inprog (cal s2) = [] ∧ running (shared s2) = true ∧
    vpoolStall (shared s2) = false ∧ pendingReady (shared s2) = false ∧
    msgid <$> pending (shared s2) = [u16 id]).
  { unfold rx_batch. cbn [when]. msteps. cbn [rx_packets].
    erewrite bind_ret by (erewrite bind_ret by (apply rx_header_dgram; reflexivity); reflexivity).
    eexists. split; [reflexivity|]. cbn. rewrite get_msgid_put_header. by split_and!. }
  destruct E2 as (s2 & E2 & Ev & Ei & Er & Es & Ep & Eid).
  exists (Config RxStalled CaWait (count_by noom set_noom 1 s2)).
  assert (Hd : deadlocked (Config RxStalled CaWait (count_by noom set_noom 1 s2))) by done.
  split; [|split; [done|split; [done|]]].
  - change (start b (S batch) 1 size) with (Config RxTop CaTop s0).
    eapply rtc_l; [eapply rx_assigns; [done|exact E1]|].
    eapply rtc_l; [eapply (rx_notifies _ s1); reflexivity|].
    eapply rtc_l; [eapply (rx_receives _ _ _ _ [header_dgram id]); [done|exact E2]|].
    eapply rtc_l; [eapply cache_waits; [unfold cache_deassign; mstep; by rewrite Ei|done]|].
    apply rtc_once, rx_stalls; [done|]. unfold rx_assign. mstep. by rewrite Ev.
  - intros c'. by apply deadlocked_steps.
Qed.
End threads.

Lemma pool_conserved_witness :
  let E := quiet_env in let F := sample_config in
  let c := Config (RxAssigned 2) CaTop (rx_assign (st (start sample_base 2 3 16))).2 in
  zlen (vpool (shared (st c))) = 1 ∧
  pool_inv 16 3 (st c) ∧
  (∃ r s', rx_assign (st c) = (Ret r, s')) ∧
  (∃ n s', devudp_clear_shortbuf (st c) = (Ret n, s')) ∧
  ∀ n ds timeout now, rpc c = RxReceiving n → (length ds ≤ n)%nat →
    ∃ s', rx_batch ds timeout now (st c) = (Ret tt, s').
Proof.
  intros E F c. split; [vm_compute; reflexivity|].
  apply (pool_conserved 16 3 sample_base 2 c); [lia|lia|].
  apply rtc_once. left. apply rx_assigns; [reflexivity|]. apply run_ret. vm_compute. reflexivity.
Defined.

Lemma pool_deadlock_witness :
  let E := quiet_env in let F := sample_config in
  8 ≤ 16 ∧
  ∃ c, rtc thread_step (start sample_base 2 1 16) c ∧ deadlocked c ∧
    msgid <$> pending (shared (st c)) = [u16 10] ∧
    ∀ c', rtc quiet_step c c' →
      deadlocked c' ∧ pending (shared (st c')) = pending (shared (st c)).
Proof. intros E F. split; [lia|]. apply (pool_deadlock sample_base 1 16 10). lia. Defined.
