(* ===== verification/FastFile.v ===== *)
(** * The fast UDP receiver: blocks and data files

    What the datagrams of [Fast] become: the contents of the received blocks, and the data
    file, read back as documentation/udpfast.rst describes it. *)

From S2P Require Import Prelude EvBuffer Dbuffer Block Wire PscBase PscTcp DevCommon DevSample UdpFast FastPool.
Import Fast.

(** ** The documented file format *)

(** Message id, seconds since the POSIX epoch, nanoseconds, body. *)
Record entry := Entry { e_id : Z; e_sec : Z; e_nsec : Z; e_body : list byte }.

(** "Each file will contain a sequence of such packets concatenated together." *)
Fixpoint read_entries (fuel : nat) (l : list byte) : option (list entry) :=
  match l, fuel with
  | [], _ => Some []
  | _, O => None
  | _, S fuel' =>
      if (zlen l <? 16) || bad_frame l || (zlen l <? 16 + get_bodylen l) then None
      else
        r ← read_entries fuel' (zdrop (16 + get_bodylen l) l);
        Some (Entry (get_msgid l) (be_val (zslice 8 4 l)) (be_val (zslice 12 4 l))
                (zslice 16 (get_bodylen l) l) :: r)
  end.

Definition read_file (l : list byte) : option (list entry) := read_entries (length l) l.

(** A packet as the format stores it. *)
Definition posix_sec (p : pkt) : Z := secPastEpoch (rxtime p) + POSIX_TIME_AT_EPICS_EPOCH.
Definition entry_of (p : pkt) : entry :=
  Entry (msgid p) (posix_sec p) (nsec (rxtime p)) (ztake (bodylen p) (body p)).

(** The buffer holds what the header of the packet announced. *)
Definition complete (p : pkt) : Prop := 0 ≤ bodylen p ≤ zlen (body p).

(** Fields that fit their places in the header. *)
Definition storable (p : pkt) : Prop :=
  complete p ∧ 0 ≤ msgid p < 2 ^ 16 ∧ bodylen p < 2 ^ 32 ∧
  0 ≤ posix_sec p < 2 ^ 32 ∧ 0 ≤ nsec (rxtime p) < 2 ^ 32.

Definition record_bytes (p : pkt) : list byte :=
  put_header (msgid p) (bodylen p) ++ be_bytes 4 (posix_sec p) ++ be_bytes 4 (nsec (rxtime p))
  ++ ztake (bodylen p) (body p).

Definition records_bytes (ps : list pkt) : list byte := concat (record_bytes <$> ps).

Lemma file_records_complete ps : Forall complete ps → file_records ps = Some (records_bytes ps).
Proof.
  induction 1 as [|p ps Hp _ IH]; [done|]. cbn [file_records].
  assert (Ep : file_record p = Some (record_bytes p)).
  { unfold file_record. case_if; bool_to_prop; [destruct Hp; lia|done]. }
  by rewrite Ep, IH.
Qed.

Lemma zlen_record_bytes p : complete p → zlen (record_bytes p) = 16 + bodylen p.
Proof.
  intros Hp. unfold record_bytes, complete in *.
  rewrite !zlen_app, zlen_put_header, zlen_ztake. unfold zlen at 1 2. rewrite !length_be_bytes.
  unfold HEADER_SIZE. lia.
Qed.

Lemma zlen_records_bytes ps : Forall complete ps → zlen (records_bytes ps) = batchtotal ps.
Proof.
  induction 1 as [|p ps Hp _ IH]; [done|]. unfold records_bytes in *.
  cbn [fmap list_fmap concat batchtotal foldr]. rewrite zlen_app, IH, zlen_record_bytes by done.
  unfold batchtotal. lia.
Qed.

Lemma records_bytes_app a b : records_bytes (a ++ b) = records_bytes a ++ records_bytes b.
Proof. unfold records_bytes. by rewrite fmap_app, concat_app. Qed.

Lemma records_bytes_ne p ps : records_bytes (p :: ps) ≠ [].
Proof. discriminate. Qed.

(** Reading what was written first does not depend on what follows. *)
Lemma read_entries_mono fuel l x m :
  read_entries fuel l = Some x → (fuel ≤ m)%nat → read_entries m l = Some x.
Proof.
  revert l x m. induction fuel as [|fuel IH]; intros [|b l] x [|m] E Hm; try done; [lia|].
  cbn [read_entries] in *. case_if; [done|].
  destruct (read_entries fuel _) as [r|] eqn:Er; [|done].
  rewrite (IH _ _ m Er) by lia. done.
Qed.

Lemma read_header_app a b :
  16 ≤ zlen a →
  bad_frame (a ++ b) = bad_frame a ∧ get_msgid (a ++ b) = get_msgid a ∧
  get_bodylen (a ++ b) = get_bodylen a ∧ zslice 8 4 (a ++ b) = zslice 8 4 a ∧
  zslice 12 4 (a ++ b) = zslice 12 4 a.
Proof.
  intros Ha. unfold bad_frame, get_msgid, get_bodylen.
  rewrite !lookup_app_l by (unfold zlen in Ha; lia). by rewrite !zslice_app_l by lia.
Qed.

Lemma read_entries_app fuel fuel' a b x y :
  read_entries fuel a = Some x → read_entries fuel' b = Some y →
  read_entries (fuel + fuel') (a ++ b) = Some (x ++ y).
Proof.
  intros Ex Ey. revert a x Ex. induction fuel as [|fuel IH]; intros [|c a] x Ex; try done.
  - by injection Ex as <-.
  - injection Ex as <-. cbn [app]. by apply (read_entries_mono fuel'); [|lia].
  - cbn [read_entries] in Ex. set (l := c :: a) in *. change ((c :: a) ++ b) with (l ++ b).
    destruct ((zlen l <? 16) || bad_frame l || (zlen l <? 16 + get_bodylen l)) eqn:Et; [done|].
    apply orb_false_iff in Et as [Et Eb]. apply orb_false_iff in Et as [Et Ef]. bool_to_prop.
    destruct (read_entries fuel (zdrop (16 + get_bodylen l) l)) as [r|] eqn:Er; [|done].
    injection Ex as <-. destruct (read_header_app l b) as (Hf & Hi & Hb & H8 & H12); [done|].
    pose proof (zlen_nonneg b). pose proof (get_bodylen_range l).
    change (l ++ b) with (c :: (a ++ b)). cbn [Nat.add read_entries]. change (c :: (a ++ b)) with (l ++ b).
    rewrite Hf, Ef, Hi, Hb, H8, H12, zlen_app.
    rewrite (proj2 (Z.ltb_ge _ _)), (proj2 (Z.ltb_ge _ _)) by lia. cbn [orb].
    rewrite zdrop_app_l, zslice_app_l by lia. by rewrite (IH _ _ Er).
Qed.

Lemma read_file_app a b x y :
  read_file a = Some x → read_file b = Some y → read_file (a ++ b) = Some (x ++ y).
Proof. unfold read_file. rewrite length_app. apply read_entries_app. Qed.

Lemma read_record p : storable p → read_file (record_bytes p) = Some [entry_of p].
Proof.
  intros (Hc & Hid & Hn & Hs & Hns). pose proof (zlen_record_bytes p Hc) as Hl.
  unfold complete in Hc.
  set (hd := put_header (msgid p) (bodylen p) ++ be_bytes 4 (posix_sec p) ++ be_bytes 4 (nsec (rxtime p))).
  set (tl := ztake (bodylen p) (body p)).
  assert (El : record_bytes p = hd ++ tl).
  { unfold record_bytes, hd, tl. by rewrite <-!app_assoc. }
  assert (Hhd : zlen hd = 16) by done.
  destruct (read_header_app hd tl) as (Hf & Hi & Hb & H8 & H12); [by rewrite Hhd|].
  change (get_msgid hd) with (be_val (be_bytes 2 (msgid p))) in Hi.
  change (get_bodylen hd) with (be_val (be_bytes 4 (bodylen p))) in Hb.
  change (zslice 8 4 hd) with (be_bytes 4 (posix_sec p)) in H8.
  change (zslice 12 4 hd) with (be_bytes 4 (nsec (rxtime p))) in H12.
  rewrite be_val_be_bytes, Z.mod_small in Hi, Hb by (change (256 ^ Z.of_nat 2) with (2 ^ 16) || change (256 ^ Z.of_nat 4) with (2 ^ 32); lia).
  rewrite El in *. unfold read_file. destruct (hd ++ tl) as [|c l] eqn:E; [rewrite zlen_nil in Hl; lia|].
  cbn [length read_entries]. rewrite <-E in *. rewrite Hf, Hi, Hb, H8, H12, Hl.
  rewrite !(proj2 (Z.ltb_ge _ _)) by lia. cbn [orb bad_frame].
  change (bad_frame hd) with false. cbn [orb].
  rewrite zdrop_all by lia. unfold zslice. rewrite <-Hhd, zdrop_app_exact.
  unfold entry_of. rewrite !be_val_be_bytes, !Z.mod_small by (change (256 ^ Z.of_nat 4) with (2 ^ 32); lia).
  subst tl. rewrite ztake_ztake, Z.min_id. by destruct (length l).
Qed.

Lemma read_records ps : Forall storable ps → read_file (records_bytes ps) = Some (entry_of <$> ps).
Proof.
  induction 1 as [|p ps Hp _ IH]; [done|].
  change (records_bytes (p :: ps)) with (record_bytes p ++ records_bytes ps).
  change (entry_of <$> p :: ps) with ([entry_of p] ++ (entry_of <$> ps)).
  apply read_file_app; [by apply read_record|done].
Qed.

(** ** Writing *)

Section write.
Context {B : Type} `{EvBuffer B} `{EpicsEnv} `{FastConfig}.
Implicit Types s : sys B.

(** The file after more data, and a system whose file was closed because of an error. *)
Definition put_file (f : file) (data : list byte) : cachelocal → cachelocal :=
  set_datafile (Some (File (fname f) (fdata f ++ data))).
Definition stop_writing (f : file) (data : list byte) s : sys B :=
  on_shared (set_record false) (on_cache close_file (on_cache (put_file f data) s)).

(** [writev] reports an error or at most what it was given. *)
Definition writev_ok (wr : nat → Z → Z) : Prop := ∀ k n, wr k n ≤ n.

Lemma write_batches_none wr fuel k ps err s :
  datafile (cal s) = None ∨ ps = [] → write_batches wr (S fuel) k ps err s = (Ret (0, err), s).
Proof.
  intros Hd. cbn [write_batches]. mstep.
  destruct ps as [|p ps]; [done|]. destruct Hd as [-> |?]; done.
Qed.

Lemma batchtotal_app a b : batchtotal (a ++ b) = batchtotal a + batchtotal b.
Proof.
  induction a as [|p a IH]; [done|].
  change (16 + bodylen p + batchtotal (a ++ b) = 16 + bodylen p + batchtotal a + batchtotal b). lia.
Qed.

Lemma datafile_closed c : datafile (close_file c) = None.
Proof. unfold close_file. by destruct (datafile c) eqn:E. Qed.

Lemma close_file_closed c : datafile c = None → close_file c = c.
Proof. unfold close_file. by intros ->. Qed.

(** What the loop leaves: all of the records in the open file, or a prefix in a closed one. *)
Lemma write_batches_spec wr fuel k ps s f err :
  writev_ok wr → (1 ≤ headers_size)%nat → Forall complete ps → datafile (cal s) = Some f →
  (length ps < fuel)%nat →
  ∃ n e s', write_batches wr fuel k ps err s = (Ret (n, e), s') ∧
    ((n = batchtotal ps ∧ e = err ∧ s' = on_cache (put_file f (records_bytes ps)) s) ∨
     ((∃ j m, wr j m ≠ m) ∧ ∃ data rest, data ++ rest = records_bytes ps ∧ rest ≠ [] ∧
        s' = stop_writing f data s)).
Proof.
  intros Hwr Hh. revert k ps s f. induction fuel as [|fuel IH]; intros k ps s f Hc Hf Hl; [lia|].
  destruct ps as [|p0 ps0].
  { exists 0, err, s. rewrite write_batches_none by auto. split; [done|]. left. split_and!; [done|done|].
    unfold put_file. rewrite app_nil_r. destruct s as [sh rx [ip df cl ft]]. cbn in *. subst df. by destruct f. }
  set (ps := p0 :: ps0) in *.
  rewrite <-(take_drop headers_size ps) in Hc. apply Forall_app in Hc as [Hc1 Hc2].
  set (batch := take headers_size ps) in *. set (more := drop headers_size ps) in *.
  assert (Eps : records_bytes ps = records_bytes batch ++ records_bytes more).
  { rewrite <-records_bytes_app. subst batch more. by rewrite take_drop. }
  assert (Etot : batchtotal ps = batchtotal batch + batchtotal more).
  { rewrite <-batchtotal_app. subst batch more. by rewrite take_drop. }
  assert (Hne : records_bytes batch ≠ []).
  { subst batch ps. destruct headers_size as [|h]; [lia|]. cbn [take]. apply records_bytes_ne. }
  cbn [write_batches]. mstep. rewrite Hf. fold batch more. cbn [ps].
  rewrite (file_records_complete _ Hc1). pose proof (zlen_records_bytes _ Hc1) as Hz.
  set (n := wr k (batchtotal batch)). pose proof (Hwr k (batchtotal batch)) as Hn. fold n in Hn.
  assert (Hm : (length more < fuel)%nat).
  { subst more ps. rewrite length_drop. cbn [length] in *. lia. }
  destruct (Z.ltb_spec n 0) as [Hneg|Hpos].
  - erewrite bind_ret by (erewrite bind_ret by reflexivity; reflexivity).
    destruct fuel as [|fuel']; [lia|].
    erewrite bind_ret by (apply write_batches_none; left; apply datafile_closed).
    eexists _, _, _. split; [reflexivity|]. right. split; [exists k, (batchtotal batch); fold n; pose proof (zlen_nonneg (records_bytes batch)); lia|].
    exists [], (records_bytes ps). split_and!; [done|rewrite Eps; by destruct (records_bytes batch)|].
    unfold stop_writing, put_file. rewrite app_nil_r. 
    destruct s as [sh rx [ip df cl ft]]. cbn in *. subst df. destruct f; cbn. reflexivity.
  - destruct (Z.eqb_spec n (batchtotal batch)) as [E|E].
    + erewrite bind_ret by (erewrite bind_ret by reflexivity; reflexivity).
      rewrite E, <-Hz, ztake_all by done.
      destruct (IH (S k) more (on_cache (put_file f (records_bytes batch)) s)
        (File (fname f) (fdata f ++ records_bytes batch)) Hc2 eq_refl Hm) as (n' & e & s' & E' & Hs').
      rewrite (bind_ret _ _ _ _ _ E'). eexists _, _, _. split; [reflexivity|]. cbn [fst snd].
      destruct Hs' as [(-> & -> & ->)|(Hw & data & rest & Ed & Hr & ->)]; [left|right].
      * split_and!; [lia|done|]. unfold put_file. rewrite Eps, app_assoc. reflexivity.
      * split; [done|]. exists (records_bytes batch ++ data), rest.
        split_and!; [by rewrite Eps, <-Ed, app_assoc|done|].
        unfold stop_writing, put_file. rewrite app_assoc. reflexivity.
    + cbn [negb when]. erewrite bind_ret by (erewrite bind_ret by reflexivity; reflexivity).
      destruct fuel as [|fuel']; [lia|].
      erewrite bind_ret by (apply write_batches_none; left; apply datafile_closed).
      eexists _, _, _. split; [reflexivity|]. right. split; [by exists k, (batchtotal batch)|].
      exists (ztake n (records_bytes batch)), (zdrop n (records_bytes batch) ++ records_bytes more).
      split_and!; [by rewrite app_assoc, ztake_zdrop| |done].
      intros [Hz0 _]%app_nil. pose proof (zlen_zdrop n (records_bytes batch)) as Hd.
      rewrite Hz0, zlen_nil, Hz in Hd. lia.
Qed.

(** The bookkeeping after the loop leaves the file alone. *)
Lemma cache_write_run wr syncerr err s f n e s1 :
  datafile (cal s) = Some f →
  write_batches wr (S (length (inprog (cal s)))) 0 (inprog (cal s)) err s = (Ret (n, e), s1) →
  ∃ e' s', cache_write wr syncerr err s = (Ret e', s') ∧
    datafile (cal s') = datafile (cal s1) ∧ closed (cal s') = closed (cal s1) ∧
    record (shared s') = record (shared s1) ∧ (syncerr = 0 → e' = e) ∧
    storewrote (cnt (shared s')) = u64 (storewrote (cnt (shared s1)) + n).
Proof.
  intros Hf E. unfold cache_write. mstep. rewrite Hf, (bind_ret _ _ _ _ _ E). msteps. cbn [fst snd].
  case_if; [msteps|]; (eexists _, _; split; [reflexivity|]); split_and!; try done.
  by intros ->.
Qed.

(** A data file can be read back.  When every [writev] writes all it is given, the packets
    in progress are appended to the open file whatever their number per [writev], the file
    stays open and recording; and the reader of the documented format gets from the file
    what it held before, followed by message id, POSIX time and body of each packet. *)
Theorem data_file_reads_back wr s f before :
  datafile (cal s) = Some f → read_file (fdata f) = Some before → (1 ≤ headers_size)%nat →
  (∀ k n, wr k n = n) → Forall storable (inprog (cal s)) →
  ∃ s' data, cache_write wr 0 0 s = (Ret 0, s') ∧
    datafile (cal s') = Some (File (fname f) data) ∧ record (shared s') = record (shared s) ∧
    read_file data = Some (before ++ (entry_of <$> inprog (cal s))) ∧
    storewrote (cnt (shared s')) = u64 (storewrote (cnt (shared s)) + (zlen data - zlen (fdata f))).
Proof.
  intros Hf Hb Hh Hwr Hst.
  assert (Hc : Forall complete (inprog (cal s))) by (eapply Forall_impl; [|exact Hst]; by intros p []).
  destruct (write_batches_spec wr (S (length (inprog (cal s)))) 0 (inprog (cal s)) s f 0)
    as (n & e & s1 & E & Hs1); [intros k n; by rewrite Hwr|done|done|done|lia|].
  destruct Hs1 as [(-> & -> & ->)|((j & m & Hw) & _)]; [|by rewrite Hwr in Hw].
  destruct (cache_write_run wr 0 0 s f _ _ _ Hf E) as (e' & s' & E' & Hd & _ & Hr & He & Hn).
  rewrite (He eq_refl) in E'.
  exists s', (fdata f ++ records_bytes (inprog (cal s))). split_and!; [done|by rewrite Hd|by rewrite Hr| |].
  - apply read_file_app; [done|]. by apply read_records.
  - rewrite Hn, zlen_app, (zlen_records_bytes _ Hc). cbn. f_equal. lia.
Qed.

(** A failing disk.  Whatever [writev] does, the data file holds a prefix of the records:
    all of them and the file is still open, or fewer and the file is closed and recording
    off, so that nothing is ever appended after a record that is cut. *)
Theorem write_failure_stops wr syncerr err s f :
  datafile (cal s) = Some f → (1 ≤ headers_size)%nat → writev_ok wr →
  Forall complete (inprog (cal s)) →
  ∃ e s', cache_write wr syncerr err s = (Ret e, s') ∧
    ((datafile (cal s') = Some (File (fname f) (fdata f ++ records_bytes (inprog (cal s)))) ∧
      record (shared s') = record (shared s) ∧ closed (cal s') = closed (cal s)) ∨
     (∃ data rest, data ++ rest = records_bytes (inprog (cal s)) ∧ rest ≠ [] ∧
        datafile (cal s') = None ∧ record (shared s') = false ∧
        closed (cal s') = closed (cal s) ++ [File (fname f) (fdata f ++ data)])).
Proof.
  intros Hf Hh Hwr Hc.
  destruct (write_batches_spec wr (S (length (inprog (cal s)))) 0 (inprog (cal s)) s f err)
    as (n & e & s1 & E & Hs1); [done|done|done|done|lia|].
  destruct (cache_write_run wr syncerr err s f _ _ _ Hf E) as (e' & s' & E' & Hd & Hcl & Hr & _).
  exists e', s'. split; [done|]. rewrite Hd, Hcl, Hr.
  destruct Hs1 as [(-> & -> & ->)|(_ & data & rest & Ed & Hrest & ->)]; [by left|right].
  exists data, rest. by split_and!.
Qed.
End write.

(** Two packets in progress and an open file. *)
Definition sample_writing : sys ChainBuf.chainbuf :=
  let E := quiet_env in
  on_cache (set_inprog [Pkt [Byte.x01; Byte.x02; Byte.x03] 2 (EpicsTime 5 7) 10;
                        Pkt [Byte.x04] 1 (EpicsTime 6 0) 11;
                        Pkt [Byte.x05] 0 (EpicsTime 6 1) 10])
    (on_cache (set_datafile (Some (File "run1.dat" [])))
      (on_shared (set_record true) (st (start sample_base 2 3 16)))).

Lemma data_file_reads_back_witness :
  let E := quiet_env in let F := sample_config in let s := sample_writing in
  ∃ s' data, cache_write (λ _ n, n) 0 0 s = (Ret 0, s') ∧
    datafile (cal s') = Some (File "run1.dat" data) ∧ record (shared s') = record (shared s) ∧
    read_file data = Some ([] ++ (entry_of <$> inprog (cal s))) ∧
    storewrote (cnt (shared s')) = u64 (storewrote (cnt (shared s)) + (zlen data - zlen (@nil byte))).
Proof.
  intros E F s. apply (data_file_reads_back (λ _ n, n) s (File "run1.dat" []) []); try done.
  - vm_compute. lia.
  - repeat constructor; vm_compute; congruence.
Defined.

Lemma write_failure_stops_witness :
  let E := quiet_env in let F := sample_config in let s := sample_writing in
  let wr := λ k n, if (k =? 0)%nat then n else Z.min n 3 in
  ∃ e s', cache_write wr 0 0 s = (Ret e, s') ∧
    ((datafile (cal s') = Some (File "run1.dat" ([] ++ records_bytes (inprog (cal s)))) ∧
      record (shared s') = record (shared s) ∧ closed (cal s') = closed (cal s)) ∨
     (∃ data rest, data ++ rest = records_bytes (inprog (cal s)) ∧ rest ≠ [] ∧
        datafile (cal s') = None ∧ record (shared s') = false ∧
        closed (cal s') = closed (cal s) ++ [File "run1.dat" ([] ++ data)])).
Proof.
  intros E F s wr. apply (write_failure_stops wr 0 0 s (File "run1.dat" [])); try done.
  - vm_compute. lia.
  - intros k n. unfold wr. case_if; lia.
  - repeat constructor; vm_compute; congruence.
Defined.

(** ** Receiving and delivering *)

Section receive.
Context {B : Type} `{EvBuffer B} `{EpicsEnv} `{FastConfig}.
Implicit Types s : sys B.

(** What a packet does to the blocks: that of its id is counted, gets the time of reception
    and the whole buffer, and is scanned; another id is counted as unknown. *)
Definition spec_pkt (v : rx_view) (p : pkt) : rx_view :=
  match rv_blocks v !! msgid p with
  | Some b =>
      spec_body (msgid p) (body p)
        (RxView (<[msgid p := set_rxtime (rxtime p) (incr_count b)]> (rv_blocks v)) (rv_unk v)
           (rv_ticks v) (rv_log v))
  | None => RxView (rv_blocks v) (u32 (rv_unk v + 1)) (rv_ticks v) (rv_log v)
  end.

Definition fview s : rx_view := view (fbase (shared s)).

Lemma deliver_pkt_spec p s :
  listeners_safe →
  ∃ b, deliver_pkt p s = (Ret tt, on_shared (set_fbase b) s) ∧ view b = spec_pkt (fview s) p.
Proof.
  intros Hsafe. unfold deliver_pkt, on_fbase. mstep. set (bs := fbase (shared s)).
  destruct (recv_blocks bs !! msgid p) as [b|] eqn:Hk.
  - set (b1 := set_rxtime (rxtime p) (incr_count b)).
    set (s1 := set_recv_blocks (<[msgid p := b1]> (recv_blocks bs)) bs).
    assert (Hk1 : recv_blocks s1 !! msgid p = Some b1) by apply lookup_insert_eq.
    destruct (deliver_spec _ b1 (dbuffer_assign (body p) (data b1)) s1 Hsafe Hk1) as (s2 & E & Hv & _).
    exists s2. split.
    + apply (zoom_eq _ (λ b s, on_shared (set_fbase b) s)). unfold bind at 1, upd_recv at 1, modify at 1. rewrite (alter_alt_Some _ _ _ b Hk).
      unfold bind at 1, upd_recv at 1, modify at 1. cbn [recv_blocks set_recv_blocks].
      erewrite (alter_alt_Some _ _ (msgid p)) by apply lookup_insert_eq. rewrite insert_insert_eq.
      unfold bind at 1, upd_recv at 1, modify at 1.
      rewrite (alter_alt_Some _ _ _ b1) by apply lookup_insert_eq. exact E.
    + rewrite Hv, contents_assign. unfold spec_pkt, fview. cbn [rv_blocks view]. fold bs.
      rewrite lookup_fmap, Hk. cbn. subst s1. unfold view. cbn. by rewrite fmap_insert.
  - eexists. split; [reflexivity|]. unfold spec_pkt, fview. cbn [rv_blocks view]. fold bs.
    by rewrite lookup_fmap, Hk.
Qed.

Lemma deliver_pkts_spec ps s :
  listeners_safe →
  ∃ b, deliver_pkts ps s = (Ret tt, on_shared (set_fbase b) s) ∧ view b = foldl spec_pkt (fview s) ps.
Proof.
  intros Hsafe. revert s. induction ps as [|p ps IH]; intros s.
  { exists (fbase (shared s)). split; [|done]. by destruct s as [[] ? ?]. }
  cbn [deliver_pkts foldl]. destruct (deliver_pkt_spec p s Hsafe) as (b & E & Hv).
  rewrite (bind_ret _ _ _ _ _ E). destruct (IH (on_shared (set_fbase b) s)) as (b' & E' & Hv').
  exists b'. split; [exact E'|]. rewrite Hv'. unfold fview at 1. cbn. by rewrite Hv.
Qed.

(** A packet with a body is delivered as a message. *)
Definition msg_of (p : pkt) : psc_msg := (msgid p, body p).

Lemma spec_pkt_done v p ps v' :
  body p ≠ [] → msgs_done (spec_pkt v p) ps v' → msgs_done v (msg_of p :: ps) v'.
Proof.
  intros Hne. unfold spec_pkt, msg_of. destruct (rv_blocks v !! msgid p) as [b0|] eqn:Eb.
  2:{ by apply msg_done_unknown. }
  assert (Hz : (zlen (body p) =? 0) = false).
  { apply Z.eqb_neq. intros E. by apply zlen_0_nil in E. }
  unfold spec_body. cbn [rv_blocks rv_unk rv_ticks rv_log]. rewrite lookup_insert_eq, insert_insert_eq.
  set (b1 := requestScan _ _).
  assert (Hb1 : count b1 = u32 (count b0 + 1) ∧ data b1 = body p ∧ listeners b1 = listeners b0 ∧ code b1 = code b0).
  { subst b1. match goal with |- context [requestScan ?m ?b] =>
      destruct (requestScan_fields m b) as (Hc & Hd & Hl & Hn & _) end.
    by rewrite Hc, Hd, Hl, Hn. }
  destruct Hb1 as (Hc & Hd & Hl & Hn).
  apply (msg_done_known v (msgid p) (body p) b0); try done; [by rewrite Hz|].
  rewrite calls_app, calls_listeners. unfold msg_calls. cbn [fst snd]. rewrite Eb, Hz, Hd, Hn.
  by destruct (scanBusy _ =? 0).
Qed.

Lemma spec_pkts_done v ps :
  counts_u32 v → Forall (λ p, body p ≠ []) ps → msgs_done v (msg_of <$> ps) (foldl spec_pkt v ps).
Proof.
  intros Hv Hps. revert v Hv. induction Hps as [|p ps Hp _ IH]; intros v Hv; [by apply msgs_done_nil|].
  apply spec_pkt_done; [done|]. apply IH. destruct Hv as [Hu Hc]. unfold spec_pkt, spec_body.
  destruct (rv_blocks v !! msgid p) as [b0|] eqn:Eb; cbn [rv_blocks].
  - rewrite lookup_insert_eq, insert_insert_eq. split; [done|]. apply map_Forall_insert_2; [|done].
    match goal with |- context [requestScan ?m ?b] =>
      destruct (requestScan_fields m b) as (_ & _ & _ & Hn & _) end.
    rewrite Hn. cbn. by rewrite wrapU_wrapU.
  - split; [|done]. cbn. by rewrite wrapU_wrapU.
Qed.

(** C39: Delivery of a batch.  The packets in progress reach the received blocks in order,
    each like a message whose body is the whole buffer of the packet: every block ends with
    the body of its last packet, is counted once per packet, and its listeners are called
    once per packet; packets of no block are counted.  The packets stay in progress, and a
    file that should no longer be recorded is closed first. *)
Theorem cache_delivers s :
  listeners_safe → counts_u32 (fview s) → Forall (λ p, body p ≠ []) (inprog (cal s)) →
  ∃ s', cache_deliver s = (Ret (negb (bool_decide (inprog (cal s) = []))), s') ∧
    msgs_done (fview s) (msg_of <$> inprog (cal s)) (fview s') ∧
    inprog (cal s') = inprog (cal s) ∧
    datafile (cal s') = if record (shared s) then datafile (cal s) else None.
Proof.
  intros Hsafe Hu Hne. unfold cache_deliver. mstep.
  set (s1 := if record (shared s) then s else on_cache close_file s).
  assert (E1 : when (negb (record (shared s)) && negb (bool_decide (datafile (cal s) = None)))
      (modify (on_cache close_file)) s = (Ret tt, s1)).
  { subst s1. destruct (record (shared s)); [done|]. cbn [negb andb]. case_bool_decide as Hd; [|done].
    unfold on_cache. rewrite close_file_closed by done. by destruct s. }
  rewrite (bind_ret _ _ _ _ _ E1). destruct (deliver_pkts_spec (inprog (cal s)) s1 Hsafe) as (b & E & Hv).
  rewrite (bind_ret _ _ _ _ _ E). eexists. split; [reflexivity|].
  assert (Ef : fview s1 = fview s) by (subst s1; by destruct (record (shared s))).
  assert (Ei : inprog (cal s1) = inprog (cal s)).
  { subst s1. destruct (record (shared s)); [done|]. apply (sp_inprog _ _ (close_file_same s)). }
  split_and!.
  - unfold fview at 2. cbn [shared on_shared set_shared fbase set_fbase]. rewrite Hv, Ef.
    by apply spec_pkts_done.
  - exact Ei.
  - subst s1. cbn. destruct (record (shared s)); [done|]. apply datafile_closed.
Qed.

(** A datagram in its slot.  With [data] behind a well formed header that announces [n]
    bytes, the packet is taken when it comes from the peer and no more than [n] bytes of body
    were received, and ignored and counted otherwise.  A packet that is taken waits behind
    those before it with the length of the header, whatever was received: its body is the
    whole buffer, [data] as far as it fits and then what the buffer held before. *)
Theorem fast_datagram i d now s m id n data s1 :
  msgs (rxl s) !! i = Some (fill_slot d m) → zlen (hbuf m) = 8 →
  payload d = put_header id n ++ data → 0 ≤ id < 2 ^ 16 → 0 ≤ n < 2 ^ 32 →
  note_overflow d s = (Ret tt, s1) →
  ∃ k s', rx_packet i d now s = (Ret k, s') ∧
    if from_peer d && (Z.min (zlen data) (zlen (buf m)) <=? n)
    then ∃ b, pending (shared s') = pending (shared s) ++ [Pkt b n now id] ∧
      zlen b = zlen (buf m) ∧
      ztake (Z.min (zlen data) (zlen (buf m))) b = ztake (zlen (buf m)) data ∧
      zdrop (Z.min (zlen data) (zlen (buf m))) b = zdrop (Z.min (zlen data) (zlen (buf m))) (buf m) ∧
      (pending (shared s) = [] → notifycache (rxl s') = true)
    else k = 0 ∧ pending (shared s') = pending (shared s) ∧
      nignore (cnt (shared s')) = u64 (nignore (cnt (shared s1)) + 1).
Proof.
  intros Hm Hh Hp Hid Hn E. rewrite (rx_message_eq i d now s m id n data s1) by done.
  assert (Hs1 : pending (shared s1) = pending (shared s)).
  { destruct (note_overflow_run d s) as (s2 & E2 & Hs2). rewrite E in E2. simplify_eq.
    apply (sp_pending _ _ Hs2). }
  set (k := Z.min _ _). assert (Hk : 0 ≤ k ≤ zlen (buf m)).
  { pose proof (zlen_nonneg data). pose proof (zlen_nonneg (buf m)). lia. }
  assert (Hr : received (buf m) data = ztake (zlen (buf m)) data ++ zdrop k (buf m) ∧
    zlen (ztake (zlen (buf m)) data) = k).
  { unfold received, zblit. rewrite (ztake_neg 0) by lia. cbn [app]. rewrite zlen_ztake. split; [|lia].
    do 2 f_equal. lia. }
  destruct Hr as [Hr Hl].
  case_if; (eexists _, _; split; [reflexivity|]).
  2:{ split_and!; [done|done|done]. }
  exists (received (buf m) data). cbn [accepted buf hbuf]. unfold accepted. cbn.
  rewrite get_msgid_put_header, get_bodylen_put_header, !wrapU_small by lia. rewrite Hs1.
  split_and!; [done|..].
  - rewrite Hr, zlen_app, Hl, zlen_zdrop. lia.
  - rewrite Hr, <-Hl. apply ztake_app_exact.
  - rewrite Hr, <-Hl at 1. rewrite zdrop_app_exact. done.
  - intros ->. by rewrite orb_true_r.
Qed.

(** A cut datagram ends the process of a recording driver.  A datagram from the peer
    whose header announces more than a packet buffer holds is taken, however short it is;
    writing its packet to the data file then reads beyond its buffer. *)
Theorem cut_datagram_overruns i d now s m id n data wr syncerr err s2 f :
  msgs (rxl s) !! i = Some (fill_slot d m) → zlen (hbuf m) = 8 → from_peer d = true →
  payload d = put_header id n ++ data → zlen (buf m) < n < 2 ^ 32 → (1 ≤ headers_size)%nat →
  overflow d = None → datafile (cal s2) = Some f →
  ∃ k s' p, rx_packet i d now s = (Ret k, s') ∧ pending (shared s') = pending (shared s) ++ [p] ∧
    (cache_write wr syncerr err (on_cache (set_inprog [p]) s2)).1 = Crash OutOfBounds.
Proof.
  intros Hm Hh Hf Hp Hn Hhs Ho Hd. pose proof (zlen_nonneg (buf m)).
  assert (E : note_overflow d s = (Ret tt, s)) by (unfold note_overflow; by rewrite Ho).
  rewrite (rx_message_eq i d now s m id n data s) by (done || lia). rewrite Hf. cbn [andb].
  rewrite (proj2 (Z.leb_le _ _)) by lia. eexists _, _, _. split; [reflexivity|]. split; [reflexivity|].
  set (p := Pkt _ _ _ _). assert (Er : file_record p = None).
  { unfold file_record. cbn [p body bodylen buf hbuf]. rewrite get_bodylen_put_header, wrapU_small by lia.
    unfold received. rewrite zlen_zblit; [|done|rewrite zlen_ztake; lia].
    by rewrite (proj2 (Z.ltb_lt _ _)) by lia. }
  unfold cache_write. mstep. cbn [cal on_cache set_cal datafile set_inprog inprog length]. rewrite Hd.
  cbn [write_batches]. unfold bind at 1, bind at 1. cbn [get cal on_cache set_cal datafile set_inprog]. rewrite Hd.
  destruct headers_size as [|h]; [lia|]. cbn [take file_records]. rewrite Er. done.
Qed.
End receive.

(** A slot with a buffer of 16 bytes, after a datagram. *)
Definition sample_slot : message := Message (replicate 16 Byte.xee) (replicate 8 Byte.x00).
Definition sample_received (d : dgram) : sys ChainBuf.chainbuf :=
  let E := quiet_env in on_rx (set_msgs [fill_slot d sample_slot]) (st (start sample_base 1 3 16)).

Lemma cache_delivers_witness :
  let E := quiet_env in let F := sample_config in let s := sample_writing in
  listeners_safe ∧
  ∃ s', cache_deliver s = (Ret (negb (bool_decide (inprog (cal s) = []))), s') ∧
    msgs_done (fview s) (msg_of <$> inprog (cal s)) (fview s') ∧
    inprog (cal s') = inprog (cal s) ∧
    datafile (cal s') = if record (shared s) then datafile (cal s) else None.
Proof.
  intros E F s. split; [apply quiet_listeners_safe|].
  apply (cache_delivers s); [apply quiet_listeners_safe| |].
  - split; [done|]. change (rv_blocks (fview s)) with 
      (map_data contents <$> ({[10 := new_Block 10]} : gmap Z (Block (dbuffer ChainBuf.chainbuf)))).
    rewrite map_fmap_singleton. by apply map_Forall_singleton.
  - change (inprog (cal s)) with (inprog (cal sample_writing)).
    unfold sample_writing. cbn [inprog cal on_cache set_cal set_inprog]. repeat constructor; discriminate.
Defined.

Lemma fast_datagram_witness :
  let E := quiet_env in let F := sample_config in
  let d := Dgram true (put_header 10 5 ++ [Byte.x01; Byte.x02]) None in
  let s := sample_received d in
  ∃ k s', rx_packet 0 d (EpicsTime 3 4) s = (Ret k, s') ∧
    if from_peer d && (Z.min (zlen [Byte.x01; Byte.x02]) (zlen (buf sample_slot)) <=? 5)
    then ∃ b, pending (shared s') = pending (shared s) ++ [Pkt b 5 (EpicsTime 3 4) 10] ∧
      zlen b = zlen (buf sample_slot) ∧
      ztake (Z.min (zlen [Byte.x01; Byte.x02]) (zlen (buf sample_slot))) b
        = ztake (zlen (buf sample_slot)) [Byte.x01; Byte.x02] ∧
      zdrop (Z.min (zlen [Byte.x01; Byte.x02]) (zlen (buf sample_slot))) b
        = zdrop (Z.min (zlen [Byte.x01; Byte.x02]) (zlen (buf sample_slot))) (buf sample_slot) ∧
      (pending (shared s) = [] → notifycache (rxl s') = true)
    else k = 0 ∧ pending (shared s') = pending (shared s) ∧
      nignore (cnt (shared s')) = u64 (nignore (cnt (shared s)) + 1).
Proof.
  intros E F d s. apply (fast_datagram 0 d (EpicsTime 3 4) s sample_slot 10 5 _ s); done || lia.
Defined.

Lemma cut_datagram_overruns_witness :
  let E := quiet_env in let F := sample_config in
  let d := Dgram true (put_header 10 17 ++ []) None in
  let s := sample_received d in
  ∃ k s' p, rx_packet 0 d (EpicsTime 3 4) s = (Ret k, s') ∧
    pending (shared s') = pending (shared s) ++ [p] ∧
    (cache_write (λ _ n, n) 0 0 (on_cache (set_inprog [p]) sample_writing)).1 = Crash OutOfBounds.
Proof.
  intros E F d s.
  apply (cut_datagram_overruns 0 d (EpicsTime 3 4) s sample_slot 10 17 [] _ 0 0 sample_writing
    (File "run1.dat" [])); try done.
  vm_compute. lia.
Defined.
