(* ===== verification/PscMsg.v ===== *)
(** * The embedded side of the protocol

    targetApp/pscmsg.c: how a device sends and receives messages over a blocking socket.
    The socket is an environment: every call is numbered and may fail, move fewer bytes
    than asked for, or find the connection closed. *)

From S2P Require Import Prelude EvBuffer Dbuffer Block Wire.

(** ** The socket *)

(** Bytes sent, bytes from the peer that were not received yet (up to the end of the
    connection), and the number of calls so far. *)
Record sock := Sock { sock_tx : list byte; sock_rx : list byte; sock_calls : nat }.

(** The error number of a call that fails, and how many bytes a call moves at most. *)
Class SockEnv := {
  sock_errno : nat → option Z;
  sock_chunk : nat → Z;
}.

(** What the functions return instead of 0. *)
Inductive err := ENOTCONN | EIO | SysErr (errno : Z).
#[export] Instance err_eq_decision : EqDecision err.
Proof. solve_decision. Defined.
Definition rc : Type := option err.

Section pscmsg.
Context `{SockEnv}.

(** [send]: the number of bytes taken, or the error. *)
Definition send (buf : list byte) : M sock (Z + Z) := λ s,
  match sock_errno (sock_calls s) with
  | Some e => (Ret (inr e), Sock (sock_tx s) (sock_rx s) (S (sock_calls s)))
  | None =>
      let n := Z.min (zlen buf) (Z.max 0 (sock_chunk (sock_calls s))) in
      (Ret (inl n), Sock (sock_tx s ++ ztake n buf) (sock_rx s) (S (sock_calls s)))
  end.

(** [recv]: at least one byte, none when the connection was closed, or the error. *)
Definition recv (len : Z) : M sock (list byte + Z) := λ s,
  match sock_errno (sock_calls s) with
  | Some e => (Ret (inr e), Sock (sock_tx s) (sock_rx s) (S (sock_calls s)))
  | None =>
      let n := Z.min len (Z.max 1 (sock_chunk (sock_calls s))) in
      (Ret (inl (ztake n (sock_rx s))),
       Sock (sock_tx s) (zdrop n (sock_rx s)) (S (sock_calls s)))
  end.

(** ** Sending *)

Fixpoint sendall_loop (fuel : nat) (buf : list byte) : M sock rc :=
  match fuel with
  | O => abort OutOfFuel
  | S fuel' =>
      if zlen buf =? 0 then ret None
      else
        r <- send buf ;;
        match r with
        | inr e => ret (Some (SysErr e))
        | inl n => if n =? 0 then ret (Some ENOTCONN) else sendall_loop fuel' (zdrop n buf)
        end
  end.

(** [psc_sendall(sock, buf, buflen, flags)]; [flags] only goes to [send]. *)
Definition psc_sendall (buf : list byte) : M sock rc := sendall_loop (S (length buf)) buf.

(** [psc_sendhead(sock, msgid, msglen, flags)] *)
Definition psc_sendhead (msgid msglen : Z) : M sock rc := psc_sendall (put_header msgid msglen).

(** [psc_sendmsg(sock, msgid, buf, msglen, flags)] *)
Definition psc_sendmsg (msgid : Z) (buf : list byte) : M sock rc :=
  ret_ <- psc_sendhead msgid (zlen buf) ;;
  match ret_ with
  | Some _ => ret ret_
  | None => psc_sendall buf
  end.

(** [psc_sendmsgsingle(sock, msgid, regid, buf, msglen, flags)] *)
Definition psc_sendmsgsingle (msgid regid : Z) (buf : list byte) : M sock rc :=
  ret_ <- psc_sendhead msgid (u32 (zlen buf + 4)) ;;
  match ret_ with
  | Some _ => ret ret_
  | None =>
      ret_ <- psc_sendall (be_bytes 4 regid) ;;
      match ret_ with
      | Some _ => ret ret_
      | None => psc_sendall buf
      end
  end.

(** ** Receiving *)

(** [psc_recvall] stores at the moving pointer [buf + off]; the result is the return code
    and the array.  Storing beyond the array is undefined. *)
Fixpoint recvall_loop (fuel : nat) (off len : Z) (buf : list byte) : M sock (rc * list byte) :=
  match fuel with
  | O => abort OutOfFuel
  | S fuel' =>
      if len =? 0 then ret (None, buf)
      else
        r <- recv len ;;
        match r with
        | inr e => ret (Some (SysErr e), buf)
        | inl d =>
            if zlen d =? 0 then ret (Some ENOTCONN, buf)
            else if zlen buf <? off + zlen d then abort OutOfBounds
            else recvall_loop fuel' (off + zlen d) (len - zlen d) (zblit off d buf)
        end
  end.

Definition psc_recvall (len : Z) (buf : list byte) : M sock (rc * list byte) :=
  recvall_loop (S (Z.to_nat len)) 0 len buf.

(** [psc_recvskip(sock, len, flags)]: [buf] is the local array of 128 bytes, whatever it
    holds.  The loop ends when 128 bytes or fewer are left, or on an error. *)
Fixpoint recvskip_loop (fuel : nat) (len : Z) (buf : list byte) : M sock (Z * list byte) :=
  match fuel with
  | O => abort OutOfFuel
  | S fuel' =>
      if len >? 128 then
        r <- psc_recvall 128 buf ;;
        match r.1 with
        | None => recvskip_loop fuel' (len - 128) r.2
        | Some _ => ret (len, r.2)
        end
      else ret (len, buf)
  end.

Definition psc_recvskip (len : Z) : M sock rc :=
  r <- recvskip_loop (S (Z.to_nat (len / 128))) len (replicate 128 Byte.x00) ;;
  r <- psc_recvall r.1 r.2 ;;
  ret r.1.

(** [psc_recvhead]: the return code, [*msgid] and [*msglen], which are set on success. *)
Definition psc_recvhead (msgid msglen : Z) : M sock (rc * Z * Z) :=
  r <- psc_recvall 8 (replicate 8 Byte.x00) ;;
  match r.1 with
  | Some e => ret (Some e, msgid, msglen)
  | None =>
      if bad_frame r.2 then ret (Some EIO, msgid, msglen)
      else ret (None, get_msgid r.2, get_bodylen r.2)
  end.

(** What [psc_recvmsg] leaves in its arguments. *)
Record recvd := Recvd { r_rc : rc; r_msgid : Z; r_msglen : Z; r_buf : list byte }.

(** [psc_recvmsg(sock, msgid, buf, msglen, flags)]; [*msglen] is the size of the buffer. *)
Definition psc_recvmsg (msgid msglen : Z) (buf : list byte) : M sock recvd :=
  h <- psc_recvhead 0 0 ;;
  let '(ret_, mid, mlen) := h in
  match ret_ with
  | Some e => ret (Recvd (Some e) msgid msglen buf)
  | None =>
      let rlen := if mlen >? msglen then msglen else mlen in
      r <- psc_recvall rlen buf ;;
      match r.1 with
      | Some e => ret (Recvd (Some e) msgid msglen r.2)
      | None =>
          ret_ <- (if rlen <? mlen then psc_recvskip (mlen - rlen) else ret None) ;;
          ret (Recvd ret_ mid rlen r.2)
      end
  end.
End pscmsg.

(** ** The loops *)

Section loops.
Context `{SockEnv}.
Implicit Types s : sock.

(** No call fails, and every [send] makes progress. *)
Definition sock_good : Prop := ∀ n, sock_errno n = None ∧ 1 ≤ sock_chunk n.

(** A prefix is sent, all of it exactly when the call succeeds. *)
Lemma sendall_loop_spec fuel buf s :
  (length buf < fuel)%nat →
  ∃ r s' k, sendall_loop fuel buf s = (Ret r, s') ∧ 0 ≤ k ≤ zlen buf ∧
    sock_tx s' = sock_tx s ++ ztake k buf ∧ sock_rx s' = sock_rx s ∧
    (r = None ↔ k = zlen buf) ∧ (sock_good → r = None).
Proof.
  revert buf s. induction fuel as [|fuel IH]; intros buf s Hf; [lia|].
  pose proof (zlen_nonneg buf) as Hb. cbn [sendall_loop].
  destruct (Z.eqb_spec (zlen buf) 0) as [Hz|Hz].
  { exists None, s, 0. rewrite ztake_neg, app_nil_r by lia. split_and!; try done; lia. }
  destruct (sock_errno (sock_calls s)) as [e|] eqn:Ee.
  { assert (E : send buf s = (Ret (inr e), Sock (sock_tx s) (sock_rx s) (S (sock_calls s)))).
    { unfold send. by rewrite Ee. }
    rewrite (bind_ret _ _ _ _ _ E). eexists _, _, 0. split; [reflexivity|].
    rewrite ztake_neg, app_nil_r by lia. split_and!; try done; try lia.
    intros Hg. by rewrite (proj1 (Hg _)) in Ee. }
  set (n := Z.min (zlen buf) (Z.max 0 (sock_chunk (sock_calls s)))).
  set (s1 := Sock (sock_tx s ++ ztake n buf) (sock_rx s) (S (sock_calls s))).
  assert (E : send buf s = (Ret (inl n), s1)) by (unfold send; by rewrite Ee).
  rewrite (bind_ret _ _ _ _ _ E). destruct (Z.eqb_spec n 0) as [Hn|Hn].
  { eexists _, _, 0. split; [reflexivity|]. subst s1. rewrite Hn. cbn [sock_tx sock_rx].
    split_and!; try done; try lia.
    intros Hg. pose proof (proj2 (Hg (sock_calls s))). lia. }
  destruct (IH (zdrop n buf) s1) as (r & s' & k & E' & Hk & Htx & Hrx & Hr & Hg).
  { unfold zdrop. rewrite length_drop. unfold zlen in *. lia. }
  rewrite zlen_zdrop in Hk, Hr. exists r, s', (n + k). split; [exact E'|].
  split_and!; [lia|lia| |done| |done].
  - rewrite Htx. subst s1. cbn [sock_tx]. rewrite <-app_assoc, ztake_add by lia. done.
  - rewrite Hr. split; lia.
Qed.

Lemma psc_sendall_spec buf s :
  ∃ r s' k, psc_sendall buf s = (Ret r, s') ∧ 0 ≤ k ≤ zlen buf ∧
    sock_tx s' = sock_tx s ++ ztake k buf ∧ sock_rx s' = sock_rx s ∧
    (r = None ↔ k = zlen buf) ∧ (sock_good → r = None).
Proof. apply sendall_loop_spec. lia. Qed.

(** Bytes arrive in order and are stored in order; what was not asked for stays. *)
Lemma recvall_loop_spec fuel off len buf s :
  0 ≤ off → 0 ≤ len → off + Z.min len (zlen (sock_rx s)) ≤ zlen buf → (Z.to_nat len < fuel)%nat →
  ∃ r s' k, recvall_loop fuel off len buf s = (Ret (r, zblit off (ztake k (sock_rx s)) buf), s') ∧
    0 ≤ k ≤ len ∧ k ≤ zlen (sock_rx s) ∧ sock_rx s' = zdrop k (sock_rx s) ∧
    sock_tx s' = sock_tx s ∧ (r = None ↔ k = len) ∧
    (sock_good → k = Z.min len (zlen (sock_rx s)) ∧ (r = None ∨ r = Some ENOTCONN)).
Proof.
  revert off len buf s. induction fuel as [|fuel IH]; intros off len buf s Ho Hl Hb Hf; [lia|].
  pose proof (zlen_nonneg (sock_rx s)) as Hrx. cbn [recvall_loop].
  destruct (Z.eqb_spec len 0) as [Hz|Hz].
  { exists None, s, 0. rewrite ztake_neg, zblit_nil, zdrop_neg by lia.
    split_and!; try done; try lia. intros _. split; [lia|by left]. }
  destruct (sock_errno (sock_calls s)) as [e|] eqn:Ee.
  { assert (E : recv len s = (Ret (inr e), Sock (sock_tx s) (sock_rx s) (S (sock_calls s)))).
    { unfold recv. by rewrite Ee. }
    rewrite (bind_ret _ _ _ _ _ E). exists (Some (SysErr e)). eexists _, 0.
    rewrite ztake_neg, zblit_nil, zdrop_neg by lia. split; [reflexivity|].
    split_and!; try done; try lia. intros Hg. by rewrite (proj1 (Hg _)) in Ee. }
  set (n := Z.min len (Z.max 1 (sock_chunk (sock_calls s)))). set (d := ztake n (sock_rx s)).
  set (s1 := Sock (sock_tx s) (zdrop n (sock_rx s)) (S (sock_calls s))).
  assert (E : recv len s = (Ret (inl d), s1)) by (unfold recv; by rewrite Ee).
  assert (Hd : zlen d = Z.min n (zlen (sock_rx s))) by (subst d; rewrite zlen_ztake; lia).
  rewrite (bind_ret _ _ _ _ _ E). destruct (Z.eqb_spec (zlen d) 0) as [Hn|Hn].
  { assert (Hnil : sock_rx s = []) by (apply zlen_0_nil; lia).
    exists (Some ENOTCONN), s1, 0. subst s1. rewrite Hnil. unfold zdrop. rewrite drop_nil.
    rewrite ztake_neg, zblit_nil by lia. split_and!; try done; try lia.
    intros _. split; [unfold zlen; cbn; lia|by right]. }
  rewrite (proj2 (Z.ltb_ge _ _)) by lia.
  destruct (IH (off + zlen d) (len - zlen d) (zblit off d buf) s1)
    as (r & s' & k & E' & Hk & Hk2 & Hrx' & Htx & Hr & Hg); [lia|lia| |lia|].
  { rewrite zlen_zblit by lia. subst s1. cbn [sock_rx]. rewrite zlen_zdrop. lia. }
  assert (Hk0 : zlen d < n → k = 0).
  { intros Hlt. subst s1. cbn [sock_rx] in Hk2. rewrite zlen_zdrop in Hk2. lia. }
  exists r, s', (zlen d + k). split.
  { rewrite E'. f_equal. f_equal. f_equal. subst s1. cbn [sock_rx].
    assert (Hcat : ztake (zlen d + k) (sock_rx s) = d ++ ztake k (zdrop n (sock_rx s))).
    { rewrite ztake_add by lia. destruct (Z.eq_dec (zlen d) n) as [En|En].
      - rewrite En. done.
      - rewrite Hk0 by lia. rewrite zslice_0, (ztake_neg 0) by lia. rewrite !app_nil_r.
        subst d. rewrite Hd, !ztake_all by lia. done. }
    rewrite Hcat. apply zblit_zblit; [lia|]. rewrite zlen_ztake, zlen_zdrop. lia. }
  subst s1. cbn [sock_rx sock_tx] in *. rewrite zlen_zdrop in Hk2.
  split_and!; [lia|lia|lia| |done|rewrite Hr; split; lia|].
  - rewrite Hrx', zdrop_zdrop by lia. destruct (Z.eq_dec (zlen d) n) as [En|En].
    + f_equal. lia.
    + rewrite !zdrop_all; [done|lia|lia].
  - intros Hg'. destruct (Hg Hg') as [Hk3 He]. split; [|done]. rewrite zlen_zdrop in Hk3. lia.
Qed.

Lemma psc_recvall_spec len buf s :
  0 ≤ len → Z.min len (zlen (sock_rx s)) ≤ zlen buf →
  ∃ r s' k, psc_recvall len buf s = (Ret (r, zblit 0 (ztake k (sock_rx s)) buf), s') ∧
    0 ≤ k ≤ len ∧ k ≤ zlen (sock_rx s) ∧ sock_rx s' = zdrop k (sock_rx s) ∧
    sock_tx s' = sock_tx s ∧ (r = None ↔ k = len) ∧
    (sock_good → k = Z.min len (zlen (sock_rx s)) ∧ (r = None ∨ r = Some ENOTCONN)).
Proof. intros. apply recvall_loop_spec; lia. Qed.
End loops.

(** ** Messages *)

Section messages.
Context `{SockEnv}.
Implicit Types s : sock.

(** A call that sends [bytes], or a proper prefix of them and fails. *)
Definition sends (m : M sock rc) (bytes : list byte) : Prop := ∀ s, ∃ r s' k,
  m s = (Ret r, s') ∧ 0 ≤ k ≤ zlen bytes ∧
  sock_tx s' = sock_tx s ++ ztake k bytes ∧ sock_rx s' = sock_rx s ∧
  (r = None ↔ k = zlen bytes) ∧ (sock_good → r = None).

Lemma sends_all buf : sends (psc_sendall buf) buf.
Proof. intros s. apply psc_sendall_spec. Qed.

Lemma sends_then m1 m2 a b :
  sends m1 a → sends m2 b →
  sends (r <- m1 ;; match r with Some _ => ret r | None => m2 end) (a ++ b).
Proof.
  intros H1 H2 s. destruct (H1 s) as (r1 & s1 & k1 & E1 & Hk1 & Htx1 & Hrx1 & Hr1 & Hg1).
  pose proof (zlen_nonneg b). rewrite (bind_ret _ _ _ _ _ E1). rewrite zlen_app.
  destruct r1 as [e|].
  - assert (Hlt : k1 ≠ zlen a) by (intros E; by apply Hr1 in E).
    exists (Some e), s1, k1. rewrite ztake_app_l by lia. split_and!; try done; try lia.
    split; [done|lia].
  - assert (E : k1 = zlen a) by (by apply Hr1). subst k1.
    destruct (H2 s1) as (r2 & s2 & k2 & E2 & Hk2 & Htx2 & Hrx2 & Hr2 & Hg2).
    exists r2, s2, (zlen a + k2). split; [exact E2|]. split_and!; [lia|lia| |congruence| |done].
    + rewrite Htx2, Htx1, <-app_assoc, (ztake_all (zlen a)), ztake_app, (ztake_all (zlen a + k2)) by lia.
      do 3 f_equal. lia.
    + rewrite Hr2. split; lia.
Qed.

Lemma sends_msg m : sends (psc_sendmsg m.1 m.2) (encode_msg m).
Proof. apply sends_then; apply sends_all. Qed.

(** The single register message is a message whose body starts with the register. *)
Lemma sends_single id reg buf :
  zlen buf + 4 < 2 ^ 32 →
  sends (psc_sendmsgsingle id reg buf) (encode_msg (id, be_bytes 4 reg ++ buf)).
Proof.
  intros Hl. pose proof (zlen_nonneg buf). unfold encode_msg, psc_sendmsgsingle. cbn [fst snd].
  rewrite zlen_app, wrapU_small by lia. replace (zlen (be_bytes 4 reg) + zlen buf) with (zlen buf + 4).
  2:{ unfold zlen at 2. rewrite length_be_bytes. lia. }
  apply (sends_then _ (r <- psc_sendall (be_bytes 4 reg) ;; match r with Some _ => ret r | None => psc_sendall buf end)).
  - apply sends_all.
  - apply sends_then; apply sends_all.
Qed.

(** ** Receiving when no call fails *)

Section good.
Hypothesis Hgood : sock_good.

Lemma psc_recvall_good len buf s :
  0 ≤ len → Z.min len (zlen (sock_rx s)) ≤ zlen buf →
  ∃ s', psc_recvall len buf s =
      (Ret (if zlen (sock_rx s) <? len then Some ENOTCONN else None,
            zblit 0 (ztake len (sock_rx s)) buf), s') ∧
    sock_rx s' = zdrop len (sock_rx s) ∧ sock_tx s' = sock_tx s.
Proof using Hgood.
  intros Hl Hb. pose proof (zlen_nonneg (sock_rx s)).
  destruct (psc_recvall_spec len buf s Hl Hb) as (r & s' & k & E & _ & _ & Hrx & Htx & Hr & Hk).
  destruct (Hk Hgood) as [-> He]. exists s'. rewrite E, Hrx.
  destruct (Z.ltb_spec (zlen (sock_rx s)) len) as [Hlt|Hge].
  - assert (r = Some ENOTCONN) as ->.
    { destruct He as [->|]; [|done]. assert (Z.min len (zlen (sock_rx s)) = len) by (by apply Hr). lia. }
    rewrite (ztake_all (Z.min _ _)), (ztake_all len), (zdrop_all (Z.min _ _)), (zdrop_all len) by lia. done.
  - assert (r = None) as -> by (apply Hr; lia). rewrite Z.min_l by lia. done.
Qed.

Definition recv_rc (len : Z) (l : list byte) : rc :=
  if zlen l <? len then Some ENOTCONN else None.

Lemma psc_recvhead_good x y s :
  let l := sock_rx s in
  let h := ztake HEADER_SIZE l in
  ∃ s', psc_recvhead x y s =
      (Ret (if zlen l <? 8 then (Some ENOTCONN, x, y)
            else if bad_frame h then (Some EIO, x, y)
            else (None, get_msgid h, get_bodylen h)), s') ∧
    sock_rx s' = zdrop 8 l ∧ sock_tx s' = sock_tx s.
Proof using Hgood.
  intros l h. destruct (psc_recvall_good 8 (replicate 8 Byte.x00) s) as (s' & E & Hrx & Htx); [done| |].
  { change (zlen (replicate 8 Byte.x00)) with 8. lia. }
  exists s'. split; [|done]. unfold psc_recvhead. rewrite (bind_ret _ _ _ _ _ E). cbn [fst snd]. fold l.
  destruct (Z.ltb_spec (zlen l) 8); [done|]. rewrite zblit_all; [subst h; by destruct (bad_frame _)|].
  rewrite zlen_ztake. change (zlen (replicate 8 Byte.x00)) with 8. lia.
Qed.

(** Skipping never fills more than the local buffer, also when the connection ends. *)
Lemma recvskip_loop_good fuel len buf s :
  zlen buf = 128 → 0 ≤ len → (Z.to_nat (len / 128) < fuel)%nat →
  ∃ k buf' s', recvskip_loop fuel len buf s = (Ret (len - k, buf'), s') ∧ zlen buf' = 128 ∧
    0 ≤ k ≤ len ∧ (len - k ≤ 128 ∧ k ≤ zlen (sock_rx s) ∧ sock_rx s' = zdrop k (sock_rx s) ∨
                 128 < len - k ∧ zlen (sock_rx s) < len ∧ sock_rx s' = []) ∧
    sock_tx s' = sock_tx s.
Proof using Hgood.
  revert len buf s. induction fuel as [|fuel IH]; intros len buf s Hb Hl Hf; [lia|].
  pose proof (zlen_nonneg (sock_rx s)).
  cbn [recvskip_loop]. rewrite Z.gtb_ltb. destruct (Z.ltb_spec 128 len) as [Hlt|Hle].
  - destruct (psc_recvall_good 128 buf s) as (s1 & E & Hrx & Htx); [done|lia|].
    rewrite (bind_ret _ _ _ _ _ E). cbn [fst snd].
    set (buf1 := zblit 0 (ztake 128 (sock_rx s)) buf).
    assert (Hb1 : zlen buf1 = 128) by (subst buf1; rewrite zlen_zblit; [done|done|rewrite zlen_ztake; lia]).
    destruct (Z.ltb_spec (zlen (sock_rx s)) 128) as [Hs|Hs].
    { exists 0, buf1, s1. rewrite Z.sub_0_r. split; [done|]. rewrite Hrx, zdrop_all by lia.
      split_and!; try done; try lia. right. split_and!; [lia|lia|done]. }
    destruct (IH (len - 128) buf1 s1) as (k & buf' & s' & E' & Hb' & Hk' & Hk2 & Htx'); [done|lia| |].
    + replace len with ((len - 128) + 1 * 128) in Hf by lia. rewrite Z.div_add in Hf by lia.
      assert (0 ≤ (len - 128) / 128) by (apply Z.div_pos; lia). lia.
    + exists (128 + k), buf', s'. replace (len - (128 + k)) with (len - 128 - k) by lia. split; [exact E'|].
      rewrite Hrx, zlen_zdrop, zdrop_zdrop in Hk2 by lia.
      split_and!; [done|lia|lia| |congruence].
      destruct Hk2 as [(? & ? & ->)|(? & ? & ?)]; [left|right; split_and!; [lia|lia|done]].
      split_and!; [lia|lia|]. f_equal. lia.
  - exists 0, buf, s. rewrite zdrop_neg, Z.sub_0_r by lia. split_and!; try done; try lia. left. split_and!; done || lia.
Qed.

Lemma psc_recvskip_good len s :
  0 ≤ len →
  ∃ s', psc_recvskip len s = (Ret (if zlen (sock_rx s) <? len then Some ENOTCONN else None), s') ∧
    sock_rx s' = zdrop len (sock_rx s) ∧ sock_tx s' = sock_tx s.
Proof using Hgood.
  intros Hl. pose proof (zlen_nonneg (sock_rx s)). unfold psc_recvskip.
  destruct (recvskip_loop_good (S (Z.to_nat (len / 128))) len (replicate 128 Byte.x00) s)
    as (k & buf & s1 & E & Hb & Hk & Hk2 & Htx); [done|done|lia|].
  rewrite (bind_ret _ _ _ _ _ E). cbn [fst snd].
  destruct (psc_recvall_good (len - k) buf s1) as (s2 & E2 & Hrx2 & Htx2); [lia| |].
  { destruct Hk2 as [(? & ? & ->)|(? & ? & ->)]; [lia|]. rewrite zlen_nil. lia. }
  rewrite (bind_ret _ _ _ _ _ E2). exists s2. cbn [fst ret]. rewrite Hrx2, Htx2, Htx.
  destruct Hk2 as [(? & ? & Hrx)|(? & Hlt & Hrx)]; rewrite Hrx.
  - rewrite zlen_zdrop, zdrop_zdrop by lia. split; [|split; [f_equal; lia|done]].
    do 2 f_equal. destruct (Z.ltb_spec (zlen (sock_rx s)) len), (Z.ltb_spec (Z.max 0 (zlen (sock_rx s) - Z.max 0 k)) (len - k)); done || lia.
  - rewrite (proj2 (Z.ltb_lt (zlen (sock_rx s)) len)) by lia. rewrite (zdrop_all len) by lia.
    rewrite zlen_nil, (proj2 (Z.ltb_lt 0 (len - k))) by lia. split; [done|].
    unfold zdrop. by rewrite drop_nil.
Qed.

(** Every outcome of [psc_recvmsg] on a stream [l]. *)
Definition recvmsg_spec (x maxlen : Z) (buf l : list byte) (v : recvd) (l' : list byte) : Prop :=
  let h := ztake HEADER_SIZE l in
  let n := get_bodylen h in
  let rlen := Z.min n maxlen in
  if zlen l <? HEADER_SIZE then
    v = Recvd (Some ENOTCONN) x maxlen buf ∧ l' = []
  else if bad_frame h then
    v = Recvd (Some EIO) x maxlen buf ∧ l' = zdrop HEADER_SIZE l
  else
    r_rc v = (if zlen l <? HEADER_SIZE + n then Some ENOTCONN else None) ∧
    r_buf v = zblit 0 (zslice HEADER_SIZE rlen l) buf ∧ l' = zdrop (HEADER_SIZE + n) l ∧
    (HEADER_SIZE + rlen ≤ zlen l → r_msgid v = get_msgid h ∧ r_msglen v = rlen).

Lemma psc_recvmsg_good x maxlen buf s :
  0 ≤ maxlen ≤ zlen buf →
  ∃ v s', psc_recvmsg x maxlen buf s = (Ret v, s') ∧ sock_tx s' = sock_tx s ∧
    recvmsg_spec x maxlen buf (sock_rx s) v (sock_rx s').
Proof using Hgood.
  intros Hmax. set (l := sock_rx s). pose proof (zlen_nonneg l) as Hl.
  destruct (psc_recvhead_good 0 0 s) as (s1 & E1 & Hrx1 & Htx1). fold l in E1, Hrx1.
  unfold psc_recvmsg, recvmsg_spec. rewrite (bind_ret _ _ _ _ _ E1).
  change (zlen l <? HEADER_SIZE) with (zlen l <? 8).
  destruct (Z.ltb_spec (zlen l) 8) as [H8|H8].
  { eexists _, _. split; [reflexivity|]. split; [done|]. split; [done|]. rewrite Hrx1. apply zdrop_all. lia. }
  destruct (bad_frame _) eqn:Ef.
  { eexists _, _. split; [reflexivity|]. split; [done|]. split; [done|]. by rewrite Hrx1. }
  set (h := ztake HEADER_SIZE l). set (n := get_bodylen h).
  pose proof (get_bodylen_range h) as Hn. fold n in Hn. cbv iota beta.
  set (rlen := if n >? maxlen then maxlen else n).
  assert (Hrl : rlen = Z.min n maxlen).
  { subst rlen. rewrite Z.gtb_ltb. destruct (Z.ltb_spec maxlen n); lia. }
  rewrite <-Hrl.
  destruct (psc_recvall_good rlen buf s1) as (s2 & E2 & Hrx2 & Htx2); [lia|lia|].
  rewrite Hrx1, zlen_zdrop in E2. rewrite (bind_ret _ _ _ _ _ E2). cbn [fst snd].
  change (ztake rlen (zdrop 8 l)) with (zslice HEADER_SIZE rlen l). unfold HEADER_SIZE in *.
  rewrite Hrx1, zdrop_zdrop in Hrx2 by lia.
  destruct (Z.ltb_spec (Z.max 0 (zlen l - Z.max 0 8)) rlen) as [Hs|Hs].
  { eexists _, _. split; [reflexivity|]. split; [congruence|]. cbn [r_rc r_buf r_msgid r_msglen].
    rewrite (proj2 (Z.ltb_lt _ _)) by lia. split_and!; [done|done| |lia].
    rewrite Hrx2, !zdrop_all by lia. done. }
  destruct (Z.ltb_spec rlen n) as [Hr|Hr].
  - destruct (psc_recvskip_good (n - rlen) s2) as (s3 & E3 & Hrx3 & Htx3); [lia|].
    rewrite Hrx2, zlen_zdrop in E3. rewrite (bind_ret _ _ _ _ _ E3).
    eexists _, _. split; [reflexivity|]. split; [congruence|]. cbn [r_rc r_buf r_msgid r_msglen].
    split_and!; [|done| |done].
    + destruct (Z.ltb_spec (Z.max 0 (zlen l - Z.max 0 (rlen + 8))) (n - rlen)), (Z.ltb_spec (zlen l) (8 + n)); done || lia.
    + rewrite Hrx3, Hrx2, zdrop_zdrop by lia. f_equal. lia.
  - mstep. eexists _, _. split; [reflexivity|]. split; [congruence|]. cbn [r_rc r_buf r_msgid r_msglen].
    rewrite (proj2 (Z.ltb_ge (zlen l) _)) by lia. split_and!; [done|done| |done].
    rewrite Hrx2. f_equal. lia.
Qed.
End good.
End messages.

(** A stream that begins with a message. *)
Lemma recvmsg_spec_msg x maxlen buf m l v l' :
  valid_msg m → 0 ≤ maxlen → recvmsg_spec x maxlen buf (encode_msg m ++ l) v l' →
  v = Recvd None m.1 (Z.min (zlen m.2) maxlen) (zblit 0 (ztake maxlen m.2) buf) ∧ l' = l.
Proof.
  destruct m as [id body]. intros [Hid Hn] Hmax. cbn [fst snd] in *.
  unfold recvmsg_spec, encode_msg. cbn [fst snd]. rewrite <-app_assoc, ztake_put_header.
  rewrite bad_frame_put_header, get_msgid_put_header, get_bodylen_put_header, !wrapU_small by (pose proof (zlen_nonneg body); lia).
  pose proof (zlen_nonneg body). pose proof (zlen_nonneg l).
  rewrite !zlen_app, zlen_put_header. set (rlen := Z.min (zlen body) maxlen).
  rewrite !(proj2 (Z.ltb_ge _ _)) by lia. intros (Hrc & Hbuf & -> & Hset).
  destruct Hset as [Hmid Hlen]; [lia|]. split.
  - destruct v as [rc mid len b]. cbn [r_rc r_msgid r_msglen r_buf] in *. subst. f_equal. f_equal. unfold zslice.
    rewrite zdrop_put_header, ztake_app_l by lia.
    destruct (Z.le_ge_cases (zlen body) maxlen); [rewrite !ztake_all by lia; done|f_equal; lia].
  - rewrite Z.add_comm, <-zdrop_zdrop by (unfold HEADER_SIZE; lia). rewrite zdrop_put_header.
    apply zdrop_app_exact.
Qed.

(** ** Properties *)

(** What a device sends.  Over any socket, [psc_sendmsg] sends a prefix of the encoded
    message, and returns 0 exactly when that is all of it, which a socket without errors
    guarantees; [psc_sendmsgsingle] does so for the message whose body is the register and
    the value.  Nothing that was sent before changes and nothing is received. *)
Theorem sendmsg_frames `{SockEnv} m reg buf :
  zlen buf + 4 < 2 ^ 32 →
  sends (psc_sendmsg m.1 m.2) (encode_msg m) ∧
  sends (psc_sendmsgsingle m.1 reg buf) (encode_msg (m.1, be_bytes 4 reg ++ buf)).
Proof. intros Hl. split; [apply sends_msg|by apply sends_single]. Qed.

(** C29: What a device receives, on every branch.  From a socket without errors, however it
    cuts the stream, [psc_recvmsg] returns: "not connected" when the connection ends within
    the message, EIO on a framing error; otherwise the message id, and the body cut to the
    buffer, and exactly the message is taken off the stream, the part that did not fit
    included.  Nothing is stored outside the buffer. *)
Theorem recvmsg_outcomes `{SockEnv} x maxlen buf (s : sock) :
  sock_good → 0 ≤ maxlen ≤ zlen buf →
  ∃ v s', psc_recvmsg x maxlen buf s = (Ret v, s') ∧ sock_tx s' = sock_tx s ∧
    recvmsg_spec x maxlen buf (sock_rx s) v (sock_rx s').
Proof. intros Hg. by apply psc_recvmsg_good. Qed.

Lemma recvall_overrun `{SockEnv} fuel off len buf (s : sock) :
  (∀ n, (sock_calls s ≤ n)%nat → sock_errno n = None) →
  0 ≤ off ≤ zlen buf → zlen buf - off < len → zlen buf - off < zlen (sock_rx s) →
  (Z.to_nat len < fuel)%nat →
  (recvall_loop fuel off len buf s).1 = Crash OutOfBounds.
Proof.
  revert off len buf s. induction fuel as [|fuel IH]; intros off len buf s Hok Ho Hl Hr Hf; [lia|].
  cbn [recvall_loop]. rewrite (proj2 (Z.eqb_neq len 0)) by lia.
  set (n := Z.min len (Z.max 1 (sock_chunk (sock_calls s)))). set (d := ztake n (sock_rx s)).
  set (s1 := Sock (sock_tx s) (zdrop n (sock_rx s)) (S (sock_calls s))).
  assert (E : recv len s = (Ret (inl d), s1)) by (unfold recv; by rewrite Hok by lia).
  assert (Hd : zlen d = Z.min n (zlen (sock_rx s))) by (subst d; rewrite zlen_ztake; lia).
  rewrite (bind_ret _ _ _ _ _ E), (proj2 (Z.eqb_neq (zlen d) 0)) by lia.
  destruct (Z.ltb_spec (zlen buf) (off + zlen d)); [done|].
  apply IH; rewrite ?zlen_zblit by lia; [|lia|lia| |lia].
  - intros k Hk. apply Hok. subst s1. cbn in Hk. lia.
  - subst s1. cbn [sock_rx]. rewrite zlen_zdrop. lia.
Qed.

(** An error while skipping.  The loop of [psc_recvskip] ends on the first error with the
    number of bytes still to skip, and the call behind it stores as many into the local array
    of 128 bytes.  When a receive times out while more than 128 bytes are left, and 129 bytes
    arrive after all, the array overflows. *)
Theorem recvskip_overruns `{SockEnv} len (s : sock) e :
  128 < len → sock_errno (sock_calls s) = Some e →
  (∀ n, (sock_calls s < n)%nat → sock_errno n = None) → 128 < zlen (sock_rx s) →
  (psc_recvskip len s).1 = Crash OutOfBounds.
Proof.
  intros Hl He Hok Hr. unfold psc_recvskip.
  assert (Hb : zlen (replicate 128 Byte.x00) = 128) by done.
  set (buf := replicate 128 Byte.x00) in *. clearbody buf. cbn [recvskip_loop].
  rewrite (proj2 (Z.gtb_lt len 128)) by lia.
  set (s1 := Sock (sock_tx s) (sock_rx s) (S (sock_calls s))).
  assert (E : recv 128 s = (Ret (inr e), s1)) by (unfold recv; by rewrite He).
  assert (E1 : psc_recvall 128 buf s = (Ret (Some (SysErr e), buf), s1)).
  { unfold psc_recvall. cbn [recvall_loop]. change (128 =? 0) with false. cbv iota.
    by rewrite (bind_ret _ _ _ _ _ E). }
  erewrite bind_ret by (erewrite bind_ret by exact E1; reflexivity). cbn [fst snd].
  assert (E2 : (psc_recvall len buf s1).1 = Crash OutOfBounds).
  { apply recvall_overrun; [|lia|lia|cbn [s1 sock_rx]; lia|lia]. intros n Hn. apply Hok. cbn in Hn. lia. }
  unfold bind at 1. destruct (psc_recvall len buf s1) as [o s2]. cbn in E2. by subst o.
Qed.

(** Sockets to evaluate on: one that moves seven bytes per call, and one that times out
    first. *)
Definition slow_sock : SockEnv := {| sock_errno _ := None; sock_chunk _ := 7 |}.
Definition late_sock : SockEnv :=
  {| sock_errno n := if (n =? 0)%nat then Some 11 else None; sock_chunk _ := 2 ^ 20 |}.

Lemma sendmsg_frames_witness :
  let E := slow_sock in
  (psc_sendmsg 42 [Byte.x01; Byte.x02] (Sock [] [] 0)).1 = Ret None ∧
  sends (psc_sendmsg 42 [Byte.x01; Byte.x02]) (encode_msg (42, [Byte.x01; Byte.x02])) ∧
  sends (psc_sendmsgsingle 42 7 [Byte.x03]) (encode_msg (42, be_bytes 4 7 ++ [Byte.x03])).
Proof.
  intros E. split; [vm_compute; reflexivity|].
  apply (sendmsg_frames (42, [Byte.x01; Byte.x02]) 7 [Byte.x03]). vm_compute. reflexivity.
Defined.

Lemma recvmsg_outcomes_witness :
  let E := slow_sock in
  let s := Sock [] (encode_msg (42, replicate 300 Byte.x05) ++ encode_msg (43, [])) 0 in
  let buf := replicate 20 Byte.x00 in
  ∃ v s', psc_recvmsg 0 16 buf s = (Ret v, s') ∧ sock_tx s' = sock_tx s ∧
    recvmsg_spec 0 16 buf (sock_rx s) v (sock_rx s').
Proof.
  intros E s buf. apply (recvmsg_outcomes 0 16 buf s).
  - intros n. split; [done|]. cbn. lia.
  - change (zlen buf) with 20. lia.
Defined.

Lemma recvskip_overruns_witness :
  let E := late_sock in
  (psc_recvskip 200 (Sock [] (replicate 200 Byte.x05) 0)).1 = Crash OutOfBounds.
Proof.
  intros E. apply (recvskip_overruns 200 (Sock [] (replicate 200 Byte.x05) 0) 11); [lia|done| |].
  - intros [|n] Hn; [cbn in Hn; lia|done].
  - change (zlen (sock_rx _)) with 200. lia.
Defined.
