(* ===== verification/PscServer.v ===== *)
(** * The embedded server

    targetApp/listener.c: a thread accepts connections and starts one thread per client;
    the clients are a doubly linked list that [psc_send] walks.  A pointer to a client is
    its number; [clients] are the allocated ones, so following a pointer to a client that
    was freed is undefined.  targetApp/pscapp.c is the example application. *)

From S2P Require Import Prelude EvBuffer Dbuffer Block Wire PscBase DevCommon PscMsg.

Module Server.

Definition PSC_MAX_CLIENTS : Z := 4.
Definition PSC_MAX_RX_MSG_LEN : Z := 1024.
Definition EBADF : Z := 9.

(** [struct psc_client]; [copen] is false once its socket was closed. *)
Record psc_client := Client {
  prev : option nat;
  next : option nat;
  active : bool;
  csock : sock;
  copen : bool;
  rxbuf : list byte;
}.

Definition set_prev (v : option nat) (c : psc_client) : psc_client :=
  Client v (next c) (active c) (csock c) (copen c) (rxbuf c).
Definition set_next (v : option nat) (c : psc_client) : psc_client :=
  Client (prev c) v (active c) (csock c) (copen c) (rxbuf c).
Definition set_active (v : bool) (c : psc_client) : psc_client :=
  Client (prev c) (next c) v (csock c) (copen c) (rxbuf c).
Definition set_csock (v : sock) (c : psc_client) : psc_client :=
  Client (prev c) (next c) (active c) v (copen c) (rxbuf c).
Definition set_copen (v : bool) (c : psc_client) : psc_client :=
  Client (prev c) (next c) (active c) (csock c) v (rxbuf c).
Definition set_rxbuf (v : list byte) (c : psc_client) : psc_client :=
  Client (prev c) (next c) (active c) (csock c) (copen c) v.

(** [struct psc_key], and the clients in memory. *)
Record psc_key := Key {
  clients : gmap nat psc_client;
  client_head : option nat;
  client_count : Z;
}.

Definition set_clients (v : gmap nat psc_client) (k : psc_key) : psc_key :=
  Key v (client_head k) (client_count k).
Definition set_head (v : option nat) (k : psc_key) : psc_key :=
  Key (clients k) v (client_count k).
Definition set_count (v : Z) (k : psc_key) : psc_key :=
  Key (clients k) (client_head k) v.

(** The network of each client. *)
Class Net := client_net : nat → SockEnv.

Section server.
Context `{Net}.

(** [*C]: undefined when [C] was freed. *)
Definition deref (c : nat) : M psc_key psc_client := λ k,
  match clients k !! c with Some C => (Ret C, k) | None => (Crash Undefined, k) end.

Definition upd (c : nat) (f : psc_client → psc_client) : M psc_key unit :=
  deref c ;;; modify (λ k, set_clients (alter f c (clients k)) k).

(** A call on the socket of a client; on a closed socket it fails. *)
Definition on_sock {A} (bad : A) (c : nat) (m : M sock A) : M psc_key A :=
  C <- deref c ;;
  if copen C then
    (λ k, let '(o, s) := m (csock C) in (o, set_clients (<[c := set_csock s C]> (clients k)) k))
  else ret bad.

Definition close (c : nat) : M psc_key unit := upd c (set_copen false).

(** The body of [psc_send]'s loop, and [psc_send_one]: an error takes the client out. *)
Definition send_client (c : nat) (msgid : Z) (msg : list byte) : M psc_key unit :=
  ret_ <- on_sock (Some (SysErr EBADF)) c (let _ := client_net c in psc_sendmsg msgid msg) ;;
  match ret_ with
  | None => ret tt
  | Some _ => upd c (set_active false) ;;; close c
  end.

Definition psc_send_one (c : nat) (msgid : Z) (msg : list byte) : M psc_key unit :=
  send_client c msgid msg.

(** The loop of [psc_send] from [C] on. *)
Fixpoint send_list (fuel : nat) (C : option nat) (msgid : Z) (msg : list byte) : M psc_key unit :=
  match fuel, C with
  | O, _ => abort OutOfFuel
  | S fuel', None => ret tt
  | S fuel', Some c =>
      cl <- deref c ;;
      when (active cl) (send_client c msgid msg) ;;;
      cl <- deref c ;;
      send_list fuel' (next cl) msgid msg
  end.

(** [psc_send(PSC, msgid, msglen, msg)] *)
Definition psc_send (msgid : Z) (msg : list byte) : M psc_key unit :=
  k <- get ;;
  send_list (2 + size (clients k)) (client_head k) msgid msg.

(** ** Clients come and go *)

(** What [psc_run] does for a connection that it keeps: [calloc], the thread, and then the
    list.  Nothing sets [prev] of the client that was first so far. *)
Definition new_client (s : sock) (buf : list byte) : psc_client := Client None None false s true buf.

Definition alloc_client (c : nat) (s : sock) (buf : list byte) : M psc_key unit :=
  modify (λ k, set_clients (<[c := new_client s buf]> (clients k)) k).

Definition insert_client (c : nat) : M psc_key unit :=
  k <- get ;;
  upd c (set_next (client_head k)) ;;;
  modify (set_head (Some c)) ;;;
  modify (λ k, set_count (u32 (client_count k + 1)) k) ;;;
  upd c (set_active true).

(** What the calls of [psc_run]'s loop return for a connection: [accept], [calloc],
    [malloc] and [sys_thread_new]. *)
Record accept_calls := AcceptCalls { ac_client : Z; ac_calloc : bool; ac_malloc : bool; ac_thread : bool }.

Inductive accepted := AcceptError | Dropped | NoThread | Started.

(** The loop of [psc_run] up to the start of the client's thread.  A connection that is
    not kept is closed, and its memory freed. *)
Definition take_client (e : accept_calls) (c : nat) (s : sock) (buf : list byte) : M psc_key accepted :=
  k <- get ;;
  if ac_client e =? -1 then ret AcceptError
  else if (client_count k >=? PSC_MAX_CLIENTS) || negb (ac_calloc e) || negb (ac_malloc e) then ret Dropped
  else
    alloc_client c s buf ;;;
    if negb (ac_thread e) then modify (λ k, set_clients (delete c (clients k)) k) ;;; ret NoThread
    else ret Started.

(** Everything succeeds. *)
Definition accept_ok : accept_calls := AcceptCalls 5 true true true.

(** What the calls of [psc_run] before its loop return: [calloc], [sys_mutex_new],
    [socket], [bind] and [listen]. *)
Record start_calls := StartCalls { st_calloc : bool; st_mutex : bool; st_socket : Z; st_bind : bool; st_listen : bool }.

(** [psc_run] returns with a message, or serves with a key. *)
Inductive run_result := RunError (what : string) | Serving (k : psc_key).

Definition psc_run_start (key_set : bool) (e : start_calls) : run_result :=
  if key_set then RunError "key already set"
  else if negb (st_calloc e) then RunError "Allocation"
  else if negb (st_mutex e) then RunError "sendguard"
  else if st_socket e =? -1 then RunError "socket()"
  else if negb (st_bind e) then RunError "bind to port"
  else if negb (st_listen e) then RunError "listen"
  else Serving (Key ∅ None 0).

(** "patch outselves out of the client list" *)
Definition unlink_client (c : nat) : M psc_key unit :=
  C <- deref c ;;
  match next C with Some n => upd n (set_prev (prev C)) | None => ret tt end ;;;
  C <- deref c ;;
  match prev C with Some p => upd p (set_next (next C)) | None => modify (set_head (next C)) end ;;;
  modify (λ k, set_count (u32 (client_count k - 1)) k).

Definition free_client (c : nat) : M psc_key unit :=
  close c ;;; modify (λ k, set_clients (delete c (clients k)) k).

(** ** Receiving *)

(** One round of [handle_client]'s loop on the socket: the message, or [None] when it ends. *)
Definition recv_round `{SockEnv} (buf : list byte) : M sock (option (Z * list byte) * list byte) :=
  v <- psc_recvmsg 0 PSC_MAX_RX_MSG_LEN buf ;;
  ret (match r_rc v with
       | Some _ => None
       | None => Some (r_msgid v, ztake (r_msglen v) (r_buf v))
       end, r_buf v).

(** The messages the loop hands to the application until it ends. *)
Fixpoint recv_messages `{SockEnv} (fuel : nat) (buf : list byte) : M sock (list (Z * list byte)) :=
  match fuel with
  | O => abort OutOfFuel
  | S fuel' =>
      r <- recv_round buf ;;
      match r.1 with
      | None => ret []
      | Some m => ms <- recv_messages fuel' r.2 ;; ret (m :: ms)
      end
  end.
End server.

(** ** The threads *)

(** The application with its own state [A]: callbacks for connections ([true]) and
    disconnections, for messages, and what its other threads do. *)
Class App (A : Type) := {
  app_conn : bool → nat → M (psc_key * A) unit;
  app_recv : Z → list byte → M (psc_key * A) unit;
  app_tick : M (psc_key * A) unit;
}.

(** Where the thread of a client is, and the client that was started but is not in the list
    yet. *)
Inductive phase := PConn | PLoop | PUnlink | PDis | PFree.

Record system (A : Type) := System {
  key : psc_key;
  app_data : A;
  threads : gmap nat phase;
  starting : option nat;
}.
Arguments System {A}.
Arguments key {A} _.
Arguments app_data {A} _.
Arguments threads {A} _.
Arguments starting {A} _.

Section steps.
Context {A : Type} `{Net} `{App A}.

(** The call that receives for client [c], into its buffer. *)
Definition client_recv (c : nat) : M psc_key (option (Z * list byte)) :=
  C <- deref c ;;
  r <- on_sock (None, rxbuf C) c (let _ := client_net c in recv_round (rxbuf C)) ;;
  upd c (set_rxbuf r.2) ;;;
  ret r.1.

(** [psc_run] and the threads of the clients, between two points where they may wait. *)
Inductive step : system A → system A → Prop :=
  | accept_spawn k a t e c s buf k' :
      clients k !! c = None → t !! c = None →
      zlen buf = PSC_MAX_RX_MSG_LEN → take_client e c s buf k = (Ret Started, k') →
      step (System k a t None) (System k' a (<[c := PConn]> t) (Some c))
  | accept_none k a t e c s buf r k' :
      clients k !! c = None → take_client e c s buf k = (Ret r, k') → r ≠ Started →
      step (System k a t None) (System k' a t None)
  | accept_insert k a t c k' :
      insert_client c k = (Ret tt, k') → step (System k a t (Some c)) (System k' a t None)
  | client_conn k a t sp c k' a' :
      t !! c = Some PConn → app_conn true c (k, a) = (Ret tt, (k', a')) →
      step (System k a t sp) (System k' a' (<[c := PLoop]> t) sp)
  | client_message k a t sp c m k1 k' a' :
      t !! c = Some PLoop → client_recv c k = (Ret (Some m), k1) →
      app_recv m.1 m.2 (k1, a) = (Ret tt, (k', a')) →
      step (System k a t sp) (System k' a' t sp)
  | client_ends k a t sp c k' :
      t !! c = Some PLoop → client_recv c k = (Ret None, k') →
      step (System k a t sp) (System k' a (<[c := PUnlink]> t) sp)
  | client_unlink k a t sp c k' :
      t !! c = Some PUnlink → unlink_client c k = (Ret tt, k') →
      step (System k a t sp) (System k' a (<[c := PDis]> t) sp)
  | client_dis k a t sp c k' a' :
      t !! c = Some PDis → app_conn false c (k, a) = (Ret tt, (k', a')) →
      step (System k a t sp) (System k' a' (<[c := PFree]> t) sp)
  | client_free k a t sp c k' :
      t !! c = Some PFree → free_client c k = (Ret tt, k') →
      step (System k a t sp) (System k' a (delete c t) sp)
  | app_ticks k a t sp k' a' :
      app_tick (k, a) = (Ret tt, (k', a')) → step (System k a t sp) (System k' a' t sp).

(** [psc_run] before the first connection: the key it [Serving]s. *)
Definition start (a : A) : system A := System (Key ∅ None 0) a ∅ None.
End steps.

(** ** The example application (pscapp.c) *)

Record appstate := AppState { sendperiodic : Z; count : Z }.

Section pscapp.
Context `{Net} `{Host}.

Definition to_key {A} (m : M psc_key A) : M (psc_key * appstate) A :=
  zoom fst (λ k w, (k, w.2)) m.

Definition bytes_of (s : string) : list byte := String.list_byte_of_string s.

(** [clicount] never changes. *)
Definition onconn (connected : bool) (cli : nat) : M (psc_key * appstate) unit :=
  when connected
    (to_key (psc_send_one cli 42 (bytes_of "hello world!")) ;;;
     to_key (psc_send_one cli 55 (host_bytes 4 0))).

Definition rxmsg (msgid : Z) (msg : list byte) : M (psc_key * appstate) unit :=
  if negb (msgid =? 99) || negb (zlen msg =? 4) then to_key (psc_send (u16 (msgid + 10)) msg)
  else modify (λ w, (w.1, AppState (host_val msg) (Server.count w.2))).

(** One round of the loop in [periodic]. *)
Definition periodic : M (psc_key * appstate) unit :=
  w <- get ;;
  when (negb (sendperiodic w.2 =? 0)) (to_key (psc_send 14 (host_bytes 4 (Server.count w.2)))) ;;;
  modify (λ w, (w.1, AppState (sendperiodic w.2) (u32 (Server.count w.2 + 1)))).

Definition pscapp : App appstate := {|
  app_conn := onconn;
  app_recv := rxmsg;
  app_tick := periodic;
|}.
End pscapp.

(** ** Sending keeps the list *)

(** The list is what it was: head, count, and the pointers of every client. *)
Record links (k k' : psc_key) : Prop := {
  l_head : client_head k' = client_head k;
  l_count : client_count k' = client_count k;
  l_ptrs : (λ C, (prev C, next C)) <$> clients k' = (λ C, (prev C, next C)) <$> clients k;
}.

#[export] Instance links_preorder : PreOrder links.
Proof. split; [done|]. intros a b c [] []. split; congruence. Qed.

Lemma links_insert k c C C' :
  clients k !! c = Some C → prev C' = prev C → next C' = next C →
  links k (set_clients (<[c := C']> (clients k)) k).
Proof.
  intros Hc Hp Hn. split; try done. cbn. rewrite fmap_insert, Hp, Hn. apply insert_id.
  by rewrite lookup_fmap, Hc.
Qed.

Lemma links_lookup k k' c C :
  links k k' → clients k !! c = Some C →
  ∃ C', clients k' !! c = Some C' ∧ prev C' = prev C ∧ next C' = next C.
Proof.
  intros Hl Hc. pose proof (f_equal (lookup c) (l_ptrs _ _ Hl)) as E.
  rewrite !lookup_fmap, Hc in E. destruct (clients k' !! c) as [C'|]; [|done].
  injection E as Hp Hn. by exists C'.
Qed.

Lemma links_dom k k' : links k k' → dom (clients k') = dom (clients k).
Proof. intros Hl. rewrite <-(dom_fmap_L (λ C, (prev C, next C))), (l_ptrs _ _ Hl). apply dom_fmap_L. Qed.

Section keep.
Context `{Net}.

Lemma deref_stays c : stays links (deref c).
Proof. intros k. unfold deref. by destruct (clients k !! c). Qed.

Lemma upd_links c f :
  (∀ C, prev (f C) = prev C ∧ next (f C) = next C) → stays links (upd c f).
Proof.
  intros Hf k. unfold upd, bind, deref. destruct (clients k !! c) as [C|] eqn:Hc; [|done]. cbn.
  rewrite (alter_alt_Some _ _ _ C Hc). destruct (Hf C). by apply (links_insert k c C).
Qed.

Lemma on_sock_links {A} (bad : A) c m : stays links (on_sock bad c m).
Proof.
  intros k. unfold on_sock, bind, deref. destruct (clients k !! c) as [C|] eqn:Hc; [|done].
  destruct (copen C); [|done]. destruct (m (csock C)). cbn. by apply (links_insert k c C).
Qed.

Lemma send_client_links c msgid msg : stays links (send_client c msgid msg).
Proof.
  apply stays_bind; [apply _|apply on_sock_links|]. intros [e|]; [|apply stays_ret; apply _].
  apply stays_bind; [apply _|by apply upd_links|]. intros _. by apply upd_links.
Qed.

Lemma send_list_links fuel C msgid msg : stays links (send_list fuel C msgid msg).
Proof.
  revert C. induction fuel as [|fuel IH]; intros C; [apply stays_abort; apply _|].
  destruct C as [c|]; [|apply stays_ret; apply _]. cbn [send_list].
  apply stays_bind; [apply _|apply deref_stays|]. intros cl.
  apply stays_bind; [apply _|apply stays_when; [apply _|apply send_client_links]|]. intros _.
  apply stays_bind; [apply _|apply deref_stays|]. intros cl'. apply IH.
Qed.

Lemma psc_send_links msgid msg : stays links (psc_send msgid msg).
Proof. apply stays_bind; [apply _|apply stays_get; apply _|]. intros k. apply send_list_links. Qed.

Lemma client_recv_links c : stays links (client_recv c).
Proof.
  apply stays_bind; [apply _|apply deref_stays|]. intros C.
  apply stays_bind; [apply _|apply on_sock_links|]. intros r.
  apply stays_bind; [apply _|by apply upd_links|]. intros _. apply stays_ret. apply _.
Qed.
End keep.

(** An application that only sends and keeps its own state. *)
Definition app_links {A} (w w' : psc_key * A) : Prop := links w.1 w'.1.

Class AppLaws (A : Type) `{!App A} : Prop := {
  app_conn_links e c : stays app_links (app_conn e c);
  app_recv_links i m : stays app_links (app_recv i m);
  app_tick_links : stays app_links app_tick;
}.

#[export] Instance app_links_preorder {A} : PreOrder (app_links (A:=A)).
Proof. split; [by intros w|]. intros a b c Hab Hbc. unfold app_links in *. by etrans. Qed.

Lemma to_key_links `{Net} {A} (m : M psc_key A) : stays links m → stays app_links (to_key m).
Proof. intros Hm [k a]. unfold app_links, to_key, zoom. cbn. specialize (Hm k). by destruct (m k). Qed.

#[export] Instance pscapp_laws `{Net} `{Host} : @AppLaws appstate pscapp.
Proof.
  split; cbn.
  - intros e c. apply stays_when; [apply _|].
    apply stays_bind; [apply _| |intros _]; apply to_key_links, send_client_links.
  - intros i m. unfold rxmsg. destruct (_ || _); [apply to_key_links, psc_send_links|by apply stays_modify].
  - apply stays_bind; [apply _|apply stays_get; apply _|]. intros w.
    apply stays_bind; [apply _| |intros _; by apply stays_modify].
    apply stays_when; [apply _|]. apply to_key_links, psc_send_links.
Qed.

(** ** Clients being served *)

(** A client counts from its first callback until it leaves the list. *)
Definition weight (p : phase) : Z := match p with PConn | PLoop | PUnlink => 1 | PDis | PFree => 0 end.
Definition serving (t : gmap nat phase) : Z := map_fold (λ _ p n, weight p + n) 0 t.

Lemma serving_insert t c p : t !! c = None → serving (<[c := p]> t) = weight p + serving t.
Proof. intros Hc. unfold serving. rewrite map_fold_insert_L; [done| |done]. intros. lia. Qed.

Lemma serving_delete t c p : t !! c = Some p → serving t = weight p + serving (delete c t).
Proof. intros Hc. unfold serving. rewrite (map_fold_delete_L _ _ c p); [done| |done]. intros. lia. Qed.

Lemma serving_update t c p q :
  t !! c = Some p → serving (<[c := q]> t) = serving t - weight p + weight q.
Proof.
  intros Hc. rewrite (serving_delete t c p Hc), <-insert_delete_eq.
  rewrite serving_insert by apply lookup_delete_eq. lia.
Qed.

Lemma serving_nonneg t : 0 ≤ serving t.
Proof.
  unfold serving. apply (map_fold_weak_ind (λ n _, 0 ≤ n)); [done|]. intros c p m n _ Hn.
  assert (0 ≤ weight p) by (by destruct p). lia.
Qed.

Record served {A} (S : system A) : Prop := {
  s_bound : serving (threads S) ≤ PSC_MAX_CLIENTS;
  s_count : client_count (key S) =
    u32 (serving (threads S) - match starting S with Some _ => 1 | None => 0 end);
  s_alive : dom (clients (key S)) = dom (threads S);
  s_prev : map_Forall (λ _ C, prev C = None) (clients (key S));
}.

Section served.
Context {A : Type} `{Net} `{AppLaws A}.
Implicit Types (k : psc_key) (S : system A) (a : A).

Lemma links_prev k k' :
  links k k' → map_Forall (λ _ C, prev C = None) (clients k) → map_Forall (λ _ C, prev C = None) (clients k').
Proof.
  intros Hl Hp c C' Hc'. pose proof (f_equal (lookup c) (l_ptrs _ _ Hl)) as E.
  rewrite !lookup_fmap, Hc' in E. destruct (clients k !! c) as [C|] eqn:Hc; [|done].
  injection E as -> _. by apply (Hp c).
Qed.

(** Steps that send or receive, and those of a thread that keeps its weight. *)
Lemma served_links k a t sp k' a' t' :
  links k k' → serving t' = serving t → dom t' = dom t →
  served (System k a t sp) → served (System k' a' t' sp).
Proof.
  intros Hl Ht Hd [Hb Hc Hal Hp]. split; cbn in *.
  - by rewrite Ht.
  - by rewrite (l_count _ _ Hl), Ht.
  - by rewrite (links_dom k k' Hl), Hd.
  - by apply (links_prev k k').
Qed.

Lemma dom_update (t : gmap nat phase) c p q : t !! c = Some p → dom (<[c := q]> t) = dom t.
Proof. intros Hc. rewrite dom_insert_L. apply elem_of_dom_2 in Hc. set_solver. Qed.

Lemma upd_run c f k k' :
  upd c f k = (Ret tt, k') → ∃ C, clients k !! c = Some C ∧ k' = set_clients (<[c := f C]> (clients k)) k.
Proof.
  unfold upd, bind, deref. destruct (clients k !! c) as [C|] eqn:Hc; [|done]. unfold modify.
  rewrite (alter_alt_Some _ _ _ C Hc). intros [= <-]. by exists C.
Qed.

Lemma prev_insert (m : gmap nat psc_client) c C :
  map_Forall (λ _ C, prev C = None) m → prev C = None → map_Forall (λ _ C, prev C = None) (<[c := C]> m).
Proof. intros Hm HC. by apply map_Forall_insert_2. Qed.

Lemma insert_client_run c k k' :
  insert_client c k = (Ret tt, k') → map_Forall (λ _ C, prev C = None) (clients k) →
  client_count k' = u32 (client_count k + 1) ∧ dom (clients k') = dom (clients k) ∧
  map_Forall (λ _ C, prev C = None) (clients k').
Proof.
  unfold insert_client. mstep. intros E Hp. unfold bind at 1 in E.
  destruct (upd c (set_next (client_head k)) k) as [[[]| |] k1] eqn:E1; [|done|done].
  apply upd_run in E1 as (C & Hc & ->). revert E. msteps. intros E.
  apply upd_run in E as (C1 & Hc1 & ->). cbn in *. rewrite lookup_insert_eq in Hc1. injection Hc1 as <-.
  apply elem_of_dom_2 in Hc as Hd. split_and!; [done|set_solver|].
  rewrite insert_insert_eq. apply prev_insert; [done|]. cbn. by apply (Hp c).
Qed.

Lemma unlink_client_run c k k' :
  unlink_client c k = (Ret tt, k') → map_Forall (λ _ C, prev C = None) (clients k) →
  ∃ C, clients k !! c = Some C ∧ clients k' = clients k ∧ client_head k' = next C ∧
    client_count k' = u32 (client_count k - 1) ∧ (∀ n, next C = Some n → is_Some (clients k !! n)).
Proof.
  unfold unlink_client. intros E Hp. unfold bind at 1, deref at 1 in E.
  destruct (clients k !! c) as [C|] eqn:Hc; [|done]. exists C.
  pose proof (Hp c C Hc) as HC. cbn in HC.
  assert (E1 : ∃ o, match next C with Some n => upd n (set_prev (prev C)) | None => ret tt end k = (o, k) ∧
    (o = Ret tt → ∀ n, next C = Some n → is_Some (clients k !! n)) ∧ (o = Ret tt ∨ o = Crash Undefined)).
  { destruct (next C) as [n|]; [|exists (Ret tt); by split_and!; [|intros ? ? [=]|left]].
    unfold upd, bind, deref. destruct (clients k !! n) as [N|] eqn:Hn.
    - exists (Ret tt). unfold modify. rewrite (alter_alt_Some _ _ _ N Hn). split_and!; [|intros _ m [= <-]; by rewrite Hn|by left].
      rewrite HC. pose proof (Hp n N Hn) as HN. cbn in HN.
      replace (set_prev None N) with N by (destruct N; cbn in HN; by subst).
      rewrite insert_id by done. by destruct k.
    - exists (Crash Undefined). split_and!; [done|done|by right]. }
  destruct E1 as (o & E1 & Hn & [-> | ->]); [|unfold bind at 1 in E; by rewrite E1 in E].
  rewrite (bind_ret _ _ _ _ _ E1) in E. unfold bind at 1, deref at 1 in E. rewrite Hc, HC in E.
  revert E. msteps. intros [= <-]. split_and!; try done. by apply Hn.
Qed.

(** A client that is started is allocated; any other connection leaves everything as it is. *)
Lemma take_client_run e c s buf k r k' :
  clients k !! c = None → take_client e c s buf k = (Ret r, k') →
  (r = Started ∧ client_count k < PSC_MAX_CLIENTS ∧ alloc_client c s buf k = (Ret tt, k')) ∨
  (r ≠ Started ∧ k' = k).
Proof.
  intros Hc. unfold take_client. mstep. destruct (_ =? -1); [intros [= <- <-]; by right|].
  destruct (_ >=? _) eqn:Hn; cbn [orb]; [intros [= <- <-]; by right|].
  destruct (negb (ac_calloc e) || negb (ac_malloc e)); [intros [= <- <-]; by right|].
  mstep. destruct (ac_thread e); cbn [negb].
  - intros [= <- <-]. left. rewrite Z.geb_leb in Hn. bool_to_prop. split_and!; [done|lia|done].
  - mstep. intros [= <- <-]. right. split; [done|]. cbn. rewrite delete_insert_id by done. by destruct k.
Qed.

Lemma step_served S S' : served S → step S S' → served S'.
Proof.
  intros HS Hstep. pose proof HS as [Hb Hc Hal Hp].
  destruct Hstep as [k a t e c s buf k' Hk Ht Hbuf E|k a t e c s buf r k' Hk E Hr|k a t c k' E|k a t sp c k' a' Hph E
    |k a t sp c m k1 k' a' Hph E1 E2|k a t sp c k' Hph E|k a t sp c k' Hph E|k a t sp c k' a' Hph E
    |k a t sp c k' Hph E|k a t sp k' a' E]; cbn in Hb, Hc, Hal, Hp.
  - destruct (take_client_run e c s buf k _ k' Hk E) as [(_ & Hcnt & E')|[Hn _]]; [|done].
    clear E. injection E' as <-. split; cbn.
    + rewrite serving_insert by done. cbn. rewrite Z.sub_0_r in Hc.
      pose proof (serving_nonneg t). unfold PSC_MAX_CLIENTS in *.
      rewrite wrapU_small in Hc by lia. lia.
    + rewrite serving_insert by done. rewrite Hc. f_equal. cbn. lia.
    + rewrite !dom_insert_L. by rewrite Hal.
    + by apply prev_insert.
  - destruct (take_client_run e c s buf k r k' Hk E) as [(? & _)|[_ ->]]; [done|]. by split.
  - destruct (insert_client_run c k k' E Hp) as (Hcnt & Hd & Hp'). split; cbn; [done| |congruence|done].
    rewrite Hcnt, Hc, wrapU_add_l by lia. f_equal. lia.
  - apply (served_links k a t sp _ _ _ (stays_run (app_conn_links true c) E)); [|by eapply dom_update|done].
    rewrite (serving_update t c PConn) by done. cbn. lia.
  - apply (served_links k a t sp); [|done|done|done].
    etrans; [apply (stays_run (client_recv_links c) E1)|].
    apply (stays_run (app_recv_links m.1 m.2) E2).
  - apply (served_links k a t sp); [apply (stays_run (client_recv_links c) E)| |by eapply dom_update|done].
    rewrite (serving_update t c PLoop) by done. cbn. lia.
  - destruct (unlink_client_run c k k' E Hp) as (C & HC & Ecl & _ & Hcnt & _).
    split; cbn; rewrite ?Ecl, ?(serving_update t c PUnlink), ?(dom_update t c PUnlink) by done; cbn; [lia| |done|done].
    rewrite Hcnt, Hc. set (x := serving t - _). replace (u32 x - 1) with (u32 x + -1) by lia.
    rewrite wrapU_add_l by lia. f_equal. subst x. lia.
  - apply (served_links k a t sp _ _ _ (stays_run (app_conn_links false c) E)); [|by eapply dom_update|done].
    rewrite (serving_update t c PDis) by done. cbn. lia.
  - unfold free_client, close, bind in E. destruct (upd c _ k) as [[[]| |] k1] eqn:E1; [|done|done].
    apply upd_run in E1 as (C & HC & ->). injection E as <-. cbn.
    rewrite (serving_delete t c PFree) in Hb, Hc by done. cbn in Hb, Hc.
    split; cbn; [done|done| |].
    + rewrite !dom_delete_L, dom_insert_L, Hal. set_solver.
    + rewrite delete_insert_eq. by apply map_Forall_delete.
  - apply (served_links k a t sp); [|done|done|done].
    apply (stays_run app_tick_links E).
Qed.

Lemma reachable_served a S : rtc step (start a) S → served S.
Proof.
  revert S. apply (rtc_ind_r served).
  - split; cbn; [done|done|by rewrite !dom_empty_L|apply map_Forall_empty].
  - intros S1 S2 _ Hs HS. by apply (step_served S1).
Qed.
End served.

(** ** Walking the list *)

(** The clients from [h] on, in the order of their [next] pointers. *)
Fixpoint chain (m : gmap nat psc_client) (h : option nat) (l : list nat) : Prop :=
  match l with
  | [] => h = None
  | c :: r => h = Some c ∧ ∃ C, m !! c = Some C ∧ chain m (next C) r
  end.

Lemma chain_next (m m' : gmap nat psc_client) h l :
  (∀ c C, c ∈ l → m !! c = Some C → ∃ C', m' !! c = Some C' ∧ next C' = next C) →
  chain m h l → chain m' h l.
Proof.
  revert h. induction l as [|c l IH]; intros h Hm; [done|]. intros (-> & C & HC & Hl). split; [done|].
  destruct (Hm c C) as (C' & HC' & En); [by constructor|done|]. exists C'. split; [done|].
  rewrite En. apply IH; [|done]. intros d D Hd. apply Hm. by constructor.
Qed.

Lemma chain_elem m h l c : chain m h l → c ∈ l → is_Some (m !! c).
Proof.
  revert h. induction l as [|d l IH]; intros h; [by intros _ ?%not_elem_of_nil|].
  intros (-> & D & HD & Hl) [->|Hc]%elem_of_cons; [by exists D|]. by apply (IH (next D)).
Qed.

Lemma chain_app m h l k :
  chain m h (l ++ k) → ∃ h', chain m h' k ∧ (l = [] → h' = h) ∧
    (∀ l' d, l = l' ++ [d] → ∃ D, m !! d = Some D ∧ next D = h').
Proof.
  revert h. induction l as [|c l IH]; intros h; cbn [app].
  { intros Hk. exists h. split_and!; try done. intros l' d E. by destruct l'. }
  intros (-> & C & HC & Hl). destruct (IH _ Hl) as (h' & Hk & Hnil & Hlast). exists h'. split_and!; try done.
  intros [|e l'] d E; cbn in E; simplify_eq.
  - exists C. split; [done|]. symmetry. by apply Hnil.
  - by apply (Hlast l').
Qed.

Lemma chain_length m h l : chain m h l → NoDup l → (length l ≤ size m)%nat.
Proof.
  intros Hl Hnd. rewrite <-size_dom, <-(size_list_to_set (C:=gset nat) l Hnd). apply subseteq_size.
  intros c Hc%elem_of_list_to_set. apply elem_of_dom. by apply (chain_elem m h l).
Qed.

(** What [psc_sendmsg] to one client does: a prefix of the message is sent, and a client
    that does not get all of it is closed and made inactive, which needs a socket that
    fails. *)
Definition sent_to `{Net} (c : nat) (msgid : Z) (msg : list byte) (C C' : psc_client) : Prop :=
  let bytes := encode_msg (msgid, msg) in
  prev C' = prev C ∧ next C' = next C ∧ rxbuf C' = rxbuf C ∧
  if copen C then
    ∃ n, 0 ≤ n ≤ zlen bytes ∧ sock_tx (csock C') = sock_tx (csock C) ++ ztake n bytes ∧
      sock_rx (csock C') = sock_rx (csock C) ∧ (@sock_good (client_net c) → n = zlen bytes) ∧
      if n =? zlen bytes then active C' = active C ∧ copen C' = true
      else active C' = false ∧ copen C' = false
  else csock C' = csock C ∧ active C' = false ∧ copen C' = false.

Section broadcast.
Context `{Net}.
Implicit Types k : psc_key.

Lemma deref_ok c k C : clients k !! c = Some C → deref c k = (Ret C, k).
Proof. unfold deref. by intros ->. Qed.

Lemma upd_ok c f k C :
  clients k !! c = Some C → upd c f k = (Ret tt, set_clients (<[c := f C]> (clients k)) k).
Proof.
  intros Hc. unfold upd. rewrite (bind_ret _ _ _ _ _ (deref_ok c k C Hc)). unfold modify.
  by rewrite (alter_alt_Some _ _ _ C Hc).
Qed.

(** Taking a client out after an error. *)
Lemma drop_client_ok c k C :
  clients k !! c = Some C →
  (upd c (set_active false) ;;; close c) k =
    (Ret tt, set_clients (<[c := set_copen false (set_active false C)]> (clients k)) k).
Proof.
  intros Hc. rewrite (bind_ret _ _ _ _ _ (upd_ok c _ k C Hc)). unfold close.
  rewrite (upd_ok c _ _ (set_active false C)) by apply lookup_insert_eq. cbn. by rewrite insert_insert_eq.
Qed.

(** Leaving the list while no [prev] is set and the successor is in memory. *)
Lemma unlink_client_ok c k C :
  clients k !! c = Some C → map_Forall (λ _ C, prev C = None) (clients k) →
  (∀ n, next C = Some n → is_Some (clients k !! n)) →
  ∃ k', unlink_client c k = (Ret tt, k') ∧ clients k' = clients k ∧ client_head k' = next C.
Proof.
  intros Hc Hp Hn. pose proof (Hp c C Hc) as HC. cbn in HC.
  assert (E1 : match next C with Some n => upd n (set_prev (prev C)) | None => ret tt end k = (Ret tt, k)).
  { destruct (next C) as [n|]; [|done]. destruct (Hn n eq_refl) as [N HN].
    rewrite (upd_ok n _ k N HN), HC. pose proof (Hp n N HN) as HNp. cbn in HNp.
    replace (set_prev None N) with N by (destruct N; cbn in HNp; by subst).
    rewrite insert_id by done. by destruct k. }
  unfold unlink_client. rewrite (bind_ret _ _ _ _ _ (deref_ok c k C Hc)), (bind_ret _ _ _ _ _ E1).
  rewrite (bind_ret _ _ _ _ _ (deref_ok c k C Hc)), HC. msteps. eexists. split; [reflexivity|]. done.
Qed.

Lemma send_client_spec c msgid msg k C :
  clients k !! c = Some C →
  ∃ C', send_client c msgid msg k = (Ret tt, set_clients (<[c := C']> (clients k)) k) ∧
    sent_to c msgid msg C C'.
Proof.
  intros Hc. unfold send_client, on_sock, sent_to. destruct (copen C) eqn:Ho.
  - destruct (@sends_msg (client_net c) (msgid, msg) (csock C)) as (r & s' & n & E & Hn & Htx & Hrx & Hr & Hgd).
    cbn [fst snd] in E. set (k1 := set_clients (<[c := set_csock s' C]> (clients k)) k).
    assert (Hk1 : clients k1 !! c = Some (set_csock s' C)) by apply lookup_insert_eq.
    erewrite bind_ret by (rewrite (bind_ret _ _ _ _ _ (deref_ok c k C Hc)), Ho, E; reflexivity).
    fold k1. destruct r as [e|].
    + cbv beta iota. rewrite (drop_client_ok c k1 _ Hk1). cbn [clients k1 set_clients]. rewrite insert_insert_eq.
      eexists. split; [reflexivity|]. split_and!; try done.
      exists n. split_and!; try done; try lia; [by intros ?%Hgd|].
      rewrite (proj2 (Z.eqb_neq _ _)); [done|]. intros En. by apply Hr in En.
    + eexists. split; [reflexivity|]. split_and!; try done. exists n.
      split_and!; try done; try lia; [by intros _; apply Hr|].
      rewrite (proj2 (Z.eqb_eq n _)) by (by apply Hr). done.
  - erewrite bind_ret by (rewrite (bind_ret _ _ _ _ _ (deref_ok c k C Hc)), Ho; reflexivity).
    cbv beta iota. rewrite (drop_client_ok c k C Hc). eexists. split; [reflexivity|]. done.
Qed.

Lemma send_list_spec fuel h l msgid msg k :
  chain (clients k) h l → NoDup l → (length l < fuel)%nat →
  ∃ k', send_list fuel h msgid msg k = (Ret tt, k') ∧ links k k' ∧
    ∀ c C, clients k !! c = Some C → ∃ C', clients k' !! c = Some C' ∧
      if bool_decide (c ∈ l) && active C then sent_to c msgid msg C C' else C' = C.
Proof.
  revert fuel h k. induction l as [|c l IH]; intros [|fuel] h k Hl Hnd Hf; cbn in Hf; try lia.
  { exists k. rewrite (Hl : h = None). split_and!; try done. intros c C HC. exists C.
    by rewrite bool_decide_eq_false_2 by apply not_elem_of_nil. }
  destruct Hl as (-> & C & HC & Hl). apply list.NoDup_cons in Hnd as [Hcl Hnd]. cbn [send_list].
  assert (Ed : deref c k = (Ret C, k)) by (unfold deref; by rewrite HC).
  rewrite (bind_ret _ _ _ _ _ Ed).
  assert (E1 : ∃ C1, when (active C) (send_client c msgid msg) k =
      (Ret tt, set_clients (<[c := C1]> (clients k)) k) ∧
      next C1 = next C ∧ prev C1 = prev C ∧ if active C then sent_to c msgid msg C C1 else C1 = C).
  { destruct (active C) eqn:Ha; cbn [when].
    - destruct (send_client_spec c msgid msg k C HC) as (C1 & E & Hs). exists C1.
      split; [done|]. by destruct Hs as (? & ? & ? & ?).
    - exists C. rewrite insert_id by done. by destruct k. }
  destruct E1 as (C1 & E1 & Hn1 & Hp1 & Hs1). rewrite (bind_ret _ _ _ _ _ E1).
  set (k1 := set_clients (<[c := C1]> (clients k)) k).
  assert (Ed1 : deref c k1 = (Ret C1, k1)) by (unfold deref; cbn; by rewrite lookup_insert_eq).
  rewrite (bind_ret _ _ _ _ _ Ed1), Hn1.
  destruct (IH fuel (next C) k1) as (k' & E & Hlk & Hk'); [|done|lia|].
  { apply (chain_next (clients k)); [|done]. intros d D Hd HD. exists D. cbn.
    rewrite lookup_insert_ne by (by intros ->). done. }
  exists k'. split; [exact E|]. split.
  { etrans; [|exact Hlk]. by apply (links_insert k c C). }
  intros d D HD. destruct (decide (d = c)) as [->|Hne].
  - simplify_eq. destruct (Hk' c C1) as (C' & HC' & Hs'); [apply lookup_insert_eq|]. exists C'. split; [done|].
    rewrite (bool_decide_eq_false_2 (c ∈ l)) in Hs' by done. cbn in Hs'. subst C'.
    rewrite bool_decide_eq_true_2 by constructor. done.
  - destruct (Hk' d D) as (D' & HD' & Hs'); [cbn; by rewrite lookup_insert_ne|]. exists D'. split; [done|].
    rewrite (bool_decide_ext (d ∈ c :: l) (d ∈ l)); [done|]. rewrite elem_of_cons. naive_solver.
Qed.

Lemma psc_send_spec l msgid msg k :
  chain (clients k) (client_head k) l → NoDup l →
  ∃ k', psc_send msgid msg k = (Ret tt, k') ∧ links k k' ∧
    ∀ c C, clients k !! c = Some C → ∃ C', clients k' !! c = Some C' ∧
      if bool_decide (c ∈ l) && active C then sent_to c msgid msg C C' else C' = C.
Proof.
  intros Hl Hnd. apply send_list_spec; [done|done|]. pose proof (chain_length _ _ _ Hl Hnd). lia.
Qed.
End broadcast.

(** ** Properties *)

(** C30: At most [PSC_MAX_CLIENTS] clients are served at a time.  In every state the accepting
    thread, the client threads and the application reach, in any order, the clients between
    their first callback and leaving the list are at most four, [client_count] is their
    number less the one that is being added (in 32 bits, so it can be 2^32-1 for a moment),
    the memory of a client lives exactly as long as its thread, and no [prev] pointer was
    ever set. *)
Theorem clients_bounded {A} `{Net} `{AppLaws A} (a : A) S :
  rtc step (start a) S →
  serving (threads S) ≤ PSC_MAX_CLIENTS ∧
  client_count (key S) = u32 (serving (threads S) - match starting S with Some _ => 1 | None => 0 end) ∧
  dom (clients (key S)) = dom (threads S) ∧
  map_Forall (λ _ C, prev C = None) (clients (key S)).
Proof. intros Hr. by destruct (reachable_served a S Hr) as [? ? ? ?]. Qed.

(** [psc_send] reaches the list.  When the pointers from the head on lead through the
    clients [l], it returns, and every active client of [l] is sent the encoded message, or
    is made inactive and closed after a prefix of it; no other client is touched, and the
    list stays as it is. *)
Theorem psc_send_reaches `{Net} l msgid msg (k : psc_key) :
  chain (clients k) (client_head k) l → NoDup l →
  ∃ k', psc_send msgid msg k = (Ret tt, k') ∧ links k k' ∧
    ∀ c C, clients k !! c = Some C → ∃ C', clients k' !! c = Some C' ∧
      if bool_decide (c ∈ l) && active C then sent_to c msgid msg C C' else C' = C.
Proof. apply psc_send_spec. Qed.

(** A client that leaves takes the newer ones along.  As no [prev] pointer is set, a client
    that leaves makes its successor the head of the list: the clients that connected after
    it stay connected, but no [psc_send] reaches them any more.  The one that connected
    right after it keeps a pointer to freed memory, and following that when it leaves in
    turn is undefined. *)
Theorem leaving_client_unlinks_newer `{Net} newer c older (k : psc_key) :
  chain (clients k) (client_head k) (newer ++ c :: older) → NoDup (newer ++ c :: older) →
  map_Forall (λ _ C, prev C = None) (clients k) →
  ∃ k1, unlink_client c k = (Ret tt, k1) ∧ clients k1 = clients k ∧
    chain (clients k1) (client_head k1) older ∧
    (∀ msgid msg, ∃ k2, psc_send msgid msg k1 = (Ret tt, k2) ∧
      ∀ d, d ∈ newer → clients k2 !! d = clients k !! d) ∧
    (∀ newer' d, newer = newer' ++ [d] →
      ∃ k3, free_client c k1 = (Ret tt, k3) ∧ (unlink_client d k3).1 = Crash Undefined).
Proof.
  intros Hch Hnd Hp. destruct (chain_app _ _ _ _ Hch) as (h & (-> & C & HC & Ho) & _ & Hlast).
  apply list.NoDup_app in Hnd as (_ & Hdis & Hnd). apply list.NoDup_cons in Hnd as [Hco Hnd].
  assert (Hold : ∀ n, next C = Some n → is_Some (clients k !! n)).
  { intros n En. destruct older as [|o older]; cbn in Ho; [congruence|].
    destruct Ho as (Eo & O & HO & _). rewrite En in Eo. injection Eo as ->. by exists O. }
  destruct (unlink_client_ok c k C HC Hp Hold) as (k1 & E & Ecl & Eh).
  exists k1. split; [done|]. split; [done|]. rewrite Ecl, Eh. split; [done|]. split.
  - intros msgid msg. destruct (psc_send_spec older msgid msg k1) as (k2 & E2 & _ & Hk2).
    { by rewrite Ecl, Eh. } { done. }
    exists k2. split; [done|]. intros d Hd.
    destruct (chain_elem _ _ _ d Hch) as [D HD]; [apply elem_of_app; by left|].
    destruct (Hk2 d D) as (D' & HD' & Hs); [by rewrite Ecl|].
    rewrite bool_decide_eq_false_2 in Hs by (intros Hin; apply (Hdis d Hd); by constructor).
    cbn in Hs. subst D'. by rewrite HD', HD.
  - intros newer' d ->. destruct (Hlast newer' d eq_refl) as (D & HD & En).
    assert (Hdc : d ≠ c).
    { intros ->. apply (Hdis c); [apply elem_of_app; right|]; by constructor. }
    assert (HC1 : clients k1 !! c = Some C) by (by rewrite Ecl).
    set (k2 := set_clients (<[c := set_copen false C]> (clients k1)) k1).
    set (k3 := set_clients (delete c (clients k2)) k2). exists k3.
    split; [unfold free_client, close; by rewrite (bind_ret _ _ _ _ _ (upd_ok c _ k1 C HC1))|].
    assert (HD3 : clients k3 !! d = Some D).
    { cbn. by rewrite lookup_delete_ne, lookup_insert_ne, Ecl. }
    unfold unlink_client. rewrite (bind_ret _ _ _ _ _ (deref_ok d k3 D HD3)).
    rewrite En. unfold upd, bind, deref. cbn. by rewrite lookup_delete_eq.
Qed.

(** An application that does nothing. *)
Definition silent_app : App unit := {| app_conn _ _ := ret tt; app_recv _ _ := ret tt; app_tick := ret tt |}.

(** A client that comes and goes quickly stays in the list.  Its thread is started before
    it is in the list; when the connection ends at once, the thread leaves the list that it
    is not in yet, [psc_run] then adds it, and the thread frees it.  The head of the list
    points to freed memory, and every [psc_send] from then on follows it. *)
Theorem quick_client_dangles `{N : Net} (HN : ∀ c n, @sock_errno (client_net c) n = None) :
  let A := silent_app in
  ∃ S, rtc step (start tt) S ∧ threads S = ∅ ∧ starting S = None ∧
    ∀ msgid msg, (psc_send msgid msg (key S)).1 = Crash Undefined.
Proof.
  intros A. set (s0 := Sock [] [] 0). set (buf := replicate 1024 Byte.x00).
  set (c := 1%nat). set (C0 := new_client s0 buf). set (s1 := Sock [] [] 1).
  set (C1 := set_rxbuf buf (set_csock s1 C0)).
  set (k0 := Key {[c := C0]} None 0). set (k1 := Key {[c := C1]} None 0).
  set (k2 := Key {[c := C1]} None (u32 (-1))).
  assert (Erecv : @recv (client_net c) 8 s0 = (Ret (inl []), s1)).
  { unfold recv. rewrite HN. cbn [sock_rx s0]. unfold ztake, zdrop. by rewrite take_nil, drop_nil. }
  assert (Eall : @psc_recvall (client_net c) 8 (replicate 8 Byte.x00) s0 = (Ret (Some ENOTCONN, replicate 8 Byte.x00), s1)).
  { unfold psc_recvall. cbn [recvall_loop]. change (8 =? 0) with false. cbv iota.
    by rewrite (bind_ret _ _ _ _ _ Erecv). }
  assert (Eround : @recv_round (client_net c) buf s0 = (Ret (None, buf), s1)).
  { unfold recv_round, psc_recvmsg, psc_recvhead.
    erewrite bind_ret by (erewrite bind_ret by (rewrite (bind_ret _ _ _ _ _ Eall); reflexivity); reflexivity).
    reflexivity. }
  assert (Er : client_recv c k0 = (Ret None, k1)).
  { unfold client_recv. rewrite (bind_ret _ _ _ _ _ (deref_ok c k0 C0 (lookup_singleton_eq c C0))).
    unfold on_sock. erewrite bind_ret by (rewrite (bind_ret _ _ _ _ _ (deref_ok c k0 C0 (lookup_singleton_eq c C0)));
      cbn [copen C0 new_client csock rxbuf]; rewrite Eround; reflexivity).
    cbn [clients k0 set_clients]. rewrite insert_singleton_eq.
    rewrite (bind_ret _ _ _ _ _ (upd_ok c _ _ (set_csock s1 C0) (lookup_singleton_eq c _))).
    cbn [clients set_clients]. by rewrite insert_singleton_eq. }
  set (C2 := set_active true (set_next None C1)). set (k3 := Key {[c := C2]} (Some c) 0).
  exists (System (Key ∅ (Some c) 0) tt ∅ None). split_and!; [|done|done|done].
  eapply rtc_l; [apply (accept_spawn _ _ ∅ accept_ok c s0 buf k0); reflexivity|].
  eapply rtc_l; [apply (client_conn _ _ _ _ c k0 tt); reflexivity|].
  eapply rtc_l; [apply (client_ends _ _ _ _ c k1); [reflexivity|exact Er]|].
  eapply rtc_l; [apply (client_unlink _ _ _ _ c k2); reflexivity|].
  eapply rtc_l; [apply (accept_insert _ _ _ c k3); reflexivity|].
  eapply rtc_l; [apply (client_dis _ _ _ _ c k3 tt); reflexivity|].
  eapply rtc_l; [apply (client_free _ _ _ _ c (Key ∅ (Some c) 0)); reflexivity|].
  apply rtc_refl.
Qed.

(** A server on which three clients connected, the newest first in the list. *)
Definition quiet_net : Net := λ _, slow_sock.
Definition add_client (c : nat) : M psc_key unit :=
  alloc_client c (Sock [] [] 0) (replicate 1024 Byte.x00) ;;; insert_client c.
Definition three_clients : psc_key :=
  ((add_client 1 ;;; add_client 2 ;;; add_client 3) (Key ∅ None 0)).2.

Lemma quick_client_dangles_witness :
  let N := quiet_net in let A := silent_app in
  ∃ S, rtc step (start tt) S ∧ threads S = ∅ ∧ starting S = None ∧
    ∀ msgid msg, (psc_send msgid msg (key S)).1 = Crash Undefined.
Proof. intros N. apply quick_client_dangles. done. Defined.

Lemma three_chain : chain (clients three_clients) (client_head three_clients) [3; 2; 1]%nat.
Proof.
  split; [reflexivity|]. eexists. split; [vm_compute; reflexivity|].
  split; [reflexivity|]. eexists. split; [vm_compute; reflexivity|].
  split; [reflexivity|]. eexists. split; [vm_compute; reflexivity|]. reflexivity.
Qed.

Lemma clients_bounded_witness :
  let N := quiet_net in let H := pc_host in let A := pscapp in
  let k := (alloc_client 1 (Sock [] [] 0) (replicate 1024 Byte.x00) (Key ∅ None 0)).2 in
  let S := System k (AppState 1 0) {[1%nat := PConn]} (Some 1%nat) in
  serving (threads S) = 1 ∧
  (serving (threads S) ≤ PSC_MAX_CLIENTS ∧
   client_count (key S) = u32 (serving (threads S) - match starting S with Some _ => 1 | None => 0 end) ∧
   dom (clients (key S)) = dom (threads S) ∧
   map_Forall (λ _ C, prev C = None) (clients (key S))).
Proof.
  intros N H A k S. split; [reflexivity|].
  apply (clients_bounded (AppState 1 0) S). apply rtc_once.
  apply (accept_spawn _ _ ∅ accept_ok 1%nat (Sock [] [] 0) (replicate 1024 Byte.x00)); reflexivity.
Defined.

Lemma psc_send_reaches_witness :
  let N := quiet_net in let k := three_clients in
  ∃ k', psc_send 42 [Byte.x01] k = (Ret tt, k') ∧ links k k' ∧
    ∀ c C, clients k !! c = Some C → ∃ C', clients k' !! c = Some C' ∧
      if bool_decide (c ∈ [3; 2; 1]%nat) && active C then sent_to c 42 [Byte.x01] C C' else C' = C.
Proof.
  intros N k. apply (psc_send_reaches [3; 2; 1]%nat 42 [Byte.x01] k); [apply three_chain|].
  apply (bool_decide_unpack _). vm_compute. reflexivity.
Defined.

Lemma leaving_client_unlinks_newer_witness :
  let N := quiet_net in let k := three_clients in
  ∃ k1, unlink_client 2 k = (Ret tt, k1) ∧ clients k1 = clients k ∧
    chain (clients k1) (client_head k1) [1%nat] ∧
    (∀ msgid msg, ∃ k2, psc_send msgid msg k1 = (Ret tt, k2) ∧
      ∀ d, d ∈ [3%nat] → clients k2 !! d = clients k !! d) ∧
    (∀ newer' d, [3%nat] = newer' ++ [d] →
      ∃ k3, free_client 2 k1 = (Ret tt, k3) ∧ (unlink_client d k3).1 = Crash Undefined).
Proof.
  intros N k. apply (leaving_client_unlinks_newer [3%nat] 2%nat [1%nat] k).
  - apply three_chain.
  - apply (bool_decide_unpack _). vm_compute. reflexivity.
  - apply map_Forall_to_list. vm_compute. repeat constructor.
Defined.

End Server.
