(* ===== verification/Interop.v ===== *)
(** * Driver and device together

    The TCP driver (coreApp/src/psc.cpp) on one end of a connection and the embedded side
    (targetApp/pscmsg.c, listener.c) on the other: what either sends, the other receives. *)

From S2P Require Import Prelude EvBuffer Dbuffer Block Wire PscBase PscTcp PscTcpRx PscTcpTx.
From S2P Require Import DevCommon PscMsg PscServer.
Import Server.

(** ** The loop of a client thread *)

Section loop.
Context `{SockEnv}.
Hypothesis Hgood : sock_good.

(** A message as the device sees it: cut to its buffer. *)
Definition cut_msg (m : psc_msg) : psc_msg := (m.1, ztake PSC_MAX_RX_MSG_LEN m.2).

Lemma recv_round_msg m l buf s :
  valid_msg m → zlen buf = PSC_MAX_RX_MSG_LEN → sock_rx s = encode_msg m ++ l →
  ∃ buf' s', recv_round buf s = (Ret (Some (cut_msg m), buf'), s') ∧
    zlen buf' = PSC_MAX_RX_MSG_LEN ∧ sock_rx s' = l ∧ sock_tx s' = sock_tx s.
Proof using Hgood.
  intros Hm Hb Hrx. unfold PSC_MAX_RX_MSG_LEN in *.
  destruct (psc_recvmsg_good Hgood 0 1024 buf s) as (v & s' & E & Htx & Hv); [lia|].
  rewrite Hrx in Hv. apply recvmsg_spec_msg in Hv as [-> Hl]; [|done|done].
  unfold recv_round. rewrite (bind_ret _ _ _ _ _ E). cbn [r_rc r_msgid r_msglen r_buf].
  pose proof (zlen_nonneg m.2).
  assert (Hz : zlen (ztake 1024 m.2) = Z.min (zlen m.2) 1024) by (rewrite zlen_ztake; lia).
  assert (Ht : ztake (Z.min (zlen m.2) 1024) (zblit 0 (ztake 1024 m.2) buf) = ztake 1024 m.2).
  { unfold zblit. rewrite (ztake_neg 0), app_nil_l, <-Hz by lia. apply ztake_app_exact. }
  rewrite Ht. eexists _, s'. split; [reflexivity|]. split; [rewrite zlen_zblit; lia|done].
Qed.

Lemma recv_round_end buf s :
  zlen buf = PSC_MAX_RX_MSG_LEN → sock_rx s = [] →
  ∃ buf' s', recv_round buf s = (Ret (None, buf'), s').
Proof using Hgood.
  intros Hb Hrx. unfold PSC_MAX_RX_MSG_LEN in *.
  destruct (psc_recvmsg_good Hgood 0 1024 buf s) as (v & s' & E & _ & Hv); [lia|].
  rewrite Hrx in Hv. destruct Hv as [-> _]. unfold recv_round. rewrite (bind_ret _ _ _ _ _ E).
  by eexists _, _.
Qed.

(** All messages of a connection, up to its end. *)
Lemma recv_messages_all ms buf s fuel :
  Forall valid_msg ms → zlen buf = PSC_MAX_RX_MSG_LEN → sock_rx s = encode_msgs ms →
  (length ms < fuel)%nat →
  ∃ s', recv_messages fuel buf s = (Ret (cut_msg <$> ms), s').
Proof using Hgood.
  intros Hms. revert buf s fuel. induction Hms as [|m ms Hm _ IH]; intros buf s [|fuel] Hb Hrx Hf;
    cbn in Hf; try lia; cbn [recv_messages].
  - destruct (recv_round_end buf s Hb Hrx) as (buf' & s' & E). rewrite (bind_ret _ _ _ _ _ E).
    by exists s'.
  - change (encode_msgs (m :: ms)) with (encode_msg m ++ encode_msgs ms) in Hrx.
    destruct (recv_round_msg m _ buf s Hm Hb Hrx) as (buf' & s1 & E & Hb' & Hrx' & _).
    rewrite (bind_ret _ _ _ _ _ E). cbn [fst snd].
    destruct (IH buf' s1 fuel Hb' Hrx') as (s' & E'); [lia|].
    rewrite (bind_ret _ _ _ _ _ E'). by exists s'.
Qed.

(** A device that sends messages one after the other. *)
Fixpoint send_msgs (ms : list psc_msg) : M sock unit :=
  match ms with
  | [] => ret tt
  | m :: r => psc_sendmsg m.1 m.2 ;;; send_msgs r
  end.

Lemma send_msgs_all ms s :
  ∃ s', send_msgs ms s = (Ret tt, s') ∧ sock_tx s' = sock_tx s ++ encode_msgs ms.
Proof using Hgood.
  revert s. induction ms as [|m ms IH]; intros s.
  { exists s. split; [done|]. by rewrite app_nil_r. }
  cbn [send_msgs]. destruct (sends_msg m s) as (r & s1 & k & E & _ & Htx & _ & Hr & Hok).
  rewrite (bind_ret _ _ _ _ _ E). destruct (IH s1) as (s' & E' & Htx'). exists s'. split; [done|].
  assert (k = zlen (encode_msg m)) as -> by (by apply Hr, Hok).
  rewrite Htx', Htx, ztake_all, <-app_assoc by lia. done.
Qed.
End loop.

(** C5: The device hears the driver.  Let calls queue messages of less than 4 GiB on a connected
    driver with an empty queue, for blocks it has, and flush them, in any order and whichever
    of them throw; let libevent have the memory to take what is flushed, and the socket of
    the device report no error.  However the network cuts the bytes, the client thread of the
    device hands the flushed messages to the application, each one once and in order, their
    bodies cut to 1024 bytes, and then sees the end of the connection. *)
Theorem device_hears_driver {B} `{EvBufferLaws B} `{PscConfig} `{SockEnv}
    (s s' : PSC B) b blocks l acc alive buf k fuel :
  (∀ dst src : B, evbuffer_add_buffer dst src ≠ None) → sock_good →
  Forall (tx_ok blocks) l → tx_state blocks [] s [] [] →
  run_calls l s = (acc, alive, s') → session s' = Some b →
  zlen buf = PSC_MAX_RX_MSG_LEN → (length acc < fuel)%nat →
  ∃ sent q, acc = sent ++ q ∧ evbuffer_data (sendbuf s') = encode_msgs q ∧
    ∃ k', recv_messages fuel buf (Sock [] (evbuffer_data (output b)) k) = (Ret (cut_msg <$> sent), k').
Proof.
  intros Hadd Hg Hok Hst Hrun Hs Hb Hf.
  destruct (run_calls_state blocks [] l s [] [] Hadd Hok Hst)
    as (acc' & s1 & sent & q & E & Hl & _ & [Hd Hv _ _ _] & _ & b' & Hs' & Ho & Hvs).
  rewrite Hrun in E. injection E as <- _ <-. rewrite Hs in Hs'. injection Hs' as <-.
  cbn in Hl, Ho. exists sent, q. split; [done|]. split; [done|].
  apply recv_messages_all; [done|done|done|done|].
  rewrite Hl, length_app in Hf. lia.
Qed.

(** C6: The driver hears the device.  For any messages a device sends over a socket without
    errors, and however the network cuts the bytes into reads, the driver delivers exactly
    these messages, in order, to its blocks, counters and listeners. *)
Theorem driver_hears_device {B} `{EvBufferLaws B} `{EpicsEnv} `{SockEnv} (r r' : PSC B) ms chunks d d' :
  listeners_safe → sock_good → Forall valid_msg ms →
  receiving r → pending r = None → stream r = [] → counts_u32 (view (base r)) →
  sock_tx d = [] → send_msgs ms d = (Ret tt, d') →
  reads r chunks r' → concat chunks = sock_tx d' →
  receiving r' ∧ stream r' = [] ∧ msgs_done (view (base r)) ms (view (base r')).
Proof.
  intros Hsafe Hg Hv Hr Hp Hstr Hcnt Hd0 Hd Hreads Hch.
  destruct (send_msgs_all Hg ms d) as (d1 & E & Htx). rewrite Hd in E. injection E as <-.
  rewrite Hd0 in Htx. cbn [app] in Htx.
  apply (reads_msgs r chunks r' ms); try done. by rewrite Hch.
Qed.

(** Messages of the device's example application, and a driver that knows their blocks. *)
Definition sample_device : list psc_msg := [(42, [Byte.x68; Byte.x69]); (55, replicate 4 Byte.x00)].

Lemma device_hears_driver_witness :
  let C := sample_config in let E := slow_sock in
  let r := run_calls sample_calls sample_tx in
  let acc := [(10, [Byte.x01]); (12, [Byte.x03; Byte.x04]); (10, [Byte.x05])] in
  let out := ChainBuf.Chain [[]; []; put_header 10 1; [Byte.x01]; put_header 12 2; [Byte.x03; Byte.x04]] (2 ^ 40) in
  ∃ sent q, acc = sent ++ q ∧ evbuffer_data (sendbuf r.2) = encode_msgs q ∧
    ∃ k', recv_messages 4 (replicate 1024 Byte.x00) (Sock [] (evbuffer_data out) 0)
          = (Ret (cut_msg <$> sent), k').
Proof.
  intros C E r acc out.
  apply (device_hears_driver sample_tx r.2
    (Bev (ChainBuf.of_bytes []) out 8 min_max_buf_size true (None, None)) {[10; 11]} sample_calls acc true).
  - done.
  - intros n. split; [done|]. cbn. lia.
  - apply sample_calls_ok.
  - apply sample_tx_state.
  - vm_compute. reflexivity.
  - vm_compute. reflexivity.
  - reflexivity.
  - cbn. lia.
Defined.

Lemma driver_hears_device_witness :
  let H := quiet_env in let E := slow_sock in
  let r := sample_rx [] in
  let d' := (send_msgs sample_device (Sock [] [] 0)).2 in
  let r1 := set_session (Some (Bev (ChainBuf.of_bytes (sock_tx d')) (ChainBuf.of_bytes [])
                          8 min_max_buf_size true (None, None))) r in
  let r' := (recvdata r1).2 in
  receiving r' ∧ stream r' = [] ∧ msgs_done (view (base r)) sample_device (view (base r')).
Proof.
  intros H E r d' r1 r'.
  apply (driver_hears_device r r' sample_device [sock_tx d'] (Sock [] [] 0) d').
  - apply quiet_listeners_safe.
  - intros n. split; [done|]. cbn. lia.
  - repeat constructor; vm_compute; congruence.
  - apply sample_rx_receiving.
  - reflexivity.
  - reflexivity.
  - split; [reflexivity|]. apply (bool_decide_unpack _). vm_compute. reflexivity.
  - reflexivity.
  - apply (run_ret (send_msgs sample_device)). vm_compute. reflexivity.
  - apply (reads_chunk _ _ r1 r').
    + eexists _, _. split; [reflexivity|]. split; [|reflexivity]. reflexivity.
    + apply (run_ret recvdata r1 tt). vm_compute. reflexivity.
    + apply reads_nil.
  - vm_compute. reflexivity.
Defined.
