(* ===== verification/EndToEnd.v ===== *)
(** * Records, driver and device together

    A register record sets a word of a block, a send record queues the block, a flush
    record hands the queue to the network, and the device gets the message; what the device
    answers is read by input records.  Here the device supports ([DevReg], [DevCtrl]), the
    TCP driver ([PscTcp]) and the embedded side ([PscMsg], [PscServer]) run over one another:
    the definitions of the records work on the map of drivers, and the bytes of one side's
    connection are those of the other's. *)

From S2P Require Import Prelude EvBuffer Dbuffer Block Wire PscBase PscTcp PscTcpRx PscTcpTx.
From S2P Require Import DevCommon DevSample DevReg DevCtrl PscMsg PscServer Interop.
Import Server.

(** ** Processing records *)

Section setpoints.
Context {B : Type} `{EvBuffer B} `{EpicsEnv} `{PscConfig} `{RecordSupport B} `{Host} `{EpicsRecord}.

(** The drivers, and the bytes the connection of the one looked at has carried away. *)
Record node := Node {
  drivers : gmap string (PSC B);
  wire : list byte;
}.

(** Processing a record: its device support runs on the drivers. *)
Definition process {R V} (dev : M (devst R V (PSC B)) dev_status) (c : dbCommon) (r : R) (v : V)
    : M node dev_status := λ n,
  let '(o, s) := dev (DevSt c r (Some v) (drivers n)) in (o, Node (pscmap s) (wire n)).

(** libevent writes [n] bytes of the output buffer to the socket. *)
Definition net_out (name : string) (n : Z) : M node dev_status := λ s,
  match drivers s !! name with
  | Some p =>
      match session p with
      | Some b =>
          (Ret (Status 0),
           Node (<[name := set_session (Some (set_output (evbuffer_drain (output b) n) b)) p]> (drivers s))
             (wire s ++ ztake n (evbuffer_data (output b))))
      | None => (Ret (Status 0), s)
      end
  | None => (Ret (Status 0), s)
  end.

(** Records of one driver being processed: register records with a VAL and with a masked
    RVAL, the records that queue a block and that flush the queue; and the network. *)
Inductive rec_op :=
  | PutVal (w : width) (c : dbCommon) (r : valrec) (priv : Priv)
  | PutBits (c : dbCommon) (r : binrec) (priv : Priv)
  | SendRec (c : dbCommon) (r : valrec)
  | FlushRec (c : dbCommon) (r : binrec)
  | NetOut (n : Z).

Definition run_op (name : string) (op : rec_op) : M node dev_status :=
  match op with
  | PutVal w c r priv => process (write_from_val w) c r priv
  | PutBits c r priv => process write_binary c r priv
  | SendRec c r => process write_lo_send_block c r name
  | FlushRec c r => process write_bo_send_changed c r name
  | NetOut n => net_out name n
  end.

Fixpoint run_ops (name : string) (ops : list rec_op) : M node (list dev_status) :=
  match ops with
  | [] => ret []
  | op :: r => st <- run_op name op ;; sts <- run_ops name r ;; ret (st :: sts)
  end.

(** ** The setpoint machine *)

(** What the records mean: bodies of the blocks by id, the messages queued and handed to the
    network, and the bytes that have left. *)
Record ctl := Ctl {
  bodies : gmap Z (list byte);
  queue : list psc_msg;
  sent : list psc_msg;
  gone : list byte;
}.

Definition set_body (k : Z) (body : list byte) (c : ctl) : ctl :=
  Ctl (<[k := body]> (bodies c)) (queue c) (sent c) (gone c).

(** As much of [bs] as fits behind the offset. *)
Definition store_bytes (off : Z) (bs body : list byte) : list byte :=
  if zlen body <? off then body else zblit off (ztake (zlen body - off) bs) body.

Definition word_in (w : width) (off : Z) (body : list byte) : bool :=
  off + Z.of_nat (sizeof w) <=? zlen body.

Definition put_status (ok : bool) : dev_status := if ok then Status 0 else S_dev_badRequest.

Inductive ctl_step : ctl → rec_op → dev_status → ctl → Prop :=
  | ctl_val c w com r priv k body :
      block priv = Some (SendBlk k) → bodies c !! k = Some body →
      ctl_step c (PutVal w com r priv) (put_status (word_in w (offset priv) body))
        (set_body k (store_bytes (offset priv) (be_bytes (sizeof w) (wrapU (bits w) (val r))) body) c)
  | ctl_bits c com r priv k body :
      block priv = Some (SendBlk k) → bodies c !! k = Some body →
      word_in W4 (offset priv) body = true ∨ mask r = 0 →
      ctl_step c (PutBits com r priv) (put_status (word_in W4 (offset priv) body))
        (set_body k (store_bytes (offset priv)
           (be_bytes 4 (masked_word (mask r) (rval r) (field W4 (offset priv) body))) body) c)
  | ctl_bits_outside c com r priv k body :
      block priv = Some (SendBlk k) → bodies c !! k = Some body →
      word_in W4 (offset priv) body = false → mask r ≠ 0 →
      ctl_step c (PutBits com r priv) S_dev_badRequest c
  | ctl_send_nothing c com r :
      bodies c !! val r = None ∨ ¬ (0 ≤ val r ≤ 0xffff) →
      ctl_step c (SendRec com r) (Status 0) c
  | ctl_send c com r body :
      bodies c !! val r = Some body → val r ∉ (queue c).*1 →
      over_limit (zlen (encode_msgs (queue c))) = false →
      ctl_step c (SendRec com r) (Status 0)
        (Ctl (bodies c) (queue c ++ [(val r, body)]) (sent c) (gone c))
  | ctl_send_refused c com r body (sb : B) :
      bodies c !! val r = Some body →
      val r ∈ (queue c).*1 ∨ over_limit (zlen (encode_msgs (queue c))) = true ∨
      evbuffer_data sb = encode_msgs (queue c) ∧ evbuffer_expand sb (8 + zlen body) = None →
      ctl_step c (SendRec com r) S_dev_badRequest c
  | ctl_flush c com r :
      over_limit (zlen (encode_msgs (sent c)) - zlen (gone c)) = false →
      ctl_step c (FlushRec com r) (Status 0) (Ctl (bodies c) [] (sent c ++ queue c) (gone c))
  | ctl_flush_refused c com r :
      over_limit (zlen (encode_msgs (sent c)) - zlen (gone c)) = true →
      ctl_step c (FlushRec com r) S_dev_badRequest c
  | ctl_net c n :
      ctl_step c (NetOut n) (Status 0)
        (Ctl (bodies c) (queue c) (sent c) (ztake (zlen (gone c) + n) (encode_msgs (sent c)))).

Inductive ctl_steps : ctl → list rec_op → list dev_status → ctl → Prop :=
  | ctl_done c : ctl_steps c [] [] c
  | ctl_more c op st c1 ops sts c2 :
      ctl_step c op st c1 → ctl_steps c1 ops sts c2 → ctl_steps c (op :: ops) (st :: sts) c2.

(** A record is attached to a block to send that exists. *)
Definition op_ok (name : string) (blocks : gset Z) (op : rec_op) : Prop :=
  let at_block priv :=
    psc priv = name ∧ 0 ≤ offset priv ∧ 0 ≤ tsoffset priv ∧
    ∃ k, block priv = Some (SendBlk k) ∧ k ∈ blocks in
  match op with
  | PutVal w c r priv => at_block priv ∧ swaps w
  | PutBits c r priv => at_block priv ∧ 0 ≤ mask r < 2 ^ 32 ∧ 0 ≤ rval r < 2 ^ 32
  | SendRec c r | FlushRec c r => True
  | NetOut n => 0 ≤ n
  end.

(** The bodies of blocks to send: plain memory, short of 4 GiB. *)
Definition flat_block (b : Block (dbuffer B)) : Prop :=
  backingb (data b) = None ∧ dbuffer_wf (data b) ∧ zlen (contents (data b)) < 2 ^ 32 - 8.

Definition body_of (b : Block (dbuffer B)) : list byte := contents (data b).

(** The connected driver [name] stands for [c]. *)
Record models (name : string) (s : node) (c : ctl) (p : PSC B) (bv : bev B) : Prop := {
  md_drv : drivers s !! name = Some p;
  md_receiving : receiving p;
  md_session : session p = Some bv;
  md_queue : tx_inv p (queue c);
  md_bodies : body_of <$> send_blocks (base p) = bodies c;
  md_flat : map_Forall (λ _ b, flat_block b) (send_blocks (base p));
  md_wire : wire s = gone c;
  md_out : gone c ++ evbuffer_data (output bv) = encode_msgs (sent c);
  md_sent : Forall valid_msg (sent c);
}.

(** The receiving half of a driver. *)
Definition rx_side (p : PSC B) := (stream p, pending p, bodylen p, view (base p), recv_blocks (base p)).
End setpoints.
Arguments node B : clear implicits.

(** ** The records implement the setpoint machine *)

Section refinement.
Context {B : Type} `{EvBufferLaws B} `{EpicsEnv} `{PscConfig} `{RecordSupport B}.
Context `{Host} `{EpicsRecord}.
Implicit Types (s : node B) (c : ctl) (p : PSC B) (priv : Priv).

Lemma body_at s name c p bv k b :
  models name s c p bv → send_blocks (base p) !! k = Some b → bodies c !! k = Some (body_of b).
Proof. intros Hm Hk. by rewrite <-(md_bodies _ _ _ _ _ Hm), lookup_fmap, Hk. Qed.

Lemma block_at s name c p bv k body :
  models name s c p bv → bodies c !! k = Some body →
  ∃ b, send_blocks (base p) !! k = Some b ∧ body_of b = body ∧ flat_block b ∧ 0 ≤ k ≤ 0xffff.
Proof.
  intros Hm Hk. rewrite <-(md_bodies _ _ _ _ _ Hm), lookup_fmap in Hk.
  destruct (send_blocks (base p) !! k) as [b|] eqn:Hb; [|done]. injection Hk as <-. exists b.
  destruct (txq_blocks _ _ (md_queue _ _ _ _ _ Hm) k b Hb) as (_ & ? & _).
  split_and!; [done|done| |lia|lia]. apply (md_flat _ _ _ _ _ Hm k b Hb).
Qed.

Lemma zlen_store_bytes off bs body : 0 ≤ off → zlen (store_bytes off bs body) = zlen body.
Proof.
  intros Ho. unfold store_bytes. case_if; bool_to_prop; [done|].
  pose proof (zlen_nonneg bs). apply zlen_zblit; [lia|]. rewrite zlen_ztake. lia.
Qed.

(** Storing a word of a record in its block. *)
Lemma contents_store_word w priv v b :
  flat_block b → 0 ≤ offset priv →
  contents (store_word (B:=B) w priv v (data b)) = store_bytes (offset priv) (be_bytes (sizeof w) v) (body_of b) ∧
  flat_block (set_data (store_word w priv v (data b)) b).
Proof.
  intros (Hb & Hwf & Hl) Ho. rewrite <-dbuffer_size_contents in *.
  assert (E : contents (store_word w priv v (data b)) =
    store_bytes (offset priv) (be_bytes (sizeof w) v) (body_of b)).
  { unfold store_word, store_bytes, body_of. rewrite <-dbuffer_size_contents.
    case_if; [done|]. unfold contents. by rewrite Hb. }
  pose proof (zlen_store_bytes (offset priv) (be_bytes (sizeof w) v) (body_of b) Ho) as Hz.
  split; [done|]. unfold flat_block. cbn [data set_data]. rewrite E, Hz. unfold body_of.
  rewrite <-dbuffer_size_contents. split_and!; [..|done].
  - unfold store_word. by case_if.
  - unfold dbuffer_wf. rewrite E, Hz. unfold body_of. unfold dbuffer_wf in Hwf.
    unfold store_word. by case_if.
Qed.

(** A driver with the body of a block replaced. *)
Definition with_body (k : Z) (b : Block (dbuffer B)) p : PSC B :=
  set_base (set_send_blocks (<[k := b]> (send_blocks (base p))) (base p)) p.

Lemma tx_inv_with_body p q k b d :
  tx_inv p q → send_blocks (base p) !! k = Some b → tx_inv (with_body k (set_data d b) p) q.
Proof.
  intros [Hd Hv Hn Hdom Hb] Hk. split; cbn; try done.
  - intros j Hj. destruct (decide (j = k)) as [->|]; [by rewrite lookup_insert_eq|].
    rewrite lookup_insert_ne by done. by apply Hdom.
  - intros j b'. destruct (decide (j = k)) as [->|].
    + rewrite lookup_insert_eq. intros [= <-]. apply (Hb k b Hk).
    + rewrite lookup_insert_ne by done. apply Hb.
Qed.

Lemma models_with_body name s c p bv k b d :
  models name s c p bv → send_blocks (base p) !! k = Some b → flat_block (set_data d b) →
  models name (Node (<[name := with_body k (set_data d b) p]> (drivers s)) (wire s))
    (set_body k (contents d) c) (with_body k (set_data d b) p) bv.
Proof.
  intros [Hd Hr Hs Hq Hbo Hf Hw Ho Hv] Hk Hfd. split; cbn; try done.
  - apply lookup_insert_eq.
  - destruct Hr. by split.
  - by apply tx_inv_with_body.
  - by rewrite fmap_insert, Hbo.
  - by apply map_Forall_insert_2.
Qed.

Lemma attached_at name s c p bv priv k com R (r : R) body :
  models name s c p bv → psc priv = name → 0 ≤ offset priv → 0 ≤ tsoffset priv →
  block priv = Some (SendBlk k) → bodies c !! k = Some body →
  ∃ b, send_blocks (base p) !! k = Some b ∧ body_of b = body ∧ flat_block b ∧
    attached (DevSt com r (Some priv) (drivers s)) priv p b ∧
    ∀ d, put_block priv (set_data d b) p = with_body k (set_data d b) p.
Proof.
  intros Hm Hn Ho Ht Hp Hk. destruct (block_at s name c p bv k body Hm Hk) as (b & Hb & Eb & Hf & _).
  exists b. split_and!; [done|done|done| |].
  - destruct Hf as (_ & Hwf & Hl). split; [|unfold block_of; by rewrite Hp|done| |done].
    + rewrite Hn. apply (md_drv _ _ _ _ _ Hm).
    + rewrite dbuffer_size_contents. lia.
  - intros d. unfold put_block. by rewrite Hp.
Qed.

Lemma pscmap_conn_alarm {R} st p (s : devst R Priv (PSC B)) : pscmap (conn_alarm st p s) = pscmap s.
Proof. unfold conn_alarm. by destruct (connected _). Qed.

Lemma pscmap_mask_alarm p (s : devst binrec Priv (PSC B)) : pscmap (mask_alarm p s) = pscmap s.
Proof. unfold mask_alarm. case_if; [apply pscmap_conn_alarm|done]. Qed.

(** The result of an operation, next to that of the machine. *)
Definition op_done name op s c p : Prop :=
  ∃ st s' c' p' bv', run_op name op s = (Ret st, s') ∧ ctl_step (B:=B) c op st c' ∧
    models name s' c' p' bv' ∧ rx_side p' = rx_side p ∧ dom (bodies c') = dom (bodies c).

(** [process] of a device support that ends in [st] with the drivers [m]. *)
Lemma process_run {R V} (dev : M (devst R V (PSC B)) dev_status) com r v s st (t : devst R V (PSC B)) :
  dev (DevSt com r (Some v) (drivers s)) = (Ret st, t) →
  process dev com r v s = (Ret st, Node (pscmap t) (wire s)).
Proof. intros E. unfold process. by rewrite E. Qed.

Lemma dom_set_body k body body' c : bodies c !! k = Some body → dom (bodies (set_body k body' c)) = dom (bodies c).
Proof. intros Hk. cbn. rewrite dom_insert_L. apply elem_of_dom_2 in Hk. set_solver. Qed.

Lemma put_val_done name s c p bv w com r priv :
  models name s c p bv → op_ok name (dom (bodies c)) (PutVal w com r priv) →
  op_done name (PutVal w com r priv) s c p.
Proof.
  intros Hm ((Hn & Ho & Ht & k & Hp & Hk) & Hs). apply elem_of_dom in Hk as [body Hk].
  destruct (attached_at name s c p bv priv k com valrec r body Hm Hn Ho Ht Hp Hk)
    as (b & Hb & Eb & Hf & Ha & Hput). pose proof Hf as (Hback & _).
  pose proof (write_from_val_run w _ priv p b Ha eq_refl Hs Hback) as E. cbn zeta in E.
  rewrite Hput in E. cbn [rec] in E.
  set (v := wrapU (bits w) (val r)) in *.
  destruct (contents_store_word w priv v b Hf Ho) as [Ec Hfd].
  pose proof (models_with_body name s c p bv k b _ Hm Hb Hfd) as Hm'. rewrite Ec, Eb in Hm'.
  assert (Ew : field_fits w priv b = word_in w (offset priv) body).
  { unfold field_fits, word_in. by rewrite dbuffer_size_contents, <-Eb. }
  eexists _, _, _, _, bv. split_and!; [|by apply (ctl_val c w com r priv k body)|exact Hm'|done|by eapply dom_set_body].
  cbn [run_op]. rewrite <-Ew. destruct (field_fits w priv b);
    rewrite (process_run _ _ _ _ _ _ _ E); cbn; by rewrite pscmap_conn_alarm, Hn.
Qed.

Lemma put_bits_done name s c p bv com r priv :
  models name s c p bv → op_ok name (dom (bodies c)) (PutBits com r priv) →
  op_done name (PutBits com r priv) s c p.
Proof.
  intros Hm ((Hn & Ho & Ht & k & Hp & Hk) & Hmask & Hrval). apply elem_of_dom in Hk as [body Hk].
  destruct (attached_at name s c p bv priv k com binrec r body Hm Hn Ho Ht Hp Hk)
    as (b & Hb & Eb & Hf & Ha & Hput). pose proof Hf as (Hback & _).
  pose proof (write_binary_run _ priv p b Ha eq_refl Hback Hmask Hrval) as E. cbn zeta in E.
  rewrite Hput in E. cbn [rec] in E. change (contents (data b)) with (body_of b) in E. rewrite Eb in E.
  set (v := masked_word (mask r) (rval r) (field W4 (offset priv) body)) in *.
  destruct (contents_store_word W4 priv v b Hf Ho) as [Ec Hfd].
  pose proof (models_with_body name s c p bv k b _ Hm Hb Hfd) as Hm'. rewrite Ec, Eb in Hm'.
  assert (Ew : field_fits W4 priv b = word_in W4 (offset priv) body).
  { unfold field_fits, word_in. by rewrite dbuffer_size_contents, <-Eb. }
  rewrite Ew in E. unfold op_done. cbn [run_op].
  pose proof (ctl_bits c com r priv k body Hp Hk) as Hstep. fold v in Hstep.
  destruct (word_in W4 (offset priv) body) eqn:Hin; [|destruct (Z.eqb_spec (mask r) 0) as [Hz|Hz]].
  - eexists _, _, _, _, bv. split_and!; [|apply Hstep; by left|exact Hm'|done|by eapply dom_set_body].
    rewrite (process_run _ _ _ _ _ _ _ E). cbn. by rewrite pscmap_conn_alarm, pscmap_mask_alarm, Hn.
  - eexists _, _, _, _, bv. split_and!; [|apply Hstep; by right|exact Hm'|done|by eapply dom_set_body].
    rewrite (process_run _ _ _ _ _ _ _ E). cbn. by rewrite pscmap_conn_alarm, pscmap_mask_alarm, Hn.
  - eexists _, _, _, _, bv. split_and!; [|by apply (ctl_bits_outside c com r priv k body)|exact Hm|done|done].
    rewrite (process_run _ _ _ _ _ _ _ E). cbn. rewrite pscmap_mask_alarm. by destruct s.
Qed.

Lemma models_enqueued name s c p bv k b sb :
  models name s c p bv → send_blocks (base p) !! k = Some b → queued b = false → flat_block b →
  evbuffer_data sb = evbuffer_data (sendbuf p) ++ encode_msg (k, body_of b) →
  models name (Node (<[name := enqueued p k b sb]> (drivers s)) (wire s))
    (Ctl (bodies c) (queue c ++ [(k, body_of b)]) (sent c) (gone c)) (enqueued p k b sb) bv.
Proof.
  intros [Hd Hr Hs Hq Hbo Hf Hw Ho Hv] Hk Hqd Hfb Hsb. split; cbn; try done.
  - apply lookup_insert_eq.
  - destruct Hr. by split.
  - destruct Hfb as (_ & _ & Hl). apply enqueued_inv; [done..|]. unfold body_of. lia.
  - rewrite fmap_insert, Hbo, insert_id; [done|]. by rewrite <-Hbo, lookup_fmap, Hk.
  - by apply map_Forall_insert_2.
Qed.

Lemma send_done name s c p bv com r :
  models name s c p bv → op_done name (SendRec com r) s c p.
Proof.
  intros Hm. pose proof (md_queue _ _ _ _ _ Hm) as Hq. pose proof (md_drv _ _ _ _ _ Hm) as Hd.
  set (s0 := DevSt com r (Some name) (drivers s)). unfold op_done. cbn [run_op].
  assert (Hsame : ∀ st (t : devst valrec string (PSC B)), write_lo_send_block s0 = (Ret st, t) →
    pscmap t = drivers s → ctl_step (B:=B) c (SendRec com r) st c →
    op_done name (SendRec com r) s c p).
  { intros st t E Et Hstep. exists st, s, c, p, bv. split_and!; [|done..].
    cbn [run_op]. rewrite (process_run _ _ _ _ _ _ _ E), Et. by destruct s. }
  destruct (decide (0 ≤ val r ≤ 0xffff)) as [Hr|Hr].
  2:{ eapply Hsame; [by apply (send_bad_id_run s0 name)|done|]. apply ctl_send_nothing. by right. }
  destruct (bodies c !! val r) as [body|] eqn:Hb.
  2:{ rewrite <-(md_bodies _ _ _ _ _ Hm), lookup_fmap, fmap_None in Hb.
      eapply Hsame; [by apply (send_unknown_run s0 name p)|done|apply ctl_send_nothing; left].
      by rewrite <-(md_bodies _ _ _ _ _ Hm), lookup_fmap, Hb. }
  destruct (block_at s name c p bv (val r) body Hm Hb) as (b & Hk & Eb & Hf & _).
  destruct (txq_blocks _ _ Hq (val r) b Hk) as (_ & _ & Hqd).
  pose proof Hf as (_ & Hwf & Hl).
  destruct (send_known_run s0 name p (queue c) b eq_refl Hd (rcv_connected _ (md_receiving _ _ _ _ _ Hm)) Hq Hr Hk Hwf Hl)
    as [(sb & E & Hnq & Hov & Hsb)|[E Hwhy]].
  - pose proof (models_enqueued name s c p bv (val r) b sb Hm Hk Hnq Hf Hsb) as Hm'. rewrite Eb in Hm'.
    eexists _, _, _, _, bv. split_and!; [apply (process_run _ _ _ _ _ _ _ E)| |exact Hm'|done|done].
    apply ctl_send; [done| |by rewrite <-(txq_data _ _ Hq)].
    intros Hin%Hqd. congruence.
  - eapply Hsame; [exact E|done|]. apply (ctl_send_refused c com r body (sendbuf p)); [done|].
    rewrite <-(txq_data _ _ Hq), <-Eb. destruct Hwhy as [Hw|[Hw|Hw]]; [left; by apply Hqd|by right; left|by right; right].
Qed.

Lemma models_session name s c c' p bv out w :
  models name s c p bv → bodies c' = bodies c → queue c' = queue c →
  w = gone c' → gone c' ++ evbuffer_data out = encode_msgs (sent c') → Forall valid_msg (sent c') →
  models name (Node (<[name := set_session (Some (set_output out bv)) p]> (drivers s)) w) c'
    (set_session (Some (set_output out bv)) p) (set_output out bv) ∧
  rx_side (set_session (Some (set_output out bv)) p) = rx_side p.
Proof.
  intros [Hd Hr Hs Hq Hbo Hf Hw Ho Hv] Eb Eq Ew Eo Hv'. split.
  - split; cbn; rewrite ?Eb, ?Eq; try done.
    + apply lookup_insert_eq.
    + destruct Hr. by split.
    + destruct Hq. by split.
  - unfold rx_side, stream. cbn. by rewrite Hs.
Qed.

Lemma models_emptied name s c p bv sb :
  models name s c p bv → evbuffer_data sb = [] →
  let p' := set_base (set_send_blocks (set_queued false <$> send_blocks (base p)) (base p)) (set_sendbuf sb p) in
  models name (Node (<[name := p']> (drivers s)) (wire s)) (Ctl (bodies c) [] (sent c) (gone c)) p' bv ∧
  rx_side p' = rx_side p.
Proof.
  intros [Hd Hr Hs Hq Hbo Hf Hw Ho Hv] Hsb p'. split; [|done]. split; cbn; try done.
  - apply lookup_insert_eq.
  - destruct Hr. by split.
  - pose proof (flushed_inv p (queue c) bv (output bv) sb Hq Hsb) as []. by split.
  - rewrite <-map_fmap_compose, <-Hbo. by apply map_fmap_ext.
  - intros k b. rewrite lookup_fmap. intros Hk. destruct (send_blocks (base p) !! k) as [b0|] eqn:E; [|done].
    injection Hk as <-. apply (Hf k b0 E).
Qed.

Lemma zlen_out name s c p bv :
  models name s c p bv → zlen (evbuffer_data (output bv)) = zlen (encode_msgs (sent c)) - zlen (gone c).
Proof. intros Hm. rewrite <-(md_out _ _ _ _ _ Hm), zlen_app. lia. Qed.

Lemma flush_done name s c p bv com r :
  (∀ dst src : B, evbuffer_add_buffer dst src ≠ None) →
  models name s c p bv → op_done name (FlushRec com r) s c p.
Proof.
  intros Hadd Hm. pose proof (md_drv _ _ _ _ _ Hm) as Hd. set (s0 := DevSt com r (Some name) (drivers s)).
  pose proof (flush_run s0 name p bv eq_refl Hd (rcv_connected _ (md_receiving _ _ _ _ _ Hm))
    (md_session _ _ _ _ _ Hm) Hadd) as E.
  rewrite (zlen_out _ _ _ _ _ Hm) in E. unfold op_done. cbn [run_op].
  destruct (over_limit _) eqn:Hov.
  - destruct E as (t & E & Et). exists S_dev_badRequest, s, c, p, bv.
    split_and!; [|by apply ctl_flush_refused|done..].
    rewrite (process_run _ _ _ _ _ _ _ E), Et. by destruct s.
  - destruct E as (tx & sb & E & Htx & Hsb). pose proof (md_queue _ _ _ _ _ Hm) as Hq.
    destruct (models_emptied name s c p bv sb Hm Hsb) as [Hm1 Hx1].
    destruct (models_session name _ _ (Ctl (bodies c) [] (sent c ++ queue c) (gone c)) _ bv tx (wire s) Hm1)
      as [Hm2 Hx2]; [done|done|apply Hm| | |].
    { cbn. rewrite Htx, (txq_data _ _ Hq), app_assoc, (md_out _ _ _ _ _ Hm). symmetry. apply encode_msgs_app. }
    { cbn. apply Forall_app. split; [apply Hm|apply Hq]. }
    cbn [drivers] in Hm2. rewrite insert_insert_eq in Hm2.
    eexists _, _, _, _, _. split_and!; [|by apply ctl_flush|exact Hm2|by rewrite Hx2|done].
    by rewrite (process_run _ _ _ _ _ _ _ E).
Qed.

Lemma net_done name s c p bv n :
  0 ≤ n → models name s c p bv → op_done name (NetOut n) s c p.
Proof.
  intros Hn Hm. unfold op_done. cbn [run_op]. unfold net_out.
  rewrite (md_drv _ _ _ _ _ Hm), (md_session _ _ _ _ _ Hm).
  assert (El : ztake (zlen (gone c) + n) (encode_msgs (sent c)) = gone c ++ ztake n (evbuffer_data (output bv))).
  { rewrite <-(md_out _ _ _ _ _ Hm), ztake_app, ztake_all by lia. do 2 f_equal. lia. }
  destruct (models_session name s c (Ctl (bodies c) (queue c) (sent c) (ztake (zlen (gone c) + n) (encode_msgs (sent c)))) p bv
    (evbuffer_drain (output bv) n) (wire s ++ ztake n (evbuffer_data (output bv))) Hm) as [Hm' Hx];
    [done|done| | |apply Hm|].
  - cbn. by rewrite El, (md_wire _ _ _ _ _ Hm).
  - cbn. rewrite El, evbuffer_drain_data by done. rewrite <-app_assoc, ztake_zdrop. apply Hm.
  - eexists _, _, _, _, _. split_and!; [done|by apply ctl_net|exact Hm'|exact Hx|done].
Qed.

Lemma run_op_done name s c p bv op :
  (∀ dst src : B, evbuffer_add_buffer dst src ≠ None) →
  models name s c p bv → op_ok name (dom (bodies c)) op → op_done name op s c p.
Proof.
  intros Hadd Hm Hok. destruct op.
  - by eapply put_val_done.
  - by eapply put_bits_done.
  - by eapply send_done.
  - by eapply flush_done.
  - by eapply net_done.
Qed.

Lemma run_ops_done name ops s c p bv :
  (∀ dst src : B, evbuffer_add_buffer dst src ≠ None) →
  models name s c p bv → Forall (op_ok name (dom (bodies c))) ops →
  ∃ sts s' c' p' bv', run_ops name ops s = (Ret sts, s') ∧ ctl_steps (B:=B) c ops sts c' ∧
    models name s' c' p' bv' ∧ rx_side p' = rx_side p ∧ dom (bodies c') = dom (bodies c).
Proof.
  intros Hadd. revert s c p bv. induction ops as [|op ops IH]; intros s c p bv Hm Hok.
  { exists [], s, c, p, bv. split_and!; [done|constructor|done..]. }
  apply list.Forall_cons in Hok as [Hop Hok].
  destruct (run_op_done name s c p bv op Hadd Hm Hop) as (st & s1 & c1 & p1 & bv1 & E & Hst & Hm1 & Hx1 & Hd1).
  destruct (IH s1 c1 p1 bv1 Hm1) as (sts & s2 & c2 & p2 & bv2 & E2 & Hst2 & Hm2 & Hx2 & Hd2); [by rewrite Hd1|].
  exists (st :: sts), s2, c2, p2, bv2. split_and!; [|by eapply ctl_more|done|congruence|congruence].
  cbn [run_ops]. rewrite (bind_ret _ _ _ _ _ E). by rewrite (bind_ret _ _ _ _ _ E2).
Qed.

(** ** A setpoint followed to the device *)

Lemma ctl_steps_app c a b sts c' :
  ctl_steps (B:=B) c (a ++ b) sts c' →
  ∃ sts1 sts2 c1, sts = sts1 ++ sts2 ∧ length sts2 = length b ∧
    ctl_steps (B:=B) c a sts1 c1 ∧ ctl_steps (B:=B) c1 b sts2 c'.
Proof.
  revert c sts. induction a as [|op a IH]; intros c sts Hs; cbn [app] in Hs.
  - exists [], sts, c. split_and!; [done| |constructor|done].
    induction Hs; [done|]. cbn. by f_equal.
  - inversion Hs as [|? ? st c1 ? sts' ? Hst Hr]; subst.
    destruct (IH _ _ Hr) as (sts1 & sts2 & c2 & -> & Hl & Ha & Hb).
    exists (st :: sts1), sts2, c2. split_and!; [done|done| |done]. by eapply ctl_more.
Qed.

(** A block body in which a setpoint has been stored. *)
Definition holds_setpoint (w : width) (off v : Z) (body : list byte) : Prop :=
  0 ≤ off ∧ off + Z.of_nat (sizeof w) ≤ zlen body ∧ field w off body = wrapU (bits w) v.

Lemma stored_setpoint w off v body :
  0 ≤ off → word_in w off body = true →
  holds_setpoint w off v (store_bytes off (be_bytes (sizeof w) (wrapU (bits w) v)) body).
Proof.
  intros Ho Hw. split; [done|]. rewrite zlen_store_bytes by done. unfold word_in in Hw. bool_to_prop.
  split; [done|]. pose proof (sizeof_pos w). unfold store_bytes, field.
  destruct (Z.ltb_spec (zlen body) off); [lia|].
  rewrite ztake_all by (rewrite zlen_be_bytes; lia).
  rewrite <-(zlen_be_bytes (sizeof w) (wrapU (bits w) v)) at 1.
  rewrite zslice_zblit by (rewrite ?zlen_be_bytes; lia).
  rewrite be_val_be_bytes. apply Z.mod_small.
  replace (256 ^ Z.of_nat (sizeof w)) with (2 ^ bits w) by (by destruct w).
  apply wrapU_range. by destruct w.
Qed.

(** Set, send and flush without an error: the message is the last one handed over. *)
Lemma setpoint_steps c w com r priv com2 r2 com3 r3 c' :
  block priv = Some (SendBlk (val r2)) → 0 ≤ offset priv → 0 ≤ val r2 ≤ 0xffff →
  ctl_steps (B:=B) c [PutVal w com r priv; SendRec com2 r2; FlushRec com3 r3]
    [Status 0; Status 0; Status 0] c' →
  ∃ body, sent c' = sent c ++ queue c ++ [(val r2, body)] ∧
    holds_setpoint w (offset priv) (val r) body.
Proof.
  intros Hp Ho Hr Hs.
  inversion Hs as [|? ? ? c1 ? ? ? Ev Hs1]; subst. inversion Hs1 as [|? ? ? c2 ? ? ? Ew Hs2]; subst.
  inversion Hs2 as [|? ? ? c3 ? ? ? Ef Hs3]; subst. inversion Hs3; subst. clear Hs Hs1 Hs2 Hs3.
  inversion Ev as [? ? ? ? ? k body Hk Hbody Est| | | | | | | |]; subst.
  rewrite Hp in Hk. injection Hk as <-.
  destruct (word_in w (offset priv) body) eqn:Hw; [|done].
  inversion Ew as [| | |? ? ? Hn|? ? ? body2 Hb2| | | |]; subst.
  { cbn in Hn. rewrite lookup_insert_eq in Hn. by destruct Hn. }
  cbn in Hb2. rewrite lookup_insert_eq in Hb2. injection Hb2 as <-.
  inversion Ef; subst. cbn. eexists. split; [reflexivity|]. by apply stored_setpoint.
Qed.

(** The same for records of a connected driver, whatever was done before. *)
Lemma setpoint_sent name s c p bv pre sts w com r priv com2 r2 com3 r3 n st s' :
  (∀ dst src : B, evbuffer_add_buffer dst src ≠ None) →
  models name s c p bv → Forall (op_ok name (dom (bodies c))) pre →
  op_ok name (dom (bodies c)) (PutVal w com r priv) → block priv = Some (SendBlk (val r2)) → 0 ≤ n →
  run_ops name (pre ++ [PutVal w com r priv; SendRec com2 r2; FlushRec com3 r3; NetOut n]) s
    = (Ret (sts ++ [Status 0; Status 0; Status 0; st]), s') →
  ∃ c' p' bv' ms body, models name s' c' p' bv' ∧ rx_side p' = rx_side p ∧
    sent c' = ms ++ [(val r2, body)] ∧ holds_setpoint w (offset priv) (val r) body.
Proof.
  intros Hadd Hm Hpre Hput Hb Hn Hrun. set (ops := pre ++ _) in Hrun.
  assert (Hok : Forall (op_ok name (dom (bodies c))) ops).
  { apply Forall_app. split; [done|]. by repeat (constructor; [done|]). }
  destruct (run_ops_done name ops s c p bv Hadd Hm Hok) as (sts' & s1 & c' & p' & bv' & E & Hst & Hm' & Hx & Hd).
  rewrite Hrun in E. injection E as <- <-.
  change (pre ++ [PutVal w com r priv; SendRec com2 r2; FlushRec com3 r3; NetOut n]) with
    (pre ++ [PutVal w com r priv; SendRec com2 r2; FlushRec com3 r3] ++ [NetOut n]) in ops.
  apply ctl_steps_app in Hst as (sts1 & sts2 & c1 & Es & Hl & _ & Hst2).
  apply app_inj_2 in Es as [_ <-]; [|done].
  apply (ctl_steps_app c1 [PutVal w com r priv; SendRec com2 r2; FlushRec com3 r3] [NetOut n])
    in Hst2 as (sts3 & sts4 & c2 & Es & Hl4 & Ea & Eb).
  apply (app_inj_2 [Status 0; Status 0; Status 0] sts3 [st]) in Es as [<- <-]; [|done].
  destruct Hput as ((_ & Ho & _ & k & Hk & Hin) & _). rewrite Hb in Hk. injection Hk as <-.
  apply elem_of_dom in Hin as [body0 Hb0].
  destruct (block_at s name c p bv (val r2) body0 Hm Hb0) as (_ & _ & _ & _ & Hr).
  destruct (setpoint_steps c1 w com r priv com2 r2 com3 r3 c2 Hb Ho Hr Ea) as (body & Es & Hh).
  inversion Eb as [|? ? ? c3 ? ? ? Ec Ed]; subst. inversion Ed; subst. inversion Ec; subst. cbn in *.
  exists (Ctl (bodies c2) (queue c2) (sent c2) (ztake (zlen (gone c2) + n) (encode_msgs (sent c2)))), p', bv',
    (sent c1 ++ queue c1), body. split_and!; [done|done| |done]. cbn. by rewrite Es, app_assoc.
Qed.
End refinement.

(** ** Properties *)

Lemma zslice_ztake_inside {A} off n m (l : list A) :
  0 ≤ off → 0 ≤ n → off + n ≤ m → m ≤ zlen l → zslice off n (ztake m l) = zslice off n l.
Proof.
  intros. rewrite <-(ztake_zdrop m l) at 2. symmetry. apply zslice_app_l; [done|done|].
  rewrite zlen_ztake. lia.
Qed.

(** A setpoint in the first 1024 bytes survives the device's buffer. *)
Lemma holds_setpoint_cut w off v body :
  holds_setpoint w off v body → off + Z.of_nat (sizeof w) ≤ PSC_MAX_RX_MSG_LEN →
  holds_setpoint w off v (ztake PSC_MAX_RX_MSG_LEN body).
Proof.
  intros (Ho & Hl & Hv) Hc. unfold PSC_MAX_RX_MSG_LEN in *. pose proof (sizeof_pos w).
  split; [done|]. split; [rewrite zlen_ztake; lia|]. rewrite <-Hv. unfold field.
  destruct (Z.le_gt_cases 1024 (zlen body)); [by rewrite zslice_ztake_inside by lia|].
  by rewrite ztake_all by lia.
Qed.

Lemma length_msgs ms : Z.of_nat (length ms) ≤ zlen (encode_msgs ms).
Proof.
  induction ms as [|m ms IH]; [done|]. change (encode_msgs (m :: ms)) with (encode_msg m ++ encode_msgs ms).
  rewrite zlen_app. unfold encode_msg. rewrite zlen_app, zlen_put_header. cbn [length].
  pose proof (zlen_nonneg m.2). unfold HEADER_SIZE. lia.
Qed.

(** Nothing is left in the output buffer of the driver. *)
Definition drained {B} `{EvBuffer B} (name : string) (s : node B) : Prop :=
  ∀ p b, drivers s !! name = Some p → session p = Some b → evbuffer_data (output b) = [].

Lemma drained_wire {B} `{EvBufferLaws B} name (s : node B) c p bv :
  models name s c p bv → drained name s → wire s = encode_msgs (sent c).
Proof.
  intros Hm Hdr. rewrite (md_wire _ _ _ _ _ Hm), <-(md_out _ _ _ _ _ Hm).
  rewrite (Hdr p bv), app_nil_r; [done|apply Hm|apply Hm].
Qed.

(** C8: The records refine the setpoint machine.  Whatever register, send and flush records
    of a connected driver are processed, and whenever the network takes bytes, every
    processing returns, with the status, the block bodies, the queue and the stream on the
    wire that a step of the setpoint machine has; and what the driver has received and is
    receiving stays as it is. *)
Theorem records_refine_setpoints {B} `{EvBufferLaws B} `{EpicsEnv} `{PscConfig} `{RecordSupport B}
    `{Host} `{EpicsRecord} name ops (s : node B) c p bv :
  (∀ dst src : B, evbuffer_add_buffer dst src ≠ None) →
  models name s c p bv → Forall (op_ok name (dom (bodies c))) ops →
  ∃ sts s' c' p' bv', run_ops name ops s = (Ret sts, s') ∧ ctl_steps (B:=B) c ops sts c' ∧
    models name s' c' p' bv' ∧ rx_side p' = rx_side p.
Proof.
  intros Hadd Hm Hok.
  destruct (run_ops_done name ops s c p bv Hadd Hm Hok) as (sts & s' & c' & p' & bv' & E & Hst & Hm' & Hx & _).
  by exists sts, s', c', p', bv'.
Qed.

(** C9: A setpoint reaches the device.  When, after any processing, a VAL is written, its
    block sent and the queue flushed without an error, and the network has carried all of
    it: the last message the device's thread gets is that block, cut to 1024 bytes, with
    the VAL in big-endian form at the record's offset. *)
Theorem setpoint_reaches_device {B} `{EvBufferLaws B} `{EpicsEnv} `{PscConfig} `{RecordSupport B}
    `{Host} `{EpicsRecord} `{SockEnv} name (s : node B) c p bv pre sts w com r priv com2 r2 com3 r3 n st s'
    buf calls fuel :
  (∀ dst src : B, evbuffer_add_buffer dst src ≠ None) → sock_good →
  models name s c p bv → Forall (op_ok name (dom (bodies c))) pre →
  op_ok name (dom (bodies c)) (PutVal w com r priv) → block priv = Some (SendBlk (val r2)) → 0 ≤ n →
  run_ops name (pre ++ [PutVal w com r priv; SendRec com2 r2; FlushRec com3 r3; NetOut n]) s
    = (Ret (sts ++ [Status 0; Status 0; Status 0; st]), s') →
  drained name s' → zlen buf = PSC_MAX_RX_MSG_LEN → zlen (wire s') < Z.of_nat fuel →
  ∃ ms body k', recv_messages fuel buf (Sock [] (wire s') calls)
      = (Ret (ms ++ [(val r2, ztake PSC_MAX_RX_MSG_LEN body)]), k') ∧
    holds_setpoint w (offset priv) (val r) body ∧
    (offset priv + Z.of_nat (sizeof w) ≤ PSC_MAX_RX_MSG_LEN →
     holds_setpoint w (offset priv) (val r) (ztake PSC_MAX_RX_MSG_LEN body)).
Proof.
  intros Hadd Hg Hm Hpre Hput Hb Hn Hrun Hdr Hbuf Hf.
  destruct (setpoint_sent name s c p bv pre sts w com r priv com2 r2 com3 r3 n st s' Hadd Hm Hpre Hput Hb Hn Hrun)
    as (c' & p' & bv' & ms & body & Hm' & _ & Hsent & Hh).
  pose proof (drained_wire name s' c' p' bv' Hm' Hdr) as Hw. rewrite Hsent in Hw.
  pose proof (length_msgs (ms ++ [(val r2, body)])) as Hl. rewrite <-Hw in Hl.
  pose proof (md_sent _ _ _ _ _ Hm') as Hv. rewrite Hsent in Hv.
  destruct (recv_messages_all Hg (ms ++ [(val r2, body)]) buf (Sock [] (wire s') calls) fuel Hv Hbuf Hw)
    as (k' & E); [lia|].
  exists (cut_msg <$> ms), body, k'. rewrite E, fmap_app. split; [done|]. split; [done|].
  by apply holds_setpoint_cut.
Qed.

(** ** A driver and its records *)

(** A connected driver with a block of 16 bytes to send (11) and a block to receive (21). *)
Definition sample_unit : sample_drv :=
  set_base
    (set_send_blocks {[11 := sample_block (SendBlk 11) []]}
      (set_recv_blocks {[21 := new_Block 21]} (base (sample_rx []))))
    (sample_rx []).

Definition sample_node : node ChainBuf.chainbuf := Node {["dev"%string := sample_unit]} [].
Definition sample_ctl : ctl := Ctl {[11 := replicate 16 Byte.xff]} [] [] [].
Definition sample_bev : bev ChainBuf.chainbuf :=
  Bev (ChainBuf.of_bytes []) (ChainBuf.of_bytes []) 8 min_max_buf_size true (None, None).

Lemma sample_models : models "dev" sample_node sample_ctl sample_unit sample_bev.
Proof.
  split; cbn; try done.
  - split; cbn; [done|constructor|constructor|by intros k ?%elem_of_nil|].
    intros k b. intros [<- <-]%lookup_singleton_Some. cbn. split; [done|]. split; [lia|].
    split; [done|]. by intros ?%elem_of_nil.
  - apply map_Forall_singleton. split; [done|]. split; [|done]. apply dbuffer_wf_assign.
Qed.

(** A masked write, an id that is not one, a word that sticks out, and a setpoint. *)
Definition sample_pre : list rec_op :=
  [PutBits sample_com (BinRec 0xff00 8 0x1200) (sample_priv (SendBlk 11) 0);
   SendRec sample_com (ValRec 70000);
   PutVal W4 sample_com (ValRec 5) (sample_priv (SendBlk 11) 14);
   NetOut 3].
Definition sample_setpoint : list rec_op :=
  [PutVal W4 sample_com (ValRec (-2)) (sample_priv (SendBlk 11) 4);
   SendRec sample_com (ValRec 11); FlushRec sample_com (BinRec 0 0 0); NetOut 100].


Section samples.
#[local] Existing Instances quiet_env sample_limits sample_records pc_host base_record slow_sock.

Lemma sample_pre_ok : Forall (op_ok "dev" (dom (bodies sample_ctl))) sample_pre.
Proof.
  assert (Hk : 11 ∈ dom (bodies sample_ctl)) by (apply elem_of_dom; by eexists).
  repeat constructor; cbn; try done; try lia; by exists 11.
Qed.

Lemma sample_put_ok : op_ok "dev" (dom (bodies sample_ctl)) (PutVal W4 sample_com (ValRec (-2)) (sample_priv (SendBlk 11) 4)).
Proof.
  split; [|by right]. cbn. split_and!; [done|lia|lia|]. exists 11. split; [done|].
  apply elem_of_dom. by eexists.
Qed.

Lemma records_refine_setpoints_witness :
  (∃ s', run_ops "dev" (sample_pre ++ sample_setpoint) sample_node =
    (Ret [Status 0; Status 0; S_dev_badRequest; Status 0; Status 0; Status 0; Status 0; Status 0], s')) ∧
  ∃ sts s' c' p' bv', run_ops "dev" sample_pre sample_node = (Ret sts, s') ∧
    ctl_steps (B:=ChainBuf.chainbuf) sample_ctl sample_pre sts c' ∧
    models "dev" s' c' p' bv' ∧ rx_side p' = rx_side sample_unit.
Proof.
  split.
  - eexists. apply (run_ret (run_ops "dev" (sample_pre ++ sample_setpoint))). vm_compute. reflexivity.
  - apply (records_refine_setpoints "dev" sample_pre sample_node sample_ctl sample_unit sample_bev).
    + done.
    + apply sample_models.
    + apply sample_pre_ok.
Defined.

Lemma setpoint_reaches_device_witness :
  let s' := (run_ops "dev" (sample_pre ++ sample_setpoint) sample_node).2 in
  ∃ ms body k', recv_messages 100 (replicate 1024 Byte.x00) (Sock [] (wire s') 0)
      = (Ret (ms ++ [(11, ztake 1024 body)]), k') ∧
    holds_setpoint W4 4 (-2) body ∧
    (4 + Z.of_nat (sizeof W4) ≤ 1024 → holds_setpoint W4 4 (-2) (ztake 1024 body)).
Proof.
  intros s'.
  apply (setpoint_reaches_device "dev" sample_node sample_ctl sample_unit sample_bev sample_pre
    [Status 0; Status 0; S_dev_badRequest; Status 0] W4 sample_com (ValRec (-2)) (sample_priv (SendBlk 11) 4)
    sample_com (ValRec 11) sample_com (BinRec 0 0 0) 100 (Status 0)).
  - done.
  - intros n. split; [done|]. cbn. lia.
  - apply sample_models.
  - apply sample_pre_ok.
  - apply sample_put_ok.
  - reflexivity.
  - lia.
  - apply (run_ret (run_ops "dev" (sample_pre ++ sample_setpoint))). vm_compute. reflexivity.
  - intros p b. vm_compute. intros [= <-] [= <-]. reflexivity.
  - reflexivity.
  - vm_compute. reflexivity.
Defined.
End samples.
