(* ===== verification/Echo.v ===== *)
(** * A setpoint that comes back

    The example application of the embedded server (targetApp/pscapp.c) answers a message
    with the same body under the id plus ten.  With the driver and its records at the other
    end of the connection ([EndToEnd]), a value written by an output record comes back to
    an input record: through the device support, the TCP driver, the client thread and the
    broadcast of the server, and the driver's receiver. *)

From S2P Require Import Prelude EvBuffer Dbuffer Block Wire PscBase PscTcp PscTcpRx PscTcpTx.
From S2P Require Import DevCommon DevSample DevReg DevCtrl PscMsg PscServer Interop EndToEnd.
Import Server.

(** ** The server while one client talks *)

Section talk.
Context `{Net} `{Host}.
Implicit Types (k : psc_key) (C : psc_client) (a : appstate).

(** Client [c] is the list, with an open socket. *)
Record only (c : nat) k C : Prop := {
  on_client : clients k !! c = Some C;
  on_head : client_head k = Some c;
  on_next : next C = None;
  on_active : active C = true;
  on_open : copen C = true;
  on_buf : zlen (rxbuf C) = PSC_MAX_RX_MSG_LEN;
}.

Lemma only_chain c k C : only c k C → chain (clients k) (client_head k) [c].
Proof. intros [Hc Hh Hn _ _ _]. split; [done|]. by exists C. Qed.

(** A message of the client's, received whole. *)
Lemma client_recv_msg c k C m l :
  @sock_good (client_net c) → only c k C → valid_msg m → sock_rx (csock C) = encode_msg m ++ l →
  ∃ k' C', client_recv c k = (Ret (Some (cut_msg m)), k') ∧ only c k' C' ∧
    sock_rx (csock C') = l ∧ sock_tx (csock C') = sock_tx (csock C).
Proof.
  intros Hg [Hc Hh Hn Ha Ho Hb] Hm Hrx.
  destruct (@recv_round_msg (client_net c) Hg m l (rxbuf C) (csock C) Hm Hb Hrx) as (buf' & s' & E & Hb' & Hl & Htx).
  set (C1 := set_csock s' C). set (k1 := set_clients (<[c := C1]> (clients k)) k).
  assert (Hk1 : clients k1 !! c = Some C1) by apply lookup_insert_eq.
  unfold client_recv. rewrite (bind_ret _ _ _ _ _ (deref_ok c k C Hc)).
  rewrite (bind_ret _ _ _ (Some (cut_msg m), buf') k1).
  2:{ unfold on_sock. rewrite (bind_ret _ _ _ _ _ (deref_ok c k C Hc)), Ho. by rewrite E. }
  rewrite (bind_ret _ _ _ _ _ (upd_ok c _ k1 C1 Hk1)). eexists _, (set_rxbuf buf' C1).
  split; [reflexivity|]. split_and!; [|done|done]. split; try done. apply lookup_insert_eq.
Qed.

Lemma client_recv_end c k C :
  @sock_good (client_net c) → only c k C → sock_rx (csock C) = [] →
  ∃ k', client_recv c k = (Ret None, k').
Proof.
  intros Hg [Hc Hh Hn Ha Ho Hb] Hrx.
  destruct (@recv_round_end (client_net c) Hg (rxbuf C) (csock C) Hb Hrx) as (buf' & s' & E).
  set (C1 := set_csock s' C). set (k1 := set_clients (<[c := C1]> (clients k)) k).
  assert (Hk1 : clients k1 !! c = Some C1) by apply lookup_insert_eq.
  unfold client_recv. rewrite (bind_ret _ _ _ _ _ (deref_ok c k C Hc)).
  rewrite (bind_ret _ _ _ (None, buf') k1).
  2:{ unfold on_sock. rewrite (bind_ret _ _ _ _ _ (deref_ok c k C Hc)), Ho. by rewrite E. }
  rewrite (bind_ret _ _ _ _ _ (upd_ok c _ k1 C1 Hk1)). by eexists.
Qed.

(** What is broadcast reaches the client. *)
Lemma psc_send_only c k C id msg :
  @sock_good (client_net c) → only c k C →
  ∃ k' C', psc_send id msg k = (Ret tt, k') ∧ only c k' C' ∧
    sock_rx (csock C') = sock_rx (csock C) ∧
    sock_tx (csock C') = sock_tx (csock C) ++ encode_msg (id, msg).
Proof.
  intros Hg Ho. destruct (psc_send_spec [c] id msg k (only_chain c k C Ho)) as (k' & E & Hl & Hk');
    [apply NoDup_singleton|].
  destruct Ho as [Hc Hh Hn Ha Hop Hb]. destruct (Hk' c C Hc) as (C' & Hc' & Hs).
  rewrite bool_decide_eq_true_2, Ha in Hs by constructor. cbn [andb] in Hs.
  unfold sent_to in Hs. rewrite Hop in Hs. destruct Hs as (_ & Hn' & Hb' & n & _ & Htx & Hrx & Hall & Hs).
  specialize (Hall Hg). subst n. rewrite Z.eqb_refl in Hs. destruct Hs as [Ha' Ho'].
  exists k', C'. split; [done|]. split_and!; [split; congruence || by rewrite (l_head _ _ Hl)|done|].
  by rewrite Htx, ztake_all.
Qed.

(** Steps of the server in which nobody comes or goes. *)
Definition talk_step (S S' : system appstate) : Prop :=
  @step _ _ pscapp S S' ∧ threads S' = threads S ∧ starting S' = starting S.

(** The answer to a message as the application sees it. *)
Definition reply (m : psc_msg) : list psc_msg :=
  if negb (m.1 =? 99) || negb (zlen m.2 =? 4) then [(u16 (m.1 + 10), m.2)] else [].

Definition not_tick (m : psc_msg) : Prop := m.1 ≠ 14.
#[export] Instance not_tick_dec m : Decision (not_tick m).
Proof. unfold not_tick. apply _. Defined.

(** The client [c] has been answered [done] of the messages it sent, after [tx0], and has
    [rest] waiting; the counter of the application comes in between. *)
Record talking (c : nat) (tx0 : list byte) (done rest : list psc_msg) (S : system appstate) : Prop := {
  tk_threads : threads S = {[c := PLoop]};
  tk_starting : starting S = None;
  tk_talk : ∃ C out, only c (key S) C ∧ sock_rx (csock C) = encode_msgs rest ∧
    sock_tx (csock C) = tx0 ++ encode_msgs out ∧ Forall valid_msg out ∧
    filter not_tick out = filter not_tick ((cut_msg <$> done) ≫= reply);
  tk_valid : Forall valid_msg rest;
}.

Lemma rxmsg_run c k C a m :
  @sock_good (client_net c) → only c k C →
  ∃ k' C' a', rxmsg m.1 m.2 (k, a) = (Ret tt, (k', a')) ∧ only c k' C' ∧
    sock_rx (csock C') = sock_rx (csock C) ∧
    sock_tx (csock C') = sock_tx (csock C) ++ encode_msgs (reply m).
Proof.
  intros Hg Ho. unfold rxmsg, reply. destruct (_ || _).
  - destruct (psc_send_only c k C (u16 (m.1 + 10)) m.2 Hg Ho) as (k' & C' & E & Ho' & Hrx & Htx).
    exists k', C', a. split_and!; [|done|done|]; [unfold to_key, zoom; cbn [fst snd]; by rewrite E|].
    rewrite Htx. unfold encode_msgs. cbn. by rewrite app_nil_r.
  - exists k, C. eexists. split; [reflexivity|]. change (encode_msgs []) with (@nil byte). by rewrite app_nil_r.
Qed.

Lemma periodic_run c k C a :
  @sock_good (client_net c) → only c k C →
  ∃ k' C' a' out, periodic (k, a) = (Ret tt, (k', a')) ∧ only c k' C' ∧
    sock_rx (csock C') = sock_rx (csock C) ∧
    sock_tx (csock C') = sock_tx (csock C) ++ encode_msgs out ∧
    Forall valid_msg out ∧ filter not_tick out = [].
Proof.
  intros Hg Ho. unfold periodic. mstep. destruct (negb _); cbn [when].
  - destruct (psc_send_only c k C 14 (host_bytes 4 (Server.count a)) Hg Ho) as (k' & C' & E & Ho' & Hrx & Htx).
    exists k', C'. eexists _, [(14, host_bytes 4 (Server.count a))]. split_and!; [|exact Ho'|exact Hrx| | |].
    + erewrite bind_ret by (unfold to_key, zoom; cbn [fst snd]; rewrite E; reflexivity). reflexivity.
    + rewrite Htx. unfold encode_msgs. cbn. by rewrite app_nil_r.
    + constructor; [|done]. split; cbn [fst snd]; [lia|]. unfold zlen. rewrite length_host_bytes. lia.
    + done.
  - mstep. exists k, C. eexists _, []. split; [reflexivity|].
    change (encode_msgs []) with (@nil byte). rewrite app_nil_r. by split_and!.
Qed.

Lemma reply_valid m : valid_msg m → Forall valid_msg (reply (cut_msg m)).
Proof.
  intros [Hi Hl]. unfold reply. destruct (_ || _); [|done]. constructor; [|done].
  split; cbn [fst snd cut_msg]; [by apply wrapU_range|]. rewrite zlen_ztake. unfold PSC_MAX_RX_MSG_LEN. lia.
Qed.

(** A message comes in, with its answer. *)
Lemma talking_message c tx0 done m rest k a t sp k1 k' a' r :
  @sock_good (client_net c) → talking c tx0 done (m :: rest) (System k a t sp) →
  client_recv c k = (Ret (Some r), k1) → rxmsg r.1 r.2 (k1, a) = (Ret tt, (k', a')) →
  talking c tx0 (done ++ [m]) rest (System k' a' t sp).
Proof.
  intros Hg [Ht Hsp (C & out & Ho & Hrx & Htx & Hv & Hf) Hval] E1 E2. cbn in Ht, Hsp, Ho.
  apply list.Forall_cons in Hval as [Hm Hval].
  change (encode_msgs (m :: rest)) with (encode_msg m ++ encode_msgs rest) in Hrx.
  destruct (client_recv_msg c k C m _ Hg Ho Hm Hrx) as (k2 & C2 & E & Ho2 & Hrx2 & Htx2).
  rewrite E1 in E. injection E as -> ->.
  destruct (rxmsg_run c k2 C2 a (cut_msg m) Hg Ho2) as (k3 & C3 & a3 & E & Ho3 & Hrx3 & Htx3).
  rewrite E2 in E. injection E as -> ->. split; [done|done| |done].
  exists C3, (out ++ reply (cut_msg m)). split_and!; [done|congruence| | |].
  - by rewrite Htx3, Htx2, Htx, encode_msgs_app, app_assoc.
  - apply Forall_app. split; [done|]. by apply reply_valid.
  - rewrite fmap_app, bind_app, !list.filter_app, Hf. cbn [fmap list_fmap]. by rewrite bind_singleton.
Qed.

Lemma talking_tick c tx0 done rest k a t sp k' a' :
  @sock_good (client_net c) → talking c tx0 done rest (System k a t sp) →
  periodic (k, a) = (Ret tt, (k', a')) → talking c tx0 done rest (System k' a' t sp).
Proof.
  intros Hg [Ht Hsp (C & out & Ho & Hrx & Htx & Hv & Hf) Hval] E. cbn in Ht, Hsp, Ho.
  destruct (periodic_run c k C a Hg Ho) as (k2 & C2 & a2 & more & E' & Ho2 & Hrx2 & Htx2 & Hv2 & Hf2).
  rewrite E in E'. injection E' as -> ->. split; [done|done| |done].
  exists C2, (out ++ more). split_and!; [done|congruence| | |].
  - by rewrite Htx2, Htx, encode_msgs_app, app_assoc.
  - by apply Forall_app.
  - by rewrite list.filter_app, Hf, Hf2, app_nil_r.
Qed.

Lemma singleton_phase (c d : nat) (p q : phase) : ({[c := p]} : gmap nat phase) !! d = Some q → d = c ∧ p = q.
Proof. intros Hl. apply lookup_singleton_Some in Hl as [-> ->]. done. Qed.

Lemma talk_step_talking c tx0 done rest S S' :
  @sock_good (client_net c) → talking c tx0 done rest S → talk_step S S' →
  ∃ done' rest', done ++ rest = done' ++ rest' ∧ talking c tx0 done' rest' S'.
Proof.
  intros Hg HS (Hst & Ht' & Hsp'). pose proof HS as [Ht Hsp _ _]. rewrite Ht in Ht'. rewrite Hsp in Hsp'.
  destruct Hst as [k a t e d s buf k' Hk Hd Hbuf E|k a t e d s buf r k' Hk E Hr|k a t d k' E|k a t sp d k' a' Hph E
    |k a t sp d m k1 k' a' Hph E1 E2|k a t sp d k' Hph E|k a t sp d k' Hph E|k a t sp d k' a' Hph E
    |k a t sp d k' Hph E|k a t sp k' a' E]; cbn in Ht, Hsp, Ht', Hsp'; try done; subst t.
  all: try (apply singleton_phase in Hph as [-> Hph]; try done).
  - destruct (take_client_run e d s buf k r k' Hk E) as [(? & _)|[_ ->]]; [done|]. by exists done, rest.
  - destruct rest as [|m1 rest].
    + destruct HS as [_ _ (C & out & Ho & Hrx & _) _].
      destruct (client_recv_end c k C Hg Ho Hrx) as (k2 & E). congruence.
    + exists (done ++ [m1]), rest. split; [by rewrite <-app_assoc|]. by apply (talking_message c tx0 done m1 rest k a _ _ k1 _ _ m).
  - rewrite insert_singleton_eq in Ht'. apply (f_equal (lookup c)) in Ht'. by rewrite !lookup_singleton_eq in Ht'.
  - exists done, rest. split; [done|]. by apply (talking_tick c tx0 done rest k a).
Qed.

Lemma talks_talking c tx0 done rest S S' :
  @sock_good (client_net c) → talking c tx0 done rest S → rtc talk_step S S' →
  ∃ done' rest', done ++ rest = done' ++ rest' ∧ talking c tx0 done' rest' S'.
Proof.
  intros Hg HS Hr. revert done rest HS. induction Hr as [S|S S1 S2 Hst _ IH]; intros done rest HS.
  - by exists done, rest.
  - destruct (talk_step_talking c tx0 done rest S S1 Hg HS Hst) as (d1 & r1 & E1 & HS1).
    destruct (IH d1 r1 HS1) as (d2 & r2 & E2 & HS2). exists d2, r2. split; [congruence|done].
Qed.
End talk.

(** ** What the driver makes of the answers *)

Lemma last_body_app k a b d : last_body k (a ++ b) d = last_body k b (last_body k a d).
Proof. apply foldl_app. Qed.

Lemma last_body_ticks k ms d : k ≠ 14 → last_body k (filter not_tick ms) d = last_body k ms d.
Proof.
  intros Hk. revert d. induction ms as [|m ms IH]; intros d; [done|]. rewrite filter_cons.
  unfold last_body in *. cbn [foldl]. case_decide as Hm; [apply IH|].
  rewrite IH. destruct (Z.eqb_spec m.1 k) as [E|E]; [|done].
  destruct Hm. unfold not_tick. by rewrite E.
Qed.

(** The last message is answered last. *)
Lemma last_reply ms k body d :
  k ≠ 99 → u16 (k + 10) ≠ 14 → 0 < zlen body →
  last_body (u16 (k + 10)) ((cut_msg <$> ms ++ [(k, body)]) ≫= reply) d = ztake PSC_MAX_RX_MSG_LEN body.
Proof.
  intros Hk Hk' Hl. rewrite fmap_app, bind_app, last_body_app. cbn [fmap list_fmap]. rewrite bind_singleton.
  unfold reply, cut_msg. cbn [fst snd]. rewrite (proj2 (Z.eqb_neq k 99)) by done. cbn [negb orb].
  unfold last_body at 1. cbn [foldl fst snd]. rewrite Z.eqb_refl, zlen_ztake.
  unfold PSC_MAX_RX_MSG_LEN. destruct (Z.eqb_spec (Z.min (Z.max 0 1024) (zlen body)) 0); [lia|done].
Qed.

Section echo.
Context {B : Type} `{EvBufferLaws B} `{EpicsEnv} `{PscConfig} `{RecordSupport B}.
Context `{Host} `{EpicsRecord} `{Net}.
Implicit Types (s : node B) (c : ctl) (p : PSC B) (priv : Priv).

(** The receiver between two messages, with a block [k]. *)
Record rx_idle p (k : Z) : Prop := {
  ri_pending : pending p = None;
  ri_stream : stream p = [];
  ri_counts : counts_u32 (view (base p));
  ri_wf : rx_wf p;
  ri_block : is_Some (recv_blocks (base p) !! k);
}.

Lemma rx_idle_side p p' k : rx_side p' = rx_side p → rx_idle p k → rx_idle p' k.
Proof.
  intros E [Hp Hs Hc Hw Hb].
  assert (Es : stream p' = stream p) by exact (f_equal (λ x, x.1.1.1.1) E).
  assert (Ep : pending p' = pending p) by exact (f_equal (λ x, x.1.1.1.2) E).
  assert (El : bodylen p' = bodylen p) by exact (f_equal (λ x, x.1.1.2) E).
  assert (Ev : view (base p') = view (base p)) by exact (f_equal (λ x, x.1.2) E).
  assert (Er : recv_blocks (base p') = recv_blocks (base p)) by exact (f_equal (λ x, x.2) E).
  split; [congruence|congruence|by rewrite Ev| |by rewrite Er].
  unfold rx_wf, blocks_wf in *. by rewrite El, Er.
Qed.

(** An input record of the driver [name] at offset [off] of the received block [k], with a
    time of its own. *)
Record input_at (name : string) (k off : Z) p (r : devst valrec Priv (PSC B)) priv : Prop := {
  ia_drv : pscmap r !! name = Some p;
  ia_priv : dpvt r = Some priv;
  ia_name : psc priv = name;
  ia_block : block priv = Some (RecvBlk k);
  ia_offset : offset priv = off;
  ia_tsoffset : 0 ≤ tsoffset priv;
  ia_tse : tse (com r) ≠ epicsTimeEventDeviceTime;
}.

Lemma input_reads w name k off p (r : devst valrec Priv (PSC B)) priv b :
  input_at name k off p r priv → swaps w → recv_blocks (base p) !! k = Some b →
  dbuffer_wf (data b) → zlen (contents (data b)) < 2 ^ 63 → 0 ≤ off →
  off + Z.of_nat (sizeof w) ≤ zlen (contents (data b)) →
  (read_to_val w r).1 = Ret (Status 0) ∧
  val (rec (read_to_val w r).2) = wrapS (bits w) (field w off (contents (data b))).
Proof.
  intros [Hd Hv Hn Hb Ho Ht Htse] Hs Hk Hwf Hl Hoff Hfit.
  assert (Ha : attached r priv p b).
  { split; [by rewrite Hn|unfold block_of; by rewrite Hb|done|by rewrite dbuffer_size_contents|by rewrite Ho]. }
  assert (Hf : field_fits w priv b = true).
  { unfold field_fits. rewrite Ho, dbuffer_size_contents. by apply Z.leb_le. }
  assert (Hti : record_time priv b (tse (com r)) (time (com r)) = Ret (time (com r))).
  { unfold record_time. by rewrite (proj2 (Z.eqb_neq _ _) Htse). }
  rewrite (read_to_val_run w r priv p b _ Ha Hv Hs Hf Hti). cbn. by rewrite Ho.
Qed.

(** The body a block has after messages were received. *)
Lemma received_body p p' chunks ms k :
  listeners_safe → receiving p → rx_idle p k → Forall valid_msg ms →
  reads p chunks p' → concat chunks = encode_msgs ms →
  ∃ b b', recv_blocks (base p) !! k = Some b ∧ recv_blocks (base p') !! k = Some b' ∧ dbuffer_wf (data b') ∧
    contents (data b') = last_body k ms (contents (data b)).
Proof.
  intros Hsafe Hr [Hp Hs Hc Hw [b Hb]] Hms Hreads Hch.
  destruct (reads_msgs p chunks p' ms Hsafe Hms Hr Hp Hs Hc Hreads Hch) as (_ & _ & Hdone).
  destruct (done_blocks _ _ _ Hdone k (map_data contents b)) as (v & Hv & _ & Hd & _).
  { cbn. by rewrite lookup_fmap, Hb. }
  cbn in Hv. rewrite lookup_fmap in Hv. destruct (recv_blocks (base p') !! k) as [b'|] eqn:Hb'; [|done].
  injection Hv as <-. exists b, b'. split_and!; [done|done| |exact Hd].
  apply (proj2 (reads_keeps p chunks p' Hreads Hw) k b' Hb').
Qed.

(** What client [d] has been sent when it has read all of [ms]. *)
Lemma answers_sent d (S S' : system appstate) C C' ms :
  @sock_good (client_net d) → Forall valid_msg ms →
  threads S = {[d := PLoop]} → starting S = None → only d (key S) C → sock_rx (csock C) = encode_msgs ms →
  rtc talk_step S S' → clients (key S') !! d = Some C' → sock_rx (csock C') = [] →
  ∃ out, sock_tx (csock C') = sock_tx (csock C) ++ encode_msgs out ∧ Forall valid_msg out ∧
    filter not_tick out = filter not_tick ((cut_msg <$> ms) ≫= reply).
Proof.
  intros Hg Hms Ht Hsp Ho Hrx Hr HC' Hrx'.
  assert (HS : talking d (sock_tx (csock C)) [] ms S).
  { split; [done|done| |done]. exists C, []. split_and!; [done|done| |done|done].
    change (encode_msgs []) with (@nil byte). by rewrite app_nil_r. }
  destruct (talks_talking d _ [] ms S S' Hg HS Hr) as (dn & rest & E & [_ _ (C2 & out & Ho2 & Hrx2 & Htx2 & Hv & Hf) _]).
  pose proof (on_client _ _ _ Ho2) as HC2. rewrite HC' in HC2. injection HC2 as <-. rewrite Hrx' in Hrx2.
  pose proof (length_msgs rest) as Hl. rewrite <-Hrx2 in Hl. destruct rest; [|unfold zlen in Hl; cbn [length] in Hl; lia].
  rewrite app_nil_r in E. cbn [app] in E. subst dn. by exists out.
Qed.
End echo.

(** ** Property *)

(** C7: A setpoint comes back.  A driver is connected, with nothing half received and a block to
    receive under the id plus ten.  An output record stores a value in a block, a send record
    queues it and a flush record hands it to the network, without an error and after any other
    processing, until libevent has sent everything; the example application, whose only client
    is this driver, reads everything that arrives, while its counter sends in between; and the
    driver receives what the application sent, in any pieces.  Then an input record at the same
    place of the block with the id plus ten reads the value, for every signed value of the
    width.  Needed for it: no socket call of the device fails and libevent has memory for the
    flush; no listener ends the program; the input record keeps its own time; the value lies
    within the 1024 bytes that the device reads of a body; the id is not 99, a command to the
    application, nor 4, whose answer has the id of the counter. *)
Theorem setpoint_comes_back {B} `{EvBufferLaws B} `{EpicsEnv} `{PscConfig} `{RecordSupport B}
    `{Host} `{EpicsRecord} `{Net} name (s s' : node B) c p bv pre sts w com r priv com2 r2 com3 r3 n st
    (d : nat) (S S' : system appstate) C C' p' chunks p'' (rr : devst valrec Priv (PSC B)) privr :
  let k' := u16 (val r2 + 10) in
  (∀ dst src : B, evbuffer_add_buffer dst src ≠ None) → listeners_safe → @sock_good (client_net d) →
  models name s c p bv → rx_idle p k' → Forall (op_ok name (dom (bodies c))) pre →
  op_ok name (dom (bodies c)) (PutVal w com r priv) → block priv = Some (SendBlk (val r2)) → 0 ≤ n →
  run_ops name (pre ++ [PutVal w com r priv; SendRec com2 r2; FlushRec com3 r3; NetOut n]) s
    = (Ret (sts ++ [Status 0; Status 0; Status 0; st]), s') →
  drained name s' →
  threads S = {[d := PLoop]} → starting S = None → only d (key S) C → sock_rx (csock C) = wire s' →
  rtc talk_step S S' → clients (key S') !! d = Some C' → sock_rx (csock C') = [] →
  drivers s' !! name = Some p' → reads p' chunks p'' →
  sock_tx (csock C') = sock_tx (csock C) ++ concat chunks →
  input_at name k' (offset priv) p'' rr privr →
  val r2 ≠ 99 → k' ≠ 14 → offset priv + Z.of_nat (sizeof w) ≤ PSC_MAX_RX_MSG_LEN →
  - 2 ^ (bits w - 1) ≤ val r < 2 ^ (bits w - 1) →
  (read_to_val w rr).1 = Ret (Status 0) ∧ val (rec (read_to_val w rr).2) = val r.
Proof.
  intros k' Hadd Hsafe Hg Hm Hidle Hpre Hput Hb Hn Hrun Hdr Ht Hsp Ho Hrx Htalk HC' Hend Hp' Hreads Htx Hin
    H99 H14 Hcut Hval.
  destruct (setpoint_sent name s c p bv pre sts w com r priv com2 r2 com3 r3 n st s' Hadd Hm Hpre Hput Hb Hn Hrun)
    as (c' & p1 & bv' & ms & body & Hm' & Hside & Hsent & Hh).
  pose proof (md_drv _ _ _ _ _ Hm') as E. rewrite Hp' in E. injection E as <-.
  rewrite (drained_wire name s' c' p' bv' Hm' Hdr), Hsent in Hrx.
  pose proof (md_sent _ _ _ _ _ Hm') as Hv. rewrite Hsent in Hv.
  destruct (answers_sent d S S' C C' _ Hg Hv Ht Hsp Ho Hrx Htalk HC' Hend) as (out & Eout & Hvo & Hf).
  rewrite Htx in Eout. apply app_inv_head in Eout.
  destruct (received_body p' p'' chunks out k' Hsafe (md_receiving _ _ _ _ _ Hm')
    (rx_idle_side _ _ _ Hside Hidle) Hvo Hreads Eout) as (b & b' & _ & Hb' & Hwf & Hbody).
  pose proof (holds_setpoint_cut _ _ _ _ Hh Hcut) as (Hoff & Hfit & Hfield). destruct Hh as (_ & Hl & _).
  pose proof (sizeof_pos w).
  rewrite <-(last_body_ticks k' out) in Hbody by done. rewrite Hf, last_body_ticks in Hbody by done.
  rewrite (last_reply ms (val r2) body) in Hbody by (done || lia).
  destruct Hput as (_ & Hs). rewrite <-Hbody in Hfit, Hfield.
  destruct (input_reads w name k' (offset priv) p'' rr privr b' Hin Hs Hb' Hwf) as [E1 E2]; [|done|done|].
  { rewrite Hbody, zlen_ztake. unfold PSC_MAX_RX_MSG_LEN. lia. }
  split; [done|]. rewrite E2, Hfield. apply wrapS_wrapU_small; [by destruct w|done].
Qed.

(** ** A run *)

(** The setpoint of [sample_setpoint] on its way: the wire, the device before and after it
    answered and its counter went off, and the driver before and after the answer. *)
Section samples.
#[local] Existing Instances quiet_env sample_limits sample_records pc_host base_record quiet_net.

Definition sent_node : node ChainBuf.chainbuf :=
  (run_ops "dev" (sample_pre ++ sample_setpoint) sample_node).2.
Definition sent_drv : sample_drv := default sample_unit (drivers sent_node !! "dev"%string).

Definition echo_client : psc_client :=
  set_active true (new_client (Sock [] (wire sent_node) 0) (replicate 1024 Byte.x00)).
Definition echo_key : psc_key := Key {[1%nat := echo_client]} (Some 1%nat) 1.
Definition echo_sys (w : psc_key * appstate) : system appstate :=
  System w.1 w.2 {[1%nat := PLoop]} None.

Definition echo_heard : psc_key := (client_recv 1 echo_key).2.
Definition echo_msg : psc_msg := (11, zdrop 8 (wire sent_node)).
Definition echo_said : psc_key * appstate := (rxmsg echo_msg.1 echo_msg.2 (echo_heard, AppState 1 0)).2.
Definition echo_ticked : psc_key * appstate := (periodic echo_said).2.
Definition echo_end : psc_client := default echo_client (clients echo_ticked.1 !! 1%nat).

Definition echo_in : sample_drv :=
  set_session (Some (set_input (ChainBuf.of_bytes (sock_tx (csock echo_end)))
    (default sample_bev (session sent_drv)))) sent_drv.
Definition echo_drv : sample_drv := (recvdata echo_in).2.

Definition echo_rec : devst valrec Priv sample_drv :=
  DevSt sample_com (ValRec 0) (Some (sample_priv (RecvBlk 21) 4)) {["dev"%string := echo_drv]}.

Lemma echo_hears : client_recv 1 echo_key = (Ret (Some echo_msg), echo_heard).
Proof. apply (run_ret (client_recv 1)). vm_compute. reflexivity. Qed.

Lemma run_out {T A} (o : outcome A * T) a : o.1 = Ret a → o = (Ret a, o.2).
Proof. intros <-. by destruct o. Qed.

Lemma echo_says : rxmsg echo_msg.1 echo_msg.2 (echo_heard, AppState 1 0) = (Ret tt, echo_said).
Proof. unfold echo_said. apply run_out. vm_compute. reflexivity. Qed.

Lemma echo_ticks : periodic echo_said = (Ret tt, echo_ticked).
Proof. unfold echo_ticked. apply run_out. vm_compute. reflexivity. Qed.

Lemma echo_ticks_at : periodic (echo_said.1, echo_said.2) = (Ret tt, echo_ticked).
Proof. rewrite <-(surjective_pairing echo_said). apply echo_ticks. Qed.

Lemma pair_out {T U A} (o : outcome A * (T * U)) a w : o = (Ret a, w) → o = (Ret a, (w.1, w.2)).
Proof. intros ->. by destruct w. Qed.

Lemma echo_run : rtc talk_step (echo_sys (echo_key, AppState 1 0)) (echo_sys echo_ticked).
Proof.
  apply (rtc_l _ _ (echo_sys echo_said)).
  - split; [|split; reflexivity].
    exact (@client_message _ _ pscapp echo_key (AppState 1 0) {[1%nat := PLoop]} None 1%nat echo_msg
      echo_heard echo_said.1 echo_said.2 eq_refl echo_hears (pair_out _ _ _ echo_says)).
  - apply rtc_once. split; [|split; reflexivity].
    apply (@app_ticks _ _ pscapp echo_said.1 echo_said.2 {[1%nat := PLoop]} None echo_ticked.1 echo_ticked.2).
    apply (pair_out _ _ _ echo_ticks_at).
Qed.

Lemma echo_only : only 1 echo_key echo_client.
Proof. by split. Qed.

Lemma sample_idle : rx_idle sample_unit 21.
Proof.
  split; [done|done| | |by eexists].
  - split; [reflexivity|]. apply (bool_decide_unpack _). vm_compute. reflexivity.
  - split; [cbn; lia|]. by apply map_Forall_singleton.
Qed.

Lemma setpoint_comes_back_witness :
  (∃ s1, run_ops "dev" (sample_pre ++ sample_setpoint) sample_node =
    (Ret [Status 0; Status 0; S_dev_badRequest; Status 0; Status 0; Status 0; Status 0; Status 0], s1)) ∧
  (read_to_val W4 echo_rec).1 = Ret (Status 0) ∧ val (rec (read_to_val W4 echo_rec).2) = -2.
Proof.
  assert (Hrun : run_ops "dev" (sample_pre ++ sample_setpoint) sample_node =
    (Ret ([Status 0; Status 0; S_dev_badRequest; Status 0] ++ [Status 0; Status 0; Status 0; Status 0]), sent_node)).
  { apply (run_ret (run_ops "dev" (sample_pre ++ sample_setpoint))). vm_compute. reflexivity. }
  split; [by eexists|].
  apply (setpoint_comes_back "dev" sample_node sent_node sample_ctl sample_unit sample_bev sample_pre
    [Status 0; Status 0; S_dev_badRequest; Status 0] W4 sample_com (ValRec (-2)) (sample_priv (SendBlk 11) 4)
    sample_com (ValRec 11) sample_com (BinRec 0 0 0) 100 (Status 0) 1
    (echo_sys (echo_key, AppState 1 0)) (echo_sys echo_ticked) echo_client echo_end
    sent_drv [sock_tx (csock echo_end)] echo_drv echo_rec (sample_priv (RecvBlk 21) 4)).
  - done.
  - apply quiet_listeners_safe.
  - intros n. split; [done|]. cbn. lia.
  - apply sample_models.
  - apply sample_idle.
  - apply sample_pre_ok.
  - apply sample_put_ok.
  - reflexivity.
  - lia.
  - exact Hrun.
  - intros p b. vm_compute. intros [= <-] [= <-]. reflexivity.
  - reflexivity.
  - reflexivity.
  - apply echo_only.
  - reflexivity.
  - apply echo_run.
  - vm_compute. reflexivity.
  - vm_compute. reflexivity.
  - vm_compute. reflexivity.
  - apply (reads_chunk _ _ echo_in echo_drv).
    + eexists _, _. split; [vm_compute; reflexivity|]. split; [|vm_compute; reflexivity]. vm_compute. reflexivity.
    + apply (run_ret recvdata echo_in tt). vm_compute. reflexivity.
    + apply reads_nil.
  - vm_compute. reflexivity.
  - split; try reflexivity. done.
  - done.
  - done.
  - vm_compute. congruence.
  - vm_compute. split; congruence.
Defined.
End samples.
