(* ===== verification/UnitTests.v ===== *)
(** * The unit tests of the repository

    testApp/testValues.cpp and targetApp/testpscmsg.c, run on the model: every [testOk1] and
    [testDblEq] is a boolean, in the order of the program.  The message tests run over any
    pair of connected sockets without errors, however they cut the bytes. *)

From S2P Require Import Prelude EvBuffer Dbuffer Wire Ieee DevCommon DevString PscMsg.

(** ** testValues.cpp *)

Section values.
Context `{Host}.

Definition TEST16 : Z := if big_endian then 0x1234 else 0x3412.
Definition TEST32 : Z := if big_endian then 0x12345678 else 0x78563412.
Definition TEST64 : Z := if big_endian then 0x123456789abcdeff else 0xffdebc9a78563412.

(** A literal [n/d]: division of integers below 2^53 rounds once. *)
Definition dec (n d : Z) : spec_float := fdiv binary64 (of_int binary64 n) (of_int binary64 d).

(** [testDblEq(A, B)] *)
Definition testDblEq (a b : spec_float) : bool :=
  SFltb (SFabs (fsub binary64 a b)) (dec 1 1000000).

(** [hton] of a double *)
Definition hton_double (v : spec_float) : spec_float :=
  of_bits binary64 (hton W8 (to_bits binary64 v)).

Definition test_bswap : list bool :=
  [hton W1 0x42 =? 0x42;
   hton W2 TEST16 =? 0x1234;
   hton W4 TEST32 =? 0x12345678;
   hton W8 TEST64 =? 0x123456789abcdeff;
   SFeqb (hton_double (hton_double (of_int binary64 4000000000000))) (of_int binary64 4000000000000)].

(** The [analogRecord] of the tests, with the fields set so far. *)
Definition rec0 : analog := Analog 0 fzero fzero menuConvertNO_CONVERSION fzero fzero.
Definition set_raw (s o : spec_float) (a : analog) : analog := Analog (roff a) s o (linr a) (eoff a) (eslo a).
Definition set_egu (s o : spec_float) (a : analog) : analog := Analog (roff a) (aslo a) (aoff a) (linr a) o s.
Definition set_linr (l : Z) (a : analog) : analog := Analog (roff a) (aslo a) (aoff a) l (eoff a) (eslo a).

Definition test_EGU2Raw : list bool :=
  let r1 := set_raw (dec 1 10) (dec (-1) 1) rec0 in
  let r2 := set_egu (dec 1 2) (dec (-1) 1) r1 in
  let r3 := set_linr menuConvertLINEAR r2 in
  ((λ n, testDblEq (analogEGU2Raw rec0 (dec n 10)) (dec n 10)) <$> [40; 42; 45; 46; 50; -40; -42; -45; -46; -50]) ++
  [testDblEq (analogEGU2Raw r1 (dec 4 1)) (dec 50 1);
   testDblEq (analogEGU2Raw r1 (dec (-4) 1)) (dec (-30) 1);
   testDblEq (analogEGU2Raw r2 (dec 4 1)) (dec 50 1);
   testDblEq (analogEGU2Raw r2 (dec (-4) 1)) (dec (-30) 1);
   testDblEq (analogEGU2Raw r3 (dec 4 1)) (dec 110 1);
   testDblEq (analogEGU2Raw r3 (dec (-4) 1)) (dec (-50) 1)].

Definition test_Raw2EGU : list bool :=
  let r1 := set_raw (dec 1 10) (dec (-1) 1) rec0 in
  let r2 := set_egu (dec 10 1) (dec 1 1) r1 in
  let r3 := set_linr menuConvertLINEAR r2 in
  [testDblEq (analogRaw2EGU rec0 (dec 11 10)) (dec 11 10);
   testDblEq (analogRaw2EGU rec0 (dec (-11) 10)) (dec (-11) 10);
   testDblEq (analogRaw2EGU r1 (dec 11 10)) (dec (-89) 100);
   testDblEq (analogRaw2EGU r1 (dec (-11) 10)) (dec (-111) 100);
   testDblEq (analogRaw2EGU r2 (dec 11 10)) (dec (-89) 100);
   testDblEq (analogRaw2EGU r2 (dec (-11) 10)) (dec (-111) 100);
   testDblEq (analogRaw2EGU r3 (dec 11 10)) (dec 11 10);
   testDblEq (analogRaw2EGU r3 (dec (-11) 10)) (dec (-11) 10)].
End values.

(** Bytes with the given values; [memcmp] of what is compared. *)
Definition chars (l : list Z) : list byte := z2b <$> l.
Definition same (expect out : list byte) : bool := bool_decide (ztake (zlen expect) out = expect).

Definition returned {A} (o : outcome A) (f : A → bool) : bool :=
  match o with Ret a => f a | _ => false end.

(** An array after [bs] was stored at its beginning. *)
Definition array (n : Z) (bs : list byte) : list byte := zblit 0 bs (replicate (Z.to_nat n) Byte.xfe).

Definition count_to (n : nat) : list Z := Z.of_nat <$> seq 1 n.

Section buffers.
Context {B : Type} `{EvBuffer B}.

Definition nstrides (d : dbuffer B) : Z := zlen (strides d).

Definition test_dbuffer_contig : list bool :=
  let b := dbuffer_sized (B:=B) 12 in
  let inp := chars (count_to 12) in
  let '(ok, b1) := dbuffer_copyin inp 0 b in
  let out := dbuffer_copyout b1 0 12 in
  let shape := dbuffer_copyout_shape b1 2 2 2 5 in
  [dbuffer_size b =? 12; nstrides b =? 1; returned ok id;
   returned out fst; returned out (λ r, same inp (array 12 r.2));
   returned shape (λ r, r.1 =? 3); returned shape (λ r, same (chars [3; 4; 7; 8; 11; 12]) (array 10 r.2))].

(** [temp] is the buffer of the test, after both references were added. *)
Definition test_dbuffer_discontrig (temp : B) : list bool :=
  let '(o, (temp, b)) := dbuffer_consume (2 ^ 64 - 1) (temp, dbuffer_empty) in
  let out := dbuffer_copyout b 0 16 in
  let shape := dbuffer_copyout_shape b 2 2 2 8 in
  [evbuffer_get_length temp =? 0; dbuffer_size b =? 16; nstrides b =? 2;
   returned out fst; returned out (λ r, same (chars (count_to 16)) (array 16 r.2));
   returned shape (λ r, r.1 =? 4);
   returned shape (λ r, same (chars [3; 4; 7; 8; 11; 12; 15; 16]) (array 16 r.2))].
End buffers.

(** The buffer of the test with two references, as libevent documents them: an extent each. *)
Definition inpA : list byte := chars (count_to 11).
Definition inpB : list byte := chars [12; 13; 14; 15; 16].
Definition two_extents : ChainBuf.chainbuf := ChainBuf.Chain [inpA; inpB] (2 ^ 40).

Definition testValues `{Host} : list bool :=
  test_bswap ++ test_EGU2Raw ++ test_Raw2EGU ++
  test_dbuffer_contig (B:=ChainBuf.chainbuf) ++ test_dbuffer_discontrig two_extents.

(** ** testpscmsg.c *)

(** Two connected sockets and the results so far: what one is sent, the other receives. *)
Record pair := Pair { sock0 : sock; sock1 : sock; results : list bool }.

Section msg.
Context `{SockEnv}.

Definition socketpair : pair := Pair (Sock [] [] 0) (Sock [] [] 0) [].

Definition testOk1 (b : bool) : M pair unit :=
  modify (λ p, Pair (sock0 p) (sock1 p) (results p ++ [b])).

Definition unsent (s : sock) : sock := Sock [] (sock_rx s) (sock_calls s).
Definition arrive (l : list byte) (s : sock) : sock := Sock (sock_tx s) (sock_rx s ++ l) (sock_calls s).

(** A call on [sock[0]]. *)
Definition on0 {A} (m : M sock A) : M pair A := λ p,
  let '(o, s) := m (sock0 p) in (o, Pair (unsent s) (arrive (sock_tx s) (sock1 p)) (results p)).

(** A call on [sock[1]]. *)
Definition on1 {A} (m : M sock A) : M pair A := λ p,
  let '(o, s) := m (sock1 p) in (o, Pair (arrive (sock_tx s) (sock0 p)) (unsent s) (results p)).

(** [strcpy(buf, text)]; [strcmp(text, buf)==0] *)
Definition text (t : string) : list byte := String.list_byte_of_string t.
Definition strcpy (t : string) (buf : list byte) : list byte := zblit 0 (text t ++ [Byte.x00]) buf.
Definition streq (t : string) (buf : list byte) : bool := bool_decide (cstr buf = text t).

Definition ok (r : rc) : bool := bool_decide (r = None).
Definition zeros : list byte := replicate 128 Byte.x00.

(** [testMsg], with what [outbuf] holds at first. *)
Definition testMsg (outbuf : list byte) : M pair unit :=
  testOk1 true ;;;
  let outbuf := strcpy "hello" outbuf in
  r <- on0 (psc_sendall (ztake 6 outbuf)) ;;
  testOk1 (ok r) ;;;
  r <- on1 (psc_recvall 6 zeros) ;;
  testOk1 (ok r.1) ;;;
  testOk1 (streq "hello" r.2) ;;;
  testOk1 true ;;;
  let outbuf := strcpy "testing" outbuf in
  r <- on0 (psc_sendmsg 42 (ztake 8 outbuf)) ;;
  testOk1 (ok r) ;;;
  v <- on1 (psc_recvmsg 0 128 zeros) ;;
  testOk1 (ok (r_rc v)) ;;;
  testOk1 (r_msgid v =? 42) ;;;
  testOk1 (r_msglen v =? 8) ;;;
  testOk1 (streq "testing" (r_buf v)).

Definition testMsgTrucn (outbuf : list byte) : M pair unit :=
  testOk1 true ;;;
  let outbuf := strcpy "hello" outbuf in
  r <- on0 (psc_sendmsg 43 (ztake 6 outbuf)) ;;
  testOk1 (ok r) ;;;
  v <- on1 (psc_recvmsg 0 4 zeros) ;;
  testOk1 (ok (r_rc v)) ;;;
  testOk1 (r_msgid v =? 43) ;;;
  testOk1 (r_msglen v =? 4) ;;;
  testOk1 (streq "hell" (r_buf v)).

(** [outbuf] of [testMsgFail], with the byte that ends the literal. *)
Definition bad_msg : list byte :=
  [Byte.x50; Byte.x58; Byte.x00; Byte.x10; Byte.x00; Byte.x00; Byte.x00; Byte.x06] ++
  text "hello" ++ [Byte.x00; Byte.x00].

(** [testMsgFail], with what [inbuf] holds. *)
Definition testMsgFail (inbuf : list byte) : M pair unit :=
  r <- on0 (psc_sendall bad_msg) ;;
  testOk1 (ok r) ;;;
  v <- on1 (psc_recvmsg 0 4 inbuf) ;;
  testOk1 (bool_decide (r_rc v = Some EIO)).

(** The results of a test; a test that does not end has none. *)
Definition run_test (t : M pair unit) : option (list bool) :=
  match t socketpair with
  | (Ret _, p) => Some (results p)
  | _ => None
  end.

Definition testpscmsg (junk : list byte) : list (option (list bool)) :=
  [run_test (testMsg junk); run_test (testMsgTrucn junk); run_test (testMsgFail junk)].

(** ** The calls of the tests *)

Hypothesis Hgood : sock_good.

(** [l] is on its way from [sock[0]] to [sock[1]]. *)
Record underway (p : pair) (l : list byte) (res : list bool) : Prop := {
  uw_tx0 : sock_tx (sock0 p) = [];
  uw_tx1 : sock_tx (sock1 p) = [];
  uw_rx1 : sock_rx (sock1 p) = l;
  uw_res : results p = res;
}.

(** The test ends, with the results [bs]. *)
Definition yields (t : M pair unit) (p : pair) (bs : list bool) : Prop :=
  ∃ p', t p = (Ret tt, p') ∧ results p' = bs.

Lemma yields_ok b k p l res bs :
  underway p l res → (∀ p', underway p' l (res ++ [b]) → yields k p' bs) →
  yields (testOk1 b ;;; k) p bs.
Proof using.
  intros [E0 E1 E2 E3] Hk. destruct (Hk (Pair (sock0 p) (sock1 p) (results p ++ [b]))) as (p' & E & Hp').
  { split; try done. cbn. by rewrite E3. }
  exists p'. split; [|done]. unfold testOk1. by mstep.
Qed.

Lemma yields_last b p l res : underway p l res → yields (testOk1 b) p (res ++ [b]).
Proof using. intros [_ _ _ E]. eexists. split; [reflexivity|]. cbn. by rewrite E. Qed.

Lemma yields_send m bytes (k : rc → M pair unit) p l res bs :
  sends m bytes → underway p l res → (∀ p', underway p' (l ++ bytes) res → yields (k None) p' bs) →
  yields (r <- on0 m ;; k r) p bs.
Proof using Hgood.
  intros Hm [E0 E1 E2 E3] Hk. destruct (Hm (sock0 p)) as (r & s & n & E & _ & Htx & _ & Hr & Hok).
  rewrite (Hok Hgood) in *. assert (n = zlen bytes) as -> by (by apply Hr).
  rewrite E0, ztake_all in Htx by lia.
  destruct (Hk (Pair (unsent s) (arrive (sock_tx s) (sock1 p)) (results p))) as (p' & E' & Hp').
  { split; cbn; try done. by rewrite E2, Htx. }
  exists p'. split; [|done]. erewrite bind_ret by (unfold on0; rewrite E; reflexivity). done.
Qed.

Lemma yields_recvall n buf (k : rc * list byte → M pair unit) p l res bs :
  0 ≤ n ≤ zlen l → n ≤ zlen buf → underway p l res →
  (∀ p', underway p' (zdrop n l) res → yields (k (None, zblit 0 (ztake n l) buf)) p' bs) →
  yields (r <- on1 (psc_recvall n buf) ;; k r) p bs.
Proof using Hgood.
  intros Hn Hb [E0 E1 E2 E3] Hk.
  destruct (psc_recvall_spec n buf (sock1 p)) as (r & s & j & E & _ & _ & Hrx & Htx & Hr & Hj); [lia|rewrite E2; lia|].
  destruct (Hj Hgood) as [-> _]. rewrite E2, Z.min_l in * by lia. assert (r = None) as -> by (by apply Hr).
  destruct (Hk (Pair (arrive (sock_tx s) (sock0 p)) (unsent s) (results p))) as (p' & E' & Hp').
  { split; cbn; done. }
  exists p'. split; [|done]. erewrite bind_ret by (unfold on1; rewrite E; reflexivity). done.
Qed.

Lemma yields_recvmsg x maxlen buf (k : recvd → M pair unit) p l res bs :
  0 ≤ maxlen ≤ zlen buf → underway p l res →
  (∀ p' v l', recvmsg_spec x maxlen buf l v l' → underway p' l' res → yields (k v) p' bs) →
  yields (v <- on1 (psc_recvmsg x maxlen buf) ;; k v) p bs.
Proof using Hgood.
  intros Hb [E0 E1 E2 E3] Hk.
  destruct (psc_recvmsg_good Hgood x maxlen buf (sock1 p) Hb) as (v & s & E & Htx & Hv). rewrite E2 in Hv.
  destruct (Hk (Pair (arrive (sock_tx s) (sock0 p)) (unsent s) (results p)) v (sock_rx s) Hv) as (p' & E' & Hp').
  { split; cbn; done. }
  exists p'. split; [|done]. erewrite bind_ret by (unfold on1; rewrite E; reflexivity). done.
Qed.

Lemma strcpy_sent t n buf : n = zlen (text t ++ [Byte.x00]) → ztake n (strcpy t buf) = text t ++ [Byte.x00].
Proof using.
  intros ->. unfold strcpy, zblit. rewrite (ztake_neg 0), app_nil_l by lia. apply ztake_app_exact.
Qed.

Lemma start_underway : underway socketpair [] [].
Proof using. by split. Qed.

Lemma run_test_yields t bs : yields t socketpair bs → run_test t = Some bs.
Proof using. intros (p' & E & Hp'). unfold run_test. by rewrite E, Hp'. Qed.

(** A message of [text t] sent and received into a buffer. *)
Lemma yields_message id t n buf maxlen k p res bs :
  n = zlen (text t ++ [Byte.x00]) → 0 ≤ id < 2 ^ 16 → n < 2 ^ 32 → 0 ≤ maxlen ≤ 128 → underway p [] res →
  (∀ p', let m := text t ++ [Byte.x00] in
     underway p' [] (res ++ [true]) →
     yields (k (Recvd None id (Z.min n maxlen) (zblit 0 (ztake maxlen m) zeros))) p' bs) →
  yields (r <- on0 (psc_sendmsg id (ztake n (strcpy t buf))) ;; testOk1 (ok r) ;;;
          v <- on1 (psc_recvmsg 0 maxlen zeros) ;; k v) p bs.
Proof using Hgood.
  intros Hn Hid Hlt Hmax Hp Hk. rewrite strcpy_sent by done.
  eapply yields_send; [apply (sends_msg (id, text t ++ [Byte.x00]))|exact Hp|]. intros p1 H1. cbn [app] in H1.
  eapply yields_ok; [exact H1|]. intros p2 H2. eapply yields_recvmsg; [|exact H2|].
  { unfold zeros. rewrite zlen_replicate. lia. }
  intros p3 v l' Hv H3. rewrite <-(app_nil_r (encode_msg _)) in Hv.
  apply recvmsg_spec_msg in Hv as [-> ->]; [|split; [done|cbn [snd]; lia]|lia]. cbn [fst snd]. rewrite <-Hn.
  by apply Hk.
Qed.

Lemma testMsg_yields junk : yields (testMsg junk) socketpair (replicate 10 true).
Proof using Hgood.
  unfold testMsg. eapply yields_ok; [apply start_underway|]. intros p1 H1. cbv zeta.
  rewrite strcpy_sent by done. eapply yields_send; [apply sends_all|exact H1|]. intros p2 H2.
  eapply yields_ok; [exact H2|]. intros p3 H3.
  eapply yields_recvall; [|vm_compute; congruence|exact H3|]; [vm_compute; split; congruence|].
  intros p4 H4. eapply yields_ok; [exact H4|]. intros p5 H5. eapply yields_ok; [exact H5|]. intros p6 H6.
  eapply yields_ok; [exact H6|]. intros p7 H7.
  eapply yields_message; [done|lia|lia|lia|exact H7|]. intros p8 m H8.
  do 3 (eapply yields_ok; [eassumption|]; intros ? ?).
  eapply eq_ind; [eapply yields_last; eassumption|]. vm_compute. reflexivity.
Qed.

Lemma testMsgTrucn_yields junk : yields (testMsgTrucn junk) socketpair (replicate 6 true).
Proof using Hgood.
  unfold testMsgTrucn. eapply yields_ok; [apply start_underway|]. intros p1 H1. cbv zeta.
  eapply yields_message; [done|lia|lia|lia|exact H1|]. intros p2 m H2.
  do 3 (eapply yields_ok; [eassumption|]; intros ? ?).
  eapply eq_ind; [eapply yields_last; eassumption|]. vm_compute. reflexivity.
Qed.

Lemma testMsgFail_yields junk : zlen junk = 128 → yields (testMsgFail junk) socketpair (replicate 2 true).
Proof using Hgood.
  intros Hj. unfold testMsgFail. eapply yields_send; [apply sends_all|apply start_underway|]. intros p1 H1.
  eapply yields_ok; [exact H1|]. intros p2 H2. eapply yields_recvmsg; [lia|exact H2|].
  intros p3 v l' [-> _] H3. eapply eq_ind; [eapply yields_last; exact H3|]. reflexivity.
Qed.
End msg.

(** ** Properties *)

(** The message tests of the repository hold on the model: over any connected pair of
    sockets without errors, however they cut the bytes, and whatever the uninitialised
    arrays hold, every test ends and every [testOk1] of it is true. *)
Theorem testpscmsg_passes `{SockEnv} junk :
  sock_good → zlen junk = 128 →
  testpscmsg junk = [Some (replicate 10 true); Some (replicate 6 true); Some (replicate 2 true)].
Proof.
  intros Hg Hj. unfold testpscmsg.
  rewrite (run_test_yields _ _ (testMsg_yields Hg junk)), (run_test_yields _ _ (testMsgTrucn_yields Hg junk)).
  by rewrite (run_test_yields _ _ (testMsgFail_yields Hg junk Hj)).
Qed.

Lemma testpscmsg_passes_witness :
  let E := slow_sock in
  testpscmsg (replicate 128 Byte.xaa) = [Some (replicate 10 true); Some (replicate 6 true); Some (replicate 2 true)].
Proof.
  intros E. apply (testpscmsg_passes (replicate 128 Byte.xaa)); [|reflexivity].
  intros n. split; [done|]. cbn. lia.
Defined.

(** The value tests of the repository: on a little-endian host all 43 tests hold.  On a
    big-endian host the fourth does not, [hton] of a 64 bit word, and all the others do. *)
Theorem testValues_results `{Host} :
  testValues = if big_endian then <[3%nat := false]> (replicate 43 true) else replicate 43 true.
Proof. destruct H as [[] al]; vm_compute; reflexivity. Qed.
