(* ===== verification/XbpmTarget.v ===== *)
(** * The demonstration target

    xbpmApp/target/main.c and app.c: a device on libevent.  It greets every client, sends
    all of them a message each second, and takes messages apart as they arrive.  A pointer
    to a connection is its number; [conns] are the allocated ones.

    The event loop runs one callback at a time; [step] is what it may do next. *)

From S2P Require Import Prelude EvBuffer Wire.

Module Xbpm.

Definition MAXMSG : Z := 1024.
Definition MAXOUT : Z := 1024.

(** [struct connection]; [bev] is its two buffers and the low mark for reading, [wire] is
    what it wrote to the socket. *)
Record connection (B : Type) := Conn {
  conn_next : option nat;
  conn_prev : option nat;
  bev_in : B;
  bev_out : B;
  low_mark : Z;
  wire : list byte;
  user_buf : B;
  havehead : bool;
  cmsgid : Z;
  msglen : Z;
  msg_drop_cnt : Z;
}.
Arguments Conn {B}.
Arguments conn_next {B} _. Arguments conn_prev {B} _. Arguments bev_in {B} _.
Arguments bev_out {B} _. Arguments low_mark {B} _. Arguments wire {B} _.
Arguments user_buf {B} _. Arguments havehead {B} _. Arguments cmsgid {B} _.
Arguments msglen {B} _. Arguments msg_drop_cnt {B} _.

(** [struct server], and the connections in memory. *)
Record server (B : Type) := Server {
  conns : gmap nat (connection B);
  conn_first : option nat;
  conn_fail_cnt : Z;
  cycle_count : Z;
}.
Arguments Server {B}.
Arguments conns {B} _. Arguments conn_first {B} _. Arguments conn_fail_cnt {B} _.
Arguments cycle_count {B} _.

Section setters.
Context {B : Type}.
Implicit Types (x : connection B) (s : server B).

Definition set_next (v : option nat) x : connection B :=
  Conn v (conn_prev x) (bev_in x) (bev_out x) (low_mark x) (wire x) (user_buf x) (havehead x)
    (cmsgid x) (msglen x) (msg_drop_cnt x).
Definition set_prev (v : option nat) x : connection B :=
  Conn (conn_next x) v (bev_in x) (bev_out x) (low_mark x) (wire x) (user_buf x) (havehead x)
    (cmsgid x) (msglen x) (msg_drop_cnt x).
Definition set_in (v : B) x : connection B :=
  Conn (conn_next x) (conn_prev x) v (bev_out x) (low_mark x) (wire x) (user_buf x) (havehead x)
    (cmsgid x) (msglen x) (msg_drop_cnt x).
Definition set_out (v : B) x : connection B :=
  Conn (conn_next x) (conn_prev x) (bev_in x) v (low_mark x) (wire x) (user_buf x) (havehead x)
    (cmsgid x) (msglen x) (msg_drop_cnt x).
Definition set_low (v : Z) x : connection B :=
  Conn (conn_next x) (conn_prev x) (bev_in x) (bev_out x) v (wire x) (user_buf x) (havehead x)
    (cmsgid x) (msglen x) (msg_drop_cnt x).
Definition set_wire (v : list byte) x : connection B :=
  Conn (conn_next x) (conn_prev x) (bev_in x) (bev_out x) (low_mark x) v (user_buf x) (havehead x)
    (cmsgid x) (msglen x) (msg_drop_cnt x).
Definition set_user (v : B) x : connection B :=
  Conn (conn_next x) (conn_prev x) (bev_in x) (bev_out x) (low_mark x) (wire x) v (havehead x)
    (cmsgid x) (msglen x) (msg_drop_cnt x).
Definition set_havehead (v : bool) x : connection B :=
  Conn (conn_next x) (conn_prev x) (bev_in x) (bev_out x) (low_mark x) (wire x) (user_buf x) v
    (cmsgid x) (msglen x) (msg_drop_cnt x).
Definition set_head (id n : Z) x : connection B :=
  Conn (conn_next x) (conn_prev x) (bev_in x) (bev_out x) (low_mark x) (wire x) (user_buf x) true
    id n (msg_drop_cnt x).
Definition set_drop (v : Z) x : connection B :=
  Conn (conn_next x) (conn_prev x) (bev_in x) (bev_out x) (low_mark x) (wire x) (user_buf x)
    (havehead x) (cmsgid x) (msglen x) v.

Definition set_conns (v : gmap nat (connection B)) s : server B :=
  Server v (conn_first s) (conn_fail_cnt s) (cycle_count s).
Definition set_first (v : option nat) s : server B :=
  Server (conns s) v (conn_fail_cnt s) (cycle_count s).
Definition set_fail (v : Z) s : server B :=
  Server (conns s) (conn_first s) v (cycle_count s).
Definition set_cycle (v : Z) s : server B :=
  Server (conns s) (conn_first s) (conn_fail_cnt s) v.

(** The connection at [c] in memory becomes [x]. *)
Definition put (c : nat) x s : server B := set_conns (<[c := x]> (conns s)) s.
End setters.

Section ops.
Context {B : Type} `{EvBuffer B}.

(** [*c]: undefined once it was freed. *)
Definition deref (c : nat) : M (server B) (connection B) := λ s,
  match conns s !! c with Some x => (Ret x, s) | None => (Crash Undefined, s) end.

Definition upd (c : nat) (f : connection B → connection B) : M (server B) unit :=
  x <- deref c ;; modify (put c (f x)).

(** [free(conn)] and the buffers with it. *)
Definition free (c : nat) : M (server B) unit :=
  modify (λ s, set_conns (delete c (conns s)) s).

(** [conn_fail_cnt++] *)
Definition count_fail : M (server B) unit :=
  modify (λ s, set_fail (u32 (conn_fail_cnt s + 1)) s).

Definition freeconn (c : nat) : M (server B) unit :=
  x <- deref c ;;
  match conn_prev x with
  | Some p => upd p (set_next (conn_next x))
  | None =>
      s <- get ;;
      assert_ (bool_decide (conn_first s = Some c)) ;;;
      modify (set_first (conn_next x))
  end ;;;
  x <- deref c ;;
  match conn_next x with
  | Some n => upd n (set_prev (conn_prev x))
  | None => ret tt
  end ;;;
  free c.

(** Returns whether the connection was freed. *)
Definition txconn (c : nat) (msgid : Z) (buf : list byte) : M (server B) bool :=
  x <- deref c ;;
  match (if MAXOUT <? evbuffer_get_length (bev_out x) then None
         else evbuffer_add (bev_out x) (put_header msgid (zlen buf))) with
  | None => upd c (λ x, set_drop (u32 (msg_drop_cnt x + 1)) x) ;;; ret false
  | Some o =>
      upd c (set_out o) ;;;
      match evbuffer_add o buf with
      | Some o' => upd c (set_out o') ;;; ret false
      | None => count_fail ;;; freeconn c ;;; ret true
      end
  end.

(** [for(conn = ...; conn; conn = conn->conn_next) f(conn);] *)
Fixpoint each (fuel : nat) (conn : option nat) (f : nat → M (server B) unit) : M (server B) unit :=
  match fuel, conn with
  | O, _ => abort OutOfFuel
  | S fuel', None => ret tt
  | S fuel', Some c =>
      f c ;;;
      x <- deref c ;;
      each fuel' (conn_next x) f
  end.

Definition each_conn (f : nat → M (server B) unit) : M (server B) unit :=
  s <- get ;;
  each (2 + size (conns s)) (conn_first s) f.

Definition txall (msgid : Z) (buf : list byte) : M (server B) unit :=
  each_conn (λ c, txconn c msgid buf ;;; ret tt).

(** app.c: the periodic message, with network byte order. *)
Definition msgping (counter fail_cnt drop_cnt : Z) : list byte :=
  be_bytes 4 counter ++ be_bytes 4 fail_cnt ++ be_bytes 4 drop_cnt.

Definition onping : M (server B) unit :=
  modify (λ s, set_cycle (u32 (cycle_count s + 1)) s) ;;;
  s <- get ;;
  each_conn (λ c,
    x <- deref c ;;
    txconn c 42 (msgping (cycle_count s) (conn_fail_cnt s) (msg_drop_cnt x)) ;;;
    ret tt).

Definition msghello : list byte := be_bytes 4 42.

Definition on_connect (c : nat) : M (server B) Z :=
  txconn c 43 msghello ;;; ret 0.

(** [connread]'s loop.  The callback's argument is the connection whose [bev] it is. *)
Fixpoint connread_loop (fuel : nat) (c : nat) : M (server B) unit :=
  match fuel with
  | O => abort OutOfFuel
  | S fuel' =>
      conn <- deref c ;;
      let expect := if havehead conn then 8 else msglen conn in
      let mlen := evbuffer_get_length (bev_in conn) in
      if mlen <? expect then
        assert_ (expect <? MAXMSG + 1) ;;;
        upd c (set_low expect)
      else if negb (havehead conn) then
        assert_ (8 <=? mlen) ;;;
        let '(head, rx) := evbuffer_remove (bev_in conn) 8 in
        upd c (set_in rx) ;;;
        if bad_frame head then freeconn c
        else if MAXMSG <? get_bodylen head then freeconn c
        else
          upd c (set_head (get_msgid head) (get_bodylen head)) ;;;
          connread_loop fuel' c
      else
        assert_ (msglen conn <=? mlen) ;;;
        upd c (set_havehead false) ;;;
        let L := evbuffer_get_length (user_buf conn) in
        when (0 <? L) (upd c (set_user (evbuffer_drain (user_buf conn) L))) ;;;
        conn <- deref c ;;
        let '(_, (rx, ub)) := evbuffer_remove_buffer (bev_in conn) (user_buf conn) (msglen conn) in
        upd c (λ x, set_user ub (set_in rx x)) ;;;
        upd c (λ x, set_in (evbuffer_drain (bev_in x) (msglen x)) x) ;;;
        connread_loop fuel' c
  end.

(** Every other round takes a header. *)
Definition connread (c : nat) : M (server B) unit :=
  conn <- deref c ;;
  connread_loop (3 + length (evbuffer_data (bev_in conn))) c.

(** Every event ends the connection; which one it was is only printed. *)
Definition connevent (c : nat) : M (server B) unit := freeconn c.

(** [onconn]: [calloc_ok] says whether there is memory for the connection, [inet] whether
    its address is an IPv4 one, [bev] what [bufferevent_socket_new] gives. *)
Definition onconn (c : nat) (calloc_ok inet : bool) (bev : option (B * B)) : M (server B) unit :=
  let fail := free c ;;; count_fail in
  if negb calloc_ok then abort NullDeref (* [conn->bev] at [fail] *)
  else if negb inet then fail
  else
    match bev, evbuffer_new with
    | Some (rx, tx), Some ub =>
        modify (put c (Conn None None rx tx 8 [] ub false 0 0 0)) ;;;
        r <- on_connect c ;;
        if negb (r =? 0) then fail
        else
          s <- get ;;
          match conn_first s with
          | Some f => upd f (set_prev (Some c))
          | None => ret tt
          end ;;;
          s <- get ;;
          upd c (set_next (conn_first s)) ;;;
          modify (set_first (Some c))
    | _, _ => fail
    end.

(** libevent: bytes arrive, at most up to the high mark [MAXMSG+1], and [connread] is called
    when there are as many as the low mark. *)
Definition readable (c : nat) (bs : list byte) : M (server B) unit :=
  x <- deref c ;;
  match evbuffer_add (bev_in x) bs with
  | None => ret tt
  | Some rx =>
      upd c (set_in rx) ;;;
      when (low_mark x <=? evbuffer_get_length rx) (connread c)
  end.

(** libevent: the socket takes [n] bytes. *)
Definition writable (c : nat) (n : Z) : M (server B) unit :=
  upd c (λ x, set_wire (wire x ++ ztake n (evbuffer_data (bev_out x)))
    (set_out (evbuffer_drain (bev_out x) n) x)).

Definition start : server B := Server ∅ None 0 0.

(** What the event loop may do next.  A new connection is put where nothing is allocated;
    its buffers are empty. *)
Inductive step : server B → server B → Prop :=
  | step_conn c calloc_ok inet bev s s' :
      conns s !! c = None →
      (∀ rx tx, bev = Some (rx, tx) → evbuffer_data rx = [] ∧ evbuffer_data tx = []) →
      onconn c calloc_ok inet bev s = (Ret tt, s') → step s s'
  | step_read c x bs s s' :
      conns s !! c = Some x → zlen (evbuffer_data (bev_in x)) + zlen bs ≤ MAXMSG + 1 →
      readable c bs s = (Ret tt, s') → step s s'
  | step_write c n s s' : 0 ≤ n → writable c n s = (Ret tt, s') → step s s'
  | step_event c x s s' :
      conns s !! c = Some x → connevent c s = (Ret tt, s') → step s s'
  | step_ping s s' : onping s = (Ret tt, s') → step s s'.
End ops.

(** ** Computations on one connection *)

Section eqs.
Context {B : Type}.
Implicit Types (s : server B) (x : connection B).

Lemma conn_deref c s x : conns s !! c = Some x → deref c s = (Ret x, s).
Proof. intros Hx. unfold deref. by rewrite Hx. Qed.

Lemma conn_upd c f s x : conns s !! c = Some x → upd c f s = (Ret tt, put c (f x) s).
Proof. intros Hx. unfold upd. by rewrite (bind_ret _ _ _ _ _ (conn_deref c s x Hx)). Qed.

Lemma conns_put c x s : conns (put c x s) !! c = Some x.
Proof. apply lookup_insert_eq. Qed.

Lemma conns_put_ne c d x s : c ≠ d → conns (put c x s) !! d = conns s !! d.
Proof. intros Hne. cbn. by apply lookup_insert_ne. Qed.

Lemma put_put c x y s : put c x (put c y s) = put c x s.
Proof. unfold put, set_conns. cbn. by rewrite insert_insert_eq. Qed.

Lemma put_id c x s : conns s !! c = Some x → put c x s = s.
Proof. intros Hx. unfold put, set_conns. rewrite insert_id by done. by destruct s. Qed.
End eqs.

(** Run the next access to connection [c]. *)
Ltac at_conn :=
  first [ erewrite bind_ret by (apply conn_deref; first [eassumption | apply conns_put])
        | erewrite bind_ret by (apply conn_upd; first [eassumption | apply conns_put]) ];
  cbv beta; rewrite ?put_put.

(** ** The list of connections *)

Section lists.
Context {B : Type}.
Implicit Types (C : gmap nat (connection B)) (l : list nat).

(** The first of [l], or what follows it; the last of [l], or what precedes it. *)
Definition from l (n : option nat) : option nat := match l with [] => n | c :: _ => Some c end.
Fixpoint upto (p : option nat) l : option nat :=
  match l with [] => p | c :: l' => upto (Some c) l' end.

(** [l] is a segment of a doubly linked list between [p] and [n]. *)
Fixpoint seg C (p : option nat) l (n : option nat) : Prop :=
  match l with
  | [] => True
  | c :: l' =>
      ∃ x, C !! c = Some x ∧ conn_prev x = p ∧ conn_next x = from l' n ∧ seg C (Some c) l' n
  end.

(** The connections in memory are those of the list, in the order [l]. *)
Record linked (s : server B) l : Prop := {
  linked_seg : seg (conns s) None l None;
  linked_first : conn_first s = from l None;
  linked_nodup : NoDup l;
  linked_all c : is_Some (conns s !! c) ↔ c ∈ l;
}.

Lemma from_app l1 l2 n : from (l1 ++ l2) n = from l1 (from l2 n).
Proof. by destruct l1. Qed.

Lemma seg_app C p l1 l2 n :
  seg C p (l1 ++ l2) n ↔ seg C p l1 (from l2 n) ∧ seg C (upto p l1) l2 n.
Proof.
  revert p. induction l1 as [|c l1 IH]; intros p; cbn [app seg upto]; [tauto|].
  setoid_rewrite IH. setoid_rewrite from_app. split.
  - intros (x & ? & ? & ? & ? & ?). by split; [exists x|].
  - intros [(x & ? & ? & ? & ?) ?]. by exists x.
Qed.

Definition same_links (x y : connection B) : Prop :=
  conn_prev y = conn_prev x ∧ conn_next y = conn_next x.

Lemma seg_frame C C' p l n :
  (∀ c x, c ∈ l → C !! c = Some x → ∃ y, C' !! c = Some y ∧ same_links x y) →
  seg C p l n → seg C' p l n.
Proof.
  revert p. induction l as [|c l IH]; intros p Hf; [done|]. intros (x & Hx & Hp & Hn & Hs).
  destruct (Hf c x) as (y & Hy & Ep & En); [by constructor|done|]. exists y.
  rewrite Ep, En. split_and!; try done. apply IH; [|done]. intros d z Hd. apply Hf. by constructor.
Qed.

(** Pointing the last element at another successor, the first at another predecessor. *)
Lemma seg_set_next C p l a x n n' :
  NoDup (l ++ [a]) → seg C p (l ++ [a]) n → C !! a = Some x →
  seg (<[a := set_next n' x]> C) p (l ++ [a]) n'.
Proof.
  intros Hnd Hs Hx. apply seg_app in Hs as [Hl (y & Hy & Hp & Hn & _)].
  rewrite Hx in Hy. injection Hy as <-.
  apply seg_app. split.
  - apply (seg_frame C); [|exact Hl]. intros d z Hd Hz. exists z.
    rewrite lookup_insert_ne; [by repeat split|]. intros ->. apply list.NoDup_app in Hnd as (_ & Hdj & _).
    apply (Hdj d Hd). by constructor.
  - exists (set_next n' x). split_and!; [apply lookup_insert_eq|done|done|done].
Qed.

Lemma seg_set_prev C p p' a l x n :
  NoDup (a :: l) → seg C p (a :: l) n → C !! a = Some x →
  seg (<[a := set_prev p' x]> C) p' (a :: l) n.
Proof.
  intros Hnd (y & Hy & Hp & Hn & Hs) Hx. rewrite Hx in Hy. injection Hy as <-.
  exists (set_prev p' x). split_and!; [apply lookup_insert_eq|done|done|].
  apply (seg_frame C); [|exact Hs]. intros d z Hd Hz. exists z.
  apply list.NoDup_cons in Hnd as [Ha _]. rewrite lookup_insert_ne by (intros ->; done). by repeat split.
Qed.

Lemma linked_size s l : linked s l → (length l ≤ size (conns s))%nat.
Proof.
  intros Hl. rewrite <-(size_dom (D := gset nat)). rewrite <-(size_list_to_set (C := gset nat) l) by apply Hl.
  apply subseteq_size. intros c Hc. apply elem_of_list_to_set in Hc.
  apply elem_of_dom. by apply (linked_all s l Hl).
Qed.

Lemma linked_same s s' l :
  linked s l → conn_first s' = conn_first s → dom (conns s') = dom (conns s) →
  (∀ c x, conns s !! c = Some x → ∃ y, conns s' !! c = Some y ∧ same_links x y) → linked s' l.
Proof.
  intros [Hs Hf Hnd Ha] Hfi Hd Hall. split; [|congruence|done|].
  - apply (seg_frame (conns s)); [|done]. intros c x _. apply Hall.
  - intros c. rewrite <-Ha, <-!elem_of_dom. by rewrite Hd.
Qed.

Lemma linked_put s l c x y :
  linked s l → conns s !! c = Some x → same_links x y → linked (put c y s) l.
Proof.
  intros [Hs Hf Hnd Ha] Hx Hxy. split; [|done|done|].
  - apply (seg_frame (conns s)); [|done]. intros d z _ Hz. cbn. destruct (decide (d = c)) as [->|Hne].
    + simplify_eq. exists y. by rewrite lookup_insert_eq.
    + exists z. rewrite lookup_insert_ne by done. by repeat split.
  - intros d. rewrite <-Ha. cbn. destruct (decide (c = d)) as [<-|Hne].
    + rewrite lookup_insert_eq, Hx. split; intros _; by eexists.
    + by rewrite lookup_insert_ne.
Qed.
End lists.

(** ** Leaving the list *)

Section leave.
Context {B : Type}.
Implicit Types (s : server B) (l : list nat).

(** The same connection between other neighbours. *)
Definition relinked (x y : connection B) : Prop := y = set_next (conn_next y) (set_prev (conn_prev y) x).

(** [s'] has the connections of [s], except [c], perhaps with other neighbours. *)
Record left_by (c : nat) s s' : Prop := {
  left_conns d x : d ≠ c → conns s !! d = Some x → ∃ y, conns s' !! d = Some y ∧ relinked x y;
  left_fail : conn_fail_cnt s' = conn_fail_cnt s;
  left_cycle : cycle_count s' = cycle_count s;
}.

Lemma relinked_refl x : relinked x x.
Proof. by destruct x. Qed.

Lemma relinked_trans x y z : relinked x y → relinked y z → relinked x z.
Proof. unfold relinked. intros -> ->. done. Qed.

#[global] Instance left_by_preorder c : PreOrder (left_by c).
Proof.
  split.
  - intros s. split; [|done|done]. intros d x _ Hd. exists x. split; [done|apply relinked_refl].
  - intros s1 s2 s3 H1 H2. destruct H1 as [Ha1 Hf1 Hc1], H2 as [Ha2 Hf2 Hc2].
    split; [|congruence|congruence]. intros d x Hne Hd.
    destruct (Ha1 d x Hne Hd) as (y & Hy & Exy). destruct (Ha2 d y Hne Hy) as (z & Hz & Eyz).
    exists z. split; [done|]. by apply (relinked_trans x y).
Qed.

Lemma left_by_put c d x y s : conns s !! d = Some x → relinked x y → left_by c s (put d y s).
Proof.
  intros Hd Hxy. split; [|done|done]. intros e z _ He. cbn. destruct (decide (e = d)) as [->|Hne].
  - simplify_eq. exists y. by rewrite lookup_insert_eq.
  - exists z. rewrite lookup_insert_ne by done. split; [done|apply relinked_refl].
Qed.

Lemma upto_snoc p l a : upto p (l ++ [a]) = Some a.
Proof. revert p. induction l as [|b l IH]; intros p; [done|]. apply IH. Qed.

Lemma seg_lookup (C : gmap nat (connection B)) p l n c : seg C p l n → c ∈ l → ∃ x, C !! c = Some x.
Proof.
  revert p. induction l as [|d l IH]; intros p Hs Hc; [by apply not_elem_of_nil in Hc|].
  destruct Hs as (x & Hx & _ & _ & Hs). apply elem_of_cons in Hc as [->|Hc]; [by exists x|].
  by apply (IH (Some d)).
Qed.

(** First half of [freeconn]: the predecessor, or the head, passes [c] over. *)
Lemma bypass_next s l1 c l2 x :
  linked s (l1 ++ c :: l2) → conns s !! c = Some x →
  ∃ s1, match conn_prev x with
        | Some p => upd p (set_next (conn_next x))
        | None => t <- get ;; assert_ (bool_decide (conn_first t = Some c)) ;;;
                  modify (set_first (conn_next x))
        end s = (Ret tt, s1) ∧
    left_by c s s1 ∧ dom (conns s1) = dom (conns s) ∧ conns s1 !! c = Some x ∧
    conn_first s1 = from (l1 ++ l2) None ∧
    seg (conns s1) None l1 (from l2 None) ∧ seg (conns s1) (Some c) l2 None.
Proof.
  intros [Hs Hf Hnd _] Hx. apply seg_app in Hs as [H1 (x' & Hx' & Hp & Hn & H2)].
  rewrite Hx in Hx'. injection Hx' as <-. rewrite Hp, Hn. clear Hp Hn.
  induction l1 as [|a l1 _] using rev_ind.
  - cbn [upto]. cbn in Hf. exists (set_first (from l2 None) s). split; [|split_and!; try done].
    + mstep. by rewrite Hf, bool_decide_eq_true_2.
    + split; [|done|done]. intros d z _ Hz. exists z. split; [done|apply relinked_refl].
  - rewrite upto_snoc. destruct (seg_lookup _ _ _ _ a H1) as [y Hy]; [set_solver|].
    assert (Hac : a ≠ c) by (intros ->; rewrite <-app_assoc in Hnd; apply list.NoDup_app in Hnd as (_ & _ & Hnd);
      apply list.NoDup_cons in Hnd as [Hnd _]; set_solver).
    exists (put a (set_next (from l2 None) y) s). split_and!.
    + by apply conn_upd.
    + apply (left_by_put _ _ y); [done|]. by destruct y.
    + cbn. rewrite dom_insert_L. apply elem_of_dom_2 in Hy. set_solver.
    + by rewrite conns_put_ne.
    + cbn. rewrite Hf. by destruct l1.
    + apply (seg_set_next _ _ _ _ _ (Some c)); [|done|done]. by apply list.NoDup_app in Hnd as (? & _).
    + apply (seg_frame (conns s)); [|done]. intros d z Hd Hz. exists z.
      rewrite conns_put_ne; [by repeat split|]. intros ->. rewrite <-app_assoc in Hnd.
      apply list.NoDup_app in Hnd as (_ & _ & Hnd). apply list.NoDup_cons in Hnd as [Hnd _]. set_solver.
Qed.

(** Second half: the successor passes it over. *)
Lemma bypass_prev s l1 c l2 x :
  NoDup (l1 ++ c :: l2) → conns s !! c = Some x →
  conn_prev x = upto None l1 → conn_next x = from l2 None →
  seg (conns s) None l1 (from l2 None) → seg (conns s) (Some c) l2 None →
  ∃ s1, match conn_next x with
        | Some n => upd n (set_prev (conn_prev x))
        | None => ret tt
        end s = (Ret tt, s1) ∧
    left_by c s s1 ∧ dom (conns s1) = dom (conns s) ∧ conn_first s1 = conn_first s ∧
    seg (conns s1) None (l1 ++ l2) None.
Proof.
  intros Hnd Hx Hp Hn H1 H2. rewrite Hp, Hn. destruct l2 as [|b l2].
  { exists s. split_and!; try done. by rewrite app_nil_r. }
  cbn [from]. destruct (seg_lookup _ _ _ _ b H2) as [y Hy]; [constructor|].
  apply list.NoDup_app in Hnd as (_ & Hdj & Hnd). apply list.NoDup_cons in Hnd as [Hcl Hnd].
  exists (put b (set_prev (upto None l1) y) s). split_and!; [by apply conn_upd| | |done|].
  - apply (left_by_put _ _ y); [done|]. by destruct y.
  - cbn. rewrite dom_insert_L. apply elem_of_dom_2 in Hy. set_solver.
  - apply seg_app. split; [|by apply (seg_set_prev _ (Some c))].
    apply (seg_frame (conns s)); [|done]. intros d z Hd Hz. exists z.
    rewrite conns_put_ne; [by repeat split|]. intros ->. apply (Hdj d Hd). set_solver.
Qed.

(** A connection leaves the list; the others stay linked, in their order. *)
Lemma freeconn_linked s l1 c l2 :
  linked s (l1 ++ c :: l2) →
  ∃ s', freeconn c s = (Ret tt, s') ∧ linked s' (l1 ++ l2) ∧ left_by c s s'.
Proof.
  intros Hl. destruct (seg_lookup _ _ _ _ c (linked_seg _ _ Hl)) as [x Hx]; [set_solver|].
  pose proof (linked_seg _ _ Hl) as Hs. apply seg_app in Hs as [_ (x' & Hx' & Hp & Hn & _)].
  rewrite Hx in Hx'. injection Hx' as <-. cbn [upto] in Hn.
  destruct (bypass_next s l1 c l2 x Hl Hx) as (s1 & E1 & L1 & D1 & Hx1 & F1 & G1 & G2).
  pose proof (linked_nodup _ _ Hl) as Hnd.
  destruct (bypass_prev s1 l1 c l2 x Hnd Hx1 Hp Hn G1 G2) as (s2 & E2 & L2 & D2 & F2 & G).
  exists (set_conns (delete c (conns s2)) s2). unfold freeconn. at_conn.
  rewrite (bind_ret _ _ _ _ _ E1). at_conn. rewrite (bind_ret _ _ _ _ _ E2). split; [done|].
  assert (Hc : c ∉ l1 ++ l2).
  { apply list.NoDup_app in Hnd as (_ & Hdj & Hnd). apply list.NoDup_cons in Hnd as [Hnd _].
    intros [H|H]%elem_of_app; [|done]. apply (Hdj c H). set_solver. }
  split; [split|].
  - cbn. apply (seg_frame (conns s2)); [|done]. intros d z Hd Hz. exists z.
    rewrite lookup_delete_ne; [by repeat split|]. by intros ->.
  - cbn. by rewrite F2.
  - apply list.NoDup_app in Hnd as (? & Hdj & Hnd). apply list.NoDup_cons in Hnd as [_ Hnd].
    apply list.NoDup_app. split_and!; [done| |done]. intros d Hd Hd2. apply (Hdj d Hd). set_solver.
  - intros d. cbn. rewrite <-elem_of_dom, dom_delete_L, D2, D1.
    pose proof (linked_all _ _ Hl d) as Ha. rewrite <-elem_of_dom in Ha. set_solver.
  - etrans; [exact L1|]. etrans; [exact L2|]. split; [|done|done]. intros d z Hne Hz. exists z. cbn.
    rewrite lookup_delete_ne by done. split; [done|apply relinked_refl].
Qed.
End leave.

(** ** Sending *)

Section sending.
Context {B : Type} `{EvBufferLaws B}.
Implicit Types (s t : server B) (x : connection B) (l : list nat).

(** The whole message was queued, or it was dropped and counted: a client that takes too
    long to read misses messages. *)
Definition queued (m : psc_msg) x y : Prop :=
  evbuffer_get_length (bev_out x) ≤ MAXOUT ∧
  ∃ o, y = set_out o x ∧ evbuffer_data o = evbuffer_data (bev_out x) ++ encode_msg m.
Definition dropped x y : Prop := y = set_drop (u32 (msg_drop_cnt x + 1)) x.

(** The header goes out but there is no memory for the body. *)
Definition body_fails (m : psc_msg) x : Prop :=
  evbuffer_get_length (bev_out x) ≤ MAXOUT ∧
  ∃ o, evbuffer_add (bev_out x) (put_header m.1 (zlen m.2)) = Some o ∧ evbuffer_add o m.2 = None.

Definition sent (m : psc_msg) x y : Prop := ¬ body_fails m x ∧ (queued m x y ∨ dropped x y).

Lemma sent_links m x y : sent m x y → same_links x y.
Proof. by intros [_ [(_ & o & -> & _)| ->]]. Qed.

Lemma txconn_cases c m s x :
  conns s !! c = Some x →
  (∃ y, txconn c m.1 m.2 s = (Ret false, put c y s) ∧ sent m x y) ∨
  (body_fails m x ∧ ∃ o,
    txconn c m.1 m.2 s = (freeconn c ;;; ret true) (set_fail (u32 (conn_fail_cnt s + 1)) (put c (set_out o x) s))).
Proof.
  intros Hx. destruct m as [id buf]. unfold txconn, sent, body_fails. cbn [fst snd]. at_conn.
  destruct (MAXOUT <? _) eqn:Hl; bool_to_prop.
  { left. exists (set_drop (u32 (msg_drop_cnt x + 1)) x). at_conn.
    split; [done|]. split; [intros [? _]; lia|by right]. }
  destruct (evbuffer_add (bev_out x) _) as [o|] eqn:E1.
  - at_conn. destruct (evbuffer_add o buf) as [o'|] eqn:E2.
    + left. exists (set_out o' x). at_conn. split; [done|]. split; [intros (_ & o1 & ? & ?); congruence|].
      left. split; [done|]. exists o'. split; [done|].
      rewrite (evbuffer_add_data o buf o' E2), (evbuffer_add_data _ _ o E1). by rewrite <-app_assoc.
    + right. split; [split; [done|by exists o]|]. by exists o.
  - left. exists (set_drop (u32 (msg_drop_cnt x + 1)) x). at_conn. split; [done|].
    split; [intros (_ & o1 & ? & ?); congruence|by right].
Qed.

(** With room for the message there is memory for its body. *)
Lemma room_body m x :
  HEADER_SIZE + zlen m.2 ≤ evbuffer_room (bev_out x) → ¬ body_fails m x.
Proof.
  intros Hr (_ & o & E1 & E2). pose proof (zlen_nonneg m.2).
  destruct (evbuffer_add_room (bev_out x) (put_header m.1 (zlen m.2))) as (o1 & E & Hr1).
  { rewrite zlen_put_header. lia. }
  rewrite zlen_put_header in Hr1. destruct (evbuffer_add_room o m.2) as (o' & ? & _); [|congruence].
  assert (o1 = o) as -> by congruence. lia.
Qed.

Lemma linked_split s l c : linked s l → is_Some (conns s !! c) → ∃ l1 l2, l = l1 ++ c :: l2.
Proof. intros Hl Hc. apply list_elem_of_split. by apply (linked_all s l Hl). Qed.

Lemma linked_in s l c : linked s l → c ∈ l → ∃ x, conns s !! c = Some x.
Proof. intros Hl Hc. by apply (linked_all s l Hl) in Hc. Qed.

(** Any connection in memory can be freed. *)
Lemma freeconn_ok s l c :
  linked s l → is_Some (conns s !! c) →
  ∃ s' l', freeconn c s = (Ret tt, s') ∧ linked s' l' ∧ left_by c s s' ∧ conns s' !! c = None ∧
    (∀ d, d ∈ l' ↔ d ∈ l ∧ d ≠ c).
Proof.
  intros Hl Hc. destruct (linked_split s l c Hl Hc) as (l1 & l2 & ->).
  destruct (freeconn_linked s l1 c l2 Hl) as (s' & E & Hl' & Hb).
  pose proof (linked_nodup _ _ Hl) as Hnd. apply list.NoDup_app in Hnd as (_ & Hdj & Hnd).
  apply list.NoDup_cons in Hnd as [Hc2 _].
  assert (Hc' : c ∉ l1 ++ l2).
  { intros [Hd|Hd]%elem_of_app; [|done]. apply (Hdj c Hd). constructor. }
  exists s', (l1 ++ l2). split_and!; try done.
  - apply eq_None_not_Some. intros Hs. by apply (linked_all _ _ Hl') in Hs.
  - intros d. split; [|set_solver]. intros Hd. split; [set_solver|]. by intros ->.
Qed.

Lemma linked_fail s l n : linked s l → linked (set_fail n s) l.
Proof. intros [? ? ? ?]. by split. Qed.

(** To a client of the list: it is sent the message, or it is freed. *)
Lemma txconn_linked c m s l x :
  linked s l → conns s !! c = Some x →
  (∃ y, txconn c m.1 m.2 s = (Ret false, put c y s) ∧ sent m x y) ∨
  (body_fails m x ∧ ∃ s', txconn c m.1 m.2 s = (Ret true, s') ∧ conns s' !! c = None).
Proof.
  intros Hl Hx. destruct (txconn_cases c m s x Hx) as [?|(Hb & o & E)]; [by left|right].
  split; [done|]. destruct (freeconn_ok (set_fail (u32 (conn_fail_cnt s + 1)) (put c (set_out o x) s)) l c)
    as (s' & l' & E' & _ & _ & Hc & _).
  - by apply linked_fail, (linked_put s l c x).
  - exists (set_out o x). apply lookup_insert_eq.
  - exists s'. split; [|done]. rewrite E. by rewrite (bind_ret _ _ _ _ _ E').
Qed.

(** ** To every client *)

(** What a loop over the list did when it got to its end. *)
Definition all_done (R : connection B → connection B → Prop) l s s' : Prop :=
  conn_first s' = conn_first s ∧ dom (conns s') = dom (conns s) ∧
  conn_fail_cnt s' = conn_fail_cnt s ∧ cycle_count s' = cycle_count s ∧
  ∀ c x, conns s !! c = Some x → ∃ y, conns s' !! c = Some y ∧
    if bool_decide (c ∈ l) then same_links x y ∧ R x y else y = x.

Section loop.
Context (R : connection B → connection B → Prop) (Bad : connection B → Prop).
Context (f : nat → M (server B) unit) (F C : Z).

(** [f] runs on a connection and changes only that one, or it frees a bad one. *)
Hypothesis Hf : ∀ c t L x, linked t L → conns t !! c = Some x →
  conn_fail_cnt t = F → cycle_count t = C →
  (∃ y, f c t = (Ret tt, put c y t) ∧ same_links x y ∧ R x y) ∨
  (Bad x ∧ ∃ t', f c t = (Ret tt, t') ∧ conns t' !! c = None).

(** The loop reads [conn_next] of what it has just freed. *)
Lemma each_spec fuel L l0 l s :
  linked s L → L = l0 ++ l → conn_fail_cnt s = F → cycle_count s = C → (length l < fuel)%nat →
  (∃ s', each fuel (from l None) f s = (Ret tt, s') ∧ all_done R l s s') ∨
  (∃ c x, c ∈ l ∧ conns s !! c = Some x ∧ Bad x ∧
    (each fuel (from l None) f s).1 = Crash Undefined).
Proof.
  revert l0 fuel s. induction l as [|c l IH]; intros l0 [|fuel] s HL EL HF HC Hfl; cbn in Hfl; try lia.
  { left. exists s. split; [done|]. split_and!; try done.
    intros c x Hx. exists x. by rewrite bool_decide_eq_false_2 by apply not_elem_of_nil. }
  pose proof (linked_seg _ _ HL) as Hs. rewrite EL in Hs.
  apply seg_app in Hs as [_ (x & Hx & _ & Hn & _)]. cbn [each from].
  destruct (Hf c s L x HL Hx HF HC) as [(y & E & Hsl & HR)|(Hbad & t' & E & Hc)].
  2: { right. exists c, x. split_and!; [constructor|done|done|].
       rewrite (bind_ret _ _ _ _ _ E). unfold bind, deref. by rewrite Hc. }
  assert (Hc : c ∉ l).
  { pose proof (linked_nodup _ _ HL) as Hnd. rewrite EL in Hnd.
    apply list.NoDup_app in Hnd as (_ & _ & Hnd). by apply list.NoDup_cons in Hnd as [? _]. }
  rewrite (bind_ret _ _ _ _ _ E). at_conn. rewrite (proj2 Hsl), Hn.
  assert (HL' : linked (put c y s) L) by (by apply (linked_put s L c x y)).
  destruct (IH (l0 ++ [c]) fuel (put c y s)) as [(s' & E' & Hfi & Hdo & HF' & HC' & Hall)|(d & z & Hd & Hz & Hb & E')];
    [done|by rewrite <-app_assoc|done|done|lia| |].
  2: { right. exists d, z. rewrite conns_put_ne in Hz by (by intros ->). split_and!; try done. by constructor. }
  left. exists s'. split; [done|]. split_and!; [done| |done|done|].
  { rewrite Hdo. cbn. rewrite dom_insert_L. apply elem_of_dom_2 in Hx. set_solver. }
  intros d z Hz. destruct (decide (d = c)) as [->|Hne].
  - rewrite Hx in Hz. injection Hz as <-. destruct (Hall c y (conns_put c y s)) as (y' & Hy' & Hcase).
    rewrite bool_decide_eq_false_2 in Hcase by done. subst y'. exists y.
    by rewrite bool_decide_eq_true_2 by constructor.
  - destruct (Hall d z) as (z' & Hz' & Hcase); [by rewrite conns_put_ne|]. exists z'.
    rewrite (bool_decide_ext (d ∈ c :: l) (d ∈ l)); [done|]. rewrite elem_of_cons. naive_solver.
Qed.

(** The loop over the whole list. *)
Lemma each_conn_spec l s :
  linked s l → conn_fail_cnt s = F → cycle_count s = C →
  (∃ s', each_conn f s = (Ret tt, s') ∧ linked s' l ∧ conn_fail_cnt s' = F ∧ cycle_count s' = C ∧
    ∀ c x, conns s !! c = Some x → ∃ y, conns s' !! c = Some y ∧ R x y) ∨
  (∃ c x, conns s !! c = Some x ∧ Bad x ∧ (each_conn f s).1 = Crash Undefined).
Proof.
  intros Hl HF HC. pose proof (linked_size s l Hl) as Hsz.
  assert (E : each_conn f s = each (2 + size (conns s)) (from l None) f s).
  { unfold each_conn. mstep. by rewrite (linked_first _ _ Hl). }
  destruct (each_spec (2 + size (conns s)) l [] l s)
    as [(s' & E' & Hfi & Hdo & HF' & HC' & Hall)|(c & x & _ & Hx & Hb & E')]; try done; [lia| |].
  - left. exists s'. rewrite E. split; [done|].
    assert (Hin : ∀ c x, conns s !! c = Some x → ∃ y, conns s' !! c = Some y ∧ same_links x y ∧ R x y).
    { intros c x Hx. destruct (Hall c x Hx) as (y & Hy & Hcase). exists y. split; [done|].
      rewrite bool_decide_eq_true_2 in Hcase; [done|]. apply (linked_all _ _ Hl). by exists x. }
    split; [|split_and!; [congruence|congruence|]].
    + apply (linked_same s); try done. intros c x Hx.
      destruct (Hin c x Hx) as (y & ? & ? & ?). by exists y.
    + intros c x Hx. destruct (Hin c x Hx) as (y & ? & ? & ?). by exists y.
  - right. exists c, x. by rewrite E.
Qed.
End loop.
End sending.

(** ** Receiving *)

Section receiving.
Context {B : Type} `{EvBufferLaws B}.
Implicit Types (s : server B) (x y : connection B) (d : list byte).

Definition input x : list byte := evbuffer_data (bev_in x).

(** How many bytes the loop of [connread] asks for. *)
Definition expect x : Z := if havehead x then 8 else msglen x.

(** Same neighbours, same output. *)
Definition rx_only x y : Prop :=
  same_links x y ∧ bev_out y = bev_out x ∧ wire y = wire x ∧ msg_drop_cnt y = msg_drop_cnt x.

#[global] Instance rx_only_preorder : PreOrder rx_only.
Proof.
  split; [done|]. intros x y z [[? ?] (? & ? & ?)] [[? ?] (? & ? & ?)].
  split; [split|]; [congruence|congruence|]. split_and!; congruence.
Qed.

Lemma read_wait fuel c s x :
  conns s !! c = Some x → zlen (input x) < expect x → expect x ≤ MAXMSG →
  connread_loop (S fuel) c s = (Ret tt, put c (set_low (expect x) x) s).
Proof.
  unfold expect, input. intros Hx Hl Hm. cbn [connread_loop]. at_conn.
  rewrite evbuffer_length_data, (proj2 (Z.ltb_lt _ _) Hl).
  rewrite (proj2 (Z.ltb_lt _ (MAXMSG + 1))) by lia. mstep. by apply conn_upd.
Qed.

Lemma read_head fuel c s x :
  conns s !! c = Some x → havehead x = false → msglen x ≤ zlen (input x) → 8 ≤ zlen (input x) →
  ∃ rx, evbuffer_data rx = zdrop 8 (input x) ∧
    connread_loop (S fuel) c s =
      (if bad_frame (ztake 8 (input x)) || (MAXMSG <? get_bodylen (ztake 8 (input x)))
       then freeconn c (put c (set_in rx x) s)
       else connread_loop fuel c
              (put c (set_head (get_msgid (ztake 8 (input x))) (get_bodylen (ztake 8 (input x))) (set_in rx x)) s)).
Proof.
  unfold input. intros Hx Hh Hl H8. cbn [connread_loop]. at_conn.
  rewrite evbuffer_length_data, Hh, (proj2 (Z.ltb_ge _ _) Hl), (proj2 (Z.leb_le 8 _) H8). cbn [negb]. mstep.
  destruct (evbuffer_remove_data (bev_in x) 8) as [E1 E2]; [lia|].
  destruct (evbuffer_remove (bev_in x) 8) as [head rx]. cbn [fst snd] in E1, E2. subst head.
  exists rx. split; [done|]. at_conn. destruct (bad_frame _); [done|]. cbn [orb].
  case_if; [done|]. by at_conn.
Qed.

Lemma read_body fuel c s x :
  conns s !! c = Some x → havehead x = true → 0 ≤ msglen x ≤ zlen (input x) → 8 ≤ zlen (input x) →
  ∃ y, rx_only x y ∧ havehead y = false ∧ msglen y = msglen x ∧ zlen (input y) ≤ zlen (input x) ∧
    ((∀ src dst n, 0 ≤ n ≤ evbuffer_get_length src → (evbuffer_remove_buffer src dst n).1 = n) →
     input y = zdrop (msglen x + msglen x) (input x) ∧ evbuffer_data (user_buf y) = ztake (msglen x) (input x)) ∧
    connread_loop (S fuel) c s = connread_loop fuel c (put c y s).
Proof.
  unfold input. intros Hx Hh Hl H8. cbn [connread_loop]. at_conn.
  rewrite !evbuffer_length_data, Hh, (proj2 (Z.ltb_ge _ 8) H8), (proj2 (Z.leb_le (msglen x) _)) by lia.
  cbn [negb]. mstep. at_conn. set (ub := evbuffer_data (user_buf x)).
  assert (E1 : ∃ u, evbuffer_data u = [] ∧
    when (0 <? zlen ub) (upd c (set_user (evbuffer_drain (user_buf x) (zlen ub)))) (put c (set_havehead false x) s) =
    (Ret tt, put c (set_user u (set_havehead false x)) s)).
  { destruct (0 <? zlen ub) eqn:E; bool_to_prop; cbn [when].
    - exists (evbuffer_drain (user_buf x) (zlen ub)). rewrite evbuffer_drain_data by lia. split; [by apply zdrop_all|].
      erewrite conn_upd by apply conns_put. by rewrite put_put.
    - exists (user_buf x). split; [|by destruct x]. apply zlen_0_nil. pose proof (zlen_nonneg ub). unfold ub in *. lia. }
  destruct E1 as (u & Hu & E1). rewrite (bind_ret _ _ _ _ _ E1). at_conn.
  cbn [bev_in user_buf msglen set_user set_havehead].
  destruct (evbuffer_remove_buffer (bev_in x) u (msglen x)) as [k [rx ub']] eqn:E2.
  at_conn. at_conn. cbn [bev_in msglen set_user set_havehead set_in].
  assert (Hin : evbuffer_data rx = zdrop (msglen x) (evbuffer_data (bev_in x)) ∨
                evbuffer_data rx = evbuffer_data (bev_in x)).
  { destruct (evbuffer_remove_buffer_data (bev_in x) u (msglen x) k rx ub') as [(_ & ? & _)|(_ & ?)];
      [rewrite evbuffer_length_data; lia|done|by left|by right]. }
  eexists. split; [|split; [|split; [|split; [|split; [|reflexivity]]]]]; try done.
  - cbn [set_in set_user set_havehead bev_in]. rewrite evbuffer_drain_data by lia.
    destruct Hin as [-> | ->]; rewrite !zlen_zdrop; zlen_lia.
  - intros Hmv. specialize (Hmv (bev_in x) u (msglen x)). rewrite E2 in Hmv.
    cbn [fst set_in set_user set_havehead bev_in user_buf] in *.
    assert (k = msglen x) as -> by (apply Hmv; rewrite evbuffer_length_data; lia).
    destruct (evbuffer_remove_buffer_data (bev_in x) u (msglen x) (msglen x) rx ub') as [(_ & E3 & E4)|(? & _)];
      [rewrite evbuffer_length_data; lia|done| |lia].
    rewrite evbuffer_drain_data, E3, E4, Hu, zdrop_zdrop by lia. done.
Qed.

(** The two assertions of the loop that a client can make fail: the loop asks for the length
    of the last body before a header, and for a header's length before a body. *)
Lemma read_short_head fuel c s x :
  conns s !! c = Some x → havehead x = false → msglen x ≤ zlen (input x) < 8 →
  (connread_loop (S fuel) c s).1 = Crash AssertFail.
Proof.
  unfold input. intros Hx Hh Hl. cbn [connread_loop]. at_conn.
  rewrite evbuffer_length_data, Hh, (proj2 (Z.ltb_ge _ _)), (proj2 (Z.leb_gt 8 _)) by lia. done.
Qed.

Lemma read_split_body fuel c s x :
  conns s !! c = Some x → havehead x = true → 8 ≤ zlen (input x) < msglen x →
  (connread_loop (S fuel) c s).1 = Crash AssertFail.
Proof.
  unfold input. intros Hx Hh Hl. cbn [connread_loop]. at_conn.
  rewrite evbuffer_length_data, Hh, (proj2 (Z.ltb_ge _ _)), (proj2 (Z.leb_gt (msglen x) _)) by lia. done.
Qed.

(** Waiting for more: what [connread] leaves. *)
Definition waiting x : Prop :=
  zlen (input x) < expect x ∧ low_mark x = expect x.

Definition read_left c s (r : outcome unit * server B) : Prop :=
  ∃ x y, conns s !! c = Some x ∧ rx_only x y ∧ 0 ≤ msglen y ≤ MAXMSG ∧
    ((r = (Ret tt, put c y s) ∧ waiting y) ∨ r = freeconn c (put c y s) ∨ r.1 = Crash AssertFail).

Lemma read_left_put c s x x' y r :
  conns s !! c = Some x → rx_only x x' → read_left c (put c x' s) r → read_left c s r.
Proof.
  intros Hx Hr (z & y' & Hz & Hr' & Hm & Hc). rewrite conns_put in Hz. injection Hz as <-.
  rewrite !put_put in Hc. exists x, y'. split_and!; try done; [|lia|lia]. by etrans.
Qed.

(** [connread] returns, and however it ends only its connection has changed. *)
Lemma connread_loop_outcomes fuel c s x :
  conns s !! c = Some x → 0 ≤ msglen x ≤ MAXMSG →
  (length (input x) + (if havehead x then 1 else 0) < fuel)%nat →
  read_left c s (connread_loop fuel c s).
Proof.
  revert s x. induction fuel as [|fuel IH]; intros s x Hx Hm Hf; [lia|].
  assert (Hex : expect x ≤ MAXMSG) by (unfold expect, MAXMSG in *; case_if; lia).
  destruct (Z.lt_ge_cases (zlen (input x)) (expect x)) as [Hw|Hw].
  { exists x, (set_low (expect x) x). split_and!; [done|done|cbn; lia|cbn; lia|]. left.
    split; [by apply read_wait|done]. }
  unfold expect in Hw. destruct (havehead x) eqn:Hh.
  - destruct (Z.lt_ge_cases (zlen (input x)) (msglen x)) as [Hb|Hb].
    + exists x, x. split_and!; try done; [lia|lia|]. right. right. by apply (read_split_body fuel c s x).
    + destruct (read_body fuel c s x) as (y & Hr & Hh' & Hm' & Hl & _ & ->); [done|done|lia|lia|].
      apply (read_left_put c s x y y); [done|done|]. apply (IH _ y); [apply conns_put|lia|].
      rewrite Hh'. unfold zlen in *. lia.
  - destruct (Z.lt_ge_cases (zlen (input x)) 8) as [H8|H8].
    { exists x, x. split_and!; try done; [lia|lia|]. right. right. by apply (read_short_head fuel c s x). }
    destruct (read_head fuel c s x) as (rx & Erx & ->); [done|done|lia|lia|].
    destruct (bad_frame _ || _) eqn:E.
    + exists x, (set_in rx x). split_and!; try done; [cbn; lia|cbn; lia|]. right. by left.
    + bool_to_prop. pose proof (get_bodylen_range (ztake 8 (input x))).
      set (y := set_head _ _ _). apply (read_left_put c s x y y); [done|done|].
      apply (IH _ y); [apply conns_put|cbn; lia|]. cbn. unfold input. cbn. rewrite Erx.
      unfold zdrop, zlen in *. rewrite length_drop. lia.
Qed.

Lemma connread_outcomes c s x :
  conns s !! c = Some x → 0 ≤ msglen x ≤ MAXMSG → read_left c s (connread c s).
Proof.
  intros Hx Hm. unfold connread. at_conn. apply (connread_loop_outcomes _ c s x); [done|lia|].
  unfold input. case_if; lia.
Qed.

Lemma readable_eq c s x bs rx :
  conns s !! c = Some x → evbuffer_add (bev_in x) bs = Some rx → low_mark x ≤ zlen (input x ++ bs) →
  readable c bs s = connread_loop (3 + length (input x ++ bs)) c (put c (set_in rx x) s) ∧
  input (set_in rx x) = input x ++ bs.
Proof.
  intros Hx Ha Hl. unfold readable. at_conn. rewrite Ha. at_conn.
  unfold input in *. cbn [bev_in set_in]. rewrite evbuffer_length_data, (evbuffer_add_data _ _ _ Ha).
  rewrite (proj2 (Z.leb_le (low_mark x) _)) by done. cbn [when]. unfold connread. at_conn.
  cbn [bev_in set_in]. by rewrite (evbuffer_add_data _ _ _ Ha).
Qed.
End receiving.

(** ** What the callbacks do *)

Section callbacks.
Context {B : Type} `{EvBufferLaws B}.
Implicit Types (s t : server B) (x y : connection B) (l : list nat).

(** The message of one second to one client. *)
Definition ping (cycle fail : Z) x : psc_msg := (42, msgping cycle fail (msg_drop_cnt x)).

Lemma onping_spec s l :
  linked s l →
  let cycle := u32 (cycle_count s + 1) in let m := ping cycle (conn_fail_cnt s) in
  (∃ s', onping s = (Ret tt, s') ∧ linked s' l ∧
     conn_fail_cnt s' = conn_fail_cnt s ∧ cycle_count s' = cycle ∧
     ∀ c x, conns s !! c = Some x → ∃ y, conns s' !! c = Some y ∧ sent (m x) x y) ∨
  (∃ c x, conns s !! c = Some x ∧ body_fails (m x) x ∧ (onping s).1 = Crash Undefined).
Proof.
  intros Hl cycle m. set (s1 := set_cycle cycle s).
  set (f := λ c, x <- deref c ;; txconn c 42 (msgping cycle (conn_fail_cnt s) (msg_drop_cnt x)) ;;; ret tt).
  assert (E : onping s = each_conn f s1) by (unfold onping; by msteps).
  rewrite E. apply (each_conn_spec (λ x y, sent (m x) x y) (λ x, body_fails (m x) x) f
    (conn_fail_cnt s) cycle) with (l := l) (s := s1); [|by destruct Hl|done|done].
  intros c t L x HL Hx _ _. unfold f. at_conn.
  destruct (txconn_linked c (m x) t L x HL Hx) as [(y & E' & Hs)|(Hb & t' & E' & Hc)]; cbn [m ping fst snd] in E'.
  - left. exists y. rewrite (bind_ret _ _ _ _ _ E'). split; [done|]. split; [|done]. by apply (sent_links (m x)).
  - right. split; [done|]. exists t'. by rewrite (bind_ret _ _ _ _ _ E').
Qed.

(** The connection [onconn] makes. *)
Definition new_conn (rx tx ub : B) : connection B := Conn None None rx tx 8 [] ub false 0 0 0.
Definition hello : psc_msg := (43, msghello).

(** [onconn] puts the new connection in front. *)
Lemma linked_cons s l c y :
  linked s l → conns s !! c = None → conn_prev y = None →
  ∃ s', (t <- get ;;
         match conn_first t with Some f => upd f (set_prev (Some c)) | None => ret tt end ;;;
         t <- get ;;
         upd c (set_next (conn_first t)) ;;;
         modify (set_first (Some c))) (put c y s) = (Ret tt, s') ∧ linked s' (c :: l) ∧
    conns s' !! c = Some (set_next (from l None) y) ∧ left_by c s s'.
Proof.
  intros Hl Hc Hp. pose proof (linked_first _ _ Hl) as Hf.
  assert (Hcl : c ∉ l) by (intros Hin; apply (linked_in s l c Hl) in Hin as [x Hx]; congruence).
  assert (E1 : ∃ s1, match conn_first s with Some f => upd f (set_prev (Some c)) | None => ret tt end (put c y s)
      = (Ret tt, s1) ∧ conn_first s1 = conn_first s ∧ conns s1 !! c = Some y ∧ left_by c s s1 ∧
      dom (conns s1) = {[c]} ∪ dom (conns s) ∧ seg (conns s1) (Some c) l None).
  { assert (L1 : left_by c s (put c y s)).
    { split; [|done|done]. intros d z Hne Hd. exists z. rewrite conns_put_ne by done.
      split; [done|apply relinked_refl]. }
    assert (G : seg (conns (put c y s)) None l None).
    { apply (seg_frame (conns s)); [|apply Hl]. intros d z Hd Hz. exists z.
      rewrite conns_put_ne; [by repeat split|]. by intros ->. }
    rewrite Hf. destruct l as [|f l]; cbn [from] in *.
    { exists (put c y s). split_and!; try done; [apply conns_put|]. cbn. by rewrite dom_insert_L. }
    assert (Hne : f ≠ c) by (intros ->; apply Hcl; constructor).
    destruct (linked_in s _ f Hl) as [z Hz]; [constructor|].
    exists (put f (set_prev (Some c) z) (put c y s)).
    assert (Hz' : conns (put c y s) !! f = Some z) by (by rewrite conns_put_ne).
    split_and!; [by apply conn_upd|done|rewrite conns_put_ne by done; apply conns_put| | |].
    - etrans; [exact L1|]. apply (left_by_put _ _ z); [done|]. by destruct z.
    - cbn. rewrite !dom_insert_L. apply elem_of_dom_2 in Hz. set_solver.
    - apply (seg_set_prev _ None); [apply Hl|done|done]. }
  destruct E1 as (s1 & E1 & Hf1 & Hc1 & L1 & D1 & G1).
  exists (set_first (Some c) (put c (set_next (conn_first s) y) s1)).
  mstep. cbn [conn_first put set_conns]. rewrite (bind_ret _ _ _ _ _ E1). mstep. rewrite Hf1. at_conn.
  split; [done|]. split; [split|split].
  - exists (set_next (conn_first s) y). split_and!; [apply conns_put|done|by rewrite Hf|].
    apply (seg_frame (conns s1)); [|done]. intros d z Hd Hz. exists z. cbn.
    rewrite lookup_insert_ne; [by repeat split|]. by intros ->.
  - done.
  - apply list.NoDup_cons. split; [done|apply Hl].
  - intros d. rewrite <-elem_of_dom. cbn. rewrite dom_insert_L, D1.
    pose proof (linked_all _ _ Hl d) as Ha. rewrite <-elem_of_dom in Ha. set_solver.
  - cbn. rewrite lookup_insert_eq. by rewrite Hf.
  - etrans; [exact L1|]. split; [|done|done]. intros d z Hne Hz. exists z. cbn.
    rewrite lookup_insert_ne by done. split; [done|apply relinked_refl].
Qed.

Lemma onconn_spec c rx tx ub s l :
  linked s l → conns s !! c = None → evbuffer_new = Some ub →
  (∃ s' y, onconn c true true (Some (rx, tx)) s = (Ret tt, s') ∧ linked s' (c :: l) ∧ left_by c s s' ∧
     conns s' !! c = Some (set_next (conn_first s) y) ∧ sent hello (new_conn rx tx ub) y) ∨
  (body_fails hello (new_conn rx tx ub) ∧
   (onconn c true true (Some (rx, tx)) s).1 = Crash AssertFail).
Proof.
  intros Hl Hc Hub. set (x := new_conn rx tx ub). set (s0 := put c x s).
  assert (Hx : conns s0 !! c = Some x) by apply conns_put.
  unfold onconn. cbn [negb]. rewrite Hub. mstep. fold (new_conn rx tx ub). fold x. fold s0.
  unfold on_connect.
  destruct (txconn_cases c hello s0 x Hx) as [(y & E & Hs)|(Hb & o & E)]; cbn [hello fst snd] in E.
  - left. assert (E' : (txconn c 43 msghello ;;; ret 0) s0 = (Ret 0, put c y s)).
    { rewrite (bind_ret _ _ _ _ _ E). unfold s0. by rewrite put_put. }
    rewrite (bind_ret _ _ _ _ _ E'). cbn [Z.eqb negb].
    assert (Hp : conn_prev y = None) by (by destruct (sent_links _ _ _ Hs) as [-> _]).
    destruct (linked_cons s l c y Hl Hc Hp) as (s' & E1 & Hl' & Hcy & Hlb).
    exists s', y. rewrite (linked_first _ _ Hl). by split_and!.
  - right. split; [done|].
    assert (Ec : (txconn c 43 msghello s0).1 = Crash AssertFail).
    { rewrite E. set (s2 := set_fail _ (put c (set_out o x) s0)).
      assert (Hx2 : conns s2 !! c = Some (set_out o x)) by apply conns_put.
      assert (Hf2 : conn_first s2 ≠ Some c).
      { change (conn_first s ≠ Some c). rewrite (linked_first _ _ Hl). intros Hf.
        destruct l as [|f l]; [done|]. injection Hf as ->.
        destruct (linked_in s _ c Hl) as [z ?]; [constructor|congruence]. }
      unfold freeconn, bind at 1. unfold bind at 1. rewrite (conn_deref c s2 _ Hx2). cbn [conn_prev set_out x new_conn].
      unfold bind at 1, bind at 1, bind at 1, get, assert_. by rewrite bool_decide_eq_false_2. }
    destruct (txconn c 43 msghello s0) as [o' s'] eqn:E'. cbn in Ec. subst o'.
    unfold bind at 1, bind at 1. by rewrite E'.
Qed.
End callbacks.

(** ** The server in every reachable state *)

Section invariant.
Context {B : Type} `{EvBufferLaws B}.
Implicit Types (s t : server B) (x y : connection B) (l : list nat).

(** A greeting, or a periodic message. *)
Definition app_msg (m : psc_msg) : Prop := m = hello ∨ (m.1 = 42 ∧ zlen m.2 = 12).

(** What a client was sent so far, and waits for, are whole messages. *)
Definition framed x : Prop :=
  ∃ ms, Forall app_msg ms ∧ wire x ++ evbuffer_data (bev_out x) = encode_msgs ms.

Definition good x : Prop :=
  0 ≤ msglen x ≤ MAXMSG ∧ framed x ∧ zlen (evbuffer_data (bev_out x)) ≤ MAXOUT + 20.

Definition inv s : Prop := (∃ l, linked s l) ∧ map_Forall (λ _, good) (conns s).

Lemma good_sent m x y : app_msg m → good x → sent m x y → good y.
Proof.
  intros Hm (Hl & (ms & Hms & E) & Hz) [_ [(Hlen & o & -> & Ho)| ->]].
  - rewrite evbuffer_length_data in Hlen. split; [done|]. cbn. rewrite Ho. split.
    + exists (ms ++ [m]). rewrite encode_msgs_snoc, <-E, <-app_assoc. cbn. rewrite Ho.
      split; [|done]. apply Forall_app. by split; [|constructor].
    + unfold encode_msg. rewrite !zlen_app, zlen_put_header. unfold HEADER_SIZE, MAXOUT in *.
      destruct Hm as [-> |[_ Hm]]; [change (zlen hello.2) with 4; lia|lia].
  - split; [done|]. split; [by exists ms|done].
Qed.

Lemma good_relinked x y : good x → relinked x y → good y.
Proof. intros Hg ->. exact Hg. Qed.

Lemma good_rx_only x y : good x → rx_only x y → 0 ≤ msglen y ≤ MAXMSG → good y.
Proof.
  intros (_ & (ms & Hms & E) & Hz) (_ & Eo & Ew & _) Hl. split; [done|]. rewrite Eo. split; [|done].
  exists ms. by rewrite Eo, Ew.
Qed.

Lemma inv_put c x y s : inv s → conns s !! c = Some x → same_links x y → good y → inv (put c y s).
Proof.
  intros [[l Hl] Hg] Hx Hs Hy. split; [exists l; by apply (linked_put s l c x)|].
  by apply map_Forall_insert_2.
Qed.

Lemma inv_freeconn c s s' :
  inv s → is_Some (conns s !! c) → freeconn c s = (Ret tt, s') → inv s'.
Proof.
  intros [[l Hl] Hg] Hc E. destruct (freeconn_ok s l c Hl Hc) as (s1 & l' & E1 & Hl' & Hb & Hn & _).
  assert (s1 = s') as <- by congruence. split; [by exists l'|].
  intros d y Hd. assert (Hne : d ≠ c) by congruence.
  assert (Hin : d ∈ l) by (destruct (freeconn_ok s l c Hl Hc) as (s2 & l2 & E2 & Hl2 & _ & _ & Hin2);
    apply Hin2, (linked_all _ _ Hl2); exists y; congruence).
  destruct (linked_in s l d Hl Hin) as [x Hx]. destruct (left_conns _ _ _ Hb d x Hne Hx) as (y' & Hy' & Hr).
  assert (y' = y) as -> by congruence. apply (good_relinked x); [|done]. by apply (Hg d).
Qed.

Lemma inv_freed c x y s s' :
  inv s → conns s !! c = Some x → rx_only x y → 0 ≤ msglen y ≤ MAXMSG →
  freeconn c (put c y s) = (Ret tt, s') → inv s'.
Proof.
  intros Hi Hx Hr Hm E. apply (inv_freeconn c (put c y s)); [|eexists; apply conns_put|done].
  apply (inv_put c x); [done|done|apply Hr|]. apply (good_rx_only x); [by apply (proj2 Hi c)|done|done].
Qed.

Lemma inv_readable c x bs s s' :
  inv s → conns s !! c = Some x → readable c bs s = (Ret tt, s') → inv s'.
Proof.
  intros Hi Hx. pose proof (proj2 Hi c x Hx) as Hg. unfold readable. at_conn.
  destruct (evbuffer_add (bev_in x) bs) as [rx|]; [|by intros [= <-]]. at_conn.
  assert (Hi1 : inv (put c (set_in rx x) s)) by (by apply (inv_put c x)).
  destruct (_ <=? _); cbn [when]; [|by intros [= <-]]. intros E.
  destruct (connread_outcomes c _ _ (conns_put c (set_in rx x) s)) as (x1 & y & Hx1 & Hr & Hm & Hcase); [apply Hg|].
  rewrite E in Hcase. destruct Hcase as [[Hcase _]|[Hcase|Hcase]]; [|by apply (inv_freed c x1 y _ s' Hi1)|done].
  injection Hcase as ->. apply (inv_put c x1); [done|done|apply Hr|].
  apply (good_rx_only x1); [by apply (proj2 Hi1 c)|done|done].
Qed.

Lemma inv_onconn c calloc_ok inet bev s s' :
  inv s → conns s !! c = None →
  (∀ rx tx, bev = Some (rx, tx) → evbuffer_data rx = [] ∧ evbuffer_data tx = []) →
  onconn c calloc_ok inet bev s = (Ret tt, s') → inv s'.
Proof.
  intros Hi Hc Hbev. assert (Hfail : (free c ;;; count_fail) s = (Ret tt, s') → inv s').
  { msteps. intros [= <-]. unfold inv. cbn. rewrite delete_id by done.
    destruct Hi as [[l Hl] Hg]. split; [|done]. exists l. by destruct Hl. }
  destruct calloc_ok; [|done]. destruct inet; [|done]. cbn.
  destruct bev as [[rx tx]|]; [|done]. destruct evbuffer_new as [ub|] eqn:Hub; [|done].
  intros E. destruct Hi as [[l Hl] Hg].
  destruct (onconn_spec c rx tx ub s l Hl Hc Hub) as [(s1 & y & E1 & Hl1 & Hb & Hy & Hs)|(_ & E1)].
  2: { unfold onconn in E1. cbn [negb] in E1. rewrite Hub in E1. rewrite E in E1. done. }
  unfold onconn in E1. cbn [negb] in E1. rewrite Hub, E in E1. injection E1 as <-.
  split; [by exists (c :: l)|]. intros d z Hd. destruct (decide (d = c)) as [->|Hne].
  - rewrite Hy in Hd. injection Hd as <-. destruct (Hbev rx tx eq_refl) as [_ Htx].
    assert (Hy' : good y); [|exact Hy']. apply (good_sent hello (new_conn rx tx ub)); [by left| |done].
    split; [cbn; unfold MAXMSG; lia|]. cbn. rewrite Htx. split; [by exists []|by vm_compute].
  - assert (Hin : d ∈ l).
    { assert (Hin : d ∈ c :: l) by (apply (linked_all _ _ Hl1); by exists z). set_solver. }
    destruct (linked_in s l d Hl Hin) as [x Hx]. destruct (left_conns _ _ _ Hb d x Hne Hx) as (z' & Hz' & Hr).
    assert (z' = z) as -> by congruence. apply (good_relinked x); [|done]. by apply (Hg d).
Qed.

Lemma inv_ping s s' : inv s → onping s = (Ret tt, s') → inv s'.
Proof.
  intros [[l Hl] Hg] E. destruct (onping_spec s l Hl) as [(s1 & E1 & Hl1 & _ & _ & Hall)|(c & x & _ & _ & E1)];
    [|by rewrite E in E1].
  assert (s1 = s') as -> by congruence. split; [by exists l|]. intros c y Hy.
  destruct (linked_in s l c Hl) as [x Hx]; [apply (linked_all _ _ Hl1); by exists y|].
  destruct (Hall c x Hx) as (y' & Hy' & Hs). assert (y' = y) as -> by congruence.
  apply (good_sent _ x y) in Hs; [done|by right|by apply (Hg c)].
Qed.

Lemma step_inv s s' : inv s → step s s' → inv s'.
Proof.
  intros Hi Hst. destruct Hst as [c ca ine bev s s' Hc Hb E|c x bs s s' Hx Hbs E|c n s s' Hn E|c x s s' Hx E|s s' E].
  - by apply (inv_onconn c ca ine bev s).
  - by apply (inv_readable c x bs s).
  - unfold writable, upd, deref, bind in E. destruct (conns s !! c) as [x|] eqn:Hx; [|done].
    injection E as <-. destruct (proj2 Hi c x Hx) as (Hl & (ms & Hms & E) & Hz).
    apply (inv_put c x); [done|done|done|]. split; [done|]. cbn. rewrite evbuffer_drain_data by done. split.
    + exists ms. split; [done|]. cbn. rewrite evbuffer_drain_data by done.
      by rewrite <-app_assoc, ztake_zdrop.
    + rewrite zlen_zdrop. pose proof (zlen_nonneg (evbuffer_data (bev_out x))). lia.
  - apply (inv_freeconn c s); [done|by exists x|done].
  - by apply (inv_ping s).
Qed.

Lemma server_inv s : rtc step (start (B:=B)) s → inv s.
Proof.
  intros Hr. assert (Hi : inv (start (B:=B))).
  { split; [|apply map_Forall_empty]. exists []. split; try done; [by constructor|].
    intros c. cbn. rewrite lookup_empty. split; [by intros [? ?]|by intros ?%not_elem_of_nil]. }
  induction Hr as [|s1 s2 s3 Hst _ IH]; [done|]. by apply IH, (step_inv s1).
Qed.
End invariant.

(** ** Properties *)

(** C31: The list of clients and what they are sent.  In every state the event loop reaches,
    [conn_first] leads through a doubly linked list of exactly the connections in memory,
    each once.  What each client was sent so far, followed by what waits for it, is a
    sequence of whole greetings and periodic messages, of which at most [MAXOUT+20] bytes
    wait; the length of a message it is sending is at most [MAXMSG]. *)
Theorem clients_linked {B} `{EvBufferLaws B} (S : server B) :
  rtc step start S → (∃ l, linked S l) ∧ map_Forall (λ _, good) (conns S).
Proof. apply server_inv. Qed.

(** The periodic message.  From a state whose connections are linked, [onping] either
    returns: the list is the same, the cycle counter goes up, and every client was queued
    the message with its own drop count, or, when more than [MAXOUT] bytes wait for it or
    there is no memory for the header, had its drop count raised.  Or there is a client
    whose message has a header but no memory for its body: [txconn] frees that client, and
    [onping] then reads [conn_next] of freed memory. *)
Theorem ping_outcomes {B} `{EvBufferLaws B} (s : server B) l :
  linked s l →
  let cycle := u32 (cycle_count s + 1) in let m := ping cycle (conn_fail_cnt s) in
  (∃ s', onping s = (Ret tt, s') ∧ linked s' l ∧
     conn_fail_cnt s' = conn_fail_cnt s ∧ cycle_count s' = cycle ∧
     ∀ c x, conns s !! c = Some x → ∃ y, conns s' !! c = Some y ∧ sent (m x) x y) ∨
  (∃ c x, conns s !! c = Some x ∧ body_fails (m x) x ∧ (onping s).1 = Crash Undefined).
Proof. apply onping_spec. Qed.

(** A new client, on every branch.  Without memory for the connection [onconn] follows
    a null pointer.  A client that is not IPv4, or has no buffers, is counted and nothing
    else changes.  Otherwise it is greeted and put in front of the list, and the others keep
    everything but their neighbours; unless the greeting has a header but no memory for its
    body: then [freeconn] finds that the client is not in the list, and its assertion
    fails. *)
Theorem onconn_outcomes {B} `{EvBufferLaws B} c calloc_ok inet bev (s : server B) l :
  linked s l → conns s !! c = None →
  let r := onconn c calloc_ok inet bev s in
  match calloc_ok, inet, bev, evbuffer_new with
  | false, _, _, _ => r.1 = Crash NullDeref
  | true, true, Some (rx, tx), Some ub =>
      let x := new_conn rx tx ub in
      (∃ s' y, r = (Ret tt, s') ∧ linked s' (c :: l) ∧ left_by c s s' ∧
         conns s' !! c = Some (set_next (conn_first s) y) ∧ sent hello x y) ∨
      (body_fails hello x ∧ r.1 = Crash AssertFail)
  | true, _, _, _ => r = (Ret tt, set_fail (u32 (conn_fail_cnt s + 1)) s)
  end.
Proof.
  intros Hl Hc. cbv zeta.
  assert (Hfail : (free c ;;; count_fail) s = (Ret tt, set_fail (u32 (conn_fail_cnt s + 1)) s)).
  { msteps. unfold count_fail, modify, set_conns, set_fail. cbn. by rewrite delete_id. }
  destruct calloc_ok; [|done]. destruct inet; [|exact Hfail].
  destruct bev as [[rx tx]|]; [|exact Hfail].
  destruct evbuffer_new as [ub|] eqn:Hub; [by apply onconn_spec|].
  unfold onconn. cbn [negb]. by rewrite Hub.
Qed.

(** C32: A message that arrives whole.  A client with nothing pending sends a message of 8 to
    [MAXMSG] bytes, not so much shorter than the one before that the loop waits for more,
    perhaps with more bytes behind it, no more than the message has.  Its body is in
    [user_buf], and the bytes behind it are gone, whatever they were: they are drained with
    the body.  The loop then waits for as many bytes as that body had. *)
Theorem message_read {B} `{EvBufferLaws B} c (s : server B) x m rest rx :
  (∀ src dst n, 0 ≤ n ≤ evbuffer_get_length src → (evbuffer_remove_buffer src dst n).1 = n) →
  conns s !! c = Some x → input x = [] → havehead x = false → valid_msg m →
  8 ≤ zlen m.2 ≤ MAXMSG → msglen x ≤ HEADER_SIZE + zlen m.2 + zlen rest →
  low_mark x ≤ HEADER_SIZE + zlen m.2 + zlen rest → zlen rest ≤ zlen m.2 →
  evbuffer_add (bev_in x) (encode_msg m ++ rest) = Some rx →
  ∃ y, readable c (encode_msg m ++ rest) s = (Ret tt, put c y s) ∧ rx_only x y ∧
    evbuffer_data (user_buf y) = m.2 ∧ input y = [] ∧ havehead y = false ∧
    msglen y = zlen m.2 ∧ low_mark y = zlen m.2.
Proof.
  intros Hmv Hx Hi Hh [Hid Hz] Hlen Hml Hlow Hrest Ha. pose proof (zlen_nonneg rest).
  assert (El : zlen (encode_msg m ++ rest) = HEADER_SIZE + zlen m.2 + zlen rest).
  { unfold encode_msg. by rewrite !zlen_app, zlen_put_header. }
  destruct (readable_eq c s x (encode_msg m ++ rest) rx Hx Ha) as [-> Ei]; [by rewrite Hi; cbn [app]; lia|].
  rewrite Hi in *. cbn [app] in *. unfold encode_msg in Ei. rewrite <-app_assoc in Ei.
  set (n := length (encode_msg m ++ rest)). change (3 + n)%nat with (S (S (S n))).
  destruct (read_head (S (S n)) c _ (set_in rx x) (conns_put c _ s)) as (rx1 & Erx1 & ->);
    [done|rewrite Ei, zlen_app, zlen_put_header, zlen_app; cbn; lia|
     rewrite Ei, zlen_app, zlen_put_header, zlen_app; unfold HEADER_SIZE; lia|].
  rewrite Ei in *. change 8 with HEADER_SIZE in Erx1 |- *. rewrite ztake_put_header, zdrop_put_header in *.
  rewrite bad_frame_put_header, get_msgid_put_header, get_bodylen_put_header, !wrapU_small by lia.
  rewrite (proj2 (Z.ltb_ge MAXMSG _)) by lia. cbn [orb]. rewrite put_put.
  set (x1 := set_head _ _ _).
  assert (Ei1 : input x1 = m.2 ++ rest) by exact Erx1.
  destruct (read_body (S n) c _ x1 (conns_put c x1 s)) as (y & Hr & Hh' & Hm' & _ & Hd & ->); [done| | |].
  { rewrite Ei1, zlen_app. cbn. lia. }
  { rewrite Ei1, zlen_app. lia. }
  destruct (Hd Hmv) as [Hin Hub]. change (msglen x1) with (zlen m.2) in *. rewrite Ei1 in *.
  rewrite ztake_app_exact in Hub. rewrite zdrop_all in Hin by (rewrite zlen_app; lia). rewrite put_put.
  rewrite (read_wait n c _ y (conns_put c y s)), put_put;
    unfold expect; rewrite Hh', ?Hm', ?Hin; [|rewrite zlen_nil; lia|lia].
  eexists. split; [reflexivity|]. split; [|done]. etrans; [|exact Hr]. done.
Qed.

(** A message that arrives in two pieces.  When a client with nothing pending sends a
    message of up to [MAXMSG] bytes and eight bytes of its body, or more, but not all,
    arrive with the header, an assertion fails: any client can stop the server. *)
Theorem split_message_aborts {B} `{EvBufferLaws B} c (s : server B) x id n part rx :
  conns s !! c = Some x → input x = [] → havehead x = false →
  0 ≤ id < 2 ^ 16 → 8 ≤ zlen part < n → n ≤ MAXMSG →
  msglen x ≤ HEADER_SIZE + zlen part → low_mark x ≤ HEADER_SIZE + zlen part →
  evbuffer_add (bev_in x) (put_header id n ++ part) = Some rx →
  (readable c (put_header id n ++ part) s).1 = Crash AssertFail.
Proof.
  intros Hx Hi Hh Hid Hp Hn Hml Hlow Ha.
  destruct (readable_eq c s x (put_header id n ++ part) rx Hx Ha) as [-> Ei];
    [rewrite Hi; cbn [app]; rewrite zlen_app, zlen_put_header; lia|].
  rewrite Hi in *. cbn [app] in *. set (k := length _). change (3 + k)%nat with (S (S (S k))).
  destruct (read_head (S (S k)) c _ (set_in rx x) (conns_put c _ s)) as (rx1 & Erx1 & ->);
    [done|rewrite Ei, zlen_app, zlen_put_header; cbn; lia|
     rewrite Ei, zlen_app, zlen_put_header; unfold HEADER_SIZE; lia|].
  rewrite Ei in *. change 8 with HEADER_SIZE in Erx1 |- *. rewrite ztake_put_header, zdrop_put_header in *.
  unfold MAXMSG in *.
  rewrite bad_frame_put_header, get_msgid_put_header, get_bodylen_put_header, !wrapU_small by lia.
  rewrite (proj2 (Z.ltb_ge 1024 _)) by lia. cbn [orb]. rewrite put_put.
  apply (read_split_body (S k) c _ (set_head id n (set_in rx1 (set_in rx x)))); [apply conns_put|done|].
  unfold input. cbn. rewrite Erx1. lia.
Qed.

(** ** Concrete runs *)

Section runs.
Import ChainBuf.

Definition empty (limit : Z) : chainbuf := Chain [] limit.

(** One client, which was greeted; its output has room for [limit] bytes. *)
Definition one_client (limit : Z) : server chainbuf :=
  (onconn 1 true true (Some (empty 4096, empty limit)) start).2.

Lemma linked_one (s : server chainbuf) c x :
  conns s = {[c := x]} → conn_first s = Some c → conn_prev x = None → conn_next x = None →
  linked s [c].
Proof.
  intros Hc Hf Hp Hn. split; [|done|apply NoDup_singleton|].
  - exists x. rewrite Hc. by rewrite lookup_singleton_eq.
  - intros d. rewrite Hc, list_elem_of_singleton. rewrite lookup_singleton_is_Some. done.
Qed.

Definition piece (n : nat) : list byte := replicate n Byte.x01.

Lemma clients_linked_witness :
  let S := (onping (one_client 4096)).2 in
  (∃ l, linked S l) ∧ map_Forall (λ _, good) (conns S).
Proof.
  apply clients_linked. eapply rtc_l; [|apply rtc_once, step_ping].
  - apply (step_conn 1 true true (Some (empty 4096, empty 4096))); [reflexivity|by intros ? ? [= <- <-]|].
    reflexivity.
  - vm_compute. reflexivity.
Defined.

(** A client whose greeting took all but ten bytes of what there was. *)
Lemma ping_outcomes_witness : (onping (one_client 22)).1 = Crash Undefined.
Proof.
  destruct (ping_outcomes (one_client 22) [1%nat]) as [(s' & E & _)|(c & x & _ & _ & E)].
  - eapply linked_one; vm_compute; reflexivity.
  - exfalso. apply (f_equal fst) in E. vm_compute in E. discriminate E.
  - exact E.
Defined.

Lemma onconn_outcomes_witness :
  (onconn 1 true true (Some (empty 4096, empty 10)) start).1 = Crash AssertFail.
Proof.
  pose proof (onconn_outcomes 1 true true (Some (empty 4096, empty 10)) start []) as Ho. cbn zeta in Ho.
  destruct Ho as [(s' & y & E & _)|[_ E]].
  - split; [done|done|constructor|]. intros c. cbn. rewrite lookup_empty.
    split; [by intros [? ?]|by intros ?%not_elem_of_nil].
  - reflexivity.
  - exfalso. apply (f_equal fst) in E. vm_compute in E. discriminate E.
  - exact E.
Defined.

Lemma message_read_witness :
  let m := (7, piece 20) in
  ∃ y, readable 1 (encode_msg m ++ encode_msg (8, piece 12)) (one_client 4096) =
      (Ret tt, put 1 y (one_client 4096)) ∧
    evbuffer_data (user_buf y) = piece 20 ∧ input y = [].
Proof.
  edestruct (message_read 1 (one_client 4096) (default (new_conn (empty 0) (empty 0) (empty 0))
    (conns (one_client 4096) !! 1%nat)) (7, piece 20) (encode_msg (8, piece 12))) as (y & E & _ & Eu & Ei & _).
  - by intros.
  - vm_compute. reflexivity.
  - reflexivity.
  - reflexivity.
  - split; vm_compute; [split; congruence|congruence].
  - vm_compute. split; congruence.
  - vm_compute. congruence.
  - vm_compute. congruence.
  - vm_compute. congruence.
  - vm_compute. reflexivity.
  - exists y. split; [exact E|split; [exact Eu|exact Ei]].
Defined.

Lemma split_message_aborts_witness :
  (readable 1 (put_header 7 20 ++ piece 8) (one_client 4096)).1 = Crash AssertFail.
Proof.
  eapply (split_message_aborts 1 (one_client 4096) (default (new_conn (empty 0) (empty 0) (empty 0))
    (conns (one_client 4096) !! 1%nat)) 7 20 (piece 8)).
  - vm_compute. reflexivity.
  - reflexivity.
  - reflexivity.
  - vm_compute. split; congruence.
  - vm_compute. split; congruence.
  - vm_compute. congruence.
  - vm_compute. congruence.
  - vm_compute. congruence.
  - vm_compute. reflexivity.
Defined.
End runs.

End Xbpm.
