(* ===== verification/SigWf.v ===== *)
(** * Waveform statistics

    sigApp/src/asubwf.c: the subroutine of an aSub record that computes mean, standard
    deviation, least and greatest value of the part of waveform A whose X (waveform B, or the
    index) is in a window.  The arrays are lists of the doubles in memory; a field that is
    not of type DOUBLE has whatever its memory holds. *)

From Stdlib Require Import Sorted.
From S2P Require Import Prelude PscBase Ieee DevCommon DevWf.

Module WfStats.

Definition CALC_ALARM : Z := 12.

(** [prec->dpvt]: the types were not checked yet, or were right, or wrong. *)
Inductive magic := Unchecked | MAGIC | BADMAGIC.

(** The fields of aSubRecord that [wf_stats] uses.  [a] and [b] have [nea] and [neb]
    elements; [c] and [d] are the doubles at the start of those arrays. *)
Record aSubRecord := ASub {
  a : list spec_float;
  b : list spec_float;
  c : spec_float;
  d : spec_float;
  fta : list ftype;
  ftva : list ftype;
  dpvt : magic;
  alarm : Z * Z;
  vala : spec_float; neva : Z;
  valb : spec_float; nevb : Z;
  valc : spec_float; nevc : Z;
  vald : spec_float; nevd : Z;
  vale : Z;
}.

Definition set_dpvt (v : magic) p : aSubRecord :=
  ASub (a p) (b p) (c p) (d p) (fta p) (ftva p) v (alarm p) (vala p) (neva p) (valb p) (nevb p)
    (valc p) (nevc p) (vald p) (nevd p) (vale p).
Definition set_alarm (v : Z * Z) p : aSubRecord :=
  ASub (a p) (b p) (c p) (d p) (fta p) (ftva p) (dpvt p) v (vala p) (neva p) (valb p) (nevb p)
    (valc p) (nevc p) (vald p) (nevd p) (vale p).
(** The values, one element each. *)
Definition set_vals (va vb vc vd : spec_float) (ve : Z) p : aSubRecord :=
  ASub (a p) (b p) (c p) (d p) (fta p) (ftva p) (dpvt p) (alarm p) va 1 vb 1 vc 1 vd 1 ve.

Notation dadd := (fadd binary64).
Notation dsub := (fsub binary64).
Notation dmul := (fmul binary64).
Notation ddiv := (fdiv binary64).
Notation dbl := (of_int binary64).

(** The local variables of the loop; [vmin] and [vmax] are not initialized. *)
Record stats := Stats { N : Z; vmin : spec_float; vmax : spec_float; sum : spec_float; sum2 : spec_float }.

Definition add_value (v : spec_float) (st : stats) : stats :=
  Stats (N st + 1)
    (if N st =? 0 then v else if SFltb v (vmin st) then v else vmin st)
    (if N st =? 0 then v else if SFltb (vmax st) v then v else vmax st)
    (dadd (sum st) v)
    (dadd (sum2 st) (dmul v v)).

(** The loop over the points (X, Y), from the first that is left. *)
Fixpoint scan (start stop : spec_float) (pts : list (spec_float * spec_float)) (st : stats) : stats :=
  match pts with
  | [] => st
  | (x, v) :: r =>
      if SFltb x start then scan start stop r st
      else if SFleb stop x then st
      else scan start stop r (add_value v st)
  end.

Definition usetime p : bool := 1 <? zlen (b p).

(** [len]: the number of points. *)
Definition len p : Z :=
  if usetime p && (zlen (b p) <? zlen (a p)) then zlen (b p) else zlen (a p).

(** Neither a start nor a width: "default to entire range". *)
Definition default_range p : bool := SFleb (c p) fzero && SFleb (d p) fzero.
Definition start p : spec_float := if default_range p then fzero else c p.
Definition width p : spec_float :=
  if default_range p then
    (if usetime p then List.last (b p) fzero else dbl (zlen (b p)))
  else d p.

Definition points p : list (spec_float * spec_float) :=
  zip (if usetime p then b p else (λ i, dbl (Z.of_nat i)) <$> seq 0 (length (a p))) (ztake (len p) (a p)).

Definition all_double (l : list ftype) : bool := forallb (λ t, bool_decide (t = menuFtypeDOUBLE)) l.

(** The type checks: of A to D, and of VALA and VALB. *)
Definition check_types : M aSubRecord bool :=
  p <- get ;;
  match dpvt p with
  | BADMAGIC => ret false
  | MAGIC => ret true
  | Unchecked =>
      if all_double (take 4 (fta p)) && all_double (take 2 (ftva p))
      then modify (set_dpvt MAGIC) ;;; ret true
      else modify (set_dpvt BADMAGIC) ;;; ret false
  end.

Section wf_stats.
Context `{EpicsRecord}.

Definition setSevr (st sv : Z) : M aSubRecord unit :=
  modify (λ p, set_alarm (recGblSetSevr st sv (alarm p)) p).

Definition wf_stats : M aSubRecord Z :=
  p <- get ;;
  ok <- check_types ;;
  if negb ok then ret 1
  else if len p =? 0 then setSevr READ_ALARM INVALID_ALARM ;;; ret 0
  else
    let st := scan (start p) (dadd (start p) (width p)) (points p) (Stats 0 fzero fzero fzero fzero) in
    if N st =? 0 then setSevr CALC_ALARM INVALID_ALARM ;;; ret 0
    else
      let mean := ddiv (sum st) (dbl (N st)) in
      let mean2 := ddiv (sum2 st) (dbl (N st)) in
      modify (set_vals mean (fsqrt binary64 (dsub mean2 (dmul mean mean))) (vmin st) (vmax st) (u32 (N st))) ;;;
      ret 0.
End wf_stats.

(** ** The window *)

(** The values whose X is in the window. *)
Definition in_window (lo hi : spec_float) (p : spec_float * spec_float) : bool :=
  SFleb lo p.1 && SFltb p.1 hi.
Definition window (lo hi : spec_float) (pts : list (spec_float * spec_float)) : list spec_float :=
  (filter (λ p, in_window lo hi p = true) pts).*2.

(** X does not decrease, and no X is a NaN. *)
Definition ordered (pts : list (spec_float * spec_float)) : Prop :=
  Forall (λ p, isnan p.1 = false) pts ∧ StronglySorted (λ p q, SFleb p.1 q.1 = true) pts.

Definition accumulate (vs : list spec_float) (st : stats) : stats := foldl (λ st v, add_value v st) st vs.

Lemma filter_none {A} (f : A → bool) (l : list A) :
  Forall (λ x, f x = false) l → filter (λ x, f x = true) l = [].
Proof. induction 1 as [|x l Hx _ IH]; [done|]. rewrite filter_cons, decide_False by congruence. done. Qed.

(** On ordered points the loop takes exactly the window. *)
Lemma scan_window lo hi pts st :
  ordered pts → isnan lo = false → isnan hi = false →
  scan lo hi pts st = accumulate (window lo hi pts) st.
Proof.
  intros [Hn Hs] Hlo Hhi. revert st. induction pts as [|[x v] pts IH]; intros st; [done|].
  apply list.Forall_cons in Hn as [Hx Hn]. apply StronglySorted_inv in Hs as [Hs Hle]. cbn [fst] in Hx.
  specialize (IH Hn Hs). unfold window in *. rewrite filter_cons. cbn [scan].
  rewrite (flt_fle x lo Hx Hlo).
  assert (Ew : in_window lo hi (x, v) = SFleb lo x && negb (SFleb hi x)).
  { unfold in_window. cbn [fst]. by rewrite (flt_fle x hi Hx Hhi). }
  destruct (SFleb lo x) eqn:E1; cbn [negb andb] in *; [|rewrite decide_False by congruence; apply IH].
  destruct (SFleb hi x) eqn:E2; cbn [negb] in *; [|rewrite decide_True by done; cbn; apply IH].
  rewrite decide_False by congruence.
  rewrite filter_none; [done|]. rewrite list.Forall_forall in *. intros q Hq.
  specialize (Hle q Hq). specialize (Hn q Hq). cbn [fst] in Hle.
  unfold in_window. rewrite (flt_fle q.1 hi Hn Hhi).
  rewrite (fle_trans hi x q.1) by done. by rewrite andb_false_r.
Qed.

(** What the loop has in [st] after taking the values [vs] (at least one). *)
Record summary (vs : list spec_float) (st : stats) : Prop := {
  sum_count : N st = zlen vs;
  sum_sum : sum st = foldl dadd fzero vs;
  sum_sum2 : sum2 st = foldl (λ s v, dadd s (dmul v v)) fzero vs;
  sum_min : vmin st ∈ vs ∧ ∀ v, v ∈ vs → SFleb (vmin st) v = true;
  sum_max : vmax st ∈ vs ∧ ∀ v, v ∈ vs → SFleb v (vmax st) = true;
}.

Lemma least_snoc (m v : spec_float) vs :
  isnan v = false → Forall (λ v, isnan v = false) vs →
  (m ∈ vs ∧ ∀ u, u ∈ vs → SFleb m u = true) →
  let m' := if SFltb v m then v else m in
  m' ∈ vs ++ [v] ∧ ∀ u, u ∈ vs ++ [v] → SFleb m' u = true.
Proof.
  intros Hv Hn [Hm Hle]. rewrite list.Forall_forall in Hn. pose proof (Hn m Hm) as Hnm. cbn zeta.
  rewrite (flt_fle v m Hv Hnm). destruct (SFleb m v) eqn:E; cbn [negb]; split.
  - apply elem_of_app. by left.
  - intros u [Hu|Hu]%elem_of_app; [by apply Hle|]. by apply list_elem_of_singleton in Hu as ->.
  - apply elem_of_app. right. by constructor.
  - assert (Hvm : SFleb v m = true).
    { apply fle_key; [done|done|]. rewrite <-not_true_iff_false, fle_key in E by done. unfold key_lt in *. lia. }
    intros u [Hu|Hu]%elem_of_app; [apply (fle_trans v m u); [done|done|by apply Hn|done|by apply Hle]|].
    apply list_elem_of_singleton in Hu as ->. by apply fle_refl.
Qed.

Lemma greatest_snoc (m v : spec_float) vs :
  isnan v = false → Forall (λ v, isnan v = false) vs →
  (m ∈ vs ∧ ∀ u, u ∈ vs → SFleb u m = true) →
  let m' := if SFltb m v then v else m in
  m' ∈ vs ++ [v] ∧ ∀ u, u ∈ vs ++ [v] → SFleb u m' = true.
Proof.
  intros Hv Hn [Hm Hle]. rewrite list.Forall_forall in Hn. pose proof (Hn m Hm) as Hnm. cbn zeta.
  rewrite (flt_fle m v Hnm Hv). destruct (SFleb v m) eqn:E; cbn [negb]; split.
  - apply elem_of_app. by left.
  - intros u [Hu|Hu]%elem_of_app; [by apply Hle|]. by apply list_elem_of_singleton in Hu as ->.
  - apply elem_of_app. right. by constructor.
  - assert (Hvm : SFleb m v = true).
    { apply fle_key; [done|done|]. rewrite <-not_true_iff_false, fle_key in E by done. unfold key_lt in *. lia. }
    intros u [Hu|Hu]%elem_of_app; [apply (fle_trans u m v); [by apply Hn|done|done|by apply Hle|done]|].
    apply list_elem_of_singleton in Hu as ->. by apply fle_refl.
Qed.

Definition no_values : stats := Stats 0 fzero fzero fzero fzero.

Lemma accumulate_snoc vs v st : accumulate (vs ++ [v]) st = add_value v (accumulate vs st).
Proof. unfold accumulate. by rewrite foldl_app. Qed.

Lemma accumulate_summary vs :
  vs ≠ [] → Forall (λ v, isnan v = false) vs → summary vs (accumulate vs no_values).
Proof.
  induction vs as [|v vs IH] using rev_ind; [done|]. intros _ Hn.
  apply Forall_app in Hn as [Hn Hv]. rewrite list.Forall_singleton in Hv. rewrite accumulate_snoc.
  destruct (decide (vs = [])) as [->|Hne].
  { split; [done|done|done|..]; change ([] ++ [v]) with [v]; (split; [by apply list_elem_of_singleton|]);
      intros w Hw; apply list_elem_of_singleton in Hw as ->; exact (fle_refl v Hv). }
  destruct IH as [Hc Hs Hs2 Hmi Hma]; [done|done|].
  assert (Hz : (N (accumulate vs no_values) =? 0) = false).
  { apply Z.eqb_neq. rewrite Hc. intros Hz. by apply zlen_0_nil in Hz. }
  split; unfold add_value; cbn [N vmin vmax sum sum2]; rewrite ?Hz.
  - rewrite Hc, zlen_app. done.
  - by rewrite foldl_app, Hs.
  - by rewrite foldl_app, Hs2.
  - by apply least_snoc.
  - by apply greatest_snoc.
Qed.

(** Without X the points are ordered by their index. *)
Lemma index_ordered (l : list spec_float) k n :
  Z.of_nat (k + n) ≤ 2 ^ 53 → ordered (zip ((λ i, dbl (Z.of_nat i)) <$> seq k n) l).
Proof.
  revert k l. induction n as [|n IH]; intros k l Hk; [by split; [|constructor]|].
  destruct l as [|v l]; [by split; [|constructor]|].
  destruct (IH (S k) l) as [Hn Hs]; [lia|]. cbn [seq fmap list_fmap zip_with]. split.
  - apply list.Forall_cons. split; [cbn [fst]; apply of_int_not_nan; lia|done].
  - constructor; [done|]. apply list.Forall_forall. intros [x u] Hin. cbn [fst].
    apply elem_of_zip_l in Hin. apply list_elem_of_fmap in Hin as (i & -> & Hi).
    apply elem_of_seq in Hi. apply fle_of_int; lia.
Qed.

(** X in order, and no more points than a [double] counts. *)
Definition sane p : Prop :=
  (if usetime p then ordered (points p) else zlen (a p) ≤ 2 ^ 53) ∧
  isnan (start p) = false ∧ isnan (dadd (start p) (width p)) = false.

Lemma sane_ordered p : sane p → ordered (points p).
Proof.
  intros [Ho _]. unfold points in *. destruct (usetime p); [done|]. apply index_ordered. unfold zlen in Ho. lia.
Qed.

Definition selected p : list spec_float := window (start p) (dadd (start p) (width p)) (points p).
Definition types_right p : bool :=
  match dpvt p with
  | BADMAGIC => false
  | MAGIC => true
  | Unchecked => all_double (take 4 (fta p)) && all_double (take 2 (ftva p))
  end.

Lemma check_types_eq p :
  check_types p = (Ret (types_right p), set_dpvt (if types_right p then MAGIC else BADMAGIC) p).
Proof.
  unfold check_types, types_right. mstep. destruct (dpvt p) eqn:E.
  - by destruct (all_double _ && all_double _).
  - rewrite <-E. by destruct p.
  - rewrite <-E. by destruct p.
Qed.

(** The end of the default range is not before the last X. *)
Lemma below_sum y : SFltb y (dadd fzero y) = false.
Proof.
  destruct y as [[]|[]| |s m e]; try reflexivity.
  change (dadd fzero (S754_finite s m e)) with (S754_finite s m e). unfold SFltb. pose proof (compare_key (S754_finite s m e) (S754_finite s m e)) as Hk.
  destruct (SFcompare _ _) as [[]|]; try done. unfold key_lt in Hk. lia.
Qed.

Lemma beyond_index n i (v : spec_float) :
  0 ≤ n ≤ 1 → (Z.to_nat n ≤ i)%nat → Z.of_nat i < 2 ^ 53 →
  in_window fzero (dadd fzero (dbl n)) (dbl (Z.of_nat i), v) = false.
Proof.
  intros Hn Hi Hb. assert (E : dadd fzero (dbl n) = dbl n) by (assert (n = 0 ∨ n = 1) as [-> | ->] by lia; done).
  unfold in_window. cbn [fst]. rewrite E. assert (isnan (dbl (Z.of_nat i)) = false) by (apply of_int_not_nan; lia).
  assert (isnan (dbl n) = false) by (apply of_int_not_nan; lia). rewrite flt_fle by done. rewrite fle_of_int by lia. apply andb_false_r.
Qed.

Lemma window_beyond n k m l :
  0 ≤ n ≤ 1 → (Z.to_nat n ≤ k)%nat → Z.of_nat (k + m) ≤ 2 ^ 53 →
  filter (λ p, in_window fzero (dadd fzero (dbl n)) p = true) (zip ((λ i, dbl (Z.of_nat i)) <$> seq k m) l) = [].
Proof.
  intros Hn Hk Hm. apply filter_none, list.Forall_forall. intros [x v] Hin. apply elem_of_zip_l in Hin.
  apply list_elem_of_fmap in Hin as (i & -> & Hi). apply elem_of_seq in Hi. apply beyond_index; lia.
Qed.

(** ** Properties *)

(** The statistics.  With a wrong field type the subroutine returns 1, now and ever
    after.  Otherwise it returns 0: without points it raises READ/INVALID, without points in
    the window CALC/INVALID.  Else, when X does not decrease and there are no NaNs, VALA is
    the mean of exactly the values whose X is in the window, VALB the root of mean square
    less squared mean, VALC and VALD are the least and the greatest of these values, and
    VALE is their number. *)
Theorem wf_stats_outcomes `{EpicsRecord} p :
  sane p → Forall (λ v, isnan v = false) (selected p) →
  let vs := selected p in
  ∃ p', wf_stats p = (Ret (if types_right p then 0 else 1), p') ∧
    if negb (types_right p) then p' = set_dpvt BADMAGIC p
    else
      let p1 := set_dpvt MAGIC p in
      if len p =? 0 then p' = set_alarm (recGblSetSevr READ_ALARM INVALID_ALARM (alarm p)) p1
      else if zlen vs =? 0 then p' = set_alarm (recGblSetSevr CALC_ALARM INVALID_ALARM (alarm p)) p1
      else ∃ st, summary vs st ∧
        let mean := ddiv (sum st) (dbl (zlen vs)) in
        let meansq := ddiv (sum2 st) (dbl (zlen vs)) in
        p' = set_vals mean (fsqrt binary64 (dsub meansq (dmul mean mean))) (vmin st) (vmax st)
               (u32 (zlen vs)) p1.
Proof.
  intros Hsane Hn vs. pose proof (sane_ordered p Hsane) as Ho. destruct Hsane as (_ & Hlo & Hhi).
  unfold wf_stats. mstep. rewrite (bind_ret _ _ _ _ _ (check_types_eq p)).
  destruct (types_right p); cbn [negb]; [|by eexists].
  destruct (len p =? 0); [by eexists; split; [by mstep|]|].
  rewrite scan_window by done. fold (selected p). fold vs. fold no_values.
  assert (Hc : N (accumulate vs no_values) = zlen vs).
  { destruct vs as [|v vs'] eqn:E; [done|]. rewrite <-E in *. apply accumulate_summary; [by rewrite E|done]. }
  rewrite Hc. destruct (zlen vs =? 0) eqn:Hz; [by eexists; split; [by mstep|]|].
  eexists. split; [by mstep|]. exists (accumulate vs no_values). split; [|done].
  apply accumulate_summary; [|done]. intros E. by rewrite E in Hz.
Qed.

(** The default range is not the entire range.  Without start and width, when there are
    X values, no more than Y values, at least the last point is left out; without X values
    no more than [neb] points are counted, that is none or one, however many Y values there
    are. *)
Theorem default_range_not_entire p :
  default_range p = true → sane p →
  if usetime p then zlen (b p) ≤ zlen (a p) → zlen (selected p) < zlen (b p)
  else zlen (selected p) ≤ zlen (b p) ≤ 1.
Proof.
  intros Hd Hs. unfold selected, window, points, start, width, len. rewrite Hd.
  destruct (usetime p) eqn:Hu; unfold usetime in Hu; bool_to_prop.
  - intros Hl. set (l := ztake _ (a p)). rewrite zlen_fmap.
    assert (Hll : length l = length (b p)).
    { assert (zlen l = zlen (b p)); [|unfold zlen in *; lia]. unfold l. rewrite zlen_ztake.
      pose proof (zlen_nonneg (b p)). destruct (Z.ltb_spec (zlen (b p)) (zlen (a p))); cbn; lia. }
    destruct (exists_last (l := b p)) as (bs & y & Eb); [by intros E; rewrite E in Hu|].
    destruct (exists_last (l := l)) as (vs & v & El).
    { intros E. rewrite E, Eb, length_app in Hll. cbn in Hll. lia. }
    assert (Hlen : length bs = length vs) by (rewrite Eb, El, !length_app in Hll; cbn in Hll; lia).
    assert (Hz : length (zip (b p) l) = length (b p)) by (rewrite length_zip; lia).
    unfold zlen. rewrite <-Hz. apply Nat2Z.inj_lt. apply (length_filter_lt _ _ (y, v)).
    + rewrite Eb, El. rewrite zip_with_app by done. apply elem_of_app. right. by constructor.
    + unfold in_window. cbn [fst]. rewrite Eb, List.last_last, below_sum. by rewrite andb_false_r.
  - destruct Hs as [Ha _]. unfold usetime in Ha. rewrite (proj2 (Z.ltb_ge 1 _)) in Ha by done. cbn [andb].
    rewrite ztake_all by lia. pose proof (zlen_nonneg (b p)). unfold zlen in Ha.
    split; [|done]. rewrite zlen_fmap. destruct (Z.eq_dec (zlen (b p)) 0) as [->|Hne].
    + rewrite window_beyond by lia. done.
    + assert (zlen (b p) = 1) as -> by lia. destruct (a p) as [|v l]; [done|]. cbn [length seq fmap list_fmap zip_with].
      rewrite filter_cons, window_beyond by (cbn in Ha; lia). case_decide; by vm_compute.
Qed.

(** ** Concrete runs *)

Definition sample (ys xs : list spec_float) (lo w : spec_float) : aSubRecord :=
  ASub ys xs lo w (replicate 4 menuFtypeDOUBLE) (replicate 4 menuFtypeDOUBLE) Unchecked (0, 0)
    fzero 0 fzero 0 fzero 0 fzero 0 0.

(** Y = 10, 20, 30, 40 at X = 0, 1, 2, 3, and the window [1, 3). *)
Definition four : aSubRecord := sample (dbl <$> [10; 20; 30; 40]) (dbl <$> [0; 1; 2; 3]) (dbl 1) (dbl 2).

Lemma four_ordered n : ordered (zip (dbl <$> [0; 1; 2; 3]) (dbl <$> n)).
Proof.
  assert (Ho : Forall (λ x, isnan x = false) (dbl <$> [0; 1; 2; 3]) ∧
    StronglySorted (λ x y, SFleb x y = true) (dbl <$> [0; 1; 2; 3])).
  { cbn. split; repeat constructor. }
  revert Ho. generalize (dbl <$> [0; 1; 2; 3]). intros xs [H1 H2]. generalize (dbl <$> n).
  induction xs as [|x xs IH]; intros l; [by split; [|constructor]|].
  destruct l as [|v l]; [by split; [|constructor]|].
  apply list.Forall_cons in H1 as [Hx H1]. apply StronglySorted_inv in H2 as [H2 Hle].
  destruct (IH H1 H2 l) as [I1 I2]. cbn [zip_with]. split; [by constructor|]. constructor; [done|].
  apply list.Forall_forall. intros [y w] Hin. apply elem_of_zip_l in Hin.
  rewrite list.Forall_forall in Hle. by apply Hle.
Qed.

Lemma wf_stats_outcomes_witness :
  let _ := base_record in
  ∃ p', wf_stats four = (Ret 0, p') ∧ vala p' = dbl 25 ∧ valc p' = dbl 20 ∧ vald p' = dbl 30 ∧ vale p' = 2.
Proof.
  destruct (@wf_stats_outcomes base_record four) as (p' & E & Hr).
  - split; [apply (four_ordered [10; 20; 30; 40])|by vm_compute].
  - vm_compute. repeat constructor.
  - exists p'. split; [exact E|]. apply (f_equal snd) in E. cbn [snd] in E. rewrite <-E.
    vm_compute. repeat split.
Defined.

(** All of four points wanted, three counted; and one, without X. *)
Lemma default_range_not_entire_witness :
  let p := sample (dbl <$> [10; 20; 30; 40]) (dbl <$> [0; 1; 2; 3]) fzero fzero in
  zlen (selected p) < zlen (b p).
Proof.
  intros p. assert (Hu : usetime p = true) by reflexivity.
  assert (Hp : sane p) by (split; [apply (four_ordered [10; 20; 30; 40])|by vm_compute]).
  pose proof (default_range_not_entire p eq_refl Hp) as Ht. rewrite Hu in Ht. apply Ht.
  vm_compute. congruence.
Defined.

Example one_without_x :
  selected (sample (dbl <$> [10; 20; 30; 40]) [fzero] fzero fzero) = [dbl 10].
Proof. vm_compute. reflexivity. Qed.
End WfStats.
