(* ===== verification/SigPsd.v ===== *)
(** * Power spectrum

    sigApp/src/fftwrap.h and fftwrap.cpp: class [PSDCalc], the power spectral density of an
    array, averaged over blocks of [nfft] samples.  FFTW, the sine and the addresses of
    arrays are not part of the program: the class [Fftw] has what it asks of them. *)

From S2P Require Import Prelude Ieee DevCommon.

Module Psd.

Notation dadd := (fadd binary64).
Notation dsub := (fsub binary64).
Notation dmul := (fmul binary64).
Notation ddiv := (fdiv binary64).
Notation dsqrt := (fsqrt binary64).
Notation dbl := (of_int binary64).

(** [fftw_plan_dft_r2c_1d(..., FFTW_MEASURE)] may fail, and overwrites the array it plans
    for; executing the plan leaves the input alone and gives the non-redundant half. *)
Class Fftw := {
  fftw_measure : list spec_float → option (list spec_float);
  fftw_execute : list spec_float → list (spec_float * spec_float);
  sin : spec_float → spec_float;
}.

Class FftwLaws `{Fftw} : Prop := {
  measure_length l l' : fftw_measure l = Some l' → length l' = length l;
  execute_length l : length (fftw_execute l) = (length l / 2 + 1)%nat;
}.

(** [PSDCalc::Window]; the constructor leaves it as it was in memory. *)
Inductive window_t := NoWindow | Hann | OtherWindow (z : Z).
#[global] Instance window_eq_decision : EqDecision window_t.
Proof. solve_decision. Defined.

(** A plan for [ntime] samples at an offset of the input array at address [paddr]. *)
Record plan := Plan { ptime : Z; poff : Z; paddr : Z }.

(** [struct PSDCalc]; [input_at] is the address of the input array, which may change with
    its size. *)
Record PSDCalc := MkPSD {
  windowtype : window_t;
  window : list spec_float;
  outint : list spec_float;
  input : list spec_float;
  input_at : Z;
  output : list spec_float;
  plans : list plan;
  middle : list (list (spec_float * spec_float));
  fscale : list spec_float;
  totalpowertime : spec_float;
  totalpowerfreq : spec_float;
  nfft : Z;
  fsamp : spec_float;
  mult : spec_float;
  replan : bool;
  newval : bool;
}.

Definition PSDCalc_new (w : window_t) : PSDCalc :=
  MkPSD w [] [] [] 0 [] [] [] [] fzero fzero 0 fzero fzero true true.

Section setters.
Implicit Types s : PSDCalc.
Definition set_windowtype v s := MkPSD v (window s) (outint s) (input s) (input_at s) (output s)
  (plans s) (middle s) (fscale s) (totalpowertime s) (totalpowerfreq s) (nfft s) (fsamp s) (mult s)
  (replan s) (newval s).
Definition set_window v s := MkPSD (windowtype s) v (outint s) (input s) (input_at s) (output s)
  (plans s) (middle s) (fscale s) (totalpowertime s) (totalpowerfreq s) (nfft s) (fsamp s) (mult s)
  (replan s) (newval s).
Definition set_outint v s := MkPSD (windowtype s) (window s) v (input s) (input_at s) (output s)
  (plans s) (middle s) (fscale s) (totalpowertime s) (totalpowerfreq s) (nfft s) (fsamp s) (mult s)
  (replan s) (newval s).
Definition set_input_array v a s := MkPSD (windowtype s) (window s) (outint s) v a (output s)
  (plans s) (middle s) (fscale s) (totalpowertime s) (totalpowerfreq s) (nfft s) (fsamp s) (mult s)
  (replan s) (newval s).
Definition set_output v s := MkPSD (windowtype s) (window s) (outint s) (input s) (input_at s) v
  (plans s) (middle s) (fscale s) (totalpowertime s) (totalpowerfreq s) (nfft s) (fsamp s) (mult s)
  (replan s) (newval s).
Definition set_plans v s := MkPSD (windowtype s) (window s) (outint s) (input s) (input_at s) (output s)
  v (middle s) (fscale s) (totalpowertime s) (totalpowerfreq s) (nfft s) (fsamp s) (mult s)
  (replan s) (newval s).
Definition set_middle v s := MkPSD (windowtype s) (window s) (outint s) (input s) (input_at s) (output s)
  (plans s) v (fscale s) (totalpowertime s) (totalpowerfreq s) (nfft s) (fsamp s) (mult s)
  (replan s) (newval s).
Definition set_fscale v s := MkPSD (windowtype s) (window s) (outint s) (input s) (input_at s) (output s)
  (plans s) (middle s) v (totalpowertime s) (totalpowerfreq s) (nfft s) (fsamp s) (mult s)
  (replan s) (newval s).
Definition set_totals t f s := MkPSD (windowtype s) (window s) (outint s) (input s) (input_at s) (output s)
  (plans s) (middle s) (fscale s) t f (nfft s) (fsamp s) (mult s) (replan s) (newval s).
Definition put_nfft v s := MkPSD (windowtype s) (window s) (outint s) (input s) (input_at s) (output s)
  (plans s) (middle s) (fscale s) (totalpowertime s) (totalpowerfreq s) v (fsamp s) (mult s)
  (replan s) (newval s).
Definition put_fsamp v s := MkPSD (windowtype s) (window s) (outint s) (input s) (input_at s) (output s)
  (plans s) (middle s) (fscale s) (totalpowertime s) (totalpowerfreq s) (nfft s) v (mult s)
  (replan s) (newval s).
Definition put_mult v s := MkPSD (windowtype s) (window s) (outint s) (input s) (input_at s) (output s)
  (plans s) (middle s) (fscale s) (totalpowertime s) (totalpowerfreq s) (nfft s) (fsamp s) v
  (replan s) (newval s).
Definition set_replan v s := MkPSD (windowtype s) (window s) (outint s) (input s) (input_at s) (output s)
  (plans s) (middle s) (fscale s) (totalpowertime s) (totalpowerfreq s) (nfft s) (fsamp s) (mult s)
  v (newval s).
Definition set_newval v s := MkPSD (windowtype s) (window s) (outint s) (input s) (input_at s) (output s)
  (plans s) (middle s) (fscale s) (totalpowertime s) (totalpowerfreq s) (nfft s) (fsamp s) (mult s)
  (replan s) v.
End setters.

(** ** Parameters *)

Definition set_nfft (n : Z) : M PSDCalc bool :=
  s <- get ;;
  let changed := negb (n =? nfft s) in
  when changed (modify (put_nfft n) ;;; modify (set_replan true)) ;;;
  ret changed.

Definition set_fsamp (f : spec_float) : M PSDCalc bool :=
  s <- get ;;
  let changed := negb (SFeqb (fsamp s) f) in
  when changed (modify (put_fsamp f) ;;; modify (set_replan true)) ;;;
  ret changed.

(** [addr]: where [resize] puts the array when its size changes. *)
Definition set_input (addr : Z) (p : list spec_float) (m : spec_float) : M PSDCalc bool :=
  s <- get ;;
  let m := if SFeqb m fzero then fone else m in
  let n := zlen p in
  let changed := negb (n =? zlen (input s)) || negb (SFeqb m (mult s)) in
  when changed
    (modify (λ s, set_input_array (zresize fzero n (input s))
                    (if n =? zlen (input s) then input_at s else addr) s) ;;;
     modify (put_mult m) ;;;
     modify (set_replan true)) ;;;
  modify (λ s, set_input_array (zblit 0 p (input s)) (input_at s) s) ;;;
  modify (set_newval true) ;;;
  ret changed.

(** ** The calculation *)

Section calculate.
Context `{Fftw}.

(** [static double PI] *)
Definition PI : spec_float := of_bits binary64 0x400921fb54442d18.

(** The window function, for all samples of the input. *)
Definition make_window (w : window_t) (ntime n : Z) : list spec_float :=
  match w with
  | Hann =>
      let fact := ddiv PI (dbl (ntime - 1)) in
      (λ i, let temp := sin (dmul fact (dbl (Z.of_nat i))) in dmul temp temp) <$> seq 0 (Z.to_nat n)
  | _ => replicate (Z.to_nat n) fone
  end.

(** Mean, deviation and window, in place; what is summed up on the way. *)
Definition deviation (mean m x : spec_float) : spec_float := ddiv (dsub x mean) m.

Definition prepare : M PSDCalc unit :=
  s <- get ;;
  let n := dbl (zlen (input s)) in
  let mean := ddiv (foldl dadd fzero (input s)) n in
  let devs := deviation mean (mult s) <$> input s in
  (if zlen (window s) <? zlen (input s) then abort OutOfBounds else ret tt) ;;;
  modify (set_input_array (zip_with dmul devs (window s)) (input_at s)) ;;;
  modify (set_totals (ddiv (foldl (λ t d, dadd t (dmul d d)) fzero devs) n) (totalpowerfreq s)) ;;;
  modify (set_newval false).

(** The loop that makes the plans: each overwrites its part of the input. *)
Fixpoint make_plans (ntime : Z) (idx : list Z) : M PSDCalc unit :=
  match idx with
  | [] => ret tt
  | i :: idx' =>
      s <- get ;;
      match fftw_measure (zslice (i * ntime) ntime (input s)) with
      | None => throw BadAlloc
      | Some l =>
          modify (λ s, set_input_array (zblit (i * ntime) l (input s)) (input_at s) s) ;;;
          modify (λ s, set_plans (<[Z.to_nat i := Plan ntime (i * ntime) (input_at s)]> (plans s)) s) ;;;
          make_plans ntime idx'
      end
  end.

Definition bins (nbins : Z) : list Z := Z.of_nat <$> seq 0 (Z.to_nat nbins).

(** What [Plan()] holds before it is assigned. *)
Definition no_plan : plan := Plan 0 0 (-1).

Definition reallocate (ntime nfreq nbins : Z) : M PSDCalc unit :=
  modify (set_plans (replicate (Z.to_nat nbins) no_plan)) ;;;
  modify (λ s, set_middle ((λ l, zresize (fzero, fzero) nfreq l) <$> zresize [] nbins (middle s)) s) ;;;
  modify (λ s, set_output (zresize fzero (nfreq - 1) (output s)) s) ;;;
  modify (λ s, set_outint (zresize fzero (nfreq - 1) (outint s)) s) ;;;
  modify (λ s, set_fscale ((λ i, dmul (dbl (Z.of_nat i + 1)) (ddiv (fsamp s) (dbl ntime))) <$>
                             seq 0 (Z.to_nat (nfreq - 1))) s) ;;;
  make_plans ntime (bins nbins) ;;;
  modify (set_replan false).

(** [fftw_execute(plans[i])]: undefined when the plan is for an array that is gone. *)
Fixpoint execute (idx : list Z) : M PSDCalc unit :=
  match idx with
  | [] => ret tt
  | i :: idx' =>
      s <- get ;;
      match plans s !! Z.to_nat i with
      | None => abort OutOfBounds
      | Some p =>
          if negb (paddr p =? input_at s) || (zlen (input s) <? poff p + ptime p) then abort Undefined
          else
            modify (λ s, set_middle (<[Z.to_nat i := fftw_execute (zslice (poff p) (ptime p) (input s))]>
                                       (middle s)) s) ;;;
            execute idx'
      end
  end.

(** |z|^2 as the loop computes it, and the sum by frequency, from 1 on. *)
Definition power (z : spec_float * spec_float) : spec_float := dadd (dmul z.1 z.1) (dmul z.2 z.2).
Definition sum_bins (mids : list (list (spec_float * spec_float))) (out : list spec_float) : list spec_float :=
  foldl (λ out mid, zip_with dadd out (power <$> tail mid)) out mids.

(** The last loop: scale, and integrate. *)
Fixpoint integrate (factor fs : spec_float) (out : list spec_float) (tot : spec_float)
    : list spec_float * list spec_float * spec_float :=
  match out with
  | [] => ([], [], tot)
  | o :: out' =>
      let temp := dmul o factor in
      let tot' := dadd tot temp in
      let '(os, ints, t) := integrate factor fs out' tot' in
      (temp :: os, dmul (dsqrt (ddiv tot' fs)) (dbl 1000) :: ints, t)
  end.

(** The second half of [calculate]: transforms, sum, scale. *)
Definition evaluate (ntime nfreq nbins : Z) : M PSDCalc unit :=
  s <- get ;;
  assert_ (zlen (plans s) =? nbins) ;;;
  assert_ (zlen (middle s) =? nbins) ;;;
  assert_ (zlen (output s) =? nfreq - 1) ;;;
  execute (bins nbins) ;;;
  s <- get ;;
  let out := sum_bins (middle s) (replicate (length (output s)) fzero) in
  let factor := ddiv (dbl 2) (dbl (u64 (ntime * ntime * nbins))) in
  let '(os, ints, tot) := integrate factor (fsamp s) out fzero in
  modify (set_output os) ;;;
  modify (set_outint ints) ;;;
  modify (set_totals (totalpowertime s) tot).

Definition calculate : M PSDCalc unit :=
  s <- get ;;
  if (zlen (input s) =? 0) || (nfft s =? 0) then ret tt
  else
    let ntime := Z.min (nfft s) (zlen (input s)) in
    let nfreq := ntime / 2 + 1 in
    let nbins := zlen (input s) / ntime in
    assert_ (0 <? ntime) ;;;
    assert_ (0 <? nfreq) ;;;
    assert_ (0 <? nbins) ;;;
    assert_ (nbins * ntime <=? zlen (input s)) ;;;
    when (replan s) (modify (set_window (make_window (windowtype s) ntime (zlen (input s))))) ;;;
    when (newval s) prepare ;;;
    when (replan s) (reallocate ntime nfreq nbins) ;;;
    evaluate ntime nfreq nbins.
End calculate.

(** ** What [calculate] works on *)

Section shape.
Context `{FftwLaws}.
Implicit Types s : PSDCalc.

Definition ntime s : Z := Z.min (nfft s) (zlen (input s)).
Definition nfreq s : Z := ntime s / 2 + 1.
Definition nbins s : Z := zlen (input s) / ntime s.

(** The frequencies that the spectrum of blocks of [nt] samples is for. *)
Definition frequencies (fs : spec_float) (nt : Z) : list spec_float :=
  (λ i, dmul (dbl (Z.of_nat i + 1)) (ddiv fs (dbl nt))) <$> seq 0 (Z.to_nat (nt / 2 + 1 - 1)).

(** The plans, the buffers and the window fit the input. *)
Record planned s : Prop := {
  pl_input : 0 < zlen (input s);
  pl_nfft : 0 < nfft s;
  pl_window : zlen (window s) = zlen (input s);
  pl_plans : zlen (plans s) = nbins s;
  pl_plan i : (i < Z.to_nat (nbins s))%nat →
    plans s !! i = Some (Plan (ntime s) (Z.of_nat i * ntime s) (input_at s));
  pl_middle : zlen (middle s) = nbins s;
  pl_output : zlen (output s) = nfreq s - 1;
  pl_outint : zlen (outint s) = nfreq s - 1;
  pl_fscale : fscale s = frequencies (fsamp s) (ntime s);
}.

(** Whenever no new plan is due, the one there is fits. *)
Record inv s : Prop := {
  inv_nfft : 0 ≤ nfft s;
  inv_planned : replan s = false → planned s;
}.

Lemma bins_shape s :
  0 < zlen (input s) → 0 < nfft s →
  0 < ntime s ≤ zlen (input s) ∧ 0 < nbins s ∧ nbins s * ntime s ≤ zlen (input s) ∧ 0 ≤ nfreq s - 1.
Proof.
  intros Hi Hn. unfold nfreq, nbins. assert (Ht : 0 < ntime s ≤ zlen (input s)) by (unfold ntime; lia).
  pose proof (Z.div_str_pos (zlen (input s)) (ntime s) ltac:(lia)).
  pose proof (Z.mul_div_le (zlen (input s)) (ntime s) ltac:(lia)).
  pose proof (Z.div_pos (ntime s) 2 ltac:(lia) ltac:(lia)). lia.
Qed.

Lemma bin_in s i :
  0 < zlen (input s) → 0 < nfft s → (i < Z.to_nat (nbins s))%nat →
  0 ≤ Z.of_nat i * ntime s ∧ Z.of_nat i * ntime s + ntime s ≤ zlen (input s).
Proof. intros Hi Hn Hb. destruct (bins_shape s Hi Hn) as ([? ?] & ? & ? & ?). nia. Qed.

Lemma inv_new w : inv (PSDCalc_new w).
Proof. by split. Qed.

Lemma inv_replan s : 0 ≤ nfft s → replan s = true → inv s.
Proof. intros Hn Hr. split; [done|congruence]. Qed.

Lemma set_nfft_inv n s : inv s → 0 ≤ n → inv (set_nfft n s).2.
Proof.
  intros Hi Hn. unfold set_nfft. mstep. destruct (n =? nfft s) eqn:E; cbn [negb when].
  - by mstep.
  - repeat mstep. by apply inv_replan.
Qed.

Lemma set_fsamp_inv f s : inv s → inv (set_fsamp f s).2.
Proof.
  intros Hi. unfold set_fsamp. mstep. destruct (SFeqb _ _); cbn [negb when]; [by mstep|].
  repeat mstep. apply inv_replan; [apply Hi|done].
Qed.

Lemma set_input_inv a p m s : inv s → inv (set_input a p m s).2.
Proof.
  intros Hi. unfold set_input. mstep. set (m' := if SFeqb m fzero then fone else m).
  destruct (zlen p =? zlen (input s)) eqn:El; cbn [negb orb].
  - apply Z.eqb_eq in El. destruct (SFeqb m' (mult s)); cbn [negb when].
    + repeat mstep. destruct Hi as [Hn Hp]. split; [done|]. cbn. intros Hr. destruct (Hp Hr) as [? ? ? ? Hpl ? ? ? ?].
      assert (El' : zlen (zblit 0 p (input s)) = zlen (input s)) by (rewrite zblit_all by done; done).
      split; unfold nbins, nfreq, ntime in *; cbn; rewrite ?El'; done.
    + repeat mstep. apply inv_replan; [apply Hi|done].
  - cbn [when]. repeat mstep. apply inv_replan; [apply Hi|done].
Qed.

(** The input is what was given. *)
Lemma set_input_input a p m s : input (set_input a p m s).2 = p.
Proof.
  unfold set_input. mstep. set (m' := if SFeqb m fzero then fone else m).
  assert (Hr : zlen (zresize fzero (zlen p) (input s)) = zlen p) by (apply zlen_zresize, zlen_nonneg).
  destruct (zlen p =? zlen (input s)) eqn:El; cbn [negb orb].
  - apply Z.eqb_eq in El. destruct (SFeqb m' (mult s)); cbn [negb when]; repeat mstep; cbn;
      by rewrite zblit_all by congruence.
  - cbn [when]. repeat mstep. cbn. by rewrite zblit_all by done.
Qed.

(** ** The parts of [calculate] *)

Lemma length_make_window w nt n : 0 ≤ n → zlen (make_window w nt n) = n.
Proof. intros Hn. unfold zlen, make_window. destruct w; rewrite ?length_fmap, ?length_seq, ?length_replicate; lia. Qed.

(** The input after [prepare]. *)
Definition windowed s : list spec_float :=
  zip_with dmul (deviation (ddiv (foldl dadd fzero (input s)) (dbl (zlen (input s)))) (mult s) <$> input s) (window s).

Definition power_in_time s : spec_float :=
  ddiv (foldl (λ t d, dadd t (dmul d d)) fzero
          (deviation (ddiv (foldl dadd fzero (input s)) (dbl (zlen (input s)))) (mult s) <$> input s))
    (dbl (zlen (input s))).

Lemma prepare_eq s :
  zlen (window s) = zlen (input s) →
  prepare s = (Ret tt, set_newval false (set_totals (power_in_time s) (totalpowerfreq s)
                         (set_input_array (windowed s) (input_at s) s))) ∧
  zlen (windowed s) = zlen (input s).
Proof.
  intros Hw. unfold prepare. mstep. rewrite (proj2 (Z.ltb_ge _ _)) by lia. split; [done|].
  unfold windowed, zlen in *. rewrite length_zip_with, length_fmap. lia.
Qed.

(** What planning leaves in the input. *)
Fixpoint measure_all (nt : Z) (idx : list Z) (inp : list spec_float) : option (list spec_float) :=
  match idx with
  | [] => Some inp
  | i :: idx' =>
      l ← fftw_measure (zslice (i * nt) nt inp);
      measure_all nt idx' (zblit (i * nt) l inp)
  end.

Definition planning (nt : Z) (idx : list Z) (a : Z) (ps : list plan) : list plan :=
  foldl (λ ps i, <[Z.to_nat i := Plan nt (i * nt) a]> ps) ps idx.

Definition same_but_input s s' : Prop := nfft s' = nfft s ∧ replan s' = replan s.

Lemma make_plans_eq nt idx s :
  match measure_all nt idx (input s) with
  | Some inp =>
      make_plans nt idx s =
        (Ret tt, set_input_array inp (input_at s) (set_plans (planning nt idx (input_at s) (plans s)) s))
  | None => ∃ s', make_plans nt idx s = (Throw BadAlloc, s') ∧ nfft s' = nfft s ∧ replan s' = replan s
  end.
Proof.
  revert s. induction idx as [|i idx IH]; intros s; cbn [make_plans measure_all]; [by destruct s|].
  mstep. destruct (fftw_measure _) as [l|]; cbn [mbind option_bind]; [|by eexists].
  mstep. mstep. cbn [input input_at plans set_input_array set_plans].
  match goal with |- context [make_plans nt idx ?x] => specialize (IH x) end.
  cbn [input input_at plans set_input_array set_plans nfft replan] in IH.
  destruct (measure_all nt idx _); [by rewrite IH|exact IH].
Qed.

Lemma measure_all_length nt k m inp inp' :
  0 ≤ nt → Z.of_nat (k + m) * nt ≤ zlen inp →
  measure_all nt (Z.of_nat <$> seq k m) inp = Some inp' → zlen inp' = zlen inp.
Proof.
  intros Hnt. revert k inp. induction m as [|m IH]; intros k inp Hl E; cbn in E; [congruence|].
  destruct (fftw_measure _) as [l|] eqn:El; [|done]. cbn in E.
  apply measure_length in El.
  assert (Hll : zlen l = nt).
  { unfold zlen in *. rewrite El. change (Z.of_nat (length ?x)) with (zlen x). apply zlen_zslice; [nia|done|].
    unfold zlen. nia. }
  assert (Hb : zlen (zblit (Z.of_nat k * nt) l inp) = zlen inp) by (apply zlen_zblit; nia).
  apply IH in E; [congruence|]. rewrite Hb. nia.
Qed.

Lemma length_planning nt idx a ps : length (planning nt idx a ps) = length ps.
Proof.
  unfold planning. revert ps. induction idx as [|i idx IH]; intros ps; [done|].
  cbn [foldl]. by rewrite IH, length_insert.
Qed.

Lemma planning_lookup nt k m a ps i :
  (k ≤ i < k + m)%nat → (i < length ps)%nat →
  planning nt (Z.of_nat <$> seq k m) a ps !! i = Some (Plan nt (Z.of_nat i * nt) a).
Proof.
  revert k ps. induction m as [|m IH]; intros k ps Hi Hl; [lia|]. cbn [seq fmap list_fmap planning foldl].
  rewrite Nat2Z.id. destruct (decide (i = k)) as [->|Hne].
  - assert (Hrest : ∀ j l, (k < j)%nat → planning nt (Z.of_nat <$> seq j m) a l !! k = l !! k).
    { clear. induction m as [|m IH]; intros j l Hj; [done|]. cbn [seq fmap list_fmap planning foldl].
      rewrite Nat2Z.id. fold (planning nt (Z.of_nat <$> seq (S j) m) a (<[j:=Plan nt (Z.of_nat j * nt) a]> l)).
      rewrite IH by lia. apply list_lookup_insert_ne. lia. }
    change (planning nt (Z.of_nat <$> seq (S k) m) a (<[k:=Plan nt (Z.of_nat k * nt) a]> ps) !! k =
            Some (Plan nt (Z.of_nat k * nt) a)).
    rewrite Hrest by lia. by rewrite list_lookup_insert_eq.
  - apply (IH (S k)); [lia|]. by rewrite length_insert.
Qed.

(** The state [reallocate] leaves. *)
Definition replanned (inp : list spec_float) s : PSDCalc :=
  set_replan false (set_input_array inp (input_at s)
    (set_plans (planning (ntime s) (bins (nbins s)) (input_at s) (replicate (Z.to_nat (nbins s)) no_plan))
    (set_fscale ((λ i, dmul (dbl (Z.of_nat i + 1)) (ddiv (fsamp s) (dbl (ntime s)))) <$>
                   seq 0 (Z.to_nat (nfreq s - 1)))
    (set_outint (zresize fzero (nfreq s - 1) (outint s))
    (set_output (zresize fzero (nfreq s - 1) (output s))
    (set_middle ((λ l, zresize (fzero, fzero) (nfreq s) l) <$> zresize [] (nbins s) (middle s)) s)))))).

Lemma reallocate_eq s :
  match measure_all (ntime s) (bins (nbins s)) (input s) with
  | Some inp => reallocate (ntime s) (nfreq s) (nbins s) s = (Ret tt, replanned inp s)
  | None => ∃ s', reallocate (ntime s) (nfreq s) (nbins s) s = (Throw BadAlloc, s') ∧
      nfft s' = nfft s ∧ replan s' = replan s
  end.
Proof.
  unfold reallocate. do 5 mstep.
  match goal with |- context [bind (make_plans _ _) _ ?x] => pose proof (make_plans_eq (ntime s) (bins (nbins s)) x) as E end.
  cbn [input input_at plans set_input_array set_plans set_fscale set_outint set_output set_middle nfft replan
       fsamp middle output outint] in E |- *.
  destruct (measure_all _ _ _).
  - rewrite (bind_ret _ _ _ _ _ E). done.
  - destruct E as (s' & E & Hn & Hr). exists s'. by rewrite (bind_throw _ _ _ _ _ E).
Qed.

Lemma replanned_planned inp s :
  0 < zlen (input s) → 0 < nfft s → zlen (window s) = zlen (input s) → zlen inp = zlen (input s) →
  planned (replanned inp s).
Proof.
  intros Hi Hn Hw Hl. destruct (bins_shape s Hi Hn) as (Ht & Hb & _ & Hf).
  assert (En : ntime (replanned inp s) = ntime s) by (unfold ntime; cbn; by rewrite Hl).
  assert (Eb : nbins (replanned inp s) = nbins s) by (unfold nbins; rewrite En; cbn; by rewrite Hl).
  assert (Ef : nfreq (replanned inp s) = nfreq s) by (unfold nfreq; by rewrite En).
  split; rewrite ?En, ?Eb, ?Ef; cbn; rewrite ?Hl; try done.
  - unfold zlen. rewrite length_planning, length_replicate. lia.
  - intros i Hib. apply planning_lookup; [lia|]. rewrite length_replicate. lia.
  - rewrite zlen_fmap, zlen_zresize by lia. done.
  - apply zlen_zresize. lia.
  - apply zlen_zresize. lia.
Qed.

(** The transforms of the blocks. *)
Definition transforms nt nb (inp : list spec_float) : list (list (spec_float * spec_float)) :=
  (λ i, fftw_execute (zslice (i * nt) nt inp)) <$> bins nb.

Lemma execute_range k m s :
  planned s → (k + m ≤ Z.to_nat (nbins s))%nat →
  ∃ mids, execute (Z.of_nat <$> seq k m) s = (Ret tt, set_middle mids s) ∧
    length mids = length (middle s) ∧
    ∀ i, mids !! i = if decide (k ≤ i < k + m)%nat
                     then Some (fftw_execute (zslice (Z.of_nat i * ntime s) (ntime s) (input s)))
                     else middle s !! i.
Proof.
  revert k s. induction m as [|m IH]; intros k s Hp Hk; cbn [seq fmap list_fmap execute].
  { exists (middle s). split; [by destruct s|]. split; [done|]. intros i. rewrite decide_False by lia. done. }
  mstep. rewrite Nat2Z.id, (pl_plan s Hp) by lia. cbn [paddr poff ptime].
  rewrite Z.eqb_refl. cbn [negb orb].
  destruct (bin_in s k (pl_input _ Hp) (pl_nfft _ Hp)) as [? ?]; [lia|].
  rewrite (proj2 (Z.ltb_ge _ _)) by lia. mstep.
  set (l := fftw_execute _). set (s1 := set_middle _ s).
  assert (Hlm : (k < length (middle s))%nat).
  { pose proof (pl_middle _ Hp) as Hm. unfold zlen in Hm. lia. }
  destruct (IH (S k) s1) as (mids & E & Hl & Hall).
  { destruct Hp. split; try done. unfold s1. cbn. unfold zlen in *. by rewrite length_insert. }
  { change (nbins s1) with (nbins s). lia. }
  exists mids. split; [exact E|]. split; [rewrite Hl; apply length_insert|]. intros i. rewrite Hall.
  change (ntime s1) with (ntime s). change (input s1) with (input s).
  destruct (decide (i = k)) as [->|Hne].
  - rewrite decide_False by lia. rewrite decide_True by lia. apply list_lookup_insert_eq. exact Hlm.
  - change (middle s1) with (<[k:=l]> (middle s)). rewrite list_lookup_insert_ne by done.
    destruct (decide (S k ≤ i < S k + m)%nat), (decide (k ≤ i < k + S m)%nat); (done || lia).
Qed.

Lemma execute_eq s :
  planned s → execute (bins (nbins s)) s =
    (Ret tt, set_middle (transforms (ntime s) (nbins s) (input s)) s).
Proof.
  intros Hp. destruct (execute_range 0 (Z.to_nat (nbins s)) s Hp) as (mids & E & Hl & Hall); [lia|].
  unfold bins. rewrite E. do 2 f_equal. apply list_eq. intros i. rewrite Hall. unfold transforms, bins.
  rewrite !list_lookup_fmap. pose proof (pl_middle _ Hp) as Hm. unfold zlen in Hm.
  destruct (decide _) as [Hi|Hi].
  - by rewrite lookup_seq_lt by lia.
  - rewrite lookup_seq_ge by lia. cbn. apply lookup_ge_None. lia.
Qed.

(** Summing block by block is summing by frequency. *)
Definition bin_power (j : nat) (mid : list (spec_float * spec_float)) : spec_float :=
  power (nth (S j) mid (fzero, fzero)).

Lemma nth_tail_power mid j :
  (power <$> tail mid) !! j = if decide (S j < length mid)%nat then Some (bin_power j mid) else None.
Proof.
  unfold bin_power. rewrite list_lookup_fmap. destruct mid as [|z mid]; cbn [tail length nth].
  - by rewrite lookup_nil, decide_False by (cbn; lia).
  - destruct (decide _) as [Hj|Hj].
    + destruct (lookup_lt_is_Some_2 mid j) as [w Hw]; [lia|]. rewrite Hw. cbn.
      by rewrite (nth_lookup_Some _ _ _ _ Hw).
    + rewrite lookup_ge_None_2 by lia. done.
Qed.

Lemma sum_bins_eq mids out :
  Forall (λ mid, length mid = S (length out)) mids →
  sum_bins mids out = imap (λ j o, foldl (λ acc mid, dadd acc (bin_power j mid)) o mids) out.
Proof.
  unfold sum_bins. revert out. induction mids as [|mid mids IH]; intros out Hl; cbn [foldl].
  { apply list_eq. intros j. rewrite list_lookup_imap. by destruct (out !! j). }
  apply list.Forall_cons in Hl as [Hm Hl].
  assert (Hlen : length (zip_with dadd out (power <$> tail mid)) = length out).
  { rewrite length_zip_with, length_fmap. destruct mid; cbn in *; lia. }
  rewrite IH by (rewrite Hlen; done). apply list_eq. intros j. rewrite !list_lookup_imap.
  rewrite lookup_zip_with, nth_tail_power, Hm.
  destruct (out !! j) as [o|] eqn:Ej; [|done]. apply lookup_lt_Some in Ej.
  rewrite decide_True by lia. done.
Qed.

Lemma integrate_eq factor fs out tot :
  let os := (λ o, dmul o factor) <$> out in
  integrate factor fs out tot =
    (os, imap (λ j _, dmul (dsqrt (ddiv (foldl dadd tot (take (S j) os)) fs)) (dbl 1000)) out, foldl dadd tot os).
Proof.
  cbn zeta. revert tot. induction out as [|o out IH]; intros tot; [done|]. cbn [integrate]. rewrite IH.
  cbn [fmap list_fmap foldl imap]. done.
Qed.

(** ** What [calculate] computes *)

(** The spectrum of the blocks of [inp], as the formula: for every frequency but 0 the sum
    over the blocks of the square of its amplitude, scaled. *)
Definition factor nt nb : spec_float := ddiv (dbl 2) (dbl (u64 (nt * nt * nb))).
Definition spectrum nt nb (inp : list spec_float) : list spec_float :=
  (λ j, dmul (foldl (λ acc i, dadd acc (bin_power j (fftw_execute (zslice (i * nt) nt inp)))) fzero (bins nb))
          (factor nt nb)) <$> seq 0 (Z.to_nat (nt / 2)).

(** Its integral up to every frequency, as the root the source takes. *)
Definition integral fs (sp : list spec_float) : list spec_float :=
  (λ j, dmul (dsqrt (ddiv (foldl dadd fzero (take (S j) sp)) fs)) (dbl 1000)) <$> seq 0 (length sp).

(** The window and the input when the transforms start. *)
Definition new_window s : list spec_float :=
  if replan s then make_window (windowtype s) (ntime s) (zlen (input s)) else window s.
Definition prepared s : list spec_float :=
  if newval s then windowed (set_window (new_window s) s) else input s.
Definition measured s : option (list spec_float) :=
  if replan s then measure_all (ntime s) (bins (nbins s)) (prepared s) else Some (prepared s).

Record result_of s (inp : list spec_float) s' : Prop := {
  res_input : input s' = inp;
  res_window : window s' = new_window s;
  res_output : output s' = spectrum (ntime s) (nbins s) inp;
  res_outint : outint s' = integral (fsamp s) (output s');
  res_tfreq : totalpowerfreq s' = foldl dadd fzero (output s');
  res_ttime : totalpowertime s' = if newval s then power_in_time s else totalpowertime s;
  res_done : replan s' = false ∧ newval s' = false;
  res_params : nfft s' = nfft s ∧ fsamp s' = fsamp s ∧ zlen (input s') = zlen (input s);
  res_fscale : replan s = false → fscale s' = fscale s;
}.

Lemma same_shape s s' :
  nfft s' = nfft s → zlen (input s') = zlen (input s) →
  ntime s' = ntime s ∧ nfreq s' = nfreq s ∧ nbins s' = nbins s.
Proof. unfold nfreq, nbins, ntime. intros -> ->. done. Qed.

(** From plans that fit to the end. *)
Lemma evaluate_eq s :
  planned s →
  evaluate (ntime s) (nfreq s) (nbins s) s =
  (Ret tt, set_totals (totalpowertime s) (foldl dadd fzero (spectrum (ntime s) (nbins s) (input s)))
     (set_outint (integral (fsamp s) (spectrum (ntime s) (nbins s) (input s)))
     (set_output (spectrum (ntime s) (nbins s) (input s))
     (set_middle (transforms (ntime s) (nbins s) (input s)) s)))).
Proof.
  intros Hp. unfold evaluate. mstep. rewrite (pl_plans _ Hp), (pl_middle _ Hp), (pl_output _ Hp), !Z.eqb_refl. do 3 mstep.
  rewrite (bind_ret _ _ _ _ _ (execute_eq s Hp)). mstep. cbn [middle output fsamp totalpowertime set_middle].
  fold (factor (ntime s) (nbins s)).
  destruct (bins_shape s (pl_input _ Hp) (pl_nfft _ Hp)) as (Ht & Hb & Hle & Hf).
  assert (Hlo : length (output s) = Z.to_nat (ntime s / 2)).
  { pose proof (pl_output _ Hp) as Ho. unfold zlen, nfreq in Ho. lia. }
  rewrite integrate_eq, sum_bins_eq.
  2: { apply list.Forall_forall. intros mid Hmid. unfold transforms, bins in Hmid.
       apply list_elem_of_fmap in Hmid as (i & -> & Hi). apply list_elem_of_fmap in Hi as (k & -> & Hk).
       apply elem_of_seq in Hk. rewrite execute_length, length_replicate, Hlo.
       destruct (bin_in s k (pl_input _ Hp) (pl_nfft _ Hp)) as [? ?]; [lia|].
       assert (Hz : zlen (zslice (Z.of_nat k * ntime s) (ntime s) (input s)) = ntime s) by (apply zlen_zslice; lia).
       unfold zlen in Hz. assert (length (zslice (Z.of_nat k * ntime s) (ntime s) (input s)) = Z.to_nat (ntime s)) as -> by lia.
       change 2%nat with (Z.to_nat 2). rewrite <-Z2Nat.inj_div by lia. lia. }
  set (sp := spectrum (ntime s) (nbins s) (input s)).
  assert (Esp : (λ o, dmul o (factor (ntime s) (nbins s))) <$>
    imap (λ j o, foldl (λ acc mid, dadd acc (bin_power j mid)) o (transforms (ntime s) (nbins s) (input s)))
      (replicate (length (output s)) fzero) = sp).
  { unfold sp, spectrum. apply list_eq. intros j. rewrite !list_lookup_fmap, list_lookup_imap, Hlo.
    destruct (decide (j < Z.to_nat (ntime s / 2))%nat) as [Hj|Hj].
    - rewrite lookup_replicate_2 by done. rewrite lookup_seq_lt by done. cbn. do 2 f_equal.
      unfold transforms. by rewrite foldl_fmap.
    - rewrite (lookup_ge_None_2 (replicate _ _)) by (rewrite length_replicate; lia). rewrite lookup_seq_ge by lia. done. }
  rewrite Esp. mstep. mstep. unfold modify.
  match goal with |- (Ret tt, set_totals _ _ (set_outint ?l _)) = _ =>
    assert (Ei : l = integral (fsamp s) sp); [|by rewrite Ei] end.
  unfold integral. apply list_eq. intros j. rewrite list_lookup_imap, list_lookup_fmap, list_lookup_imap.
  assert (Hls : length sp = Z.to_nat (ntime s / 2)) by (unfold sp, spectrum; by rewrite length_fmap, length_seq).
  rewrite Hls, Hlo. destruct (decide (j < Z.to_nat (ntime s / 2))%nat) as [Hj|Hj].
  - rewrite lookup_replicate_2 by done. rewrite lookup_seq_lt by done. done.
  - rewrite (lookup_ge_None_2 (replicate _ _)) by (rewrite length_replicate; lia). rewrite lookup_seq_ge by lia. done.
Qed.

Lemma planned_same s s' :
  planned s → nfft s' = nfft s → zlen (input s') = zlen (input s) → input_at s' = input_at s →
  zlen (window s') = zlen (window s) → plans s' = plans s → middle s' = middle s →
  output s' = output s → outint s' = outint s → fsamp s' = fsamp s → fscale s' = fscale s → planned s'.
Proof.
  intros [? ? ? ? ? ? ? ? ?] Hn Hi Ha Hw Hpl Hm Ho Hoi Hfs Hsc. destruct (same_shape s s' Hn Hi) as (Et & Ef & Eb).
  split; rewrite ?Et, ?Ef, ?Eb, ?Hi, ?Hn, ?Hw, ?Hpl, ?Hm, ?Ho, ?Hoi, ?Ha, ?Hfs, ?Hsc; done.
Qed.

(** The first half: window, input, and new plans when they are due. *)
Definition ready s : PSDCalc :=
  let s1 := set_window (new_window s) s in
  if newval s then
    set_newval false (set_totals (power_in_time s) (totalpowerfreq s) (set_input_array (prepared s) (input_at s) s1))
  else s1.

Lemma ready_eq s :
  inv s → 0 < zlen (input s) → 0 < nfft s →
  ∃ s1, when (replan s) (modify (set_window (make_window (windowtype s) (ntime s) (zlen (input s))))) s = (Ret tt, s1) ∧
  when (newval s) prepare s1 = (Ret tt, ready s) ∧
  zlen (input (ready s)) = zlen (input s) ∧ zlen (window (ready s)) = zlen (input s) ∧
  (replan s = false → planned (ready s)).
Proof.
  intros Hi Hin Hnf. assert (Hw : zlen (new_window s) = zlen (input s)).
  { unfold new_window. destruct (replan s) eqn:Hr; [apply length_make_window; lia|]. by apply Hi. }
  assert (E1 : when (replan s) (modify (set_window (make_window (windowtype s) (ntime s) (zlen (input s))))) s =
    (Ret tt, set_window (new_window s) s)).
  { unfold new_window. by destruct s, replan0. }
  destruct (prepare_eq (set_window (new_window s) s) Hw) as [E2 Hl2].
  exists (set_window (new_window s) s). split; [exact E1|]. unfold ready, prepared.
  destruct (newval s) eqn:Hnv; cbn [when].
  - split; [rewrite E2; done|]. split; [exact Hl2|]. split; [exact Hw|]. intros Hr.
    apply (planned_same s); try done; [by apply Hi|]. cbn. rewrite Hw. symmetry. by apply Hi.
  - split; [done|]. split; [done|]. split; [exact Hw|]. intros Hr.
    apply (planned_same s); try done; [by apply Hi|]. cbn. rewrite Hw. symmetry. by apply Hi.
Qed.

Lemma ready_input s : input (ready s) = prepared s.
Proof. unfold ready, prepared. by destruct (newval s). Qed.

(** The rest, when the plans fit. *)
Lemma evaluate_result s s2 inp :
  planned s2 → input s2 = inp → window s2 = new_window s →
  nfft s2 = nfft s → zlen inp = zlen (input s) → fsamp s2 = fsamp s →
  totalpowertime s2 = (if newval s then power_in_time s else totalpowertime s) →
  replan s2 = false → newval s2 = false → (replan s = false → fscale s2 = fscale s) →
  ∃ s', evaluate (ntime s) (nfreq s) (nbins s) s2 = (Ret tt, s') ∧ inv s' ∧ result_of s inp s'.
Proof.
  intros Hp2 <- Hw2 Hn2 Hl2 Hfs Htt Hr2 Hv2 Hsc. destruct (same_shape s s2 Hn2 Hl2) as (Et & Ef & Eb).
  rewrite <-Et, <-Ef, <-Eb. eexists. split; [apply (evaluate_eq s2 Hp2)|].
  destruct (bins_shape s2 (pl_input _ Hp2) (pl_nfft _ Hp2)) as (_ & Hb & _ & Hf).
  assert (Hls : length (spectrum (ntime s2) (nbins s2) (input s2)) = Z.to_nat (nfreq s2 - 1)).
  { unfold spectrum. rewrite length_fmap, length_seq. unfold nfreq. f_equal. lia. }
  split.
  - split; [cbn; pose proof (pl_nfft _ Hp2); lia|]. intros _.
    destruct Hp2 as [? ? ? ? Hpl ? ? ? ?]. split; try done; cbn.
    + unfold transforms, bins. rewrite !zlen_fmap. unfold zlen. rewrite length_seq. change (nbins _) with (nbins s2). lia.
    + unfold zlen. rewrite Hls. change (nfreq _) with (nfreq s2). lia.
    + unfold zlen, integral. rewrite length_fmap, length_seq, Hls. change (nfreq _) with (nfreq s2). lia.
  - split; try done; cbn; by rewrite ?Et, ?Eb, ?Hfs.
Qed.

Lemma calculate_eq s :
  inv s → 0 < zlen (input s) → 0 < nfft s →
  match measured s with
  | None => ∃ s', calculate s = (Throw BadAlloc, s') ∧ inv s' ∧ replan s' = true
  | Some inp => ∃ s', calculate s = (Ret tt, s') ∧ inv s' ∧ result_of s inp s'
  end.
Proof.
  intros Hi Hin Hnf. destruct (ready_eq s Hi Hin Hnf) as (sa & E1 & E2 & Hl1 & Hw1 & Hp1).
  destruct (bins_shape s Hin Hnf) as (Ht & Hb & Hle & Hf).
  assert (Hn1 : nfft (ready s) = nfft s ∧ replan (ready s) = replan s ∧ fsamp (ready s) = fsamp s ∧
    window (ready s) = new_window s ∧ newval (ready s) = false ∧ fscale (ready s) = fscale s ∧
    totalpowertime (ready s) = if newval s then power_in_time s else totalpowertime s).
  { unfold ready. by destruct (newval s) eqn:E. }
  destruct Hn1 as (Hn1 & Hr1 & Hfs1 & Hwi1 & Hv1 & Hsc1 & Htt1).
  destruct (same_shape s (ready s) Hn1 Hl1) as (Et & Ef & Eb).
  unfold calculate. mstep. rewrite (proj2 (Z.eqb_neq (zlen (input s)) 0)), (proj2 (Z.eqb_neq (nfft s) 0)) by lia.
  cbn [orb]. cbv zeta. fold (ntime s). fold (nfreq s). fold (nbins s).
  rewrite (proj2 (Z.ltb_lt 0 (ntime s))), (proj2 (Z.ltb_lt 0 (nfreq s))), (proj2 (Z.ltb_lt 0 (nbins s))),
    (proj2 (Z.leb_le (nbins s * ntime s) _)) by lia. do 4 mstep.
  rewrite (bind_ret _ _ _ _ _ E1), (bind_ret _ _ _ _ _ E2).
  unfold measured. rewrite <-(ready_input s). destruct (replan s) eqn:Hr; cbn [when].
  - pose proof (reallocate_eq (ready s)) as E3. rewrite Et, Ef, Eb in E3.
    destruct (measure_all _ _ _) as [inp|] eqn:Hm.
    + rewrite (bind_ret _ _ _ _ _ E3).
      assert (Hli : zlen inp = zlen (input (ready s))).
      { apply (measure_all_length (ntime s) 0 (Z.to_nat (nbins s)) _ _); [lia| |exact Hm]. rewrite Hl1. lia. }
      apply (evaluate_result s _ inp); try done; cbn; [|congruence|by rewrite Hr].
      apply replanned_planned; [lia|lia|lia|done].
    + destruct E3 as (s' & E3 & Hn3 & Hr3). exists s'. rewrite (bind_throw _ _ _ _ _ E3). assert (replan s' = true) by congruence.
      split; [done|]. split; [|done]. apply inv_replan; [rewrite Hn3, Hn1; lia|done].
  - mstep. apply (evaluate_result s _ (input (ready s))); try done. by apply Hp1.
Qed.

(** The spectrum reads the blocks only. *)
Lemma spectrum_ext nt nb inp inp' :
  (∀ i, (i < Z.to_nat nb)%nat → zslice (Z.of_nat i * nt) nt inp = zslice (Z.of_nat i * nt) nt inp') →
  spectrum nt nb inp = spectrum nt nb inp'.
Proof.
  intros Hs. unfold spectrum. apply list_fmap_ext. intros _ j _. f_equal. unfold bins.
  assert (Hin : ∀ i, i ∈ seq 0 (Z.to_nat nb) → (i < Z.to_nat nb)%nat) by (intros i Hi%elem_of_seq; lia).
  revert Hin. generalize (seq 0 (Z.to_nat nb)). generalize fzero. intros acc l. revert acc.
  induction l as [|i l IH]; intros acc Hin; [done|]. cbn [fmap list_fmap foldl].
  rewrite Hs by (apply Hin; constructor). apply IH. intros k Hk. apply Hin. by constructor.
Qed.

(** When what planning leaves does not depend on what was there, nothing of the blocks is
    left. *)
Lemma measure_all_forgets nt k m p q :
  (∀ l l' : list spec_float, length l = length l' → fftw_measure l = fftw_measure l') →
  0 ≤ nt → Z.of_nat (k + m) * nt ≤ zlen p → measure_all nt (Z.of_nat <$> seq k m) p = Some q →
  (∀ i, (i < k)%nat → zslice (Z.of_nat i * nt) nt q = zslice (Z.of_nat i * nt) nt p) ∧
  (∀ i, (k ≤ i < k + m)%nat →
     fftw_measure (replicate (Z.to_nat nt) fzero) = Some (zslice (Z.of_nat i * nt) nt q)).
Proof.
  intros Hf Hnt. revert k p. induction m as [|m IH]; intros k p Hl E.
  { cbn in E. injection E as <-. split; [done|]. intros i Hi. lia. }
  cbn [seq fmap list_fmap measure_all] in E. destruct (fftw_measure (zslice _ _ _)) as [l|] eqn:El; cbn [mbind option_bind] in E; [|done].
  assert (Hz : zlen (zslice (Z.of_nat k * nt) nt p) = nt) by (apply zlen_zslice; nia).
  assert (Hll : zlen l = nt) by (apply measure_length in El; unfold zlen in *; lia).
  assert (Em : fftw_measure (replicate (Z.to_nat nt) fzero) = Some l).
  { rewrite <-El. apply Hf. rewrite length_replicate. unfold zlen in Hz. lia. }
  assert (Hb : zlen (zblit (Z.of_nat k * nt) l p) = zlen p) by (apply zlen_zblit; nia).
  destruct (IH (S k) (zblit (Z.of_nat k * nt) l p)) as [Hlow Hhigh]; [rewrite Hb; nia|exact E|]. split.
  - intros i Hi. rewrite Hlow by lia. apply zslice_zblit_outside; [nia|done|nia|nia|left; nia].
  - intros i Hi. destruct (decide (i = k)) as [->|Hne]; [|apply Hhigh; lia].
    rewrite Hlow by lia. rewrite Em. f_equal. rewrite <-Hll at 2. symmetry. apply zslice_zblit; nia.
Qed.
End shape.

(** ** What its users do *)

Section runs.
Context `{FftwLaws}.

Inductive op :=
  | SetNfft (n : Z) | SetFsamp (f : spec_float) | SetInput (a : Z) (p : list spec_float) (m : spec_float)
  | SetWindow (w : window_t)   (** [windowtype = w; replan = true], in [Calc::run] *)
  | Calculate.

Definition run_op (o : op) : M PSDCalc unit :=
  match o with
  | SetNfft n => set_nfft n ;;; ret tt
  | SetFsamp f => set_fsamp f ;;; ret tt
  | SetInput a p m => set_input a p m ;;; ret tt
  | SetWindow w => modify (λ s, set_replan true (set_windowtype w s))
  | Calculate => calculate
  end.

Definition size_ok (o : op) : Prop := match o with SetNfft n => 0 ≤ n < 2 ^ 64 | _ => True end.

(** What calls in any order leave, whether they throw or not. *)
Inductive reached (w : window_t) : PSDCalc → Prop :=
  | reached_new : reached w (PSDCalc_new w)
  | reached_op o s : reached w s → size_ok o → reached w (run_op o s).2.

Lemma calculate_inv s : inv s → inv (calculate s).2 ∧ ∀ c, (calculate s).1 ≠ Crash c.
Proof.
  intros Hi. destruct (decide (0 < zlen (input s) ∧ 0 < nfft s)) as [[H1 H2]|Hn].
  - pose proof (calculate_eq s Hi H1 H2) as E. destruct (measured s).
    + destruct E as (s' & -> & ? & _). by split.
    + destruct E as (s' & -> & ? & _). by split.
  - assert (calculate s = (Ret tt, s)) as ->; [|by split]. unfold calculate. mstep.
    pose proof (zlen_nonneg (input s)). pose proof (inv_nfft s Hi).
    destruct (Z.eqb_spec (zlen (input s)) 0), (Z.eqb_spec (nfft s) 0); try done. lia.
Qed.

Lemma ret_tt_snd {S A} (m : M S A) s : ((m ;;; ret tt) s).2 = (m s).2.
Proof. unfold bind. by destruct (m s) as [[]?]. Qed.

Lemma ret_tt_crash {S A} (m : M S A) s c : (∀ c, (m s).1 ≠ Crash c) → ((m ;;; ret tt) s).1 ≠ Crash c.
Proof.
  intros Hm. specialize (Hm c). unfold bind. destruct (m s) as [[] ?]; cbn in *; congruence.
Qed.

Lemma run_op_inv o s : inv s → size_ok o → inv (run_op o s).2 ∧ ∀ c, (run_op o s).1 ≠ Crash c.
Proof.
  intros Hi Hs. destruct o as [n|f|a p m|w|]; cbn [run_op]; [..|by apply calculate_inv].
  - rewrite ret_tt_snd. split; [apply set_nfft_inv; [done|apply Hs]|]. intros c. apply ret_tt_crash. clear c.
    intros c. unfold set_nfft. mstep. by destruct (negb _).
  - rewrite ret_tt_snd. split; [by apply set_fsamp_inv|]. intros c. apply ret_tt_crash. clear c.
    intros c. unfold set_fsamp. mstep. by destruct (negb _).
  - rewrite ret_tt_snd. split; [by apply set_input_inv|]. intros c. apply ret_tt_crash. clear c.
    intros c. unfold set_input. mstep. by destruct (_ || _).
  - split; [|done]. apply inv_replan; [apply Hi|done].
Qed.

Lemma reached_inv w s : reached w s → inv s.
Proof. induction 1 as [|o s _ IH Ho]; [apply inv_new|by apply run_op_inv]. Qed.
End runs.

(** ** Properties *)

(** No assertion fails.  Whatever is called on a [PSDCalc], in any order, and whatever
    memory the plans fail for, no assertion of [calculate] fails, no plan is executed for
    an array that has moved, and no array is too short: when no new plan is due, plans,
    window and buffers fit the input. *)
Theorem psd_never_aborts `{FftwLaws} w s o :
  reached w s → size_ok o →
  (replan s = false → planned s) ∧ ∀ c, (run_op o s).1 ≠ Crash c.
Proof.
  intros Hr Ho. pose proof (reached_inv w s Hr) as Hi. split; [apply Hi|by apply run_op_inv].
Qed.

(** C33: What [calculate] computes.  Nothing without input or block size.  Otherwise the
    input less its mean, scaled and windowed, is cut into [nbins] blocks of [ntime] samples;
    [output] has for every frequency but 0 the mean over the blocks of the squared amplitude,
    times 2/ntime^2; [totalpowerfreq] is their sum, [outint] the root of their running sum,
    [totalpowertime] the mean square in time.  When a plan is due the blocks are transformed
    after planning has overwritten them; without memory for a plan it throws and the plan
    stays due. *)
Theorem calculate_spectrum `{FftwLaws} w s :
  reached w s →
  if (zlen (input s) =? 0) || (nfft s =? 0) then calculate s = (Ret tt, s)
  else
    match measured s with
    | Some inp => ∃ s', calculate s = (Ret tt, s') ∧ result_of s inp s'
    | None => ∃ s', calculate s = (Throw BadAlloc, s') ∧ replan s' = true
    end.
Proof.
  intros Hr. pose proof (reached_inv w s Hr) as Hi. pose proof (zlen_nonneg (input s)). pose proof (inv_nfft s Hi).
  destruct (_ || _) eqn:E; bool_to_prop.
  - unfold calculate. mstep. by rewrite E.
  - pose proof (calculate_eq s Hi ltac:(lia) ltac:(lia)) as Ec. destruct (measured s).
    + destruct Ec as (s' & ? & _ & ?). by exists s'.
    + destruct Ec as (s' & ? & _ & ?). by exists s'.
Qed.

(** The spectrum after a change of parameters.  If planning overwrites the input with
    something that does not depend on what was there (FFTW documents that planning with
    FFTW_MEASURE overwrites its arrays), then when a plan is due the spectrum does not
    depend on the samples: any two inputs of the same length give the same result, because
    the plans are made after the input was prepared. *)
Theorem replan_loses_input `{FftwLaws} w w' s s' t t' :
  (∀ l l' : list spec_float, length l = length l' → fftw_measure l = fftw_measure l') →
  reached w s → reached w' s' → replan s = true → replan s' = true →
  0 < nfft s → 0 < zlen (input s) → nfft s' = nfft s → zlen (input s') = zlen (input s) →
  calculate s = (Ret tt, t) → calculate s' = (Ret tt, t') →
  output t = output t' ∧ totalpowerfreq t = totalpowerfreq t'.
Proof.
  intros Hf Hr Hr' Hp Hp' Hn Hi En Ei E E'.
  destruct (same_shape s s' En Ei) as (Et & _ & Eb).
  pose proof (calculate_eq s (reached_inv w s Hr) Hi Hn) as Hc.
  pose proof (calculate_eq s' (reached_inv w' s' Hr') ltac:(lia) ltac:(lia)) as Hc'.
  destruct (bins_shape s Hi Hn) as (Ht & Hb & Hle & _).
  destruct (ready_eq s (reached_inv w s Hr) Hi Hn) as (_ & _ & _ & Hl & _).
  destruct (ready_eq s' (reached_inv w' s' Hr') ltac:(lia) ltac:(lia)) as (_ & _ & _ & Hl' & _).
  rewrite ready_input in Hl, Hl'. unfold measured in Hc, Hc'. rewrite Hp in Hc. rewrite Hp', Et, Eb in Hc'.
  destruct (measure_all _ _ (prepared s)) as [inp|] eqn:Em; [|destruct Hc as (? & ? & _); congruence].
  destruct (measure_all _ _ (prepared s')) as [inp'|] eqn:Em'; [|destruct Hc' as (? & ? & _); congruence].
  destruct Hc as (t1 & E1 & _ & R). destruct Hc' as (t1' & E1' & _ & R').
  rewrite E in E1. injection E1 as <-. rewrite E' in E1'. injection E1' as <-.
  assert (Es : spectrum (ntime s) (nbins s) inp = spectrum (ntime s) (nbins s) inp').
  { apply spectrum_ext. intros i Hib.
    assert (Hfit : Z.of_nat (0 + Z.to_nat (nbins s)) * ntime s ≤ zlen (input s)) by (rewrite Nat.add_0_l, Z2Nat.id; lia).
    destruct (measure_all_forgets (ntime s) 0 _ _ _ Hf ltac:(lia) ltac:(rewrite Hl; exact Hfit) Em) as [_ H1].
    destruct (measure_all_forgets (ntime s) 0 _ _ _ Hf ltac:(lia) ltac:(rewrite Hl', Ei; exact Hfit) Em') as [_ H2].
    specialize (H1 i ltac:(lia)). specialize (H2 i ltac:(lia)). congruence. }
  rewrite (res_tfreq _ _ _ R), (res_tfreq _ _ _ R'), (res_output _ _ _ R), (res_output _ _ _ R'), Et, Eb, Es.
  done.
Qed.

(** ** Concrete runs *)

(** A transform of one sum, and planning that fills the array with zeros. *)
Definition toy_fftw : Fftw := {|
  fftw_measure l := Some (replicate (length l) fzero);
  fftw_execute l := replicate (length l / 2 + 1) (foldl dadd fzero l, fone);
  sin x := x;
|}.

Lemma toy_laws : @FftwLaws toy_fftw.
Proof.
  split; cbn.
  - intros l l' [= <-]. apply length_replicate.
  - intros l. apply length_replicate.
Qed.

Section runs2.
#[local] Existing Instance toy_fftw.
#[local] Existing Instance toy_laws.

Definition run_ops (ops : list op) (s : PSDCalc) : PSDCalc := foldl (λ s o, (run_op o s).2) s ops.

Lemma run_ops_reached w ops s : reached w s → Forall size_ok ops → reached w (run_ops ops s).
Proof.
  intros Hr Ho. revert s Hr. induction Ho as [|o ops Ho _ IH]; intros s Hr; [done|].
  apply IH. by constructor.
Qed.

(** Blocks of two of five samples. *)
Definition asked (p : list Z) : PSDCalc :=
  run_ops [SetNfft 2; SetFsamp fone; SetInput 0 (dbl <$> p) fone] (PSDCalc_new NoWindow).

Lemma asked_reached p : reached NoWindow (asked p).
Proof. apply run_ops_reached; [constructor|]. by repeat constructor. Qed.

Lemma psd_never_aborts_witness :
  (run_op Calculate (asked [1; 2; 3; 4; 5])).1 ≠ Crash AssertFail.
Proof.
  apply (psd_never_aborts NoWindow (asked [1; 2; 3; 4; 5]) Calculate); [apply asked_reached|done].
Defined.

Lemma calculate_spectrum_witness :
  ∃ s', calculate (asked [1; 2; 3; 4; 5]) = (Ret tt, s') ∧ output s' = [ddiv fone (dbl 2)].
Proof.
  set (s := asked [1; 2; 3; 4; 5]).
  pose proof (calculate_spectrum NoWindow s (asked_reached _)) as Hc.
  assert (Hn : (zlen (input s) =? 0) || (nfft s =? 0) = false) by (vm_compute; reflexivity).
  rewrite Hn in Hc. destruct (measured s) as [inp|] eqn:Em.
  - destruct Hc as (s' & E & R). exists s'. split; [exact E|]. rewrite (res_output _ _ _ R).
    vm_compute in Em. injection Em as <-. vm_compute. reflexivity.
  - exfalso. vm_compute in Em. discriminate Em.
Defined.

(** Two different inputs. *)
Lemma replan_loses_input_witness :
  output (calculate (asked [1; 2; 3; 4; 5])).2 = output (calculate (asked [7; -20; 3; 100; 5])).2.
Proof.
  eapply (replan_loses_input NoWindow NoWindow (asked [1; 2; 3; 4; 5]) (asked [7; -20; 3; 100; 5])
    (calculate (asked [1; 2; 3; 4; 5])).2 (calculate (asked [7; -20; 3; 100; 5])).2).
  - intros l l' Hl. cbn. by rewrite Hl.
  - apply asked_reached.
  - apply asked_reached.
  - vm_compute. reflexivity.
  - vm_compute. reflexivity.
  - vm_compute. reflexivity.
  - vm_compute. reflexivity.
  - vm_compute. reflexivity.
  - vm_compute. reflexivity.
  - vm_compute. reflexivity.
  - vm_compute. reflexivity.
Defined.
End runs2.
End Psd.
