(* ===== verification/SigCalc.v ===== *)
(** * Spectra as records

    sigApp/src/fftcalc.cpp: [Calc], a named calculation with its worker thread, and the device
    support of the records that set its parameters and read its results.

    [Guard(priv->lock);] in this file makes a temporary that unlocks at once, so the worker,
    which holds the lock, and records do not exclude each other.  Each statement of the worker
    is a step, and between any two of them the inputs may change in any way, for records may
    be anywhere in their calls; what else their calls do is a step of its own.  (A vector that
    is changed while it is read is undefined in C++; here one comes after the other.)  The
    arrays of waveform records are lists of the doubles that fit into their memory. *)

From S2P Require Import Prelude Block PscBase Ieee DevCommon SigPsd.

Module Calculator.

(** The statement of [run()] that is next: [wake.wait()]; the two comparisons of the first
    [if] and what it does; the parameters; the calculation; the results, one by one; the scan
    requests.  [sc] is [scalchange], [t] is [timeproc].  An exception ends the thread. *)
Inductive wpc :=
  | Waiting
  | CheckRate
  | CheckLength
  | Incomplete
  | PutWindow
  | PutRate (sc : bool)
  | PutLength (sc : bool)
  | PutInput (sc : bool)
  | TakeTime (sc : bool)
  | Calculating (sc : bool) (t : epicsTime)
  | SetValid (sc : bool) (t : epicsTime)
  | CopyTotals (sc : bool) (t : epicsTime)
  | CopyOutput (sc : bool) (t : epicsTime)
  | CopyIntegral (sc : bool) (t : epicsTime)
  | CopyScale (sc : bool) (t : epicsTime)
  | CopyWindow (sc : bool) (t : epicsTime)
  | SetTime (sc : bool) (t : epicsTime)
  | RequestScale (sc : bool)
  | RequestValue
  | Dead.

(** [struct Calc]; [valueScans] and [scaleScans] count the scan requests. *)
Record Calc := MkCalc {
  windowtype : Psd.window_t;
  fsamp : spec_float;
  mult : spec_float;
  nfft : Z;
  sampStart : Z;
  sampWidth : Z;
  timein : epicsTime;
  timeout : epicsTime;
  valin : list spec_float;
  valout : list spec_float;
  window : list spec_float;
  scaleout : list spec_float;
  valoutint : list spec_float;
  totalpowertime : spec_float;
  totalpowerfreq : spec_float;
  valid : bool;
  lasttime : spec_float;
  wake : bool;
  valueScans : Z;
  scaleScans : Z;
  calc : Psd.PSDCalc;
  worker : wpc;
}.

Definition no_time : epicsTime := EpicsTime 0 0.

(** [Calc(name)]; the window types and [lasttime] are not initialized. *)
Definition Calc_new (w : Psd.window_t) (lt : spec_float) (cw : Psd.window_t) : Calc :=
  MkCalc w fzero fone 0 0 0 no_time no_time [] [] [] [] [] fzero fzero false lt false 0 0
    (Psd.PSDCalc_new cw) Waiting.

(** What records write. *)
Record inputs := Inputs {
  i_windowtype : Psd.window_t; i_fsamp : spec_float; i_mult : spec_float; i_nfft : Z;
  i_sampStart : Z; i_sampWidth : Z; i_timein : epicsTime; i_valin : list spec_float;
  i_lasttime : spec_float; i_wake : bool;
}.

Definition inputs_of (c : Calc) : inputs :=
  Inputs (windowtype c) (fsamp c) (mult c) (nfft c) (sampStart c) (sampWidth c) (timein c) (valin c)
    (lasttime c) (wake c).
Definition set_inputs (i : inputs) (c : Calc) : Calc :=
  MkCalc (i_windowtype i) (i_fsamp i) (i_mult i) (i_nfft i) (i_sampStart i) (i_sampWidth i) (i_timein i)
    (timeout c) (i_valin i) (valout c) (window c) (scaleout c) (valoutint c) (totalpowertime c)
    (totalpowerfreq c) (valid c) (i_lasttime i) (i_wake i) (valueScans c) (scaleScans c) (calc c) (worker c).

Section setters.
Implicit Types c : Calc.
Implicit Types i : inputs.
Definition put_windowtype v c := set_inputs (Inputs v (fsamp c) (mult c) (nfft c) (sampStart c)
  (sampWidth c) (timein c) (valin c) (lasttime c) (wake c)) c.
Definition put_fsamp v c := set_inputs (Inputs (windowtype c) v (mult c) (nfft c) (sampStart c)
  (sampWidth c) (timein c) (valin c) (lasttime c) (wake c)) c.
Definition put_mult v c := set_inputs (Inputs (windowtype c) (fsamp c) v (nfft c) (sampStart c)
  (sampWidth c) (timein c) (valin c) (lasttime c) (wake c)) c.
Definition put_nfft v c := set_inputs (Inputs (windowtype c) (fsamp c) (mult c) v (sampStart c)
  (sampWidth c) (timein c) (valin c) (lasttime c) (wake c)) c.
Definition put_start v c := set_inputs (Inputs (windowtype c) (fsamp c) (mult c) (nfft c) v
  (sampWidth c) (timein c) (valin c) (lasttime c) (wake c)) c.
Definition put_width v c := set_inputs (Inputs (windowtype c) (fsamp c) (mult c) (nfft c)
  (sampStart c) v (timein c) (valin c) (lasttime c) (wake c)) c.
Definition put_valin t v c := set_inputs (Inputs (windowtype c) (fsamp c) (mult c) (nfft c)
  (sampStart c) (sampWidth c) t v (lasttime c) (wake c)) c.
Definition put_lasttime v c := set_inputs (Inputs (windowtype c) (fsamp c) (mult c) (nfft c)
  (sampStart c) (sampWidth c) (timein c) (valin c) v (wake c)) c.
Definition put_wake v c := set_inputs (Inputs (windowtype c) (fsamp c) (mult c) (nfft c)
  (sampStart c) (sampWidth c) (timein c) (valin c) (lasttime c) v) c.

Definition set_worker v c : Calc :=
  MkCalc (windowtype c) (fsamp c) (mult c) (nfft c) (sampStart c) (sampWidth c) (timein c) (timeout c)
    (valin c) (valout c) (window c) (scaleout c) (valoutint c) (totalpowertime c) (totalpowerfreq c)
    (valid c) (lasttime c) (wake c) (valueScans c) (scaleScans c) (calc c) v.
Definition set_calc v c : Calc :=
  MkCalc (windowtype c) (fsamp c) (mult c) (nfft c) (sampStart c) (sampWidth c) (timein c) (timeout c)
    (valin c) (valout c) (window c) (scaleout c) (valoutint c) (totalpowertime c) (totalpowerfreq c)
    (valid c) (lasttime c) (wake c) (valueScans c) (scaleScans c) v (worker c).
Definition set_valid v c : Calc :=
  MkCalc (windowtype c) (fsamp c) (mult c) (nfft c) (sampStart c) (sampWidth c) (timein c) (timeout c)
    (valin c) (valout c) (window c) (scaleout c) (valoutint c) (totalpowertime c) (totalpowerfreq c)
    v (lasttime c) (wake c) (valueScans c) (scaleScans c) (calc c) (worker c).
Definition set_totals tpt tpf c : Calc :=
  MkCalc (windowtype c) (fsamp c) (mult c) (nfft c) (sampStart c) (sampWidth c) (timein c) (timeout c)
    (valin c) (valout c) (window c) (scaleout c) (valoutint c) tpt tpf
    (valid c) (lasttime c) (wake c) (valueScans c) (scaleScans c) (calc c) (worker c).
Definition set_valout v c : Calc :=
  MkCalc (windowtype c) (fsamp c) (mult c) (nfft c) (sampStart c) (sampWidth c) (timein c) (timeout c)
    (valin c) v (window c) (scaleout c) (valoutint c) (totalpowertime c) (totalpowerfreq c)
    (valid c) (lasttime c) (wake c) (valueScans c) (scaleScans c) (calc c) (worker c).
Definition set_valoutint v c : Calc :=
  MkCalc (windowtype c) (fsamp c) (mult c) (nfft c) (sampStart c) (sampWidth c) (timein c) (timeout c)
    (valin c) (valout c) (window c) (scaleout c) v (totalpowertime c) (totalpowerfreq c)
    (valid c) (lasttime c) (wake c) (valueScans c) (scaleScans c) (calc c) (worker c).
Definition set_scaleout so c : Calc :=
  MkCalc (windowtype c) (fsamp c) (mult c) (nfft c) (sampStart c) (sampWidth c) (timein c) (timeout c)
    (valin c) (valout c) (window c) so (valoutint c) (totalpowertime c) (totalpowerfreq c)
    (valid c) (lasttime c) (wake c) (valueScans c) (scaleScans c) (calc c) (worker c).
Definition set_window w c : Calc :=
  MkCalc (windowtype c) (fsamp c) (mult c) (nfft c) (sampStart c) (sampWidth c) (timein c) (timeout c)
    (valin c) (valout c) w (scaleout c) (valoutint c) (totalpowertime c) (totalpowerfreq c)
    (valid c) (lasttime c) (wake c) (valueScans c) (scaleScans c) (calc c) (worker c).
Definition set_timeout v c : Calc :=
  MkCalc (windowtype c) (fsamp c) (mult c) (nfft c) (sampStart c) (sampWidth c) (timein c) v
    (valin c) (valout c) (window c) (scaleout c) (valoutint c) (totalpowertime c) (totalpowerfreq c)
    (valid c) (lasttime c) (wake c) (valueScans c) (scaleScans c) (calc c) (worker c).
(** [scanIoRequest(valueScan)], [scanIoRequest(scaleScan)] *)
Definition request_value c : Calc :=
  MkCalc (windowtype c) (fsamp c) (mult c) (nfft c) (sampStart c) (sampWidth c) (timein c) (timeout c)
    (valin c) (valout c) (window c) (scaleout c) (valoutint c) (totalpowertime c) (totalpowerfreq c)
    (valid c) (lasttime c) (wake c) (valueScans c + 1) (scaleScans c) (calc c) (worker c).
Definition request_scale c : Calc :=
  MkCalc (windowtype c) (fsamp c) (mult c) (nfft c) (sampStart c) (sampWidth c) (timein c) (timeout c)
    (valin c) (valout c) (window c) (scaleout c) (valoutint c) (totalpowertime c) (totalpowerfreq c)
    (valid c) (lasttime c) (wake c) (valueScans c) (scaleScans c + 1) (calc c) (worker c).
End setters.

(** [poke()] *)
Definition poke : Calc → Calc := put_wake true.

(** ** Records *)

(** The records' fields; [bptr] has the doubles that fit into the array's memory. *)
Record longout := Longout { lo_val : Z }.
Record mbbo := Mbbo { rval : Z }.
Record arec := Arec { a_val : spec_float; conv : analog }.
Record wfrec := Wf { nelm : Z; nord : Z; bptr : list spec_float }.

(** A record with its private data, the name of a calculation, and [calcs]. *)
Notation dev R := (devst R string Calc).

Section records.
Context `{EpicsRecord}.

Definition S_db_badField : dev_status := Status 33488911.

(** [commonInit]: the arguments [junk] are what a new [Calc] leaves uninitialized. *)
Definition commonInit {R} (junk : Psd.window_t * spec_float * Psd.window_t) (linkstr : string) (ret_ : Z)
    : M (dev R) dev_status :=
  s <- get ;;
  (match pscmap s !! linkstr with
   | Some _ => ret tt
   | None => modify (set_pscmap (<[linkstr := Calc_new junk.1.1 junk.1.2 junk.2]> (pscmap s)))
   end) ;;;
  modify (set_dpvt (Some linkstr)) ;;;
  ret (Status ret_).

(** [init_record_inp], [init_record_out], [init_record_out2]; the link's text is given. *)
Definition init_record_inp {R} junk link : M (dev R) dev_status := CATCH (commonInit junk link 0).
Definition init_record_out {R} junk link : M (dev R) dev_status := CATCH (commonInit junk link 0).
Definition init_record_out2 {R} junk link : M (dev R) dev_status := CATCH (commonInit junk link 2).

(** [Calc *priv = prec->dpvt; if(!priv) return 0;] *)
Definition with_calc {R} (k : string → Calc → M (dev R) dev_status) : M (dev R) dev_status :=
  s <- get ;;
  match dpvt s with
  | None => ret (Status 0)
  | Some n => match pscmap s !! n with None => abort NullDeref | Some c => k n c end
  end.

(** [*priv = c] *)
Definition put_calc {R} (n : string) (c : Calc) : M (dev R) unit :=
  modify (λ s, set_pscmap (<[n := c]> (pscmap s)) s).

(** A 32-bit number compared unsigned, but stored sign-extended to [size_t]. *)
Definition set_nfft : M (dev longout) dev_status :=
  with_calc (λ n c, CATCH (
    s <- get ;;
    let val := lo_val (rec s) in
    if nfft c =? u32 val then ret (Status 0)
    else put_calc n (poke (put_nfft (u64 val) c)) ;;; ret (Status 0))).

Definition set_fsamp : M (dev arec) dev_status :=
  CATCH (with_calc (λ n c,
    s <- get ;;
    let f := analogRaw2EGU (conv (rec s)) (a_val (rec s)) in
    if SFeqb (fsamp c) f then ret (Status 0)
    else put_calc n (poke (put_fsamp f c)) ;;; ret (Status 2))).

Definition set_scale : M (dev arec) dev_status :=
  CATCH (with_calc (λ n c,
    s <- get ;;
    let m := analogRaw2EGU (conv (rec s)) (a_val (rec s)) in
    if SFeqb (mult c) m then ret (Status 0)
    else put_calc n (poke (put_mult m c)) ;;; ret (Status 2))).

Definition set_start : M (dev longout) dev_status :=
  CATCH (with_calc (λ n c,
    s <- get ;;
    let v := u32 (lo_val (rec s)) in
    if sampStart c =? v then ret (Status 0)
    else put_calc n (put_start v c) ;;; ret (Status 2))).

Definition set_width : M (dev longout) dev_status :=
  CATCH (with_calc (λ n c,
    s <- get ;;
    let v := u32 (lo_val (rec s)) in
    if sampWidth c =? v then ret (Status 0)
    else put_calc n (put_width v c) ;;; ret (Status 2))).

Definition set_windtype : M (dev mbbo) dev_status :=
  CATCH (with_calc (λ n c,
    s <- get ;;
    (if rval (rec s) =? 0 then put_calc n (put_windowtype Psd.NoWindow c)
     else if rval (rec s) =? 1 then put_calc n (put_windowtype Psd.Hann c)
     else setSevr WRITE_ALARM INVALID_ALARM) ;;;
    ret (Status 0))).

(** [if(prec->tse==-2) prec->time = t;] *)
Definition take_time {R} (t : epicsTime) : M (dev R) unit :=
  modify (λ s, if tse (com s) =? epicsTimeEventDeviceTime then set_com (set_time t (com s)) s else s).

(** [get_totalptime], [get_totalpfreq], [get_lasttime]: a number of the calculation. *)
Definition get_number (f : Calc → spec_float) : M (dev arec) dev_status :=
  CATCH (with_calc (λ n c,
    s <- get ;;
    modify (set_rec (Arec (analogEGU2Raw (conv (rec s)) (f c)) (conv (rec s)))) ;;;
    modify (λ s, set_com (set_udf 0 (com s)) s) ;;;
    take_time (timeout c) ;;;
    ret (Status 2))).
Definition get_totalptime : M (dev arec) dev_status := get_number totalpowertime.
Definition get_totalpfreq : M (dev arec) dev_status := get_number totalpowerfreq.
Definition get_lasttime : M (dev arec) dev_status := get_number lasttime.

(** [get_iointr_value] and [get_iointr_fscale]: the scan list a record joins. *)
Inductive scan_list := valueScan (name : string) | scaleScan (name : string).
Definition get_iointr_value {R} (s : dev R) : Z * option scan_list := (0, valueScan <$> dpvt s).
Definition get_iointr_fscale {R} (s : dev R) : Z * option scan_list := (0, scaleScan <$> dpvt s).

(** ** The input waveform *)

Inductive link_type := CONSTANT | PV_LINK | DB_LINK | CA_LINK | OtherLink.

Definition init_wf_in junk (inp : link_type) (ftvl_double : bool) (info : string → option string)
    : M (dev wfrec) dev_status :=
  CATCH (
    match inp with
    | OtherLink => ret S_db_badField
    | _ =>
        (match inp with
         | CONSTANT => modify (λ s, set_rec (Wf (nelm (rec s)) 0 (bptr (rec s))) s)
         | _ => ret tt
         end) ;;;
        if negb ftvl_double then throw (RuntimeError "Unsupported FTVL")
        else
          match info "CALCNAME"%string with
          | Some cname => commonInit junk cname 0
          | None => throw (RuntimeError "Missing info(CALCNAME")
          end
    end).

(** [priv->sampStart>=0 && priv->sampWidth>0] *)
Definition usewindow (c : Calc) : bool := (0 <=? sampStart c) && (0 <? sampWidth c).

(** How many elements the link is asked for. *)
Definition nRequest (nelm : Z) (c : Calc) : Z :=
  let last := u32 (sampStart c + sampWidth c) in
  if usewindow c && (last <? nelm) then last else nelm.

(** The rest of [set_wf_input] with [priv] known.  [dbGetLink] gives up to as many elements
    as it is asked for, or fails; [stamp] is the time of the link, [now] the clock. *)
Definition wf_input (dbGetLink : Z → option (list spec_float)) (stamp : option epicsTime) (now : epicsTime)
    (n : string) (c : Calc) : M (dev wfrec) dev_status :=
  s <- get ;;
  let r := rec s in
  srctime <- (match dbGetLink (nRequest (nelm r) c) with
              | Some l =>
                  modify (set_rec (Wf (nelm r) (u32 (zlen l)) (zblit 0 l (bptr r)))) ;;;
                  ret (default now stamp)
              | None => ret now
              end) ;;
  s <- get ;;
  let r := rec s in
  let nord' := if usewindow c && (sampWidth c <? nord r) then sampWidth c else nord r in
  modify (set_rec (Wf (nelm r) nord' (bptr r))) ;;;
  let off := if usewindow c then sampStart c else 0 in
  (if zlen (bptr r) <? off + nord' then abort OutOfBounds else ret tt) ;;;
  put_calc n (poke (put_valin srctime (zslice off nord' (bptr r)) c)) ;;;
  take_time srctime ;;;
  ret (Status 0).

(** Retargeting the link clears the private data: it is looked up again. *)
Definition set_wf_input dbGetLink stamp now (info : string → option string) : M (dev wfrec) dev_status :=
  CATCH (
    s <- get ;;
    match dpvt s with
    | Some n =>
        match pscmap s !! n with Some c => wf_input dbGetLink stamp now n c | None => abort NullDeref end
    | None =>
        match info "CALCNAME"%string with
        | None => ret (Status 0)
        | Some n =>
            match pscmap s !! n with
            | None => ret (Status 0)
            | Some c => modify (set_dpvt (Some n)) ;;; wf_input dbGetLink stamp now n c
            end
        end
    end).

(** ** The result waveforms *)

(** [CHKVALID], and copying a result array into the record. *)
Definition copy_result (f : Calc → list spec_float) (k : string → Calc → M (dev wfrec) unit)
    : M (dev wfrec) dev_status :=
  with_calc (λ n c, CATCH (
    if negb (valid c) then setSevr READ_ALARM INVALID_ALARM ;;; ret (Status 0)
    else
      s <- get ;;
      let r := rec s in
      let N := Z.min (nelm r) (u32 (zlen (f c))) in
      (if (zlen (bptr r) <? N) || (zlen (bptr r) <? 1) then abort OutOfBounds else ret tt) ;;;
      modify (set_rec (Wf (nelm r) (if N =? 0 then 1 else N)
                (if N =? 0 then zblit 0 [fzero] (bptr r) else zblit 0 (ztake N (f c)) (bptr r)))) ;;;
      k n c ;;;
      ret (Status 0))).

(** The spectrum and its integral come with the time; [elapsed] is what the timer says. *)
Definition timed (elapsed : spec_float) (n : string) (c : Calc) : M (dev wfrec) unit :=
  take_time (timeout c) ;;;
  put_calc n (put_lasttime elapsed c).

Definition get_wf_output elapsed : M (dev wfrec) dev_status := copy_result valout (timed elapsed).
Definition get_wf_outputint elapsed : M (dev wfrec) dev_status := copy_result valoutint (timed elapsed).
Definition get_wf_fscale : M (dev wfrec) dev_status := copy_result scaleout (λ _ _, ret tt).
Definition get_wf_window : M (dev wfrec) dev_status := copy_result window (λ _ _, ret tt).
End records.

(** ** The worker *)

Section worker.
Context `{Psd.Fftw}.

Definition zoom_calc {A} (m : M Psd.PSDCalc A) : M Calc A := zoom calc set_calc m.

Definition goto (w : wpc) : M Calc unit := modify (set_worker w).

(** [if(calc.windowtype != windowtype) ...] *)
Definition put_window : M Calc bool :=
  c <- get ;;
  let changed := negb (bool_decide (Psd.windowtype (calc c) = windowtype c)) in
  when changed (zoom_calc (modify (λ p, Psd.set_replan true (Psd.set_windowtype (windowtype c) p)))) ;;;
  ret changed.

(** An array, or one zero in place of an empty one; that makes the results invalid. *)
Definition not_empty (l : list spec_float) : list spec_float := match l with [] => [fzero] | _ => l end.
Definition invalid_if_empty (l : list spec_float) : M Calc unit :=
  when (bool_decide (l = [])) (modify (set_valid false)).

(** The statement of [run()] that is next.  [addr] is where a resized input array is put. *)
Definition advance (addr : Z) : M Calc unit :=
  c <- get ;;
  let p := calc c in
  match worker c with
  | Waiting => when (wake c) (modify (put_wake false) ;;; goto CheckRate)
  | CheckRate => goto (if SFleb (fsamp c) fzero then Incomplete else CheckLength)
  | CheckLength => goto (if nfft c =? 0 then Incomplete else PutWindow)
  | Incomplete => modify (set_valid false) ;;; modify request_value ;;; goto Waiting
  | PutWindow => sc <- put_window ;; goto (PutRate sc)
  | PutRate sc => b <- zoom_calc (Psd.set_fsamp (fsamp c)) ;; goto (PutLength (sc || b))
  | PutLength sc => b <- zoom_calc (Psd.set_nfft (nfft c)) ;; goto (PutInput (sc || b))
  | PutInput sc => b <- zoom_calc (Psd.set_input addr (valin c) (mult c)) ;; goto (TakeTime (sc || b))
  | TakeTime sc => goto (Calculating sc (timein c))
  | Calculating sc t => catch (zoom_calc Psd.calculate ;;; goto (SetValid sc t)) (λ _, goto Dead)
  | SetValid sc t => modify (set_valid true) ;;; goto (CopyTotals sc t)
  | CopyTotals sc t =>
      modify (set_totals (Psd.totalpowertime p) (Psd.totalpowerfreq p)) ;;; goto (CopyOutput sc t)
  | CopyOutput sc t =>
      modify (set_valout (not_empty (Psd.output p))) ;;; invalid_if_empty (Psd.output p) ;;;
      goto (CopyIntegral sc t)
  | CopyIntegral sc t =>
      modify (set_valoutint (not_empty (Psd.outint p))) ;;; invalid_if_empty (Psd.outint p) ;;;
      goto (if sc then CopyScale sc t else SetTime sc t)
  | CopyScale sc t =>
      modify (set_scaleout (not_empty (Psd.fscale p))) ;;; invalid_if_empty (Psd.fscale p) ;;;
      goto (CopyWindow sc t)
  | CopyWindow sc t => modify (set_window (Psd.window p)) ;;; goto (SetTime sc t)
  | SetTime sc t => modify (set_timeout t) ;;; goto (RequestScale sc)
  | RequestScale sc => when sc (modify request_scale) ;;; goto RequestValue
  | RequestValue => modify request_value ;;; goto Waiting
  | Dead => ret tt
  end.
End worker.

(** ** All of it *)

Section system.
Context `{Psd.Fftw} `{EpicsRecord}.

(** The calls of device support. *)
Inductive is_call : ∀ R, M (dev R) dev_status → Prop :=
  | call_inp R junk link : is_call R (init_record_inp junk link)
  | call_out R junk link : is_call R (init_record_out junk link)
  | call_out2 R junk link : is_call R (init_record_out2 junk link)
  | call_nfft : is_call _ set_nfft
  | call_fsamp : is_call _ set_fsamp
  | call_scale : is_call _ set_scale
  | call_start : is_call _ set_start
  | call_width : is_call _ set_width
  | call_windtype : is_call _ set_windtype
  | call_totalptime : is_call _ get_totalptime
  | call_totalpfreq : is_call _ get_totalpfreq
  | call_lasttime : is_call _ get_lasttime
  | call_wf_in junk inp d info : is_call _ (init_wf_in junk inp d info)
  | call_wf_input l st now info : is_call _ (set_wf_input l st now info)
  | call_output e : is_call _ (get_wf_output e)
  | call_outputint e : is_call _ (get_wf_outputint e)
  | call_fscale : is_call _ get_wf_fscale
  | call_window : is_call _ get_wf_window.

(** A call of a record; some of a call, which changes inputs; a statement of a worker. *)
Inductive step : gmap string Calc → gmap string Calc → Prop :=
  | step_record R (m : M (dev R) dev_status) s o s' :
      is_call R m → m s = (o, s') → step (pscmap s) (pscmap s')
  | step_inputs cs n c i :
      cs !! n = Some c → 0 ≤ i_nfft i → step cs (<[n := set_inputs i c]> cs)
  | step_worker cs n c addr c' :
      cs !! n = Some c → advance addr c = (Ret tt, c') → step cs (<[n := c']> cs).
End system.

(** ** The worker's invariant *)

Section worker_inv.
Context `{Psd.FftwLaws}.
Implicit Types c : Calc.
Implicit Types p q : Psd.PSDCalc.

(** A spectrum with its frequencies, integral and sum, of some blocks of [nt] samples. *)
Definition spectrum_of (out scale int : list spec_float) (tot : spec_float) : Prop :=
  ∃ fs nt nb inp, out = Psd.spectrum nt nb inp ∧ scale = Psd.frequencies fs nt ∧
    int = Psd.integral fs out ∧ tot = foldl (fadd binary64) fzero out.

(** What can be read together belongs together. *)
Definition published c : Prop :=
  valid c = true → spectrum_of (valout c) (scaleout c) (valoutint c) (totalpowerfreq c).

Definition computed p : Prop :=
  Psd.output p = [] ∨ spectrum_of (Psd.output p) (Psd.fscale p) (Psd.outint p) (Psd.totalpowerfreq p).

(** A plan is only due when nothing can be calculated. *)
Definition settled p : Prop := Psd.replan p = true → Psd.input p = [] ∨ Psd.nfft p = 0.

(** The frequencies that were published last are those of the calculation, if there was one. *)
Definition in_step c : Prop :=
  scaleout c = not_empty (Psd.fscale (calc c)) ∨ Psd.output (calc c) = [] ∧ Psd.replan (calc c) = true.

Definition steady c : Prop := settled (calc c) ∧ in_step c.

(** What holds where the results are copied. *)
Definition copied_totals c : Prop := totalpowerfreq c = Psd.totalpowerfreq (calc c).
Definition copied_output c : Prop :=
  copied_totals c ∧ valout c = not_empty (Psd.output (calc c)) ∧ (valid c = true → Psd.output (calc c) ≠ []).
Definition copied_integral c : Prop :=
  copied_output c ∧ valoutint c = not_empty (Psd.outint (calc c)) ∧ (valid c = true → Psd.outint (calc c) ≠ []).

Definition winv_at c : Prop :=
  let results sc := settled (calc c) ∧ (sc = false → in_step c) in
  match worker c with
  | Waiting | CheckRate | CheckLength | Incomplete | PutWindow => published c ∧ steady c
  | PutRate sc | PutLength sc | PutInput sc | TakeTime sc | Calculating sc _ =>
      published c ∧ (sc = false → steady c)
  | SetValid sc _ => published c ∧ results sc
  | CopyTotals sc _ => results sc
  | CopyOutput sc _ => results sc ∧ copied_totals c
  | CopyIntegral sc _ => results sc ∧ copied_output c
  | CopyScale sc _ => results sc ∧ copied_integral c
  | CopyWindow _ _ | SetTime _ _ | RequestScale _ | RequestValue => published c ∧ steady c
  | Dead => published c
  end.

Record winv c : Prop := {
  w_nfft : 0 ≤ nfft c;
  w_psd : Psd.inv (calc c);
  w_computed : worker c ≠ Dead → computed (calc c);
  w_at : winv_at c;
}.

Lemma winv_new w lt cw : winv (Calc_new w lt cw).
Proof.
  split; [done|apply Psd.inv_new|by intros _; left|]. unfold winv_at. cbn. split; [done|].
  split; [by left|by right].
Qed.

(** Records do not touch what the invariant is about. *)
Lemma winv_inputs i c : winv c → 0 ≤ i_nfft i → winv (set_inputs i c).
Proof. intros [? ? ? ?] Hn. by split. Qed.

(** Setting parameters leaves the results alone; without a change, the plan too. *)
Record tuned (b : bool) p q : Prop := {
  t_results : Psd.output q = Psd.output p ∧ Psd.fscale q = Psd.fscale p ∧ Psd.outint q = Psd.outint p ∧
    Psd.totalpowerfreq q = Psd.totalpowerfreq p;
  t_same : b = false → Psd.replan q = Psd.replan p ∧ zlen (Psd.input q) = zlen (Psd.input p) ∧
    Psd.nfft q = Psd.nfft p;
}.

Lemma tuned_trans a b p q r : tuned a p q → tuned b q r → tuned (a || b) p r.
Proof.
  intros [(?&?&?&?) Ha] [(?&?&?&?) Hb]. split; [split_and!; congruence|].
  intros [Ea Eb]%orb_false_iff. destruct (Ha Ea) as (?&?&?), (Hb Eb) as (?&?&?). split_and!; congruence.
Qed.

Lemma tuned_fsamp f p : ∃ b q, Psd.set_fsamp f p = (Ret b, q) ∧ tuned b p q ∧ Psd.nfft q = Psd.nfft p.
Proof.
  unfold Psd.set_fsamp. mstep. destruct (SFeqb _ _); cbn [negb when].
  - exists false, p. by split; [mstep|].
  - mstep. eexists _, _. by split.
Qed.

Lemma tuned_nfft n p : ∃ b q, Psd.set_nfft n p = (Ret b, q) ∧ tuned b p q ∧ Psd.nfft q = n.
Proof.
  unfold Psd.set_nfft. mstep. destruct (n =? Psd.nfft p) eqn:E; cbn [negb when].
  - bool_to_prop. exists false, p. by split; [mstep|].
  - mstep. eexists _, _. by split.
Qed.

Lemma tuned_input a l m p : ∃ b q, Psd.set_input a l m p = (Ret b, q) ∧ tuned b p q ∧ Psd.nfft q = Psd.nfft p.
Proof.
  unfold Psd.set_input. mstep. set (m' := if SFeqb m fzero then fone else m).
  destruct (zlen l =? zlen (Psd.input p)) eqn:El; cbn [negb orb].
  - destruct (SFeqb m' (Psd.mult p)); cbn [negb when]; do 3 mstep; eexists _, _; (split; [reflexivity|]); [|done].
    bool_to_prop. split; [|done]. split; [done|]. intros _. split_and!; try done. cbn. by rewrite zblit_all.
  - cbn [when]. do 3 mstep. eexists _, _. by split.
Qed.

Lemma zoom_calc_eq {A} (m : M Psd.PSDCalc A) c o p :
  m (calc c) = (o, p) → zoom_calc m c = (o, set_calc p c).
Proof. apply zoom_eq. Qed.

(** A calculation settles the plan; one that was steady keeps its frequencies. *)
Lemma idle_or_runs p : Psd.inv p →
  (Psd.input p = [] ∨ Psd.nfft p = 0) ∧ Psd.calculate p = (Ret tt, p) ∨
  0 < zlen (Psd.input p) ∧ 0 < Psd.nfft p.
Proof.
  intros Hi. pose proof (zlen_nonneg (Psd.input p)). pose proof (Psd.inv_nfft p Hi).
  unfold Psd.calculate. mstep. destruct (Z.eqb_spec (zlen (Psd.input p)) 0) as [Hz|Hz].
  - left. split; [left; by apply zlen_0_nil|done].
  - destruct (Z.eqb_spec (Psd.nfft p) 0); [left; split; [by right|done]|right; lia].
Qed.

Lemma calculate_settles p q :
  Psd.inv p → computed p → Psd.calculate p = (Ret tt, q) →
  Psd.inv q ∧ computed q ∧ settled q ∧
  (settled p → Psd.replan p = true ∧ q = p ∨ Psd.replan p = false ∧ Psd.fscale q = Psd.fscale p).
Proof.
  intros Hi Hc E. destruct (idle_or_runs p Hi) as [[Hidle E']|[Hl Hn]].
  - assert (q = p) as -> by congruence. split_and!; [done|done|by intros _|]. intros _. left.
    split; [|done]. destruct (Psd.replan p) eqn:Er; [done|].
    destruct (Psd.inv_planned p Hi Er) as [Hin Hnf _ _ _ _ _ _ _].
    destruct Hidle as [Hz|Hz]; [by rewrite Hz in Hin|lia].
  - pose proof (Psd.calculate_eq p Hi Hl Hn) as Hcal. destruct (Psd.measured p) as [inp|].
    2: { destruct Hcal as (? & ? & _). congruence. }
    destruct Hcal as (q' & E' & Hi' & R). assert (q' = q) as -> by congruence.
    destruct (Psd.res_done _ _ _ R) as [Hr _]. destruct (Psd.res_params _ _ _ R) as (Hnf & Hfs & Hlen).
    pose proof (Psd.inv_planned q Hi' Hr) as Hp. destruct (Psd.same_shape p q Hnf Hlen) as (Et & _ & _).
    split; [done|]. split; [|split; [unfold settled; congruence|]].
    + right. exists (Psd.fsamp p), (Psd.ntime p), (Psd.nbins p), inp. split_and!.
      * apply (Psd.res_output _ _ _ R).
      * rewrite (Psd.pl_fscale _ Hp), Et. congruence.
      * apply (Psd.res_outint _ _ _ R).
      * apply (Psd.res_tfreq _ _ _ R).
    + intros Hs. right. destruct (Psd.replan p) eqn:E1; [|split; [done|by apply (Psd.res_fscale _ _ _ R)]].
      destruct (Hs E1) as [Hz|Hz]; [by rewrite Hz in Hl|lia].
Qed.

Lemma not_empty_id l : l ≠ [] → not_empty l = l.
Proof. by destruct l. Qed.

(** When all is copied, the results belong together. *)
Lemma all_copied c :
  computed (calc c) → copied_integral c → settled (calc c) → in_step c → published c ∧ steady c.
Proof.
  intros Hc ((Ht & Ho & Hvo) & Hi & Hvi) Hs Hst. split; [|done]. intros Hv. specialize (Hvo Hv). specialize (Hvi Hv).
  destruct Hst as [Hsc|[? _]]; [|done].
  destruct Hc as [|(fs & nt & nb & inp & H1 & H2 & H3 & H4)]; [done|].
  assert (Hf : Psd.fscale (calc c) ≠ []).
  { rewrite H2. unfold Psd.frequencies. rewrite H1 in Hvo. unfold Psd.spectrum in Hvo.
    replace (nt / 2 + 1 - 1) with (nt / 2) by lia. by destruct (Z.to_nat (nt / 2)). }
  exists fs, nt, nb, inp. rewrite Ho, Hi, Ht, Hsc, !not_empty_id by done. done.
Qed.

(** Parameters: results stay, and a steady calculation without a change stays steady. *)
Lemma tuned_computed b p q : tuned b p q → computed p → computed q.
Proof. intros [(Eo & Es & Ei & Et) _]. unfold computed. by rewrite Eo, Es, Ei, Et. Qed.

Lemma tuned_steady b c q : tuned b (calc c) q → b = false → steady c → steady (set_calc q c).
Proof.
  intros [(Eo & Es & _) Hsame] Hb [Hs Hi]. destruct (Hsame Hb) as (Hr & Hl & Hn). split.
  - unfold settled. cbn. rewrite Hr, Hn. intros Hrp. destruct (Hs Hrp) as [Hz|]; [left|by right].
    rewrite Hz, zlen_nil in Hl. by apply zlen_0_nil.
  - unfold in_step. cbn. by rewrite Es, Eo, Hr.
Qed.

(** A statement that sets a parameter, with the flag for a change. *)
Definition sets (m : M Psd.PSDCalc bool) p : Prop :=
  ∃ b q, m p = (Ret b, q) ∧ tuned b p q ∧ (Psd.inv p → Psd.inv q).

Lemma sets_fsamp f p : sets (Psd.set_fsamp f) p.
Proof.
  destruct (tuned_fsamp f p) as (b & q & E & Ht & _). exists b, q. split_and!; [done|done|].
  intros Hi. pose proof (Psd.set_fsamp_inv f p Hi) as Hq. by rewrite E in Hq.
Qed.
Lemma sets_nfft n p : 0 ≤ n → sets (Psd.set_nfft n) p.
Proof.
  intros Hn. destruct (tuned_nfft n p) as (b & q & E & Ht & _). exists b, q. split_and!; [done|done|].
  intros Hi. pose proof (Psd.set_nfft_inv n p Hi Hn) as Hq. by rewrite E in Hq.
Qed.
Lemma sets_input addr l m p : sets (Psd.set_input addr l m) p.
Proof.
  destruct (tuned_input addr l m p) as (b & q & E & Ht & _). exists b, q. split_and!; [done|done|].
  intros Hi. pose proof (Psd.set_input_inv addr l m p Hi) as Hq. by rewrite E in Hq.
Qed.

Lemma param_kept m sc c :
  winv c → worker c ≠ Dead → (sc = false → steady c) → sets m (calc c) →
  ∃ b q, zoom_calc m c = (Ret b, set_calc q c) ∧ Psd.inv q ∧ computed q ∧
    ((sc || b) = false → steady (set_calc q c)).
Proof.
  intros Hw Hd Hs (b & q & E & Ht & Hi). exists b, q. split; [by apply zoom_calc_eq|].
  split; [apply Hi, Hw|]. split; [eapply tuned_computed; [exact Ht|by apply Hw]|].
  intros [Hsc Hb]%orb_false_iff. eapply tuned_steady; [exact Ht|done|by apply Hs].
Qed.

Lemma window_kept c :
  winv c → steady c → worker c ≠ Dead →
  ∃ b q, put_window c = (Ret b, set_calc q c) ∧ Psd.inv q ∧ computed q ∧ (b = false → steady (set_calc q c)).
Proof.
  intros Hw Hs Hd. unfold put_window. mstep. destruct (negb _); cbn [when].
  - eexists true, _. split; [reflexivity|]. split; [|split; [by apply Hw|done]].
    apply Psd.inv_replan; [apply Hw|done].
  - exists false, (calc c). split; [by destruct c|]. split; [apply Hw|]. split; [by apply Hw|].
    intros _. by destruct c.
Qed.

(** The statement [m], after which the worker is at [w]. *)
Lemma calculating_winv sc t c c' :
  winv c → worker c = Calculating sc t →
  catch (zoom_calc Psd.calculate ;;; goto (SetValid sc t)) (λ _, goto Dead) c = (Ret tt, c') → winv c'.
Proof.
  intros Hw Ewo. pose proof Hw as [Hn Hi Hc Hat]. unfold winv_at in Hat. rewrite Ewo in Hat. destruct Hat as [Hp Hs].
  specialize (Hc ltac:(by rewrite Ewo)). pose proof (Psd.calculate_inv (calc c) Hi) as [Hi' Hcr].
  unfold catch, bind, zoom_calc, zoom. destruct (Psd.calculate (calc c)) as [[[]|e|x] q] eqn:E.
  - intros [= <-]. destruct (calculate_settles _ _ Hi Hc E) as (Hiq & Hcq & Hsq & Hk).
    split; [done|done|done|]. unfold winv_at. cbn. split; [done|]. split; [done|].
    intros Hsc. destruct (Hs Hsc) as [Hset [Hst|[Ho Hr]]]; destruct (Hk Hset) as [[Hr' Eq]|[Hr' Ef]].
    + subst q. by left.
    + left. cbn. by rewrite Ef.
    + subst q. by right.
    + congruence.
  - intros [= <-]. by split.
  - done.
Qed.

Lemma invalid_if_empty_spec l c :
  invalid_if_empty l c = (Ret tt, if bool_decide (l = []) then set_valid false c else c).
Proof. unfold invalid_if_empty. by destruct (bool_decide (l = [])). Qed.

Lemma valid_nonempty (l : list spec_float) c :
  valid (if bool_decide (l = []) then set_valid false c else c) = true → l ≠ [] ∧ valid c = true.
Proof. by case_bool_decide. Qed.

(** What a statement without branches leaves. *)
Ltac statement E := unfold goto, bind, modify, when, ret in E; injection E as <-.

(** The rest of the state is as it was. *)
Ltac rest_kept := split; cbn; [done|done|by auto|]; unfold winv_at; cbn.

Lemma params_winv addr c c' sc :
  winv c → worker c = PutRate sc ∨ worker c = PutLength sc ∨ worker c = PutInput sc →
  advance addr c = (Ret tt, c') → winv c'.
Proof.
  intros Hw Hwo E. pose proof Hw as [Hn Hi Hc Hat]. unfold winv_at in Hat.
  assert (Hd : worker c ≠ Dead) by (by destruct Hwo as [Ex|[Ex|Ex]]; rewrite Ex).
  assert (Hat' : published c ∧ (sc = false → steady c)) by (by destruct Hwo as [Ew|[Ew|Ew]]; rewrite Ew in Hat).
  destruct Hat' as [Hp Hs]. unfold advance in E. unfold bind at 1, get in E.
  assert (Hgo : ∀ m next, sets m (calc c) →
    (∀ b q, winv_at (set_worker (next b) (set_calc q c)) = (published c ∧ (b = false → steady (set_calc q c)))) →
    (b <- zoom_calc m ;; goto (next (sc || b))) c = (Ret tt, c') → winv c').
  { intros m next Hm Hnext Em. destruct (param_kept m sc c Hw Hd Hs Hm) as (b & q & Eq & Hiq & Hcq & Hst).
    rewrite (bind_ret _ _ _ _ _ Eq) in Em. statement Em. split; [done|done|done|]. by rewrite Hnext. }
  destruct Hwo as [Ew|[Ew|Ew]]; rewrite Ew in E.
  - eapply (Hgo _ PutLength); [apply sets_fsamp|done|exact E].
  - eapply (Hgo _ PutInput); [by apply sets_nfft|done|exact E].
  - eapply (Hgo _ TakeTime); [apply sets_input|done|exact E].
Qed.

Lemma copies_winv addr c c' sc t :
  winv c → worker c = CopyOutput sc t ∨ worker c = CopyIntegral sc t ∨ worker c = CopyScale sc t →
  advance addr c = (Ret tt, c') → winv c'.
Proof.
  intros Hw Hwo E. pose proof Hw as [Hn Hi Hc Hat]. unfold winv_at in Hat. unfold advance in E.
  unfold bind at 1, get in E.
  assert (Hcp : computed (calc c)) by (apply Hc; by destruct Hwo as [Ex|[Ex|Ex]]; rewrite Ex).
  destruct Hwo as [Ew|[Ew|Ew]]; rewrite Ew in E, Hat.
  - destruct Hat as [[Hs Hsc] Ht]. erewrite (bind_ret (modify _)) in E by reflexivity. rewrite (bind_ret _ _ _ _ _ (invalid_if_empty_spec _ _)) in E.
    statement E. case_bool_decide as Ho; rest_kept; (split; [done|]); (split; [done|]); by split.
  - destruct Hat as [[Hs Hsc] (Ht & Ho & Hv)]. erewrite (bind_ret (modify _)) in E by reflexivity. rewrite (bind_ret _ _ _ _ _ (invalid_if_empty_spec _ _)) in E.
    statement E.
    assert (Hci : ∀ w, copied_integral (set_worker w (if bool_decide (Psd.outint (calc c) = [])
        then set_valid false (set_valoutint (not_empty (Psd.outint (calc c))) c)
        else set_valoutint (not_empty (Psd.outint (calc c))) c))).
    { intros w. by case_bool_decide; (split; [split; [done|by split]|by split]). }
    destruct sc.
    + specialize (Hci (CopyScale true t)). revert Hci. case_bool_decide; intros Hci; rest_kept; (split; [done|exact Hci]).
    + specialize (Hci (SetTime false t)). revert Hci. case_bool_decide; intros Hci;
        (split; [done|done|done|]); by apply all_copied; [| |done|apply Hsc].
  - destruct Hat as [[Hs Hsc] Hci]. erewrite (bind_ret (modify _)) in E by reflexivity. rewrite (bind_ret _ _ _ _ _ (invalid_if_empty_spec _ _)) in E.
    statement E. destruct Hci as ((Ht & Ho & Hv) & Hint & Hvi).
    case_bool_decide; (split; [done|done|done|]); apply all_copied; try done; try (by left);
      (split; [split; [done|by split]|by split]).
Qed.

Lemma advance_winv addr c c' : winv c → advance addr c = (Ret tt, c') → winv c'.
Proof.
  intros Hw E. pose proof E as E0. pose proof Hw as [Hn Hi Hc Hat]. unfold winv_at in Hat. unfold advance in E.
  unfold bind at 1, get in E.
  destruct (worker c) as [| | | | |sc|sc|sc|sc|sc t|sc t|sc t|sc t|sc t|sc t|sc t|sc t|sc| |] eqn:Ewo.
  - destruct (wake c); statement E; [by rest_kept|done].
  - statement E. by destruct (SFleb _ _); rest_kept.
  - statement E. by destruct (nfft c =? 0); rest_kept.
  - statement E. by rest_kept; destruct Hat.
  - destruct (window_kept c Hw) as (b & q & Eq & Hiq & Hcq & Hst); [apply Hat|by rewrite Ewo|].
    rewrite (bind_ret _ _ _ _ _ Eq) in E. statement E. split; [done|done|done|]. by split; [apply Hat|].
  - by eapply params_winv; [exact Hw|left|].
  - by eapply params_winv; [exact Hw|right; left|].
  - by eapply params_winv; [exact Hw|right; right|].
  - statement E. by rest_kept.
  - by eapply calculating_winv.
  - statement E. rest_kept. by destruct Hat.
  - statement E. by rest_kept.
  - by eapply copies_winv; [exact Hw|left|].
  - by eapply copies_winv; [exact Hw|right; left|].
  - by eapply copies_winv; [exact Hw|right; right|].
  - statement E. by rest_kept.
  - statement E. by rest_kept.
  - destruct sc; statement E; by rest_kept.
  - statement E. by rest_kept.
  - by injection E as <-.
Qed.
End worker_inv.

(** ** Records keep it *)

Section records_inv.
Context `{Psd.FftwLaws} `{EpicsRecord}.

Definition all_winv (cs : gmap string Calc) : Prop := map_Forall (λ _, winv) cs.
Definition keeps_winv {R} (s s' : dev R) : Prop := all_winv (pscmap s) → all_winv (pscmap s').

#[global] Instance keeps_winv_preorder {R} : PreOrder (@keeps_winv R).
Proof. split; [by intros s Ha|]. intros a b c Hab Hbc Ha. by apply Hbc, Hab. Qed.

Lemma stays_same {R A} (m : M (dev R) A) : (∀ s, pscmap (m s).2 = pscmap s) → stays keeps_winv m.
Proof. intros Hm s Ha. by rewrite Hm. Qed.

Lemma stays_put n c : winv c → ∀ R, stays (@keeps_winv R) (put_calc n c).
Proof. intros Hc R s Ha. cbn. by apply map_Forall_insert_2. Qed.

Lemma stays_with_calc {R} (k : string → Calc → M (dev R) dev_status) :
  (∀ n c, winv c → stays keeps_winv (k n c)) → stays keeps_winv (with_calc k).
Proof.
  intros Hk s Ha. unfold with_calc. mstep. destruct (dpvt s) as [n|]; [|done].
  destruct (pscmap s !! n) as [c|] eqn:E; [|done]. apply Hk; [|done]. by apply (Ha n).
Qed.

Lemma stays_CATCH {R} (m : M (dev R) dev_status) : stays keeps_winv m → stays keeps_winv (CATCH m).
Proof.
  intros Hm. apply stays_catch; [apply _|done|]. intros e. apply stays_bind; [apply _| |intros _; by apply stays_same].
  destruct e; apply stays_same; intros s; reflexivity.
Qed.

(** Composing the calls. *)
Ltac rec_step :=
  first
    [ apply stays_CATCH
    | apply stays_with_calc; intros ? ? ?
    | apply stays_put; repeat (apply winv_inputs; [|cbn; first [by apply w_nfft|by apply Z.mod_pos_bound]]); assumption
    | apply stays_bind; [apply _| |intros ?]
    | apply stays_ret; apply _ | apply stays_throw; apply _ | apply stays_abort; apply _ | apply stays_get; apply _
    | apply stays_same; intros ?; reflexivity
    | case_match ].

Lemma stays_commonInit {R} junk link r : stays (@keeps_winv R) (commonInit junk link r).
Proof.
  intros s Ha. unfold commonInit. mstep. destruct (pscmap s !! link); [done|]. mstep. mstep.
  cbn. apply map_Forall_insert_2; [apply winv_new|done].
Qed.

Lemma stays_take_time {R} t : stays (@keeps_winv R) (take_time t).
Proof. apply stays_same. intros s. unfold take_time, modify. cbn. by case_if. Qed.

Lemma stays_wf_input l st now n c : winv c → stays keeps_winv (wf_input l st now n c).
Proof.
  intros Hc. unfold wf_input. repeat first [apply stays_take_time|rec_step].
Qed.

Lemma stays_set_wf_input l st now info : stays keeps_winv (set_wf_input l st now info).
Proof.
  apply stays_CATCH. intros s Ha. mstep. destruct (dpvt s) as [n|].
  - destruct (pscmap s !! n) as [c|] eqn:E; [|done]. apply stays_wf_input; [|done]. by apply (Ha n).
  - destruct (info _) as [n|]; [|done]. destruct (pscmap s !! n) as [c|] eqn:E; [|done]. mstep.
    apply stays_wf_input; [|done]. by apply (Ha n).
Qed.

Lemma stays_copy_result f k :
  (∀ n c, winv c → stays keeps_winv (k n c)) → stays keeps_winv (copy_result f k).
Proof. intros Hk. unfold copy_result. repeat first [by apply Hk|rec_step]. Qed.

Lemma stays_timed e n c : winv c → stays keeps_winv (timed e n c).
Proof. intros Hc. unfold timed. repeat first [apply stays_take_time|rec_step]. Qed.

Lemma call_keeps R (m : M (dev R) dev_status) : is_call R m → stays keeps_winv m.
Proof.
  destruct 1; try (apply stays_CATCH, stays_commonInit).
  - unfold set_nfft. repeat rec_step.
  - unfold set_fsamp. repeat rec_step.
  - unfold set_scale. repeat rec_step.
  - unfold set_start. repeat rec_step.
  - unfold set_width. repeat rec_step.
  - unfold set_windtype. repeat rec_step.
  - unfold get_totalptime, get_number. repeat first [apply stays_take_time|rec_step].
  - unfold get_totalpfreq, get_number. repeat first [apply stays_take_time|rec_step].
  - unfold get_lasttime, get_number. repeat first [apply stays_take_time|rec_step].
  - unfold init_wf_in. repeat first [apply stays_commonInit|rec_step].
  - apply stays_set_wf_input.
  - apply stays_copy_result. intros n c Hc. by apply stays_timed.
  - apply stays_copy_result. intros n c Hc. by apply stays_timed.
  - apply stays_copy_result. intros n c Hc. by apply stays_same.
  - apply stays_copy_result. intros n c Hc. by apply stays_same.
Qed.

Lemma step_winv cs cs' : all_winv cs → step cs cs' → all_winv cs'.
Proof.
  intros Ha Hst. destruct Hst as [R m s o s' Hm E|cs n c i Hc Hi|cs n c addr c' Hc E].
  - exact (stays_run (call_keeps R m Hm) E Ha).
  - apply map_Forall_insert_2; [|done]. apply winv_inputs; [by apply (Ha n)|done].
  - apply map_Forall_insert_2; [|done]. apply (advance_winv addr c); [by apply (Ha n)|done].
Qed.

Lemma reachable_winv cs : rtc step ∅ cs → all_winv cs.
Proof.
  intros Hr. assert (Ha : all_winv ∅) by apply map_Forall_empty.
  induction Hr as [|a b c Hst _ IH]; [done|]. by apply IH, (step_winv a).
Qed.
End records_inv.

(** ** Properties *)

(** Where the results of a calculation are half copied. *)
Definition copying (w : wpc) : bool :=
  match w with CopyTotals _ _ | CopyOutput _ _ | CopyIntegral _ _ | CopyScale _ _ => true | _ => false end.

(** C34: What is published belongs together, once all of it is there.  Let records make any
    calls and workers get on, statement by statement, with the inputs changing between any two
    of them, for no lock keeps records out.  Whenever a worker is not just copying its
    results, as long as its calculation says they are valid, the spectrum, the frequencies,
    the integral and the total power are of one and the same calculation: the arrays that a
    display plots against each other have the same length and the same parameters behind
    them.  ([half_published] is about the time between.) *)
Theorem published_consistent `{Psd.FftwLaws} `{EpicsRecord} cs n c :
  rtc step ∅ cs → cs !! n = Some c → valid c = true → copying (worker c) = false →
  spectrum_of (valout c) (scaleout c) (valoutint c) (totalpowerfreq c).
Proof.
  intros Hr Hc Hv Hw. pose proof (w_at c (reachable_winv cs Hr n c Hc)) as Hat. unfold winv_at in Hat.
  by destruct (worker c); try done; apply Hat.
Qed.

(** The input window.  [set_wf_input] asks its link for no more elements than up to the
    end of the window.  When the window, cut to the number of elements the link gave, ends
    within the array of the record, these elements go to the calculation, which is woken;
    if the link gave that many, they are exactly the window of what it gave.  Otherwise
    [sampStart] and the number of elements together go past the end of the array, and what
    is behind it is read: the number is not cut to what is left after [sampStart]. *)
Theorem set_wf_input_outcomes `{EpicsRecord} l stamp now info n c (s : dev wfrec) :
  dpvt s = Some n → pscmap s !! n = Some c → 0 ≤ sampStart c → 0 ≤ sampWidth c →
  zlen (bptr (rec s)) = nelm (rec s) → zlen l ≤ nRequest (nelm (rec s)) c → nelm (rec s) < 2 ^ 32 →
  let count := if usewindow c && (sampWidth c <? zlen l) then sampWidth c else zlen l in
  let off := if usewindow c then sampStart c else 0 in
  let r := set_wf_input (λ _, Some l) stamp now info s in
  if nelm (rec s) <? off + count then r.1 = Crash OutOfBounds
  else ∃ s' vals, r = (Ret (Status 0), s') ∧
    pscmap s' = <[n := poke (put_valin (default now stamp) vals c)]> (pscmap s) ∧ zlen vals = count ∧
    (off + count ≤ zlen l → vals = zslice off count l).
Proof.
  intros Hd Hc Hst Hw Hm Hl Hn count off r. subst r.
  assert (Hnr : nRequest (nelm (rec s)) c ≤ nelm (rec s)).
  { unfold nRequest. cbn zeta. destruct (usewindow c); cbn [andb]; [|lia]. case_if; bool_to_prop; lia. }
  pose proof (zlen_nonneg l).
  assert (Hu : u32 (zlen l) = zlen l) by (apply wrapU_small; lia).
  set (buf := zblit 0 l (bptr (rec s))).
  assert (Hb : zlen buf = nelm (rec s)) by (unfold buf; rewrite zlen_zblit; lia).
  assert (Hoff : 0 ≤ off ∧ 0 ≤ count) by (unfold off, count; split; repeat case_if; lia).
  set (s1 := set_pscmap (<[n := poke (put_valin (default now stamp) (zslice off count buf) c)]> (pscmap s))
               (set_rec (Wf (nelm (rec s)) count buf) s)).
  assert (E : set_wf_input (λ _, Some l) stamp now info s =
    (if nelm (rec s) <? off + count then (Crash OutOfBounds, set_rec (Wf (nelm (rec s)) count buf) s)
     else (Ret (Status 0), (take_time (default now stamp) s1).2))).
  { unfold set_wf_input, CATCH, catch. mstep. rewrite Hd, Hc. unfold wf_input. do 4 mstep.
    cbn [rec set_rec nelm nord bptr]. rewrite Hu. fold count. fold off. fold buf. rewrite Hb.
    destruct (nelm (rec s) <? off + count); reflexivity. }
  rewrite E. destruct (nelm (rec s) <? off + count) eqn:Eo; [done|]. bool_to_prop.
  eexists _, (zslice off count buf). split; [reflexivity|]. split_and!.
  - unfold take_time, modify. cbn. by case_if.
  - apply zlen_zslice; lia.
  - intros Hle. unfold buf. rewrite zslice_zblit_inside by lia. by rewrite Z.sub_0_r.
Qed.

(** ** Concrete runs *)

Section runs.
#[local] Existing Instance Psd.toy_fftw.
#[local] Existing Instance Psd.toy_laws.
#[local] Existing Instance base_record.

Notation dbl := (of_int binary64).

Definition com0 : dbCommon := MkCommon 0 0 0 0 0 no_time.
Definition junk0 : Psd.window_t * spec_float * Psd.window_t := (Psd.NoWindow, fzero, Psd.NoWindow).
Definition no_conv : analog := Analog 0 fzero fzero 0 fzero fzero.
Definition calcname (_ : string) : option string := Some "A"%string.

(** A call by the record [r], and what it leaves of the calculations. *)
Definition calls {R} (m : M (dev R) dev_status) (r : R) (cs : gmap string Calc) : gmap string Calc :=
  pscmap (m (DevSt com0 r (Some "A"%string) cs)).2.

Lemma calls_step {R} (m : M (dev R) dev_status) r cs : is_call R m → step cs (calls m r cs).
Proof.
  intros Hm. apply (step_record R m (DevSt com0 r (Some "A"%string) cs)
    (m (DevSt com0 r (Some "A"%string) cs)).1 (m (DevSt com0 r (Some "A"%string) cs)).2 Hm).
  by destruct (m _).
Qed.

(** Five samples, blocks of two, at 1 Hz. *)
Definition five : option (list spec_float) := Some (dbl <$> [1; 2; 3; 4; 5]).
Definition asked : gmap string Calc :=
  calls (set_wf_input (λ _, five) None no_time calcname) (Wf 5 0 (replicate 5 fzero))
    (calls set_fsamp (Arec fone no_conv) (calls set_nfft (Longout 2)
       (calls (init_record_out junk0 "A"%string) (Longout 2) ∅))).

Lemma asked_reachable : rtc step ∅ asked.
Proof.
  eapply rtc_l; [apply (calls_step (init_record_out junk0 "A"%string) (Longout 2)); constructor|].
  eapply rtc_l; [apply (calls_step set_nfft (Longout 2)); constructor|].
  eapply rtc_l; [apply (calls_step set_fsamp (Arec fone no_conv)); constructor|].
  apply rtc_once. apply (calls_step (set_wf_input _ _ _ _)). constructor.
Qed.

(** Statements of the worker. *)
Definition turns (k : nat) (c : Calc) : Calc := Nat.iter k (λ c, (advance 0 c).2) c.
Definition returns_ (o : outcome unit) : bool := match o with Ret _ => true | _ => false end.

Lemma turns_reachable k cs c :
  rtc step ∅ cs → cs !! "A"%string = Some c →
  forallb (λ j, returns_ (advance 0 (turns j c)).1) (seq 0 k) = true →
  rtc step ∅ (<[ "A"%string := turns k c ]> cs).
Proof.
  intros Hr Hc Hret. induction k as [|k IH]; [by rewrite insert_id|].
  rewrite seq_S, forallb_app in Hret. apply andb_true_iff in Hret as [Hret Hk].
  cbn [forallb] in Hk. rewrite andb_true_r, Nat.add_0_l in Hk.
  eapply rtc_r; [by apply IH|]. rewrite <-(insert_insert_eq cs "A"%string (turns (S k) c) (turns k c)).
  apply (step_worker _ _ (turns k c) 0); [apply lookup_insert_eq|].
  change (turns (S k) c) with (advance 0 (turns k c)).2. revert Hk. clear.
  by destruct (advance 0 (turns k c)) as [[[]|e|x] c'].
Qed.

(** A round of the worker; the length of a block is changed; then it gets as far as to have
    copied the next spectrum. *)
Definition calc_of (cs : gmap string Calc) : Calc :=
  default (Calc_new Psd.NoWindow fzero Psd.NoWindow) (cs !! "A"%string).
Definition first_round : gmap string Calc := <[ "A"%string := turns 18 (calc_of asked) ]> asked.
Definition longer : gmap string Calc := calls set_nfft (Longout 4) first_round.
Definition halfway : gmap string Calc := <[ "A"%string := turns 12 (calc_of longer) ]> longer.

Lemma first_round_reachable : rtc step ∅ first_round.
Proof. apply turns_reachable; [apply asked_reachable|vm_compute; reflexivity..]. Qed.

Lemma halfway_reachable : rtc step ∅ halfway.
Proof.
  apply turns_reachable; [|vm_compute; reflexivity..].
  apply (rtc_r _ first_round); [apply first_round_reachable|]. unfold longer.
  apply (calls_step set_nfft (Longout 4) first_round). constructor.
Qed.

Lemma published_consistent_witness :
  let c := calc_of first_round in
  spectrum_of (valout c) (scaleout c) (valoutint c) (totalpowerfreq c) ∧ zlen (valout c) = 1.
Proof.
  intros c. split; [|vm_compute; reflexivity].
  apply (published_consistent first_round "A"%string c).
  - apply first_round_reachable.
  - vm_compute. reflexivity.
  - vm_compute. reflexivity.
  - vm_compute. reflexivity.
Defined.

(** A record with room for five elements: its status, severity and number of elements. *)
Definition display : wfrec := Wf 5 0 (replicate 5 fzero).
Definition shows (m : M (dev wfrec) dev_status) (cs : gmap string Calc) : outcome dev_status * Z * Z :=
  let r := m (DevSt com0 display (Some "A"%string) cs) in (r.1, nsev (com r.2), nord (rec r.2)).

(** C35: Readers can see one calculation mixed with another.  There is a run in which the block
    length is changed from two to four samples and records are processed while the worker
    copies the results of the next round: [valid] is already set, and the spectrum that a
    record gets has two elements, the frequencies one, both without an alarm. *)
Theorem half_published :
  ∃ cs c, rtc step ∅ cs ∧ cs !! "A"%string = Some c ∧ valid c = true ∧
    shows (get_wf_output fzero) cs = (Ret (Status 0), 0, 2) ∧ shows get_wf_fscale cs = (Ret (Status 0), 0, 1).
Proof.
  exists halfway, (calc_of halfway). split; [apply halfway_reachable|]. split_and!; vm_compute; reflexivity.
Qed.

(** A window of four samples from the third of five on: it ends behind the fifth. *)
Lemma set_wf_input_outcomes_witness :
  let c := put_width 4 (put_start 2 (Calc_new Psd.NoWindow fzero Psd.NoWindow)) in
  (set_wf_input (λ _, five) None no_time calcname
     (DevSt com0 (Wf 5 0 (replicate 5 fzero)) (Some "A"%string) {[ "A"%string := c ]})).1 = Crash OutOfBounds.
Proof.
  intros c.
  pose proof (set_wf_input_outcomes (dbl <$> [1; 2; 3; 4; 5]) None no_time calcname "A"%string c
    (DevSt com0 (Wf 5 0 (replicate 5 fzero)) (Some "A"%string) {[ "A"%string := c ]})) as Ho.
  cbn zeta in Ho. apply Ho; [reflexivity|reflexivity|vm_compute..|]; try done.
Defined.
End runs.
End Calculator.
