(* ===== verification/SigTable.v ===== *)
(** * The tables of spectrum records

    The uses of [MAKEDSET] at the end of sigApp/src/fftcalc.cpp, as in [DevTable], and their
    functions as the calls [Calculator.step] allows for: what [published_consistent] says
    holds of whatever EPICS base does through these tables. *)

From Stdlib Require Import Floats.SpecFloat.
From S2P Require Import Prelude Block PscBase Ieee DevCommon DevTable SigPsd SigCalc.

Module SigTable.
Import Calculator.

Section tables.
Context `{EpicsRecord}.

(** What a new [Calc] leaves uninitialized. *)
Variable junk : Psd.window_t * spec_float * Psd.window_t.

Abbreviation sig R := (dset Calc R string scan_list).

Definition init_inp {R} : link_init (M (dev R) dev_status) := λ _ link _, init_record_inp junk link.
Definition init_out {R} : link_init (M (dev R) dev_status) := λ _ link _, init_record_out junk link.
Definition init_out2 {R} : link_init (M (dev R) dev_status) := λ _ link _, init_record_out2 junk link.

(** [get_iointr_value], [get_iointr_fscale] *)
Definition iointr_value {R} : M (dev R) (dev_status * option scan_list) :=
  gets (λ s, let '(st, l) := get_iointr_value s in (Status st, l)).
Definition iointr_fscale {R} : M (dev R) (dev_status * option scan_list) :=
  gets (λ s, let '(st, l) := get_iointr_fscale s in (Status st, l)).

Definition devMBBOFFTsetwin : sig mbbo := MAKEDSET init_out None set_windtype.
Definition devLOFFTnfft : sig longout := MAKEDSET init_out None set_nfft.
Definition devLOFFTstart : sig longout := MAKEDSET init_out None set_start.
Definition devLOFFTwidth : sig longout := MAKEDSET init_out None set_width.
Definition devAOFFTFSamp : sig arec := MAKEDSET init_out2 None set_fsamp.
Definition devAOFFTScale : sig arec := MAKEDSET init_out2 None set_scale.
Definition devAIFFTTotPwrTime : sig arec := MAKEDSET init_inp (Some iointr_value) get_totalptime.
Definition devAIFFTTotPwrFreq : sig arec := MAKEDSET init_inp (Some iointr_value) get_totalpfreq.
Definition devAIFFTLasttime : sig arec := MAKEDSET init_inp (Some iointr_value) get_lasttime.

(** The input: its link has a type, and what it gives and when; a record the database does
    not know has no tags. *)
Definition devWFFFTInput (inp : link_type) (ftvl_double : bool) (dbGetLink : Z → option (list spec_float))
    (stamp : option epicsTime) (now : epicsTime) (tags : string → option string) : sig wfrec :=
  MAKEDSET (λ _ _ info, init_wf_in junk inp ftvl_double (default (λ _, None) info)) None
    (set_wf_input dbGetLink stamp now tags).

(** The spectrum and its integral; [elapsed] is what the timer says. *)
Definition devWFFFTOutput (elapsed : spec_float) : sig wfrec :=
  MAKEDSET init_inp (Some iointr_value) (get_wf_output elapsed).
Definition devWFFFTOutputInt (elapsed : spec_float) : sig wfrec :=
  MAKEDSET init_inp (Some iointr_value) (get_wf_outputint elapsed).
Definition devWFFFTFScale : sig wfrec := MAKEDSET init_inp (Some iointr_fscale) get_wf_fscale.
Definition devWFFFTFWindow : sig wfrec := MAKEDSET init_inp (Some iointr_fscale) get_wf_window.
End tables.

(** ** Calls through the tables *)

Section calls.
Context `{Psd.Fftw} `{EpicsRecord}.

(** Records of a table are initialized and processed by calls, and asking for a scan list
    changes nothing. *)
Record calls_only {R} (d : dset Calc R string scan_list) : Prop := {
  co_init inst_io link info : is_call R (init_record d inst_io link info);
  co_process : is_call R (readwrite d);
  co_scan f s : get_iointr_info d = Some f → ∃ r, f s = (Ret r, s);
}.

Ltac by_table := split; [intros; constructor|constructor|intros f s [= <-]; by eexists].

Lemma setting_tables junk :
  calls_only (devMBBOFFTsetwin junk) ∧ calls_only (devLOFFTnfft junk) ∧ calls_only (devLOFFTstart junk) ∧
  calls_only (devLOFFTwidth junk) ∧ calls_only (devAOFFTFSamp junk) ∧ calls_only (devAOFFTScale junk).
Proof. split_and!; by_table. Qed.

Lemma reading_tables junk elapsed :
  calls_only (devAIFFTTotPwrTime junk) ∧ calls_only (devAIFFTTotPwrFreq junk) ∧
  calls_only (devAIFFTLasttime junk) ∧ calls_only (devWFFFTOutput junk elapsed) ∧
  calls_only (devWFFFTOutputInt junk elapsed) ∧ calls_only (devWFFFTFScale junk) ∧
  calls_only (devWFFFTFWindow junk).
Proof. split_and!; by_table. Qed.

Lemma input_table junk inp d get stamp now tags :
  calls_only (devWFFFTInput junk inp d get stamp now tags).
Proof. by_table. Qed.
End calls.
End SigTable.
