(* ===== verification/Registry.v ===== *)
(** * The drivers of an IOC

    The static part of [PSCBase] (coreApp/src/pscbase.cpp): the map of all drivers by name,
    the functions with which a start-up script creates them, and what happens when the IOC
    starts and when it exits.  Class [EventBase] (evbase.cpp): the event loops the TCP and
    UDP drivers share, and the reference counts that keep them. *)

From Stdlib Require Import Floats.SpecFloat Sorting.Sorted.
From S2P Require Import Prelude EvBuffer Dbuffer Block PscBase PscTcp PscUdp UdpFast Ieee.

Module Drivers.

(** ** [std::map<std::string, T>] *)

(** Entries in the order of their keys. *)
Section strmap.
Context {A : Type}.
Implicit Types l : list (string * A).

Fixpoint map_set (k : string) (v : A) l : list (string * A) :=
  match l with
  | [] => [(k, v)]
  | e :: r =>
      match (k ?= e.1)%string with
      | Lt => (k, v) :: l
      | Eq => (k, v) :: r
      | Gt => e :: map_set k v r
      end
  end.

Fixpoint map_find (k : string) l : option A :=
  match l with
  | [] => None
  | e :: r => if decide (k = e.1) then Some e.2 else map_find k r
  end.

Definition map_erase (k : string) l : list (string * A) := filter (λ e, k ≠ e.1) l.
End strmap.

(** ** Objects *)

(** A driver object, by its class. *)
Inductive driver (B : Type) :=
  | Tcp (p : PSC B)
  | Udp (p : Udp.PSCUDP B)
  | FastUdp (p : Fast.sys B).
Arguments Tcp {B} p.
Arguments Udp {B} p.
Arguments FastUdp {B} p.

(** [obase]: the event loop a [PSCEventBase] holds, which [UDPFast] is not. *)
Record object (B : Type) := Object { odriver : driver B; obase : option nat }.
Arguments Object {B}.
Arguments odriver {B} _.
Arguments obase {B} _.

(** [EventBase]: whether its thread runs the loop, and the [shared_ptr]s to it. *)
Record EventBase := MkEventBase { running : bool; use_count : nat }.

(** What ends: the loop called [stopinloop] of a driver, the loop was left, an object was
    deleted, an event loop was freed. *)
Inductive event (B : Type) :=
  | StoppedInLoop (id : nat)
  | LoopExit (b : nat)
  | Deleted (id : nat) (d : driver B)
  | FreedBase (b : nat).
Arguments StoppedInLoop {B} id.
Arguments LoopExit {B} b.
Arguments Deleted {B} id d.
Arguments FreedBase {B} b.

(** The process.  Objects and loops have numbers for addresses, and none is used twice;
    [last_base] is a [weak_ptr].  [ioc_error] is set by [iocshSetError], [at_exit] when
    [PSCAtExit] is registered. *)
Record process (B : Type) := Process {
  pscmap : list (string * nat);
  objects : gmap nat (object B);
  bases : gmap nat EventBase;
  last_base : option nat;
  next : nat;
  ioc_error : bool;
  at_exit : bool;
  history : list (event B);
}.
Arguments Process {B}.
Arguments pscmap {B} _.
Arguments objects {B} _.
Arguments bases {B} _.
Arguments last_base {B} _.
Arguments next {B} _.
Arguments ioc_error {B} _.
Arguments at_exit {B} _.
Arguments history {B} _.

Section setters.
Context {B : Type}.
Implicit Types s : process B.

Definition set_pscmap v s : process B :=
  Process v (objects s) (bases s) (last_base s) (next s) (ioc_error s) (at_exit s) (history s).
Definition set_objects v s : process B :=
  Process (pscmap s) v (bases s) (last_base s) (next s) (ioc_error s) (at_exit s) (history s).
Definition set_bases v s : process B :=
  Process (pscmap s) (objects s) v (last_base s) (next s) (ioc_error s) (at_exit s) (history s).
Definition set_last_base v s : process B :=
  Process (pscmap s) (objects s) (bases s) v (next s) (ioc_error s) (at_exit s) (history s).
Definition set_next v s : process B :=
  Process (pscmap s) (objects s) (bases s) (last_base s) v (ioc_error s) (at_exit s) (history s).
Definition set_ioc_error v s : process B :=
  Process (pscmap s) (objects s) (bases s) (last_base s) (next s) v (at_exit s) (history s).
Definition set_at_exit v s : process B :=
  Process (pscmap s) (objects s) (bases s) (last_base s) (next s) (ioc_error s) v (history s).
Definition set_history v s : process B :=
  Process (pscmap s) (objects s) (bases s) (last_base s) (next s) (ioc_error s) (at_exit s) v.
End setters.

(** What the operating system and libevent answer to the constructors: [BaseOs] to
    [EventBase::EventBase]; [PscOs] to [PSC::PSC]; [UdpOs] to [PSCUDP::PSCUDP], with the
    texts of the errors; [FastOs] to [UDPFast::UDPFast], where [os_rcvbuf] is the size that
    [getsockopt] reports. *)
Record BaseOs := MkBaseOs { os_event_base : bool; os_keepalive : bool }.
Record PscOs (B : Type) := MkPscOs { os_timer : bool; os_dns : bool; os_sendbuf : option B }.
Arguments MkPscOs {B}.
Arguments os_timer {B} _.
Arguments os_dns {B} _.
Arguments os_sendbuf {B} _.
Record UdpOs := MkUdpOs {
  os_socket : bool;
  os_evt_rx : bool;
  os_evt_tx : bool;
  os_getaddrinfo : option string;
  os_inet : bool;
  os_bind : option string;
}.
Record FastOs := MkFastOs {
  os_fast_socket : bool;
  os_rcvtimeo : bool;
  os_rcvbuf : option Z;
  os_addr : bool;
  os_fast_bind : bool;
  os_getsockname : bool;
}.

(** Settings of the fast receiver from the IOC shell. *)
Class FastSizes := {
  PSCUDPMaxPacketSize : Z;
  PSCUDPMaxPacketRate : spec_float;
  PSCUDPBufferPeriod : spec_float;
  PSCUDPSetSockBuf : Z;
}.

Section drivers.
Context {B : Type} `{EvBuffer B} `{EpicsEnv} `{PscConfig} `{RecordSupport B}
  `{Udp.UdpNet} `{Udp.UdpRecords B} `{Fast.FastConfig} `{FastSizes}.
Implicit Types (s : process B) (d : driver B).

(** ** Virtual functions *)

Definition driver_base d : PSCBase B :=
  match d with
  | Tcp p => PscTcp.base p
  | Udp p => Udp.ubase p
  | FastUdp p => Fast.fbase (Fast.shared p)
  end.

Definition put_driver_base (b : PSCBase B) d : driver B :=
  match d with
  | Tcp p => Tcp (PscTcp.set_base b p)
  | Udp p => Udp (Udp.set_ubase b p)
  | FastUdp p => FastUdp (Fast.on_shared (Fast.set_fbase b) p)
  end.

Definition driver_name d : string := name (driver_base d).

(** A call of a virtual function goes to the function of the object's class. *)
Definition dispatch {A} (tcp : M (PSC B) A) (udp : M (Udp.PSCUDP B) A) (fast : M (Fast.sys B) A)
    : M (driver B) A := λ d,
  match d with
  | Tcp p => let '(o, p') := tcp p in (o, Tcp p')
  | Udp p => let '(o, p') := udp p in (o, Udp p')
  | FastUdp p => let '(o, p') := fast p in (o, FastUdp p')
  end.

(** [UDPFast] sends nothing. *)
#[global] Instance driver_virtual : PSCVirtual B (driver B) := {|
  psc_base := driver_base;
  put_base := put_driver_base;
  queueSend_id id buf := dispatch (PscTcp.queueSend id buf) (Udp.queueSend id buf) (ret tt);
  queueSend_dbuffer k buf :=
    dispatch (PscTcp.queueSend_block k buf) (Udp.queueSend_block k buf) (ret tt);
  queueSend_buf k buf :=
    dispatch (PscTcp.queueSend_bytes k buf) (Udp.queueSend_bytes k buf) (ret tt);
  psc_flushSend := dispatch PscTcp.flushSend Udp.flushSend (ret tt);
  psc_forceReConnect := dispatch PscTcp.forceReConnect Udp.forceReConnect (ret tt);
|}.

Definition connect (net : Net B) : M (driver B) unit :=
  dispatch (PscTcp.connect net) Udp.connect Fast.connect.

(** [stopinloop] of the two classes that use an event loop. *)
Definition stopinloop : M (driver B) unit := dispatch PscTcp.stopinloop Udp.stopinloop (ret tt).

(** ** Event loops *)

Definition record_event (e : event B) : M (process B) unit :=
  modify (λ s, set_history (history s ++ [e]) s).

(** A new address. *)
Definition allocate : M (process B) nat := λ s, (Ret (next s), set_next (S (next s)) s).

(** [EventBase::makeBase()]: the result is one more reference. *)
Definition makeBase (os : BaseOs) : M (process B) nat :=
  s <- get ;;
  match last_base s ≫= λ b, (b,.) <$> bases s !! b with
  | Some (b, eb) =>
      modify (set_bases (<[b := MkEventBase (running eb) (S (use_count eb))]> (bases s))) ;;;
      ret b
  | None =>
      if negb (os_event_base os) then throw BadAlloc
      else if negb (os_keepalive os) then throw BadAlloc
      else
        b <- allocate ;;
        modify (set_bases (<[b := MkEventBase true 1]> (bases s))) ;;;
        modify (set_last_base (Some b)) ;;;
        ret b
  end.

(** [EventBase::stop()]: leaves the loop and waits for the thread, which clears [running]. *)
Definition EventBase_stop (b : nat) : M (process B) unit :=
  s <- get ;;
  match bases s !! b with
  | None => abort Undefined
  | Some eb =>
      if negb (running eb) then ret tt
      else
        modify (set_bases (<[b := MkEventBase false (use_count eb)]> (bases s))) ;;;
        record_event (LoopExit b)
  end.

(** A [shared_ptr] goes away; the last one calls [EventBase::~EventBase]. *)
Definition release (b : nat) : M (process B) unit :=
  s <- get ;;
  match bases s !! b with
  | None => abort Undefined
  | Some eb =>
      match use_count eb with
      | S (S n) => modify (set_bases (<[b := MkEventBase (running eb) (S n)]> (bases s)))
      | _ =>
          EventBase_stop b ;;;
          record_event (FreedBase b) ;;;
          modify (λ s, set_bases (delete b (bases s)) s)
      end
  end.

(** ** Constructors and destructors *)

(** The constructor of [PSCBase] registers, its destructor removes the name. *)
Definition PSCBase_ctor (name : string) (id : nat) : M (process B) unit :=
  modify (λ s, set_pscmap (map_set name id (pscmap s)) s).
Definition PSCBase_dtor (name : string) : M (process B) unit :=
  modify (λ s, set_pscmap (map_erase name (pscmap s)) s).

(** Run [body] after a base class was constructed: when it throws, the base class is
    destroyed. *)
Definition or_destroy {A} (body : M (process B) A) (dtor : M (process B) unit)
    : M (process B) A :=
  catch body (λ e, dtor ;;; throw e).

Definition PSCEventBase_ctor (name : string) (id : nat) (os : BaseOs) : M (process B) nat :=
  PSCBase_ctor name id ;;;
  or_destroy (makeBase os) (PSCBase_dtor name).

Definition PSCEventBase_dtor (name : string) (b : nat) : M (process B) unit :=
  release b ;;; PSCBase_dtor name.

Definition put_object (id : nat) (o : object B) : M (process B) unit :=
  modify (λ s, set_objects (<[id := o]> (objects s)) s).

(** [PSC::PSC]: its body asks for the loop once more, and assigns the new reference over
    the one [PSCEventBase] has. *)
Definition PSC_ctor (name host : string) (port timeoutmask : Z) (bos : BaseOs) (os : PscOs B)
    : M (process B) unit :=
  id <- allocate ;;
  b <- PSCEventBase_ctor name id bos ;;
  or_destroy
    (b' <- makeBase bos ;;
     release b ;;;
     match os_sendbuf os with
     | Some sb =>
         if negb (os_timer os) || negb (os_dns os) then throw BadAlloc
         else put_object id (Object (Tcp (new_PSC name host port timeoutmask sb)) (Some b'))
     | None => throw BadAlloc
     end)
    (PSCEventBase_dtor name b).

(** The body of [PSCUDP::PSCUDP]. *)
Definition PSCUDP_body (os : UdpOs) : M (process B) unit :=
  if negb (os_socket os) then throw (RuntimeError "Failed to allocate socket")
  else if negb (os_evt_rx os) || negb (os_evt_tx os) then throw BadAlloc
  else
    match os_getaddrinfo os with
    | Some text => throw (RuntimeError text)
    | None =>
        assert_ (os_inet os) ;;;
        match os_bind os with
        | Some text => throw (RuntimeError ("bind() failed: " +:+ text)%string)
        | None => ret tt
        end
    end.

Definition PSCUDP_ctor (name host : string) (hostport : Z) (bos : BaseOs) (os : UdpOs)
    : M (process B) unit :=
  id <- allocate ;;
  b <- PSCEventBase_ctor name id bos ;;
  or_destroy
    (PSCUDP_body os ;;;
     put_object id (Object (Udp (Udp.new_PSCUDP name host hostport)) (Some b)))
    (PSCEventBase_dtor name b).

(** The sizes [UDPFast::UDPFast] computes: the length of a buffer, the packets per
    [recvmmsg], and the number of buffers, which is undefined when the product does not fit
    [size_t]. *)
Definition maxpktlen : Z := Z.max 8 PSCUDPMaxPacketSize.
Definition batch_size (rxbuflen : Z) : nat :=
  Z.to_nat (Z.min (Z.max 1 (rxbuflen / maxpktlen)) Fast.iovLimit).
Definition vpool_total : option Z :=
  let one := of_int binary64 1 in
  let need := fmul binary64 (fmul binary64 (of_int binary64 2) PSCUDPMaxPacketRate)
                PSCUDPBufferPeriod in
  n ← trunc (if SFltb one need then need else one);
  if n <? 2 ^ 64 then Some n else None.

(** The body of [UDPFast::UDPFast]; the result is the number of slots and of buffers. *)
Definition UDPFast_body (os : FastOs) : M (process B) (nat * Z) :=
  if negb (os_fast_socket os) then throw BadAlloc
  else if negb (os_rcvtimeo os) then throw (RuntimeError "Unable to set SO_RCVTIMEO")
  else
    let rxbuflen := default (u32 PSCUDPSetSockBuf) (os_rcvbuf os) in
    if rxbuflen =? 0 then throw (RuntimeError "zero RX buffer length not valid")
    else
      match vpool_total with
      | None => abort Undefined
      | Some total =>
          if negb (os_addr os) then throw (RuntimeError "Bad host/IP")
          else if negb (os_fast_bind os) then throw (RuntimeError "Unable to bind()")
          else if negb (os_getsockname os) then throw (RuntimeError "Unable to getsockname()")
          else ret (batch_size rxbuflen, total)
      end.

Definition UDPFast_ctor (name host : string) (port : Z) (os : FastOs) : M (process B) unit :=
  id <- allocate ;;
  PSCBase_ctor name id ;;;
  or_destroy
    (sizes <- UDPFast_body os ;;
     put_object id
       (Object (FastUdp (Fast.new_UDPFast (new_PSCBase name host port) sizes.1 sizes.2 maxpktlen))
          None))
    (PSCBase_dtor name).

(** [delete] of a driver. *)
Definition delete_driver (id : nat) : M (process B) unit :=
  s <- get ;;
  match objects s !! id with
  | None => abort Undefined
  | Some o =>
      modify (set_objects (delete id (objects s))) ;;;
      record_event (Deleted id (odriver o)) ;;;
      match obase o with
      | Some b => PSCEventBase_dtor (driver_name (odriver o)) b
      | None => PSCBase_dtor (driver_name (odriver o))
      end
  end.

(** ** Start-up script, start and exit *)

(** [try { new T(...); } catch(std::exception& e) { iocshSetError(1); }] *)
Definition create (ctor : M (process B) unit) : M (process B) unit :=
  catch ctor (λ _, modify (set_ioc_error true)).

Definition createPSC (name host : string) (port timeout : Z) (bos : BaseOs) (os : PscOs B)
    : M (process B) unit :=
  create (PSC_ctor name host (u16 port) (u32 timeout) bos os).

Definition createPSCUDP (name host : string) (hostport : Z) (bos : BaseOs) (os : UdpOs)
    : M (process B) unit :=
  create (PSCUDP_ctor name host (u16 hostport) bos os).

Definition createPSCUDPFast (name host : string) (hostport : Z) (os : FastOs)
    : M (process B) unit :=
  create (UDPFast_ctor name host (u16 hostport) os).

(** [PSCBase::getPSCBase], [PSCBase::getPSC<T>] with [T] given by the test of the
    [dynamic_cast]. *)
Definition getPSCBase (name : string) : M (process B) (option nat) :=
  gets (λ s, map_find name (pscmap s)).

Definition getPSC (is_T : driver B → bool) (name : string) : M (process B) (option nat) :=
  s <- get ;;
  match map_find name (pscmap s) with
  | None => ret None
  | Some id =>
      match objects s !! id with
      | None => abort Undefined
      | Some o => ret (if is_T (odriver o) then Some id else None)
      end
  end.

(** A call of a function of the object at [id]. *)
Definition on_object {A} (id : nat) (m : M (driver B) A) : M (process B) A := λ s,
  match objects s !! id with
  | None => (Crash Undefined, s)
  | Some o =>
      let '(r, d) := m (odriver o) in
      (r, set_objects (<[id := Object d (obase o)]> (objects s)) s)
  end.

(** [setPSCSendBlockSize] *)
Definition setPSCSendBlockSize (name : string) (bid size : Z) : M (process B) unit :=
  o <- getPSCBase name ;;
  match o with
  | None => ret tt
  | Some id => on_object id (PscBase.setPSCSendBlockSize bid size)
  end.

(** [PSCBase::startAll]; [nets] is what the connection of each driver meets. *)
Fixpoint start_each (nets : nat → Net B) (l : list (string * nat)) : M (process B) unit :=
  match l with
  | [] => ret tt
  | e :: r => on_object e.2 (connect (nets e.2)) ;;; start_each nets r
  end.

Definition startAll (nets : nat → Net B) : M (process B) unit :=
  s <- get ;; start_each nets (pscmap s).

(** [stop()] of an object.  [PSCEventBase::stop] queues [stopinloop] to the loop and then
    the end of the loop: a loop that has ended calls nothing any more. *)
Definition stop_driver (id : nat) : M (process B) unit :=
  s <- get ;;
  match objects s !! id with
  | None => abort Undefined
  | Some o =>
      match obase o with
      | None => on_object id (dispatch (ret tt) (ret tt) Fast.stop)
      | Some b =>
          match bases s !! b with
          | None => abort Undefined
          | Some eb =>
              when (running eb) (on_object id stopinloop ;;; record_event (StoppedInLoop id)) ;;;
              EventBase_stop b
          end
      end
  end.

(** [PSCBase::stopAll] *)
Fixpoint stop_each (l : list (string * nat)) : M (process B) unit :=
  match l with
  | [] => ret tt
  | e :: r => stop_driver e.2 ;;; delete_driver e.2 ;;; stop_each r
  end.

Definition stopAll : M (process B) unit :=
  s <- get ;;
  modify (set_pscmap []) ;;;
  stop_each (pscmap s).

(** [PSCHook], for each state the IOC announces; [PSCAtExit]. *)
Definition PSCHook (after_ioc_running : bool) (nets : nat → Net B) : M (process B) unit :=
  if negb after_ioc_running then ret tt
  else modify (set_at_exit true) ;;; startAll nets.

Definition PSCAtExit : M (process B) unit := stopAll.

End drivers.

(** The process before the start-up script. *)
Definition no_drivers {B} : process B := Process [] ∅ ∅ None 0 false false [].

(** ** Lemmas: the map *)

Section strmap_lemmas.
Context {A : Type}.
Implicit Types (l : list (string * A)) (k : string) (v : A).

Definition key_before (a b : string * A) : Prop := (a.1 ?= b.1)%string = Lt.
Definition sorted l : Prop := StronglySorted key_before l.

Lemma compare_le k1 k2 : (k1 ?= k2)%string = Lt ↔ String.le k1 k2 ∧ k1 ≠ k2.
Proof.
  unfold String.le, String.leb. split.
  - intros E. rewrite E. split; [done|]. intros ->.
    pose proof (String.compare_antisym k2 k2) as Ha. by rewrite E in Ha.
  - destruct (k1 ?= k2)%string eqn:E; [|done|by intros []].
    apply String.compare_eq_iff in E. by intros [].
Qed.

#[local] Instance key_before_trans : Transitive key_before.
Proof.
  intros [a ?] [b ?] [c ?]. unfold key_before. cbn. rewrite !compare_le. intros [Hab Hn] [Hbc _].
  split; [by trans b|]. intros ->. apply Hn. by apply (anti_symm String.le).
Qed.

Lemma compare_Gt k1 k2 : (k1 ?= k2)%string = Gt → (k2 ?= k1)%string = Lt.
Proof. intros E. by rewrite String.compare_antisym, E. Qed.

Lemma map_find_set k v k' l :
  map_find k' (map_set k v l) = if decide (k' = k) then Some v else map_find k' l.
Proof.
  induction l as [|[k0 v0] l IH]; cbn [map_set map_find fst snd]; [done|].
  destruct (k ?= k0)%string eqn:E; cbn [map_find fst snd].
  - apply String.compare_eq_iff in E as ->. by repeat case_decide.
  - done.
  - rewrite IH. assert (k ≠ k0) by (apply compare_Gt, compare_le in E as []; congruence).
    repeat case_decide; congruence.
Qed.

Lemma map_find_erase k k' l :
  map_find k' (map_erase k l) = if decide (k' = k) then None else map_find k' l.
Proof.
  unfold map_erase. induction l as [|[k0 v0] l IH]; [by case_decide|].
  rewrite filter_cons. cbn [map_find fst snd].
  repeat case_decide; cbn [map_find fst snd]; rewrite ?IH; repeat case_decide; congruence.
Qed.

Lemma map_erase_set k v l : map_erase k (map_set k v l) = map_erase k l.
Proof.
  unfold map_erase. induction l as [|[k0 v0] l IH]; cbn [map_set fst].
  - rewrite filter_cons. cbn. by rewrite decide_False by tauto.
  - destruct (k ?= k0)%string eqn:E; rewrite !filter_cons; cbn [fst].
    + apply String.compare_eq_iff in E as ->. by rewrite !decide_False by tauto.
    + by rewrite (decide_False (P := k ≠ k)) by tauto.
    + by rewrite IH.
Qed.

Lemma map_erase_sorted k l : sorted l → sorted (map_erase k l).
Proof.
  induction 1 as [|e l Hs IH Hf]; unfold map_erase; [constructor|].
  rewrite filter_cons. case_decide; [|done]. constructor; [done|].
  rewrite list.Forall_forall in *. intros x [_ Hx]%list_elem_of_filter. by apply Hf.
Qed.

Lemma map_set_sorted k v l : sorted l → sorted (map_set k v l).
Proof.
  induction 1 as [|e l Hs IH Hf]; cbn [map_set]; [repeat constructor|].
  destruct (k ?= e.1)%string eqn:E.
  - apply String.compare_eq_iff in E as ->. by constructor.
  - constructor; [by constructor|]. constructor; [done|].
    eapply list.Forall_impl; [exact Hf|]. intros x Hx. by trans e.
  - constructor; [done|]. apply compare_Gt in E. rewrite list.Forall_forall in *.
    assert (Hin : ∀ x, x ∈ map_set k v l → x = (k, v) ∨ x ∈ l).
    { clear. intros x. induction l as [|e' l IH]; cbn [map_set]; [set_solver|].
      destruct (k ?= e'.1)%string; set_solver. }
    intros x Hx. destruct (Hin x Hx) as [->|?]; [done|by apply Hf].
Qed.

Lemma map_find_elem k v l : sorted l → map_find k l = Some v ↔ (k, v) ∈ l.
Proof.
  induction 1 as [|[k0 v0] l Hs IH Hf]; cbn [map_find fst snd]; [set_solver|].
  rewrite elem_of_cons, <-IH. case_decide as Hk.
  - subst. split; [by intros [= ->]; left|]. intros [[= ->]|Hx]; [done|].
    apply IH in Hx. rewrite list.Forall_forall in Hf. specialize (Hf _ Hx). unfold key_before in Hf.
    cbn in Hf. apply compare_le in Hf as []. congruence.
  - split; [by right|]. intros [[= -> ->]|]; done.
Qed.

Lemma sorted_keys l : sorted l → NoDup l.*1.
Proof.
  induction 1 as [|e l Hs IH Hf]; cbn [fmap list_fmap]; constructor; [|done].
  rewrite list_elem_of_fmap. intros (x & E & Hx). rewrite list.Forall_forall in Hf.
  specialize (Hf _ Hx). unfold key_before in Hf. apply compare_le in Hf as [_ ?]. congruence.
Qed.
End strmap_lemmas.

End Drivers.
