(* ===== verification/Startup.v ===== *)
(** * What operations on the drivers of an IOC keep

    Lemmas about [Registry]: the map of names points to live objects of these names; event
    loops are counted exactly by the drivers that use them and by constructors at work; a
    constructor that throws takes its traces back.  [Lifecycle] has the theorems. *)

From Stdlib Require Import Sorting.Sorted.
From S2P Require Import Prelude EvBuffer Dbuffer Block PscBase PscTcp PscUdp UdpFast Registry.
From S2P Require Import PscTcpConn.

Import Drivers.

(** ** References to event loops *)

Section loops.
Context {B : Type}.
Implicit Types (s : process B) (b : nat) (objs : gmap nat (object B)).

Definition uses b (o : object B) : Prop := obase o = Some b.
#[export] Instance uses_dec b o : Decision (uses b o).
Proof. unfold uses. apply _. Defined.

(** The objects that hold a reference to a loop, and the references in the hands of
    constructors that have not finished. *)
Definition holders b objs : nat := size (filter (λ p, uses b p.2) objs).
Definition held_by (tmp : list nat) b : nat := length (filter (λ x, x = b) tmp).

Record loops_inv (tmp : list nat) s : Prop := {
  li_count b eb : bases s !! b = Some eb →
    use_count eb = (holders b (objects s) + held_by tmp b)%nat ∧ (0 < use_count eb)%nat;
  li_held id o b : objects s !! id = Some o → obase o = Some b → is_Some (bases s !! b);
  li_tmp b : b ∈ tmp → is_Some (bases s !! b);
  li_last b : is_Some (bases s !! b) → last_base s = Some b;
  li_base b : is_Some (bases s !! b) → (b < next s)%nat;
  li_object id : is_Some (objects s !! id) → (id < next s)%nat;
}.

Lemma holders_insert b id o objs :
  objs !! id = None →
  holders b (<[id := o]> objs) = ((if decide (uses b o) then 1 else 0) + holders b objs)%nat.
Proof.
  intros Hn. unfold holders. rewrite map_filter_insert. cbn. case_decide.
  - rewrite map_size_insert_None; [done|]. apply map_lookup_filter_None. left. done.
  - by rewrite delete_id.
Qed.

Lemma holders_delete b id o objs :
  objs !! id = Some o →
  holders b objs = ((if decide (uses b o) then 1 else 0) + holders b (delete id objs))%nat.
Proof.
  intros Ho. rewrite <-(insert_delete_id objs id o Ho) at 1.
  apply holders_insert. apply lookup_delete_eq.
Qed.

Lemma holders_update b id o o' objs :
  objs !! id = Some o → obase o' = obase o → holders b (<[id := o']> objs) = holders b objs.
Proof.
  intros Ho E. rewrite (holders_delete b id o objs Ho), <-insert_delete_eq.
  rewrite holders_insert by apply lookup_delete_eq.
  repeat case_decide; unfold uses in *; congruence.
Qed.

Lemma held_by_cons b x tmp :
  held_by (x :: tmp) b = ((if decide (x = b) then 1 else 0) + held_by tmp b)%nat.
Proof. unfold held_by. rewrite filter_cons. by case_decide. Qed.

(** The parts of the state that event loops do not use. *)
Definition names s := (pscmap s, ioc_error s, at_exit s).

Lemma loops_inv_names tmp s s' :
  objects s' = objects s → bases s' = bases s → last_base s' = last_base s →
  (next s ≤ next s')%nat → loops_inv tmp s → loops_inv tmp s'.
Proof.
  intros Eo Eb El Hn [Hc Hh Ht Hl Hb Hi].
  split; rewrite ?Eo, ?Eb, ?El; try done; intros x Hx;
    [specialize (Hb x Hx)|specialize (Hi x Hx)]; lia.
Qed.

(** Changing an object in place. *)
Lemma loops_inv_update tmp s id o o' :
  objects s !! id = Some o → obase o' = obase o →
  loops_inv tmp s → loops_inv tmp (set_objects (<[id := o']> (objects s)) s).
Proof.
  intros Ho E [Hc Hh Ht Hl Hb Hi]. split; cbn [set_objects objects bases last_base next]; try done.
  - intros b eb Hbb. rewrite (holders_update b id o o') by done. by apply Hc.
  - intros i x b [[<- <-]|[? Hx]]%lookup_insert_Some; [|by apply (Hh i)].
    rewrite E. by apply (Hh id).
  - intros i [x [[<- <-]|[? Hx]]%lookup_insert_Some]; apply Hi; eauto.
Qed.

(** A constructor that finishes leaves its reference to the new object. *)
Lemma loops_inv_insert tmp s id o b :
  objects s !! id = None → obase o = Some b → (id < next s)%nat →
  loops_inv (b :: tmp) s → loops_inv tmp (set_objects (<[id := o]> (objects s)) s).
Proof.
  intros Hn E Hid [Hc Hh Ht Hl Hb Hi]. split; cbn [set_objects objects bases last_base next]; try done.
  - intros b' eb Hbb. destruct (Hc b' eb Hbb) as [Hu Hp]. split; [|done].
    rewrite holders_insert by done. rewrite Hu, held_by_cons.
    repeat case_decide; unfold uses in *; congruence || lia.
  - intros i x b' [[<- <-]|[? Hx]]%lookup_insert_Some; [|by apply (Hh i)].
    rewrite E. intros [= <-]. apply Ht. by left.
  - intros b' Hb'. apply Ht. by right.
  - intros i [x [[<- <-]|[? Hx]]%lookup_insert_Some]; [done|apply Hi; eauto].
Qed.

(** An object without an event loop. *)
Lemma loops_inv_insert_none tmp s id o :
  objects s !! id = None → obase o = None → (id < next s)%nat →
  loops_inv tmp s → loops_inv tmp (set_objects (<[id := o]> (objects s)) s).
Proof.
  intros Hn E Hid [Hc Hh Ht Hl Hb Hi]. split; cbn [set_objects objects bases last_base next]; try done.
  - intros b' eb Hbb. rewrite holders_insert, decide_False by (done || unfold uses; congruence). by apply Hc.
  - intros i x b' [[<- <-]|[? Hx]]%lookup_insert_Some; [by rewrite E|by apply (Hh i)].
  - intros i [x [[<- <-]|[? Hx]]%lookup_insert_Some]; [done|apply Hi; eauto].
Qed.

(** An object that goes away leaves its reference to the one who deletes it. *)
Lemma loops_inv_delete tmp s id o b :
  objects s !! id = Some o → obase o = Some b →
  loops_inv tmp s → loops_inv (b :: tmp) (set_objects (delete id (objects s)) s).
Proof.
  intros Ho E [Hc Hh Ht Hl Hb Hi]. split; cbn [set_objects objects bases last_base next]; try done.
  - intros b' eb Hbb. destruct (Hc b' eb Hbb) as [Hu Hp]. split; [|done].
    rewrite Hu, held_by_cons, (holders_delete b' id o (objects s) Ho).
    repeat case_decide; unfold uses in *; congruence || lia.
  - intros i x b' [_ Hx]%lookup_delete_Some. by apply (Hh i).
  - intros b' [->|Hb']%elem_of_cons; [by apply (Hh id o)|by apply Ht].
  - intros i [x [_ Hx]%lookup_delete_Some]. apply Hi. eauto.
Qed.

Lemma loops_inv_delete_none tmp s id o :
  objects s !! id = Some o → obase o = None →
  loops_inv tmp s → loops_inv tmp (set_objects (delete id (objects s)) s).
Proof.
  intros Ho E [Hc Hh Ht Hl Hb Hi]. split; cbn [set_objects objects bases last_base next]; try done.
  - intros b' eb Hbb. destruct (Hc b' eb Hbb) as [Hu Hp]. split; [|done].
    rewrite Hu, (holders_delete b' id o (objects s) Ho).
    by rewrite decide_False by (unfold uses; congruence).
  - intros i x b' [_ Hx]%lookup_delete_Some. by apply (Hh i).
  - intros i [x [_ Hx]%lookup_delete_Some]. apply Hi. eauto.
Qed.
End loops.

(** ** Loops are made and released *)

Section ops.
Context {B : Type}.
Implicit Types (s : process B) (b : nat).

Definition stopped_in_loop s : list nat :=
  omap (λ e, match e with StoppedInLoop id => Some id | _ => None end) (history s).
Definition deleted s : list (nat * driver B) :=
  omap (λ e, match e with Deleted id d => Some (id, d) | _ => None end) (history s).

(** What constructors leave alone, besides names and objects. *)
Record keeps s s' : Prop := {
  k_error : ioc_error s' = ioc_error s;
  k_exit : at_exit s' = at_exit s;
  k_stopped : stopped_in_loop s' = stopped_in_loop s;
  k_deleted : deleted s' = deleted s;
  k_next : (next s ≤ next s')%nat;
}.

#[export] Instance keeps_preorder : PreOrder keeps.
Proof.
  split; [by split|]. intros x y z [E1 E2 E3 E4 E5] [F1 F2 F3 F4 F5].
  split; by (etrans; [eassumption|eassumption]) || lia || congruence.
Qed.

(** No loop is started again. *)
Definition runs_as s s' : Prop := ∀ b eb', bases s' !! b = Some eb' →
  ∃ eb, bases s !! b = Some eb ∧ (running eb' = true → running eb = true).

Lemma bases_empty tmp s : loops_inv tmp s → (∀ b, last_base s = Some b → bases s !! b = None) → bases s = ∅.
Proof.
  intros Hi Hn. apply map_eq. intros b. rewrite lookup_empty. apply eq_None_not_Some.
  intros Hb. pose proof (li_last _ _ Hi b Hb) as Hl. apply Hn in Hl. rewrite Hl in Hb. by destruct Hb.
Qed.

Definition base_ok (bos : BaseOs) : bool := os_event_base bos && os_keepalive bos.

(** Changing the entry of a loop. *)
Lemma loops_inv_set_base tmp tmp' s b eb :
  loops_inv tmp s → is_Some (bases s !! b) →
  use_count eb = (holders b (objects s) + held_by tmp' b)%nat → (0 < use_count eb)%nat →
  (∀ b', b' ≠ b → held_by tmp' b' = held_by tmp b') → (∀ b', b' ∈ tmp' → b' = b ∨ b' ∈ tmp) →
  loops_inv tmp' (set_bases (<[b := eb]> (bases s)) s).
Proof.
  intros [Hc Hh Ht Hl Hb Ho] Hs Hu Hp Hne Hin.
  assert (Hd : ∀ b', is_Some (<[b := eb]> (bases s) !! b') ↔ is_Some (bases s !! b')).
  { intros b'. rewrite lookup_insert_is_Some. destruct (decide (b = b')) as [->|]; tauto. }
  split; cbn [set_bases objects bases last_base next]; try done.
  - intros b' eb' [[<- <-]|[? E]]%lookup_insert_Some; [done|]. rewrite Hne by done. by apply Hc.
  - intros id o b' Hid Hob. apply Hd. by apply (Hh id o).
  - intros b' Hb'. apply Hd. destruct (Hin b' Hb') as [->|]; [done|by apply Ht].
  - intros b' Hb'%Hd. by apply Hl.
  - intros b' Hb'%Hd. by apply Hb.
Qed.

Lemma holders_none b (objs : gmap nat (object B)) :
  (∀ id o, objs !! id = Some o → obase o ≠ Some b) → holders b objs = 0%nat.
Proof.
  intros Hn. unfold holders. apply map_size_empty_iff, map_empty. intros id.
  apply map_lookup_filter_None. right. intros o Hid. by apply (Hn id).
Qed.

(** The first loop. *)
Lemma loops_inv_new_base tmp s b :
  loops_inv tmp s → bases s = ∅ → (b < next s)%nat →
  loops_inv (b :: tmp) (set_last_base (Some b) (set_bases (<[b := MkEventBase true 1]> ∅) s)).
Proof.
  intros [Hc Hh Ht Hl Hb Ho] He Hlt. rewrite He in *.
  assert (tmp = []) as ->.
  { destruct tmp as [|x ?]; [done|]. destruct (Ht x) as [? Hx]; [by left|done]. }
  assert (Hno : ∀ id o, objects s !! id = Some o → obase o = None).
  { intros id o Hid. destruct (obase o) as [x|] eqn:E; [|done]. by destruct (Hh id o x Hid E). }
  split; cbn [set_last_base set_bases objects bases last_base next]; try done.
  - intros b' eb' [<- <-]%lookup_singleton_Some. rewrite holders_none, held_by_cons.
    + cbn. rewrite decide_True by done. unfold held_by. cbn. lia.
    + intros id o Hid. by rewrite (Hno id o Hid).
  - intros id o b' Hid. by rewrite (Hno id o Hid).
  - intros b' ->%list_elem_of_singleton. rewrite lookup_insert_eq. eauto.
  - intros b' [? [<- _]%lookup_singleton_Some]. done.
  - intros b' [? [<- _]%lookup_singleton_Some]. done.
Qed.

Lemma makeBase_spec bos tmp s :
  loops_inv tmp s →
  (bases s = ∅ ∧ base_ok bos = false ∧ makeBase bos s = (Throw BadAlloc, s)) ∨
  ((bases s ≠ ∅ ∨ base_ok bos = true) ∧
   ∃ b s', makeBase bos s = (Ret b, s') ∧ loops_inv (b :: tmp) s' ∧
     objects s' = objects s ∧ pscmap s' = pscmap s ∧ keeps s s' ∧
     ∀ b', is_Some (bases s !! b') → b' = b).
Proof.
  intros Hi. unfold makeBase. erewrite !(bind_ret get) by reflexivity.
  match goal with |- context [match ?x with Some _ => _ | None => _ end] =>
    destruct x as [[b eb]|] eqn:E end.
  { apply bind_Some in E as (b0 & El & Hb). apply fmap_Some in Hb as (eb0 & Eb & [= <- <-]).
    right. split; [left; intros E; by rewrite E in Eb|].
    exists b. eexists. split; [reflexivity|]. split; [|do 2 (split; [done|])].
    - destruct (li_count _ _ Hi b eb Eb) as [Hu Hp].
      apply (loops_inv_set_base tmp); [done|by eexists| |cbn; lia| |].
      + rewrite held_by_cons, decide_True by done. cbn [use_count]. lia.
      + intros b' Hb'. by rewrite held_by_cons, decide_False.
      + intros b' [->|]%elem_of_cons; auto.
    - split; [by split|]. intros b' Hb'. apply (li_last _ _ Hi) in Hb'. congruence. }
  assert (He : bases s = ∅).
  { apply (bases_empty tmp s Hi). intros b Hb. rewrite Hb in E. cbn in E.
    by destruct (bases s !! b). }
  unfold base_ok. destruct (os_event_base bos), (os_keepalive bos); cbn; [|by left..].
  right. split; [by right|]. exists (next s). eexists. split; [reflexivity|]. cbn. rewrite He.
  split; [|split; [done|split; [done|split]]].
  - apply (loops_inv_new_base tmp (set_next (S (next s)) s)); [|done|cbn; lia].
    by apply (loops_inv_names tmp s); [..|cbn; lia|].
  - split; try done. cbn. lia.
  - intros b' Hb'. rewrite lookup_empty in Hb'. by destruct Hb'.
Qed.

Lemma loops_inv_free tmp s b eb :
  loops_inv (b :: tmp) s → bases s !! b = Some eb → use_count eb = 1%nat →
  loops_inv tmp (set_bases (delete b (bases s)) s).
Proof.
  intros [Hc Hh Ht Hl Hb Ho] Eb E1.
  destruct (Hc b eb Eb) as [Hu _]. rewrite held_by_cons, decide_True in Hu by done.
  assert (holders b (objects s) = 0%nat) as Hn1 by lia.
  assert (held_by tmp b = 0%nat) as Hn2 by lia.
  split; cbn [set_bases objects bases last_base next].
  - intros b' eb' [Hne E]%lookup_delete_Some. destruct (Hc b' eb' E) as [Hx Hp].
    rewrite held_by_cons, decide_False in Hx by done. done.
  - intros id o b' Hid Hob. rewrite lookup_delete_is_Some. split; [|by apply (Hh id o)].
    intros <-. rewrite (holders_delete b id o (objects s) Hid), decide_True in Hn1 by done. lia.
  - intros b' Hb'. rewrite lookup_delete_is_Some. split; [|apply Ht; by right].
    intros <-. unfold held_by in Hn2. apply length_zero_iff_nil in Hn2.
    assert (Hx : b ∈ filter (λ x, x = b) tmp); [by apply list_elem_of_filter|].
    rewrite Hn2 in Hx. by apply not_elem_of_nil in Hx.
  - intros b' [_ Hb']%lookup_delete_is_Some. by apply Hl.
  - intros b' [_ Hb']%lookup_delete_is_Some. by apply Hb.
  - done.
Qed.

(** Events other than [StoppedInLoop] and [Deleted] are only noise. *)
Lemma keeps_event s e :
  match e with LoopExit _ | FreedBase _ => True | _ => False end →
  keeps s (set_history (history s ++ [e]) s).
Proof.
  intros He. split; try done; unfold stopped_in_loop, deleted; cbn;
    rewrite omap_app; destruct e; try done; cbn; by rewrite app_nil_r.
Qed.

Lemma EventBase_stop_spec b eb s :
  bases s !! b = Some eb →
  ∃ s', EventBase_stop b s = (Ret tt, s') ∧
    bases s' = <[b := MkEventBase false (use_count eb)]> (bases s) ∧ objects s' = objects s ∧
    pscmap s' = pscmap s ∧ last_base s' = last_base s ∧ next s' = next s ∧ keeps s s'.
Proof.
  intros Eb. unfold EventBase_stop. rewrite (bind_ret get _ s s s eq_refl), Eb.
  destruct eb as [[] n]; cbn [negb running use_count].
  - eexists. split; [reflexivity|]. do 5 (split; [done|]).
    etrans; [apply (keeps_event s (LoopExit b)); done|]. by split.
  - exists s. by rewrite insert_id.
Qed.

Lemma release_spec b tmp s :
  loops_inv (b :: tmp) s →
  ∃ s', release b s = (Ret tt, s') ∧ loops_inv tmp s' ∧ objects s' = objects s ∧
    pscmap s' = pscmap s ∧ keeps s s' ∧ runs_as s s'.
Proof.
  intros Hi. destruct (li_tmp _ _ Hi b) as [eb Eb]; [by left|].
  destruct (li_count _ _ Hi b eb Eb) as [Hu Hp].
  rewrite held_by_cons, decide_True in Hu by done.
  unfold release. rewrite (bind_ret get _ s s s eq_refl), Eb.
  destruct (use_count eb) as [|[|n]] eqn:Ec; [lia| |].
  - destruct (EventBase_stop_spec b eb s Eb) as (s1 & E1 & Hb1 & Ho1 & Hm1 & Hl1 & Hn1 & Hk1).
    rewrite (bind_ret _ _ _ _ _ E1). eexists. split; [reflexivity|]. cbn.
    rewrite Hb1, delete_insert_eq. split; [|split; [done|split; [done|split]]].
    + eapply (loops_inv_names _ (set_bases (delete b (bases s)) s)); [done..|cbn; lia|].
      by apply (loops_inv_free _ _ _ eb).
    + etrans; [exact Hk1|]. etrans; [apply (keeps_event s1 (FreedBase b)); done|]. by split.
    + intros b' eb' Hx. change (delete b (bases s) !! b' = Some eb') in Hx.
      apply lookup_delete_Some in Hx as [_ Hx]. eauto.
  - eexists. split; [reflexivity|]. cbn. split; [|split; [done|split; [done|split; [by split|]]]].
    + apply (loops_inv_set_base (b :: tmp)); [done|by eexists|cbn [use_count]; lia|cbn; lia| |].
      * intros b' Hb'. by rewrite held_by_cons, decide_False.
      * intros b' Hb'. right. by right.
    + intros b' eb' Hx.
      change (<[b := MkEventBase (running eb) (S n)]> (bases s) !! b' = Some eb') in Hx.
      apply lookup_insert_Some in Hx as [[<- <-]|[? E]]; eauto.
Qed.
End ops.

(** ** Constructors *)

Section create.
Context {B : Type} `{EvBuffer B} `{Fast.FastConfig} `{FastSizes}.
Implicit Types (s : process B) (d : driver B).

(** The names point to live objects of these names. *)
Record names_inv s : Prop := {
  ni_sorted : sorted (pscmap s);
  ni_entry n id : map_find n (pscmap s) = Some id →
    ∃ o, objects s !! id = Some o ∧ driver_name (odriver o) = n;
}.

(** What constructing a driver under [name] does: [od] is the driver unless the body of the
    constructor throws, [ready] whether the base class can be constructed. *)
Definition constructs (name : string) (od : option (driver B)) (ready : Prop) s
    (m : M (process B) unit) : Prop :=
  match m s with
  | (Ret _, s') => ready ∧ ∃ d ob, od = Some d ∧
      objects s' = <[next s := Object d ob]> (objects s) ∧
      pscmap s' = map_set name (next s) (pscmap s) ∧ loops_inv [] s' ∧ keeps s s'
  | (Throw _, s') => ¬ (ready ∧ is_Some od) ∧ objects s' = objects s ∧
      pscmap s' = map_erase name (pscmap s) ∧ loops_inv [] s' ∧ keeps s s'
  | (Crash _, _) => False
  end.

(** The part of a constructor that runs once the base class has its reference [b]. *)
Definition constructs_body (id b : nat) (od : option (driver B)) (m : M (process B) unit)
    : Prop := ∀ s,
  loops_inv [b] s → objects s !! id = None → (id < next s)%nat →
  match m s with
  | (Ret _, s') => (∃ d, od = Some d ∧ objects s' = <[id := Object d (Some b)]> (objects s)) ∧
      pscmap s' = pscmap s ∧ loops_inv [] s' ∧ keeps s s'
  | (Throw _, s') => od = None ∧ objects s' = objects s ∧ pscmap s' = pscmap s ∧
      loops_inv [b] s' ∧ keeps s s'
  | (Crash _, _) => False
  end.

Lemma fresh_object tmp s : loops_inv tmp s → objects s !! next s = None.
Proof.
  intros Hi. apply eq_None_not_Some. intros Hs. apply (li_object _ _ Hi) in Hs. lia.
Qed.

Lemma event_ctor_spec name od bos (body : nat → nat → M (process B) unit) s :
  loops_inv [] s → (∀ id b, constructs_body id b od (body id b)) →
  constructs name od (bases s ≠ ∅ ∨ base_ok bos = true) s
    (id <- allocate ;;
     b <- PSCEventBase_ctor name id bos ;;
     or_destroy (body id b) (PSCEventBase_dtor name b)).
Proof.
  intros Hi Hbody. unfold constructs, PSCEventBase_ctor. mstep.
  set (s1 := set_pscmap (map_set name (next s) (pscmap s)) (set_next (S (next s)) s)).
  assert (Hi1 : loops_inv [] s1) by (apply (loops_inv_names _ s); [..|cbn; lia|]; done).
  assert (Hk1 : keeps s s1) by (split; [done..|cbn; lia]).
  destruct (makeBase_spec bos [] s1 Hi1) as
    [(He & Hno & E)|(Hok & b & s2 & E & Hi2 & Ho2 & Hm2 & Hk2 & _)].
  { rewrite (bind_throw _ _ _ BadAlloc (set_pscmap (map_erase name (pscmap s1)) s1));
      [|change (or_destroy (makeBase bos) (PSCBase_dtor name) s1 = (Throw BadAlloc,
      set_pscmap (map_erase name (pscmap s1)) s1)); unfold or_destroy, catch; by rewrite E].
    split; [change (bases s = ∅) in He; intros [[|] _]; congruence|]. split; [done|].
    split; [by apply map_erase_set|].
    split; [by apply (loops_inv_names _ s1)|]. trans s1; [done|by split]. }
  rewrite (bind_ret _ _ _ b s2);
    [|change (or_destroy (makeBase bos) (PSCBase_dtor name) s1 = (Ret b, s2)); by apply catch_ret].
  assert (Hn2 : objects s2 !! next s = None) by (rewrite Ho2; by apply (fresh_object [] s)).
  assert (Hid2 : (next s < next s2)%nat) by (pose proof (k_next _ _ Hk2); cbn in *; lia).
  pose proof (Hbody (next s) b s2 Hi2 Hn2 Hid2) as Hb. unfold or_destroy, catch.
  destruct (body (next s) b s2) as [[u|e|c] s3]; [| |done].
  - destruct Hb as ((d & Hd & Ho3) & Hm3 & Hi3 & Hk3). split; [done|]. exists d, (Some b).
    rewrite Ho3, Hm3, Hm2, Ho2. do 3 (split; [done|]). split; [done|].
    by trans s1; [|trans s2].
  - destruct Hb as (-> & Ho3 & Hm3 & Hi3 & Hk3).
    destruct (release_spec b [] s3 Hi3) as (s4 & E4 & Hi4 & Ho4 & Hm4 & Hk4 & _).
    erewrite bind_ret by (unfold PSCEventBase_dtor; rewrite (bind_ret _ _ _ _ _ E4); reflexivity).
    split; [by intros [_ []]|]. split; [etrans; [exact Ho4|]; etrans; [exact Ho3|exact Ho2]|].
    split; [change (map_erase name (pscmap s4) = map_erase name (pscmap s));
      rewrite Hm4, Hm3, Hm2; apply map_erase_set|]. split.
    + by apply (loops_inv_names _ s4).
    + trans s1; [done|]. trans s2; [done|]. trans s3; [done|]. trans s4; [done|]. by split.
Qed.

Definition built_PSC (name host : string) (port mask : Z) (os : PscOs B) : option (driver B) :=
  if os_timer os && os_dns os then
    (λ sb, Tcp (new_PSC name host port mask sb)) <$> os_sendbuf os
  else None.

Lemma PSC_body_spec name host port mask bos os id b :
  constructs_body id b (built_PSC name host port mask os)
    (b' <- makeBase bos ;;
     release b ;;;
     match os_sendbuf os with
     | Some sb =>
         if negb (os_timer os) || negb (os_dns os) then throw BadAlloc
         else put_object id (Object (Tcp (new_PSC name host port mask sb)) (Some b'))
     | None => throw BadAlloc
     end).
Proof.
  intros s Hi Hn Hid. destruct (li_tmp _ _ Hi b) as [eb Eb]; [by left|].
  destruct (makeBase_spec bos [b] s Hi) as
    [(He & _)|(_ & b' & s1 & E1 & Hi1 & Ho1 & Hm1 & Hk1 & Hu1)]; [by rewrite He in Eb|].
  assert (b = b') as <- by (apply Hu1; eauto).
  destruct (release_spec b [b] s1 Hi1) as (s2 & E2 & Hi2 & Ho2 & Hm2 & Hk2 & _).
  rewrite (bind_ret _ _ _ _ _ E1), (bind_ret _ _ _ _ _ E2). unfold built_PSC.
  assert (Hk : keeps s s2) by by trans s1.
  destruct (os_sendbuf os) as [sb|], (os_timer os), (os_dns os); cbn [negb orb andb fmap option_fmap option_map throw].
  2-8: split; [done|]; split; [congruence|]; split; [congruence|]; done.
  unfold put_object, modify. split; [eexists; split; [done|]; cbn; congruence|].
  split; [cbn; congruence|]. split.
  - apply (loops_inv_insert [] s2 id _ b); [congruence|done| |done].
    pose proof (k_next _ _ Hk). lia.
  - trans s2; [done|by split].
Qed.

Lemma PSC_ctor_spec name host port mask bos os s :
  loops_inv [] s →
  constructs name (built_PSC name host port mask os) (bases s ≠ ∅ ∨ base_ok bos = true) s
    (PSC_ctor name host port mask bos os).
Proof. intros Hi. apply event_ctor_spec; [done|]. intros id b. apply PSC_body_spec. Qed.

Definition udp_ready (os : UdpOs) : bool :=
  os_socket os && os_evt_rx os && os_evt_tx os && bool_decide (os_getaddrinfo os = None) &&
  bool_decide (os_bind os = None).
Definition built_PSCUDP (name host : string) (port : Z) (os : UdpOs) : option (driver B) :=
  if udp_ready os then Some (Udp (Udp.new_PSCUDP name host port)) else None.

(** [getaddrinfo] was asked for IPv4 addresses. *)
Lemma PSCUDP_ctor_spec name host port bos os s :
  loops_inv [] s → os_inet os = true →
  constructs name (built_PSCUDP name host port os) (bases s ≠ ∅ ∨ base_ok bos = true) s
    (PSCUDP_ctor name host port bos os).
Proof.
  intros Hi Hinet. apply event_ctor_spec; [done|]. clear s Hi. intros id b s Hi Hn Hid.
  unfold PSCUDP_body, built_PSCUDP, udp_ready. rewrite Hinet.
  assert (Hput : let s' := set_objects (<[id := Object (Udp (Udp.new_PSCUDP name host port)) (Some b)]> (objects s)) s in
    loops_inv [] s' ∧ keeps s s').
  { split; [by apply (loops_inv_insert [] s id _ b)|by split]. }
  destruct (os_socket os); [|done].
  destruct (os_evt_rx os); [|done]. destruct (os_evt_tx os); [|done].
  destruct (os_getaddrinfo os); [done|]. destruct (os_bind os); [done|].
  split; [by eexists|]. split; [done|]. exact Hput.
Qed.

Definition built_UDPFast (name host : string) (port : Z) (os : FastOs) : option (driver B) :=
  let rxbuflen := default (u32 PSCUDPSetSockBuf) (os_rcvbuf os) in
  if os_fast_socket os && os_rcvtimeo os && negb (rxbuflen =? 0) && os_addr os &&
     os_fast_bind os && os_getsockname os
  then (λ total, FastUdp (Fast.new_UDPFast (new_PSCBase name host port) (batch_size rxbuflen)
                            total maxpktlen)) <$> vpool_total
  else None.

Lemma UDPFast_ctor_spec name host port os s :
  loops_inv [] s → vpool_total ≠ None →
  constructs name (built_UDPFast name host port os) True s (UDPFast_ctor name host port os).
Proof.
  intros Hi Hpool. unfold UDPFast_ctor, constructs, built_UDPFast. mstep. mstep.
  set (s1 := set_pscmap _ _).
  assert (Hi1 : loops_inv [] s1) by (apply (loops_inv_names _ s); [..|cbn; lia|]; done).
  assert (Hk1 : keeps s s1) by (split; [done..|cbn; lia]).
  assert (Hfail : let s' := set_pscmap (map_erase name (pscmap s1)) s1 in
    objects s' = objects s ∧ pscmap s' = map_erase name (pscmap s) ∧ loops_inv [] s' ∧ keeps s s').
  { split; [done|]. split; [apply map_erase_set|]. split; [by apply (loops_inv_names _ s1)|].
    trans s1; [done|by split]. }
  unfold UDPFast_body. destruct vpool_total as [total|]; [|done]. cbn [fmap option_fmap option_map].
  destruct (os_fast_socket os); [|split; [by intros [_ []]|exact Hfail]].
  destruct (os_rcvtimeo os); [|split; [by intros [_ []]|exact Hfail]].
  destruct (_ =? 0); [split; [by intros [_ []]|exact Hfail]|].
  destruct (os_addr os); [|split; [by intros [_ []]|exact Hfail]].
  destruct (os_fast_bind os); [|split; [by intros [_ []]|exact Hfail]].
  destruct (os_getsockname os); [|split; [by intros [_ []]|exact Hfail]].
  split; [done|]. eexists _, None. split; [reflexivity|]. split; [done|]. split; [done|].
  split; [apply (loops_inv_insert_none [] s1); [by apply (fresh_object [] s)|done|cbn; lia|done]|].
  trans s1; [done|by split].
Qed.
End create.

(** ** What the operations keep *)

Section keep.
Context {B : Type} `{EvBuffer B} `{EpicsEnv} `{PscConfig} `{RecordSupport B}
  `{Udp.UdpNet} `{Udp.UdpRecords B} `{Fast.FastConfig} `{FastSizes}.
Implicit Types (s : process B) (d : driver B).

Definition same_name d d' : Prop := driver_name d' = driver_name d.

#[local] Instance same_name_preorder : PreOrder same_name.
Proof. split; [done|]. intros x y z E1 E2. unfold same_name in *. congruence. Qed.

(** Records do not rename the driver they are processed by. *)
Hypothesis records_keep_name : ∀ prec p,
  name (Udp.ubase (Udp.udp_dbProcess prec p).2) = name (Udp.ubase p).

Lemma dispatch_name {A} (t : M (PSC B) A) u f :
  (∀ p, name (PscTcp.base (t p).2) = name (PscTcp.base p)) →
  (∀ p, name (Udp.ubase (u p).2) = name (Udp.ubase p)) →
  (∀ p, name (Fast.fbase (Fast.shared (f p).2)) = name (Fast.fbase (Fast.shared p))) →
  stays same_name (dispatch t u f).
Proof.
  intros Ht Hu Hf [p|p|p]; unfold dispatch, same_name, driver_name.
  - specialize (Ht p). by destruct (t p).
  - specialize (Hu p). by destruct (u p).
  - specialize (Hf p). by destruct (f p).
Qed.

Lemma tcp_connect_name net (p : PSC B) :
  name (PscTcp.base (PscTcp.connect net p).2) = name (PscTcp.base p).
Proof.
  unfold PscTcp.connect. mstep.
  destruct (connected (PscTcp.base p)), (session p), (timer_active p); try done.
  destruct (net_socket_new net) as [[i o]|]; [|done].
  msteps. destruct (_ && _); [destruct (has _ _)|]; by destruct (net_connect net =? 0).
Qed.

Lemma udp_connect_name (p : Udp.PSCUDP B) :
  name (Udp.ubase (Udp.connect p).2) = name (Udp.ubase p).
Proof using records_keep_name.
  unfold Udp.connect. destruct (_ =? 0); [|done]. cbn [negb]. msteps.
  set (p1 := Udp.set_ubase _ _).
  assert (Hall : ∀ l q, name (Udp.ubase (Udp.process_records l q).2) = name (Udp.ubase q)).
  { intros l. induction l as [|prec l IH]; intros q; [done|]. cbn [Udp.process_records]. mstep.
    unfold bind. pose proof (records_keep_name prec) as Hr.
    specialize (Hr (Udp.set_ubase (set_log (log (Udp.ubase q) ++ [EDbProcess prec]) (Udp.ubase q)) q)).
    destruct (Udp.udp_dbProcess prec _) as [[u|e|c] q']; cbn in Hr; [|done..].
    etrans; [apply IH|]. done. }
  etrans; [apply Hall|]. done.
Qed.

Lemma connect_name net : stays same_name (connect net).
Proof using records_keep_name.
  apply dispatch_name; [apply tcp_connect_name|apply udp_connect_name|done].
Qed.

Lemma stopinloop_name : stays same_name stopinloop.
Proof.
  apply dispatch_name; [|done..]. intros p. unfold PscTcp.stopinloop. mstep.
  by destruct (connected _), (session p), (timer_active p).
Qed.

Lemma fast_stop_name : stays same_name (dispatch (ret tt) (ret tt) Fast.stop).
Proof. by apply dispatch_name. Qed.

Lemma put_driver_base_name b d : driver_name (put_driver_base b d) = name b.
Proof. by destruct d. Qed.

Lemma on_base_name {A} (m : M (PSCBase B) A) :
  (∀ b, name (m b).2 = name b) → stays same_name (on_base (P := driver B) m).
Proof.
  intros Hm d. unfold on_base, zoom, same_name. specialize (Hm (driver_base d)).
  change (psc_base d) with (driver_base d). destruct (m (driver_base d)) as [o b].
  etrans; [apply put_driver_base_name|exact Hm].
Qed.

Lemma resize_name bid size : stays same_name (PscBase.setPSCSendBlockSize bid size).
Proof.
  apply stays_catch; [apply _| |intros e; apply stays_ret; apply _].
  apply stays_bind; [apply _|apply on_base_name|intros k].
  { intros b. unfold getSend. by destruct (_ !! _). }
  apply stays_bind; [apply _|apply on_base_name|intros blk].
  { intros b. unfold send_block. by destruct (_ !! _). }
  intros d. destruct (dbuffer_resize _ _) as [o dd]. unfold same_name.
  etrans; [apply put_driver_base_name|done].
Qed.

(** ** The invariant of a process *)

Definition wf s : Prop := loops_inv [] s ∧ names_inv s.
Definition keeps_wf s s' : Prop := wf s → wf s'.

#[local] Instance keeps_wf_preorder : PreOrder keeps_wf.
Proof. split; [by intros s Hs|]. intros x y z E1 E2 Hx. by apply E2, E1. Qed.

Lemma wf_update s id o d :
  objects s !! id = Some o → same_name (odriver o) d → wf s →
  wf (set_objects (<[id := Object d (obase o)]> (objects s)) s).
Proof.
  intros Ho Hd [Hl [Hs He]]. split; [by apply (loops_inv_update [] s id o)|].
  split; [done|]. cbn. intros n i Hn. destruct (He n i Hn) as (o' & Ho' & Hn').
  destruct (decide (id = i)) as [->|]; [|rewrite lookup_insert_ne by done; eauto].
  rewrite lookup_insert_eq. eexists. split; [done|]. cbn. unfold same_name in Hd. congruence.
Qed.

Lemma on_object_keeps {A} id (m : M (driver B) A) :
  stays same_name m → stays keeps_wf (on_object id m).
Proof.
  intros Hm s Hs. unfold on_object. destruct (objects s !! id) as [o|] eqn:Ho; [|done].
  pose proof (Hm (odriver o)) as Hn. destruct (m (odriver o)) as [r d]. by apply wf_update.
Qed.

Lemma start_each_keeps nets l : stays keeps_wf (start_each nets l).
Proof using records_keep_name.
  induction l as [|e l IH]; cbn [start_each]; [apply stays_ret; apply _|].
  apply stays_bind; [apply _|apply on_object_keeps, connect_name|done].
Qed.
End keep.
