(* ===== verification/Lifecycle.v ===== *)
(** * The drivers of an IOC from start to exit

    A start-up script creates drivers, [startAll] connects them, [stopAll] stops and deletes
    them.  Which drivers a name reaches, which loop a driver is on, and which drivers are
    stopped. *)

From Stdlib Require Import Floats.SpecFloat Sorting.Sorted.
From S2P Require Import Prelude EvBuffer Dbuffer Block PscBase PscTcp PscUdp UdpFast Registry.
From S2P Require Import PscTcpConn Startup.
From S2P Require Import FastPool Ieee.

Import Drivers.

Section life.
Context {B : Type} `{EvBuffer B} `{EpicsEnv} `{PscConfig} `{RecordSupport B}
  `{Udp.UdpNet} `{Udp.UdpRecords B} `{Fast.FastConfig} `{FastSizes}.
Implicit Types (s : process B) (d : driver B).

(** ** The commands of a start-up script *)

(** A command, with what the operating system answers to it. *)
Inductive command :=
  | CmdPSC (name host : string) (port timeout : Z) (bos : BaseOs) (os : PscOs B)
  | CmdPSCUDP (name host : string) (hostport : Z) (bos : BaseOs) (os : UdpOs)
  | CmdPSCUDPFast (name host : string) (hostport : Z) (os : FastOs).

Definition run_command (c : command) : M (process B) unit :=
  match c with
  | CmdPSC name host port timeout bos os => createPSC name host port timeout bos os
  | CmdPSCUDP name host hostport bos os => createPSCUDP name host hostport bos os
  | CmdPSCUDPFast name host hostport os => createPSCUDPFast name host hostport os
  end.

Definition command_name (c : command) : string :=
  match c with
  | CmdPSC name _ _ _ _ _ | CmdPSCUDP name _ _ _ _ | CmdPSCUDPFast name _ _ _ => name
  end.

(** The driver a command makes, when it has an event loop and its own calls succeed. *)
Definition built (c : command) : option (driver B) :=
  match c with
  | CmdPSC name host port timeout bos os => built_PSC name host (u16 port) (u32 timeout) os
  | CmdPSCUDP name host hostport bos os => built_PSCUDP name host (u16 hostport) os
  | CmdPSCUDPFast name host hostport os => built_UDPFast name host (u16 hostport) os
  end.

(** A loop exists, or a new one can be made. *)
Definition has_loop (c : command) s : bool :=
  match c with
  | CmdPSC _ _ _ _ bos _ | CmdPSCUDP _ _ _ bos _ => negb (bool_decide (bases s = ∅)) || base_ok bos
  | CmdPSCUDPFast _ _ _ _ => true
  end.

(** [getaddrinfo] finds an IPv4 address when asked for one, and the number of buffers
    fits. *)
Definition command_ok (c : command) : Prop :=
  match c with
  | CmdPSC _ _ _ _ _ _ => True
  | CmdPSCUDP _ _ _ _ os => os_inet os = true
  | CmdPSCUDPFast _ _ _ _ => vpool_total ≠ None
  end.

Lemma built_name c d : built c = Some d → driver_name d = command_name c.
Proof.
  destruct c as [name host port timeout bos os|name host port bos os|name host port os]; cbn.
  - unfold built_PSC. destruct (_ && _); [|done]. destruct (os_sendbuf os); [|done]. by intros [= <-].
  - unfold built_PSCUDP. destruct (udp_ready os); [|done]. by intros [= <-].
  - unfold built_UDPFast. case_if; [|done]. destruct vpool_total; [|done]. by intros [= <-].
Qed.

Definition constructor (c : command) : M (process B) unit :=
  match c with
  | CmdPSC name host port timeout bos os => PSC_ctor name host (u16 port) (u32 timeout) bos os
  | CmdPSCUDP name host hostport bos os => PSCUDP_ctor name host (u16 hostport) bos os
  | CmdPSCUDPFast name host hostport os => UDPFast_ctor name host (u16 hostport) os
  end.

Lemma constructor_spec c s :
  loops_inv [] s → command_ok c →
  constructs (command_name c) (built c) (has_loop c s = true) s (constructor c).
Proof.
  intros Hi Hok.
  assert (Hiff : ∀ bos, (negb (bool_decide (bases s = ∅)) || base_ok bos = true) ↔
    (bases s ≠ ∅ ∨ base_ok bos = true)).
  { intros bos. by rewrite orb_true_iff, negb_true_iff, bool_decide_eq_false. }
  assert (Hc : ∀ n od P Q m, (Q ↔ P) → constructs n od P s m → constructs n od Q s m).
  { intros n od P Q m HPQ. unfold constructs. destruct (m s) as [[]?]; rewrite ?HPQ; done. }
  destruct c; cbn [command_name built has_loop constructor command_ok] in *.
  - eapply Hc; [apply Hiff|by apply PSC_ctor_spec].
  - eapply Hc; [apply Hiff|by apply PSCUDP_ctor_spec].
  - eapply Hc; [|by apply UDPFast_ctor_spec]. done.
Qed.

Lemma names_inv_set s id o n :
  objects s !! id = None → driver_name (odriver o) = n → names_inv s →
  names_inv (set_pscmap (map_set n id (pscmap s)) (set_objects (<[id := o]> (objects s)) s)).
Proof.
  intros Hn Ho [Hs He]. split; [by apply map_set_sorted|]. cbn. intros n' i.
  rewrite map_find_set. case_decide as Hd; [intros [= <-]|intros Hi].
  - rewrite lookup_insert_eq. subst. eauto.
  - destruct (He n' i Hi) as (o' & Ho' & Hn'). rewrite lookup_insert_ne by congruence. eauto.
Qed.

Lemma names_inv_same s s' :
  pscmap s' = pscmap s → objects s' = objects s → names_inv s → names_inv s'.
Proof. intros E1 E2 [Hs He]. split; rewrite ?E1, ?E2; done. Qed.

Lemma names_inv_erase s s' n :
  pscmap s' = map_erase n (pscmap s) → (∀ n' id, n' ≠ n → map_find n' (pscmap s) = Some id →
    objects s' !! id = objects s !! id) → names_inv s → names_inv s'.
Proof.
  intros E1 E2 [Hs He]. split; rewrite E1; [by apply map_erase_sorted|]. intros n' id.
  rewrite map_find_erase. case_decide; [done|]. intros Hi. rewrite (E2 n' id) by done. by apply He.
Qed.

(** Everything a command does. *)
Lemma run_command_spec c s :
  wf s → command_ok c →
  ∃ s', run_command c s = (Ret tt, s') ∧ wf s' ∧ at_exit s' = at_exit s ∧
    stopped_in_loop s' = stopped_in_loop s ∧ deleted s' = deleted s ∧
    match built c, has_loop c s with
    | Some d, true => ∃ ob, objects s' = <[next s := Object d ob]> (objects s) ∧
        pscmap s' = map_set (command_name c) (next s) (pscmap s) ∧ ioc_error s' = ioc_error s
    | _, _ => objects s' = objects s ∧ pscmap s' = map_erase (command_name c) (pscmap s) ∧
        ioc_error s' = true
    end.
Proof.
  intros [Hl Hn] Hok. pose proof (constructor_spec c s Hl Hok) as Hc.
  assert (E : run_command c s = create (constructor c) s) by by destruct c.
  rewrite E. unfold create, catch, constructs in *.
  destruct (constructor c s) as [[u|e|cr] s1]; [| |done].
  - destruct Hc as (Hready & d & ob & Hd & Ho & Hm & Hl1 & [K1 K2 K3 K4 K5]).
    exists s1. destruct u. split; [done|]. split.
    { split; [done|]. eapply names_inv_same, (names_inv_set s (next s) (Object d ob) (command_name c)).
      - done. - done. - by apply (fresh_object []). - by apply built_name. - done. }
    rewrite Hd, Hready. do 3 (split; [done|]). eauto.
  - destruct Hc as (Hready & Ho & Hm & Hl1 & [K1 K2 K3 K4 K5]).
    eexists. split; [reflexivity|]. split.
    { split; [by apply (loops_inv_names _ s1)|].
      apply (names_inv_erase s _ (command_name c)); [done| |done]. intros. cbn. by rewrite Ho. }
    do 3 (split; [done|]).
    destruct (built c), (has_loop c s); try done. exfalso. apply Hready. eauto.
Qed.

(** ** Stopping and deleting *)

(** Parts of the state that only [startAll] and commands change. *)
Definition settings s := (ioc_error s, at_exit s).

Lemma names_inv_delete s s' id o :
  objects s !! id = Some o → objects s' = delete id (objects s) →
  pscmap s' = map_erase (driver_name (odriver o)) (pscmap s) → names_inv s → names_inv s'.
Proof.
  intros Ho E1 E2 Hn. eapply names_inv_erase; [exact E2| |exact Hn].
  intros n' i Hne Hi. rewrite E1. apply lookup_delete_ne. intros <-.
  destruct (ni_entry _ Hn n' id Hi) as (o' & Ho' & <-). congruence.
Qed.

Lemma delete_driver_spec id o s :
  wf s → objects s !! id = Some o →
  ∃ s', delete_driver id s = (Ret tt, s') ∧ wf s' ∧ objects s' = delete id (objects s) ∧
    pscmap s' = map_erase (driver_name (odriver o)) (pscmap s) ∧ runs_as s s' ∧
    stopped_in_loop s' = stopped_in_loop s ∧ deleted s' = deleted s ++ [(id, odriver o)] ∧
    (obase o = None → bases s' = bases s).
Proof.
  intros [Hl Hn] Ho. unfold delete_driver. rewrite (bind_ret get _ s s s eq_refl), Ho. mstep. mstep.
  set (s1 := set_history _ _).
  assert (Hst : stopped_in_loop s1 = stopped_in_loop s ∧ deleted s1 = deleted s ++ [(id, odriver o)]).
  { unfold stopped_in_loop, deleted. subst s1. cbn. rewrite !omap_app. cbn. by rewrite app_nil_r. }
  destruct Hst as [Hst1 Hst2].
  assert (Hfin : ∀ s2, loops_inv [] s2 → objects s2 = delete id (objects s) → pscmap s2 = pscmap s →
    runs_as s s2 → stopped_in_loop s2 = stopped_in_loop s1 → deleted s2 = deleted s1 →
    (obase o = None → bases s2 = bases s) →
    ∃ s', PSCBase_dtor (driver_name (odriver o)) s2 = (Ret tt, s') ∧ wf s' ∧
      objects s' = delete id (objects s) ∧
      pscmap s' = map_erase (driver_name (odriver o)) (pscmap s) ∧ runs_as s s' ∧
      stopped_in_loop s' = stopped_in_loop s ∧ deleted s' = deleted s ++ [(id, odriver o)] ∧
      (obase o = None → bases s' = bases s)).
  { intros s2 Hl2 E1 E2 Hr2 E3 E4 E5. eexists. split; [reflexivity|].
    assert (Em : pscmap (set_pscmap (map_erase (driver_name (odriver o)) (pscmap s2)) s2) =
      map_erase (driver_name (odriver o)) (pscmap s)) by (cbn [set_pscmap pscmap]; by rewrite E2).
    split; [|split; [done|split; [exact Em|split; [done|]]]].
    - split; [by apply (loops_inv_names _ s2)|]. by apply (names_inv_delete s _ id o).
    - split; [exact (eq_trans E3 Hst1)|split; [exact (eq_trans E4 Hst2)|done]]. }
  destruct (obase o) as [b|] eqn:Eb.
  - pose proof (loops_inv_delete [] s id o b Ho Eb Hl) as Hl1.
    destruct (release_spec b [] s1) as (s2 & E2 & Hl2 & Ho2 & Hm2 & [K1 K2 K3 K4 K5] & Hr2).
    { by apply (loops_inv_names _ _ s1) in Hl1. }
    unfold PSCEventBase_dtor. rewrite (bind_ret _ _ _ _ _ E2). by apply Hfin.
  - pose proof (loops_inv_delete_none [] s id o Ho Eb Hl) as Hl1.
    apply Hfin; try done; [by apply (loops_inv_names _ _ s1) in Hl1|]. intros b eb Hb. eauto.
Qed.

(** [stopinloop] of a connected driver that has a session. *)
Definition stoppable d : Prop :=
  match d with
  | Tcp p => connected (PscTcp.base p) = true → session p ≠ None
  | _ => True
  end.

Lemma stopinloop_returns d : stoppable d → ∃ d', stopinloop d = (Ret tt, d').
Proof.
  destruct d as [p|p|p]; [|by eexists..]. intros Hp. cbn in Hp.
  unfold stopinloop, dispatch, PscTcp.stopinloop. rewrite (bind_ret get _ p p p eq_refl).
  destruct (connected (PscTcp.base p)); [destruct (session p); [|by destruct Hp]|];
    destruct (timer_active p); eauto.
Qed.

(** The loop an object uses, when it runs. *)
Definition on_running_loop s (o : object B) : bool :=
  match obase o ≫= λ b, bases s !! b with Some eb => running eb | None => false end.

(** [EventBase::stop] keeps the invariant, and the one loop there is has ended. *)
Lemma EventBase_stop_wf b eb s s' :
  wf s → bases s !! b = Some eb → EventBase_stop b s = (Ret tt, s') →
  wf s' ∧ objects s' = objects s ∧ pscmap s' = pscmap s ∧ runs_as s s' ∧
  stopped_in_loop s' = stopped_in_loop s ∧ deleted s' = deleted s ∧
  ∀ b' eb', bases s' !! b' = Some eb' → running eb' = false.
Proof.
  intros [Hl Hn] Eb E. destruct (EventBase_stop_spec b eb s Eb)
    as (s1 & E1 & Hb1 & Ho1 & Hm1 & Hl1 & Hn1 & [K1 K2 K3 K4 K5]).
  rewrite E in E1. injection E1 as <-. destruct (li_count _ _ Hl b eb Eb) as [Hu Hp].
  split; [|do 2 (split; [done|]); split; [|do 2 (split; [done|])]].
  - split; [|by apply (names_inv_same s)].
    eapply (loops_inv_names _ (set_bases (<[b := MkEventBase false (use_count eb)]> (bases s)) s));
      [done..|cbn; lia|].
    apply (loops_inv_set_base []); [done|by eexists|done|done|done|by right].
  - intros b' eb'. rewrite Hb1. intros [[<- <-]|[? Hx]]%lookup_insert_Some; [by eexists|eauto].
  - intros b' eb'. rewrite Hb1. intros [[<- <-]|[Hne Hx]]%lookup_insert_Some; [done|].
    destruct Hne. assert (is_Some (bases s !! b')) as Hs'%(li_last _ _ Hl) by eauto.
    assert (is_Some (bases s !! b)) as Hs%(li_last _ _ Hl) by eauto. congruence.
Qed.

Lemma stop_driver_spec id o s :
  wf s → objects s !! id = Some o → stoppable (odriver o) →
  ∃ s' d', stop_driver id s = (Ret tt, s') ∧ wf s' ∧
    objects s' = <[id := Object d' (obase o)]> (objects s) ∧ pscmap s' = pscmap s ∧
    runs_as s s' ∧ deleted s' = deleted s ∧
    match obase o with
    | None => bases s' = bases s
    | Some _ => ∀ b eb, bases s' !! b = Some eb → running eb = false
    end ∧
    if on_running_loop s o then stopped_in_loop s' = stopped_in_loop s ++ [id]
    else stopped_in_loop s' = stopped_in_loop s ∧ (is_Some (obase o) → d' = odriver o).
Proof.
  intros Hwf Ho Hstop. pose proof Hwf as [Hl Hn]. unfold stop_driver, on_running_loop.
  rewrite (bind_ret get _ s s s eq_refl), Ho.
  destruct (obase o) as [b|] eqn:Eb; cbn [mbind option_bind].
  2: { pose proof (fast_stop_name (odriver o)) as Hname. unfold on_object. rewrite Ho.
    destruct (dispatch (ret tt) (ret tt) Fast.stop (odriver o)) as [r d'] eqn:Ed.
    assert (r = Ret tt) as -> by (destruct (odriver o); by injection Ed).
    eexists _, d'. split; [reflexivity|]. split; [by apply wf_update|].
    split; [by cbn; rewrite Eb|]. split; [done|]. split; [by intros b eb; eauto|].
    do 3 (split; [done|]). by intros []. }
  destruct (li_held _ _ Hl id o b Ho Eb) as [eb Hb]. rewrite Hb.
  destruct (running eb) eqn:Er; cbn [when].
  - destruct (stopinloop_returns (odriver o) Hstop) as [d' Ed].
    pose proof (stopinloop_name (odriver o)) as Hname. rewrite Ed in Hname.
    set (s1 := set_objects (<[id := Object d' (obase o)]> (objects s)) s).
    assert (E1 : on_object id stopinloop s = (Ret tt, s1)).
    { unfold on_object. by rewrite Ho, Ed. }
    set (s2 := set_history (history s1 ++ [StoppedInLoop id]) s1).
    rewrite (bind_ret _ _ _ tt s2); [|by rewrite (bind_ret _ _ _ _ _ E1)].
    assert (Hwf2 : wf s2).
    { destruct (wf_update s id o d' Ho Hname Hwf) as [Hl1 Hn1].
      split; [by apply (loops_inv_names _ s1)|by apply (names_inv_same s1)]. }
    destruct (EventBase_stop_spec b eb s2 Hb) as (s3 & E3 & _).
    destruct (EventBase_stop_wf b eb s2 s3 Hwf2 Hb E3) as (Hwf3 & Ho3 & Hm3 & Hr3 & Hs3 & Hd3 & Hf3).
    exists s3, d'. split; [done|]. split; [done|]. split; [by rewrite Ho3; cbn; rewrite Eb|].
    split; [done|]. split; [done|]. split.
    { rewrite Hd3. unfold deleted, s2, s1. cbn. rewrite omap_app. cbn. by rewrite app_nil_r. }
    split; [done|]. rewrite Hs3. unfold stopped_in_loop, s2, s1. cbn. by rewrite omap_app.
  - destruct (EventBase_stop_spec b eb s Hb) as (s3 & E3 & _).
    destruct (EventBase_stop_wf b eb s s3 Hwf Hb E3) as (Hwf3 & Ho3 & Hm3 & Hr3 & Hs3 & Hd3 & Hf3).
    exists s3, (odriver o). split; [by rewrite (bind_ret (ret tt) _ s tt s eq_refl)|].
    split; [done|]. split; [rewrite Ho3, insert_id; [done|]; rewrite Ho; by destruct o; cbn in *; subst|].
    do 5 (split; [done|]). done.
Qed.

Lemma stop_delete_spec id o s :
  wf s → pscmap s = [] → objects s !! id = Some o → stoppable (odriver o) →
  ∃ s0 s' d', stop_driver id s = (Ret tt, s0) ∧ delete_driver id s0 = (Ret tt, s') ∧ wf s' ∧ pscmap s' = [] ∧
    objects s' = delete id (objects s) ∧ runs_as s s' ∧ deleted s' = deleted s ++ [(id, d')] ∧
    match obase o with
    | None => bases s' = bases s
    | Some _ => ∀ b eb, bases s' !! b = Some eb → running eb = false
    end ∧
    if on_running_loop s o then stopped_in_loop s' = stopped_in_loop s ++ [id]
    else stopped_in_loop s' = stopped_in_loop s ∧ (is_Some (obase o) → d' = odriver o).
Proof.
  intros Hwf Hm Ho Hst.
  destruct (stop_driver_spec id o s Hwf Ho Hst) as (s1 & d' & E1 & Hwf1 & Ho1 & Hm1 & Hr1 & Hd1 & Hb1 & Hs1).
  destruct (delete_driver_spec id (Object d' (obase o)) s1 Hwf1) as
    (s2 & E2 & Hwf2 & Ho2 & Hm2 & Hr2 & Hs2 & Hd2 & Hb2); [by rewrite Ho1, lookup_insert_eq|].
  exists s1, s2, d'. do 3 (split; [done|]).
  split; [by rewrite Hm2, Hm1, Hm|]. split; [by rewrite Ho2, Ho1, delete_insert_eq|]. split.
  { intros b eb Hb. destruct (Hr2 b eb Hb) as (eb1 & Hb' & Hrun). destruct (Hr1 b eb1 Hb') as (eb0 & ? & ?).
    eauto. }
  split; [by rewrite Hd2, Hd1|]. rewrite Hs2. split; [|done].
  cbn [obase] in Hb2. destruct (obase o); [|by rewrite Hb2].
  intros b eb Hb. destruct (Hr2 b eb Hb) as (eb1 & Hb' & Hrun). specialize (Hb1 b eb1 Hb').
  destruct (running eb); [|done]. by rewrite Hrun in Hb1.
Qed.

(** The drivers of a list that are on an event loop. *)
Definition on_event_loop s id : Prop := is_Some (objects s !! id ≫= obase).
#[export] Instance on_event_loop_dec s id : Decision (on_event_loop s id).
Proof. unfold on_event_loop. apply _. Defined.

Definition loops_are (r : bool) s : Prop := ∀ b eb, bases s !! b = Some eb → running eb = r.

(** [stopAll] ran to its end: what it called, deleted and left. *)
Record stop_outcome (l : list nat) (called : list nat) s s' : Prop := {
  so_wf : wf s';
  so_names : pscmap s' = [];
  so_objects id : objects s' !! id = if decide (id ∈ l) then None else objects s !! id;
  so_called : stopped_in_loop s' = stopped_in_loop s ++ called;
  so_deleted : ∃ dels, deleted s' = deleted s ++ dels ∧ dels.*1 = l ∧
    ∀ id d o, (id, d) ∈ dels → objects s !! id = Some o → is_Some (obase o) → id ∉ called →
      d = odriver o;
}.

Lemma filter_on_loop s s' (l : list nat) :
  (∀ id, id ∈ l → objects s' !! id = objects s !! id) →
  filter (on_event_loop s') l = filter (on_event_loop s) l.
Proof.
  intros Hl. induction l as [|id l IH]; [done|]. rewrite !filter_cons.
  assert (Hid : on_event_loop s' id ↔ on_event_loop s id).
  { unfold on_event_loop. rewrite Hl; [done|by left]. }
  rewrite IH by (intros; apply Hl; by right).
  repeat case_decide; tauto || done.
Qed.

Lemma stop_each_spec r l s :
  wf s → pscmap s = [] → NoDup l.*2 → (∀ e, e ∈ l → is_Some (objects s !! e.2)) →
  (∀ id o, objects s !! id = Some o → stoppable (odriver o)) → loops_are r s →
  ∃ s', stop_each l s = (Ret tt, s') ∧
    stop_outcome l.*2 (if r then take 1 (filter (on_event_loop s) l.*2) else []) s s'.
Proof.
  revert r s. induction l as [|e l IH]; intros r s Hwf Hm Hnd Hin Hst Hr; cbn [stop_each].
  { exists s. split; [done|]. split; [done|done| |by destruct r; rewrite app_nil_r|].
    - intros id. by rewrite decide_False by apply not_elem_of_nil.
    - exists []. split; [by rewrite app_nil_r|]. split; [done|]. intros id d o Hx. by apply not_elem_of_nil in Hx. }
  cbn [fmap list_fmap] in Hnd. apply list.NoDup_cons in Hnd as [Hni Hnd].
  destruct (Hin e) as [o Ho]; [by left|].
  destruct (stop_delete_spec e.2 o s Hwf Hm Ho (Hst _ _ Ho))
    as (s0 & s1 & d' & E0 & E1 & Hwf1 & Hm1 & Ho1 & Hr1 & Hd1 & Hb1 & Hs1).
  rewrite (bind_ret _ _ _ _ _ E0), (bind_ret _ _ _ _ _ E1).
  set (r1 := if obase o then false else r).
  assert (Hr1' : loops_are r1 s1).
  { subst r1. unfold loops_are. destruct (obase o); [done|]. by rewrite Hb1. }
  assert (Hsame : ∀ id, id ∈ l.*2 → objects s1 !! id = objects s !! id).
  { intros id Hid. rewrite Ho1. apply lookup_delete_ne. intros <-. by apply Hni. }
  destruct (IH r1 s1 Hwf1 Hm1 Hnd) as (s2 & E2 & [Hwf2 Hm2 Ho2 Hc2 (dels & Hd2 & Hids & Hun)]).
  { intros e' He'. rewrite Hsame; [apply Hin; by right|]. by apply list_elem_of_fmap_2. }
  { intros id o' Ho'. rewrite Ho1 in Ho'. apply lookup_delete_Some in Ho' as [_ Ho']. by apply (Hst id). }
  { done. }
  rewrite (filter_on_loop s s1 l.*2 Hsame) in Hc2, Hun.
  exists s2. split; [exact E2|]. cbn [fmap list_fmap].
  (* what was called *)
  set (called := if r then take 1 (filter (on_event_loop s) (e.2 :: l.*2)) else []).
  set (called1 := if r1 then take 1 (filter (on_event_loop s) l.*2) else []) in *.
  assert (Hcalled : stopped_in_loop s1 ++ called1 = stopped_in_loop s ++ called ∧
    (∀ id, id ∉ called → id ∉ called1) ∧ (is_Some (obase o) → e.2 ∉ called → d' = odriver o)).
  { subst called called1 r1. rewrite filter_cons.
    assert (Hev : on_event_loop s e.2 ↔ is_Some (obase o)) by (unfold on_event_loop; by rewrite Ho).
    unfold on_running_loop in Hs1. destruct (obase o) as [b|] eqn:Eb; cbn [mbind option_bind] in Hs1.
    - rewrite decide_True by (apply Hev; by eexists). destruct (li_held _ _ (proj1 Hwf) _ _ _ Ho Eb) as [eb Hb].
      rewrite Hb, (Hr b eb Hb) in Hs1. destruct r.
      + rewrite Hs1. cbn [take]. rewrite firstn_O, app_nil_r. split; [done|]. split; [set_solver|].
        intros _ Hx. destruct Hx. by left.
      + destruct Hs1 as [-> Hd']. split; [by rewrite !app_nil_r|]. split; [done|]. intros Hs _. by apply Hd'.
    - rewrite decide_False by (intros Hx%Hev; by destruct Hx). destruct Hs1 as [-> _]. split; [done|].
      split; [done|]. by intros []. }
  destruct Hcalled as (Hc & Hsub & Hd').
  split; [done|done| | |].
  - intros id. rewrite Ho2, Ho1. destruct (decide (id ∈ l.*2)) as [Hid|Hid].
    + rewrite decide_True by by right. done.
    + destruct (decide (id = e.2)) as [->|Hne].
      * rewrite lookup_delete_eq, decide_True by by left. done.
      * rewrite lookup_delete_ne by congruence. rewrite decide_False; [done|]. by apply not_elem_of_cons.
  - by rewrite Hc2, Hc.
  - exists ((e.2, d') :: dels). split; [by rewrite Hd2, Hd1, <-app_assoc|].
    split; [cbn; by rewrite Hids|]. intros id d o' [[= -> ->]|Hx]%elem_of_cons Ho' Hs Hid.
    + rewrite Ho in Ho'. injection Ho' as <-. by apply Hd'.
    + apply (Hun id d o' Hx); [|done|by apply Hsub]. rewrite Hsame; [done|]. rewrite <-Hids. by apply (list_elem_of_fmap_2 fst) in Hx.
Qed.

(** ** All of them *)

Lemma pscmap_ids s : names_inv s →
  NoDup (pscmap s).*2 ∧ ∀ e, e ∈ pscmap s → is_Some (objects s !! e.2).
Proof.
  intros [Hs He].
  assert (Hin : ∀ e, e ∈ pscmap s → ∃ o, objects s !! e.2 = Some o ∧ driver_name (odriver o) = e.1).
  { intros [n id] Hx. apply (He n id). by apply map_find_elem. }
  split; [|intros e Hx; destruct (Hin e Hx) as (o & -> & _); eauto].
  pose proof (sorted_keys _ Hs) as Hk. clear He Hs. revert Hk Hin.
  induction (pscmap s) as [|e l IH]; intros Hk Hin; cbn [fmap list_fmap] in *; [constructor|].
  apply list.NoDup_cons in Hk as [Hn Hk]. constructor; [|apply IH; [done|intros x Hx; apply Hin; by right]].
  intros (e' & Ee & Hx)%list_elem_of_fmap. apply Hn.
  destruct (Hin e) as (o & Ho & <-); [by left|]. destruct (Hin e') as (o' & Ho' & E'); [by right|].
  rewrite <-Ee in Ho'. rewrite Ho in Ho'. injection Ho' as <-. rewrite E'. by apply list_elem_of_fmap_2.
Qed.

Lemma registered s id : names_inv s → id ∈ (pscmap s).*2 ↔ ∃ n, map_find n (pscmap s) = Some id.
Proof.
  intros Hn. rewrite list_elem_of_fmap. split.
  - intros ([n i] & -> & Hx). exists n. by apply map_find_elem; [apply ni_sorted|].
  - intros [n Hx]. apply map_find_elem in Hx; [|by apply ni_sorted]. by exists (n, id).
Qed.

(** There is one loop, so loops are all running or all stopped. *)
Lemma one_loop s : wf s → ∃ r, loops_are r s.
Proof.
  intros [Hl _]. destruct (last_base s) as [b|] eqn:E.
  - exists (from_option running false (bases s !! b)). intros b' eb' Hb'.
    assert (is_Some (bases s !! b')) as Hx%(li_last _ _ Hl) by eauto. rewrite E in Hx. injection Hx as ->.
    by rewrite Hb'.
  - exists false. intros b' eb' Hb'. assert (is_Some (bases s !! b')) as Hx%(li_last _ _ Hl) by eauto.
    congruence.
Qed.

Definition all_stoppable s : Prop := ∀ id o, objects s !! id = Some o → stoppable (odriver o).

Lemma stopAll_spec r s :
  wf s → all_stoppable s → loops_are r s →
  ∃ s', stopAll s = (Ret tt, s') ∧
    stop_outcome (pscmap s).*2 (if r then take 1 (filter (on_event_loop s) (pscmap s).*2) else []) s s'.
Proof.
  intros [Hl Hn] Hst Hr. destruct (pscmap_ids s Hn) as [Hnd Hin]. unfold stopAll. mstep. mstep.
  destruct (stop_each_spec r (pscmap s) (set_pscmap [] s)) as (s' & E & Ho); try done.
  - split; [by apply (loops_inv_names _ s)|]. split; [constructor|done].
  - exists s'. split; [exact E|]. destruct Ho as [O1 O2 O3 O4 O5].
    split; [exact O1|exact O2|exact O3|exact O4|exact O5].
Qed.

(** Connecting. *)
Definition connects (nets : nat → Net B) s s' id : Prop :=
  ∃ o d, objects s !! id = Some o ∧ connect (nets id) (odriver o) = (Ret tt, d) ∧
    objects s' !! id = Some (Object d (obase o)).

Lemma start_each_frame nets l s :
  let s' := (start_each nets l s).2 in
  (∀ id, id ∉ l.*2 → objects s' !! id = objects s !! id) ∧ pscmap s' = pscmap s ∧ bases s' = bases s.
Proof.
  revert s. induction l as [|e l IH]; intros s; cbn [start_each]; [done|].
  unfold bind, on_object. destruct (objects s !! e.2) as [o|]; [|done].
  destruct (connect (nets e.2) (odriver o)) as [[u|x|c] d]; cbn [snd].
  - destruct (IH (set_objects (<[e.2 := Object d (obase o)]> (objects s)) s)) as (Hf1 & Hf2 & Hf3).
    split; [|done]. intros id Hid. cbn in Hid. apply not_elem_of_cons in Hid as [? ?].
    rewrite Hf1 by done. cbn. by rewrite lookup_insert_ne by congruence.
  - split; [|done]. intros id Hid. cbn in Hid. apply not_elem_of_cons in Hid as [? ?].
    cbn. by rewrite lookup_insert_ne by congruence.
  - split; [|done]. intros id Hid. cbn in Hid. apply not_elem_of_cons in Hid as [? ?].
    cbn. by rewrite lookup_insert_ne by congruence.
Qed.

Lemma start_each_spec nets l s :
  NoDup l.*2 → (∀ e, e ∈ l → is_Some (objects s !! e.2)) →
  (∃ s', start_each nets l s = (Ret tt, s') ∧ ∀ id, id ∈ l.*2 → connects nets s s' id) ∨
  (∃ l1 e l2 o r s', l = l1 ++ e :: l2 ∧ start_each nets l s = (r, s') ∧ r ≠ Ret tt ∧
    objects s !! e.2 = Some o ∧ (connect (nets e.2) (odriver o)).1 = r ∧
    (∀ id, id ∈ l1.*2 → connects nets s s' id) ∧
    ∀ id, id ∈ l2.*2 → objects s' !! id = objects s !! id).
Proof.
  revert s. induction l as [|e l IH]; intros s Hnd Hin.
  { left. exists s. split; [done|]. intros id Hx. by apply not_elem_of_nil in Hx. }
  cbn [fmap list_fmap] in Hnd. apply list.NoDup_cons in Hnd as [Hni Hnd].
  destruct (Hin e) as [o Ho]; [by left|].
  destruct (connect (nets e.2) (odriver o)) as [r d] eqn:Ec.
  set (s1 := set_objects (<[e.2 := Object d (obase o)]> (objects s)) s).
  assert (E1 : on_object e.2 (connect (nets e.2)) s = (r, s1)) by (unfold on_object; by rewrite Ho, Ec).
  assert (Hsame : ∀ id, id ∈ l.*2 → objects s1 !! id = objects s !! id).
  { intros id Hid. cbn. apply lookup_insert_ne. intros <-. by apply Hni. }
  assert (Hlift : ∀ s' id, id ∈ l.*2 → connects nets s1 s' id → connects nets s s' id).
  { intros s' id Hid. unfold connects. by rewrite Hsame. }
  destruct (decide (r = Ret tt)) as [->|Hr].
  2: { right. exists [], e, l, o, r, s1. split; [done|]. split.
    { cbn [start_each]. unfold bind. rewrite E1. by destruct r as [[]|x|c]. }
    do 3 (split; [by rewrite ?Ec|]). split; [intros id Hx; by apply not_elem_of_nil in Hx|exact Hsame]. }
  pose proof (start_each_frame nets l s1) as (Hfr & _).
  assert (Hhead : connects nets s (start_each nets l s1).2 e.2).
  { exists o, d. split; [done|]. split; [done|]. rewrite Hfr by done. apply lookup_insert_eq. }
  cbn [start_each]. rewrite (bind_ret _ _ _ _ _ E1).
  destruct (IH s1 Hnd) as [(s' & E & Hall)|(l1 & e' & l2 & o' & r & s' & -> & E & Hr & Ho' & Hc & Hl1 & Hl2)].
  { intros e' He'. rewrite Hsame by by apply list_elem_of_fmap_2. apply Hin. by right. }
  - left. exists s'. split; [done|]. rewrite E in Hhead.
    intros id [->|Hid]%elem_of_cons; [done|]. apply Hlift; [done|by apply Hall].
  - rewrite E in Hhead. right. exists (e :: l1), e', l2, o', r, s'. split; [done|]. split; [done|].
    split; [done|]. rewrite !fmap_app in Hsame, Hlift. cbn [fmap list_fmap] in Hsame, Hlift.
    split; [rewrite <-Ho'; symmetry; apply Hsame; apply elem_of_app; right; by left|].
    split; [done|]. split.
    + intros id [->|Hid]%elem_of_cons; [done|]. apply Hlift; [apply elem_of_app; by left|by apply Hl1].
    + intros id Hid. rewrite Hl2 by done. apply Hsame, elem_of_app. right. by right.
Qed.

(** Steps of the process: commands, start, exit, and whatever a driver does by itself. *)
Inductive proc_step s : process B → Prop :=
  | do_command c s' : command_ok c → run_command c s = (Ret tt, s') → proc_step s s'
  | do_resize name bid size r s' :
      setPSCSendBlockSize name bid size s = (r, s') → proc_step s s'
  | do_start nets r s' : startAll nets s = (r, s') → proc_step s s'
  | do_stop s' : all_stoppable s → stopAll s = (Ret tt, s') → proc_step s s'
  | do_activity id o d :
      objects s !! id = Some o → driver_name d = driver_name (odriver o) →
      proc_step s (set_objects (<[id := Object d (obase o)]> (objects s)) s).

(** Records do not rename the driver they are processed by. *)
Definition records_keep_name : Prop := ∀ prec p,
  name (Udp.ubase (Udp.udp_dbProcess prec p).2) = name (Udp.ubase p).

Lemma proc_step_wf s s' : records_keep_name → proc_step s s' → wf s → wf s'.
Proof.
  intros Hrec Hstep Hwf. destruct Hstep as [c s' Hok E|name bid size r s' E|nets r s' E|s' Hst E|id o d Ho Hd].
  - destruct (run_command_spec c s Hwf Hok) as (s1 & E1 & Hwf1 & _). congruence.
  - unfold setPSCSendBlockSize in E. erewrite bind_ret in E by reflexivity.
    destruct (map_find name (pscmap s)) as [id|]; [|by injection E as <- <-].
    pose proof (on_object_keeps id _ (resize_name bid size) s Hwf) as Hx. by rewrite E in Hx.
  - pose proof (start_each_keeps Hrec nets (pscmap s) s Hwf) as Hx.
    change (startAll nets s) with (start_each nets (pscmap s) s) in E. by rewrite E in Hx.
  - destruct (one_loop s Hwf) as [r Hr]. destruct (stopAll_spec r s Hwf Hst Hr) as (s1 & E1 & Ho).
    rewrite E in E1. injection E1 as <-. apply Ho.
  - by apply wf_update.
Qed.

Lemma wf_no_drivers : wf (B := B) no_drivers.
Proof.
  split.
  - split; cbn; try done; [intros b Hb; by apply not_elem_of_nil in Hb|intros b Hb; by destruct Hb..].
  - split; [constructor|done].
Qed.

Lemma reachable_wf s : records_keep_name → rtc proc_step no_drivers s → wf s.
Proof.
  intros Hrec Hr. pose proof wf_no_drivers as H0'. revert H0'.
  induction Hr as [|x y z Hxy _ IH]; [done|]. intros Hx. by eapply IH, proc_step_wf.
Qed.

(** A whole start-up script. *)
Fixpoint run_script (l : list command) : M (process B) unit :=
  match l with
  | [] => ret tt
  | c :: r => run_command c ;;; run_script r
  end.

(** A command that finds everything it needs. *)
Definition succeeds (c : command) : Prop :=
  command_ok c ∧ built c ≠ None ∧ ∀ s, has_loop c s = true.

Lemma run_script_spec l s :
  wf s → Forall succeeds l → NoDup (command_name <$> l) →
  ∃ s', run_script l s = (Ret tt, s') ∧ wf s' ∧ ioc_error s' = ioc_error s ∧
    (∀ id o, objects s !! id = Some o → objects s' !! id = Some o) ∧
    (∀ n, n ∉ command_name <$> l → map_find n (pscmap s') = map_find n (pscmap s)) ∧
    ∀ c, c ∈ l → ∃ id d ob, built c = Some d ∧ map_find (command_name c) (pscmap s') = Some id ∧
      objects s' !! id = Some (Object d ob).
Proof.
  revert s. induction l as [|c l IH]; intros s Hwf Hl Hnd.
  { exists s. do 5 (split; [done|]). intros c Hx. by apply not_elem_of_nil in Hx. }
  apply list.Forall_cons in Hl as [(Hok & Hb & Hloop) Hl]. cbn [fmap list_fmap] in Hnd |- *.
  apply list.NoDup_cons in Hnd as [Hni Hnd].
  destruct (run_command_spec c s Hwf Hok) as (s1 & E1 & Hwf1 & _ & _ & _ & Hc1).
  rewrite Hloop in Hc1. destruct (built c) as [d|] eqn:Hd; [|done]. destruct Hc1 as (ob & Ho1 & Hm1 & He1).
  destruct (IH s1 Hwf1 Hl Hnd) as (s2 & E2 & Hwf2 & He2 & Ho2 & Hm2 & Hall).
  exists s2. cbn [run_script]. rewrite (bind_ret _ _ _ _ _ E1). split; [done|]. split; [done|].
  split; [congruence|]. split; [|split].
  - intros id o Hid. apply Ho2. rewrite Ho1, lookup_insert_ne; [done|].
    intros <-. rewrite (fresh_object [] s (proj1 Hwf)) in Hid. done.
  - intros n [Hne Hn]%not_elem_of_cons. rewrite Hm2 by done. rewrite Hm1, map_find_set.
    by rewrite decide_False by congruence.
  - intros c' [->|Hc']%elem_of_cons; [|by apply Hall]. exists (next s), d, ob. split; [done|].
    rewrite Hm2 by done. rewrite Hm1, map_find_set, decide_True by done. split; [done|].
    apply Ho2. rewrite Ho1. apply lookup_insert_eq.
Qed.

Lemma run_script_reach l s :
  wf s → Forall command_ok l → rtc proc_step s (run_script l s).2.
Proof.
  revert s. induction l as [|c l IH]; intros s Hwf Hl; [apply rtc_refl|].
  apply list.Forall_cons in Hl as [Hok Hl].
  destruct (run_command_spec c s Hwf Hok) as (s1 & E1 & Hwf1 & _).
  cbn [run_script]. rewrite (bind_ret _ _ _ _ _ E1).
  eapply rtc_l; [by apply (do_command s c)|by apply IH].
Qed.
End life.

(** ** Properties *)

(** C22: Whatever the start-up script, the drivers and the exit do: the names are sorted and
    each leads to a live driver that has it; every driver on an event loop is on the same,
    live one; and a loop is counted exactly by the drivers that use it, so it is freed with
    the last of them. *)
Theorem registry_consistent {B} `{EvBuffer B} `{EpicsEnv} `{PscConfig} `{RecordSupport B}
    `{Udp.UdpNet} `{Udp.UdpRecords B} `{Fast.FastConfig} `{FastSizes} (s : process B) :
  records_keep_name → rtc proc_step no_drivers s →
  sorted (pscmap s) ∧
  (∀ n id, map_find n (pscmap s) = Some id →
    ∃ o, objects s !! id = Some o ∧ driver_name (odriver o) = n) ∧
  (∀ id o b, objects s !! id = Some o → obase o = Some b →
    last_base s = Some b ∧ is_Some (bases s !! b)) ∧
  (∀ b eb, bases s !! b = Some eb → use_count eb = holders b (objects s) ∧ (0 < use_count eb)%nat).
Proof.
  intros Hrec Hr. destruct (reachable_wf s Hrec Hr) as [Hl [Hs He]].
  split; [done|]. split; [done|]. split.
  - intros id o b Ho Hb. pose proof (li_held _ _ Hl id o b Ho Hb) as Hx.
    split; [by apply (li_last _ _ Hl)|done].
  - intros b eb Hb. destruct (li_count _ _ Hl b eb Hb) as [Hu Hp]. split; [|done].
    rewrite Hu. unfold held_by. cbn. lia.
Qed.

(** A command of the start-up script always returns to the shell.  When everything it
    needs is there it registers the new driver under its name and leaves all others alone;
    otherwise it reports an error, and the name is unknown afterwards, even when it was that
    of a driver created before. *)
Theorem command_outcomes {B} `{EvBuffer B} `{EpicsEnv} `{PscConfig} `{RecordSupport B}
    `{Udp.UdpNet} `{Udp.UdpRecords B} `{Fast.FastConfig} `{FastSizes} (c : command)
    (s : process B) :
  wf s → command_ok c →
  ∃ s', run_command c s = (Ret tt, s') ∧ wf s' ∧
    (∀ id o, objects s !! id = Some o → objects s' !! id = Some o) ∧
    (∀ n, n ≠ command_name c → map_find n (pscmap s') = map_find n (pscmap s)) ∧
    match built c, has_loop c s with
    | Some d, true =>
        ∃ id ob, objects s !! id = None ∧ objects s' !! id = Some (Object d ob) ∧
          map_find (command_name c) (pscmap s') = Some id ∧ ioc_error s' = ioc_error s
    | _, _ =>
        objects s' = objects s ∧ map_find (command_name c) (pscmap s') = None ∧
        ioc_error s' = true
    end.
Proof.
  intros Hwf Hok. destruct (run_command_spec c s Hwf Hok) as (s' & E & Hwf' & _ & _ & _ & Hc).
  pose proof (fresh_object [] s (proj1 Hwf)) as Hf.
  exists s'. split; [done|]. split; [done|].
  assert (Hfail : objects s' = objects s ∧ pscmap s' = map_erase (command_name c) (pscmap s) ∧
      ioc_error s' = true →
    (∀ id o, objects s !! id = Some o → objects s' !! id = Some o) ∧
    (∀ n, n ≠ command_name c → map_find n (pscmap s') = map_find n (pscmap s)) ∧
    objects s' = objects s ∧ map_find (command_name c) (pscmap s') = None ∧ ioc_error s' = true).
  { intros (Ho & Hm & He). rewrite Ho, Hm. split; [done|]. split.
    - intros n Hn. by rewrite map_find_erase, decide_False.
    - by rewrite map_find_erase, decide_True. }
  destruct (built c) as [d|]; [destruct (has_loop c s)|]; [|by apply Hfail..].
  destruct Hc as (ob & Ho & Hm & He). rewrite Ho, Hm. split; [|split].
  - intros id o Hid. rewrite lookup_insert_ne by congruence. done.
  - intros n Hn. by rewrite map_find_set, decide_False.
  - exists (next s), ob. rewrite lookup_insert_eq, map_find_set, decide_True by done. done.
Qed.

(** A start-up script whose commands find all they need and that uses no name twice
    creates every driver it asks for: afterwards each name leads to the driver its command
    describes, and no error is reported. *)
Theorem script_creates_all {B} `{EvBuffer B} `{EpicsEnv} `{PscConfig} `{RecordSupport B}
    `{Udp.UdpNet} `{Udp.UdpRecords B} `{Fast.FastConfig} `{FastSizes} (l : list command) :
  Forall succeeds l → NoDup (command_name <$> l) →
  ∃ s : process B, run_script l no_drivers = (Ret tt, s) ∧ ioc_error s = false ∧
    ∀ c, c ∈ l → ∃ id d ob, built c = Some d ∧ driver_name d = command_name c ∧
      getPSCBase (command_name c) s = (Ret (Some id), s) ∧
      objects s !! id = Some (Object d ob).
Proof.
  intros Hl Hnd. destruct (run_script_spec l no_drivers wf_no_drivers Hl Hnd)
    as (s & E & Hwf & He & _ & _ & Hall).
  exists s. split; [done|]. split; [done|]. intros c Hc.
  destruct (Hall c Hc) as (id & d & ob & Hb & Hm & Ho). exists id, d, ob. split; [done|].
  split; [by apply built_name|]. split; [|done]. unfold getPSCBase, gets. by rewrite Hm.
Qed.

(** C23: When the IOC starts, every registered driver is connected once, in the order of
    names.  A driver that throws ends this: those before it are connected, those after it
    are left as they were, and the exception leaves [startAll]. *)
Theorem startAll_outcomes {B} `{EvBuffer B} `{EpicsEnv} `{PscConfig} `{RecordSupport B}
    `{Udp.UdpNet} `{Udp.UdpRecords B} `{Fast.FastConfig} `{FastSizes}
    (nets : nat → Net B) (s : process B) :
  wf s →
  (∃ s', startAll nets s = (Ret tt, s') ∧
    ∀ n id, map_find n (pscmap s) = Some id → connects nets s s' id) ∨
  (∃ l1 n id l2 o r s', pscmap s = l1 ++ (n, id) :: l2 ∧ startAll nets s = (r, s') ∧
    r ≠ Ret tt ∧ objects s !! id = Some o ∧ (connect (nets id) (odriver o)).1 = r ∧
    (∀ i, i ∈ l1.*2 → connects nets s s' i) ∧
    ∀ i, i ∈ l2.*2 → objects s' !! i = objects s !! i).
Proof.
  intros [Hl Hn]. destruct (pscmap_ids s Hn) as [Hnd Hin].
  change (startAll nets s) with (start_each nets (pscmap s) s).
  destruct (start_each_spec nets (pscmap s) s Hnd Hin)
    as [(s' & E & Hall)|(l1 & [n id] & l2 & o & r & s' & El & E & Hr & Ho & Hc & Hl1 & Hl2)].
  - left. exists s'. split; [done|]. intros n id Hid. apply Hall, registered; eauto.
  - right. exists l1, n, id, l2, o, r, s'. done.
Qed.

(** C24: At exit [stopAll] stops and deletes every registered driver.  But the first driver
    on an event loop ends the loop that the others share: [stopinloop] runs for that one
    alone, and every other TCP or UDP driver is deleted in the state it was in, with its
    session open. *)
Theorem stopAll_outcomes {B} `{EvBuffer B} `{EpicsEnv} `{PscConfig} `{RecordSupport B}
    `{Udp.UdpNet} `{Udp.UdpRecords B} `{Fast.FastConfig} `{FastSizes} (s : process B) :
  wf s → all_stoppable s → loops_are true s →
  let first := take 1 (filter (on_event_loop s) (pscmap s).*2) in
  ∃ s', stopAll s = (Ret tt, s') ∧ wf s' ∧ pscmap s' = [] ∧
    (∀ n id, map_find n (pscmap s) = Some id → objects s' !! id = None) ∧
    stopped_in_loop s' = stopped_in_loop s ++ first ∧
    ∀ n id o, map_find n (pscmap s) = Some id → objects s !! id = Some o →
      is_Some (obase o) → id ∉ first → (id, odriver o) ∈ deleted s'.
Proof.
  intros Hwf Hst Hr first. pose proof Hwf as [_ Hn].
  destruct (stopAll_spec true s Hwf Hst Hr) as (s' & E & [Hwf' Hm Ho Hc (dels & Hd & Hids & Hun)]).
  exists s'. split; [done|]. split; [done|]. split; [done|]. split; [|split; [done|]].
  - intros n id Hid. rewrite Ho, decide_True; [done|]. apply registered; eauto.
  - intros n id o Hid Hobj Hb Hnf. rewrite Hd. apply elem_of_app. right.
    assert (Hx : id ∈ dels.*1) by (rewrite Hids; apply registered; eauto).
    apply list_elem_of_fmap in Hx as ([i d] & -> & Hx). cbn in *. by rewrite <-(Hun i d o).
Qed.

(** A name that is used twice loses the first driver: it lives on with its loop, but no
    name leads to it any more, [startAll] does not connect it and [stopAll] neither stops
    nor deletes it.  This holds also when the second command fails. *)
Theorem duplicate_name_orphans {B} `{EvBuffer B} `{EpicsEnv} `{PscConfig} `{RecordSupport B}
    `{Udp.UdpNet} `{Udp.UdpRecords B} `{Fast.FastConfig} `{FastSizes} (c : command)
    (s : process B) id o :
  wf s → all_stoppable s → command_ok c →
  map_find (command_name c) (pscmap s) = Some id → objects s !! id = Some o →
  ∃ s', run_command c s = (Ret tt, s') ∧ objects s' !! id = Some o ∧
    (∀ n, map_find n (pscmap s') ≠ Some id) ∧
    (∀ nets, objects (startAll nets s').2 !! id = Some o) ∧
    ∀ s'', all_stoppable s' → stopAll s' = (Ret tt, s'') → objects s'' !! id = Some o.
Proof.
  intros Hwf Hst Hok Hid Ho.
  destruct (run_command_spec c s Hwf Hok) as (s' & E & Hwf' & _ & _ & _ & Hc).
  assert (Hobj : objects s' !! id = Some o).
  { destruct (built c), (has_loop c s); try (by destruct Hc as [-> _]).
    destruct Hc as (ob & -> & _). rewrite lookup_insert_ne; [done|]. intros <-.
    by rewrite (fresh_object [] s (proj1 Hwf)) in Ho. }
  assert (Hgone : ∀ n, map_find n (pscmap s') ≠ Some id).
  { intros n Hn. destruct (ni_entry _ (proj2 Hwf) _ _ Hid) as (o1 & Ho1 & Hn1).
    destruct (ni_entry _ (proj2 Hwf') _ _ Hn) as (o2 & Ho2 & Hn2).
    assert (n = command_name c) as -> by congruence.
    assert (Hnone : map_find (command_name c) (map_erase (command_name c) (pscmap s)) = None)
      by by rewrite map_find_erase, decide_True.
    destruct (built c), (has_loop c s); try (by destruct Hc as (_ & Hm & _); congruence).
    destruct Hc as (ob & _ & Hm & _). rewrite Hm, map_find_set, decide_True in Hn by done.
    injection Hn as <-. by rewrite (fresh_object [] s (proj1 Hwf)) in Ho. }
  assert (Hni : id ∉ (pscmap s').*2).
  { intros [n Hn]%registered; [by apply (Hgone n)|apply Hwf']. }
  exists s'. split; [done|]. split; [done|]. split; [done|]. split.
  - intros nets. change (startAll nets s') with (start_each nets (pscmap s') s').
    destruct (start_each_frame nets (pscmap s') s') as (Hf & _). by rewrite Hf.
  - intros s'' Hst' E''. destruct (one_loop s' Hwf') as [r Hr].
    destruct (stopAll_spec r s' Hwf' Hst' Hr) as (s3 & E3 & Hout).
    rewrite E'' in E3. injection E3 as <-. rewrite (so_objects _ _ _ _ Hout), decide_False by done. done.
Qed.

(** ** Witnesses *)

(** Two TCP drivers, a UDP driver and a fast receiver, and a second driver with the name of
    the first whose send buffer cannot be allocated. *)
Section Sample.

#[local] Existing Instances quiet_env default_config quiet_records Udp.good_net Udp.quiet_udp
  FastPool.sample_config.

#[local] Instance sizes : FastSizes :=
  {| PSCUDPMaxPacketSize := 16; PSCUDPMaxPacketRate := of_int binary64 1;
     PSCUDPBufferPeriod := of_int binary64 1; PSCUDPSetSockBuf := 0 |}.

Definition cmd : Type := command (B := ChainBuf.chainbuf).

Definition good_base : BaseOs := MkBaseOs true true.
Definition good_psc : PscOs ChainBuf.chainbuf := MkPscOs true true (Some (ChainBuf.of_bytes [])).
Definition psc_b : cmd := CmdPSC "b" "host" 8765 1 good_base good_psc.
Definition udp_a : cmd := CmdPSCUDP "a" "host" 8765 good_base (MkUdpOs true true true None true None).
Definition psc_c : cmd := CmdPSC "c" "host" 70000 0 good_base good_psc.
Definition fast_d : cmd :=
  CmdPSCUDPFast "d" "host" 8766 (MkFastOs true true (Some 100) true true true).
Definition psc_b_again : cmd := CmdPSC "b" "other" 8765 1 good_base (MkPscOs true true None).

Definition script : list cmd := [psc_b; udp_a; psc_c; fast_d].
Definition running_ioc : process ChainBuf.chainbuf := (run_script script no_drivers).2.
Definition nets (id : nat) : Net ChainBuf.chainbuf := sample_net.
Definition connected_ioc : process ChainBuf.chainbuf := (startAll nets running_ioc).2.

Lemma script_succeeds : Forall succeeds script.
Proof.
  repeat constructor; cbn; try done; try (intros s; by destruct (bool_decide _)); vm_compute; congruence.
Qed.

Lemma script_names : NoDup (command_name <$> script).
Proof. repeat (constructor; [cbn; set_solver|]). constructor. Qed.

Lemma records_sample : records_keep_name (B := ChainBuf.chainbuf).
Proof. done. Qed.

Lemma running_reachable : rtc proc_step no_drivers running_ioc.
Proof.
  apply run_script_reach; [apply wf_no_drivers|].
  eapply list.Forall_impl; [apply script_succeeds|]. by intros c [].
Qed.

Lemma connected_reachable : rtc proc_step no_drivers connected_ioc.
Proof.
  eapply rtc_r; [apply running_reachable|]. apply (do_start _ nets (startAll nets running_ioc).1).
  by destruct (startAll nets running_ioc) eqn:E; unfold connected_ioc; rewrite E.
Qed.

Lemma registry_consistent_witness :
  pscmap connected_ioc = [("a"%string, 2%nat); ("b"%string, 0%nat); ("c"%string, 3%nat); ("d"%string, 4%nat)] ∧
  sorted (pscmap connected_ioc).
Proof.
  split; [vm_compute; reflexivity|].
  apply (registry_consistent connected_ioc records_sample connected_reachable).
Defined.

Lemma command_outcomes_witness :
  ∃ s', run_command psc_b_again running_ioc = (Ret tt, s') ∧
    map_find "b" (pscmap s') = None ∧ ioc_error s' = true.
Proof.
  destruct (command_outcomes psc_b_again running_ioc) as (s' & E & _ & _ & _ & _ & Hf & He).
  - apply reachable_wf; [apply records_sample|apply running_reachable].
  - exact I.
  - exists s'. split; [exact E|]. split; [exact Hf|exact He].
Defined.

Lemma script_creates_all_witness :
  ∃ s, run_script script no_drivers = (Ret tt, s) ∧ ioc_error s = false.
Proof.
  destruct (script_creates_all script script_succeeds script_names) as (s & E & He & _).
  exists s. split; [exact E|exact He].
Defined.

Lemma startAll_outcomes_witness :
  (startAll nets running_ioc).1 = Ret tt ∧
  ∃ s', startAll nets running_ioc = (Ret tt, s') ∧ connects nets running_ioc s' 0.
Proof.
  split; [vm_compute; reflexivity|].
  destruct (startAll_outcomes nets running_ioc) as
    [(s' & E & Hall)|(l1 & n & id & l2 & o & r & s' & _ & E & Hr & _)].
  - apply reachable_wf; [apply records_sample|apply running_reachable].
  - exists s'. split; [exact E|]. apply (Hall "b"%string). vm_compute. reflexivity.
  - destruct Hr. apply (f_equal fst) in E. vm_compute in E. symmetry. exact E.
Defined.

Lemma stoppable_list (s : process ChainBuf.chainbuf) :
  Forall (λ p, stoppable (odriver p.2)) (map_to_list (objects s)) → all_stoppable s.
Proof.
  rewrite list.Forall_forall. intros Hall id o Ho. apply (Hall (id, o)).
  by apply elem_of_map_to_list.
Qed.

Lemma sample_stoppable : all_stoppable connected_ioc.
Proof. apply stoppable_list. vm_compute. repeat constructor; intros E; discriminate E. Qed.

Lemma sample_loops : loops_are true connected_ioc.
Proof.
  intros b eb Hb.
  assert (Hall : Forall (λ p, running p.2 = true) (map_to_list (bases connected_ioc))).
  { vm_compute. repeat constructor. }
  rewrite list.Forall_forall in Hall. apply (Hall (b, eb)). by apply elem_of_map_to_list.
Qed.

(** The UDP driver "a" is first: the sessions of "b" and "c" stay open. *)
Lemma stopAll_outcomes_witness :
  take 1 (filter (on_event_loop connected_ioc) (pscmap connected_ioc).*2) = [2%nat] ∧
  ∃ s', stopAll connected_ioc = (Ret tt, s') ∧ stopped_in_loop s' = [2%nat] ∧
    ∃ p, (0%nat, Tcp p) ∈ deleted s' ∧ session p ≠ None.
Proof.
  assert (Hf : take 1 (filter (on_event_loop connected_ioc) (pscmap connected_ioc).*2) = [2%nat])
    by (vm_compute; reflexivity).
  split; [exact Hf|].
  destruct (stopAll_outcomes connected_ioc) as (s' & E & _ & _ & _ & Hc & Hd).
  - apply reachable_wf; [apply records_sample|apply connected_reachable].
  - apply sample_stoppable.
  - apply sample_loops.
  - rewrite Hf in Hc, Hd. exists s'. split; [exact E|]. split; [rewrite Hc; reflexivity|].
    destruct (objects connected_ioc !! 0%nat) as [o|] eqn:Ho; [|vm_compute in Ho; discriminate Ho].
    assert (Hp : ∃ p, o = Object (Tcp p) (Some 1%nat) ∧ session p ≠ None).
    { vm_compute in Ho. injection Ho as <-. eexists. split; [reflexivity|discriminate]. }
    destruct Hp as (p & -> & Hs). exists p. split; [|exact Hs].
    apply (Hd "b"%string 0%nat _ eq_refl Ho); [by eexists|].
    intros Hx. apply list_elem_of_singleton in Hx. discriminate Hx.
Defined.

Lemma duplicate_name_orphans_witness :
  ∃ o s', objects running_ioc !! 0%nat = Some o ∧
    run_command psc_b_again running_ioc = (Ret tt, s') ∧ objects s' !! 0%nat = Some o ∧
    ∀ n, map_find n (pscmap s') ≠ Some 0%nat.
Proof.
  destruct (objects running_ioc !! 0%nat) as [o|] eqn:Ho; [|vm_compute in Ho; discriminate Ho].
  destruct (duplicate_name_orphans psc_b_again running_ioc 0 o) as (s' & E & Hobj & Hgone & _).
  - apply reachable_wf; [apply records_sample|apply running_reachable].
  - apply stoppable_list. vm_compute. repeat constructor; intros E'; discriminate E'.
  - exact I.
  - vm_compute. reflexivity.
  - exact Ho.
  - exists o, s'. split; [reflexivity|]. split; [exact E|]. split; [exact Hobj|exact Hgone].
Defined.

End Sample.
