(* ===== verification/DriverSafe.v ===== *)
(** * The drivers keep their contract with device support

    [SafeDriver] ([DevSafe]) for the TCP driver, the UDP driver and the fast receiver, and so
    for the objects of all three classes behind one pointer ([Registry.driver]).  What the
    TCP driver does on its own, in libevent's thread, keeps it too. *)

From S2P Require Import Prelude Hoare EvBuffer Dbuffer Block Wire PscBase PscTcp PscTcpRx.
From S2P Require Import PscTcpConn PscTcpTx PscUdp Ieee DevCommon DevSample DevReg DevTable DevSafe.
From S2P Require Import UdpFast Registry.
From S2P Require FastPool.

Section base.
Context {B : Type} `{EvBuffer B}.

(** Sending changes no body of a block, and makes none disappear. *)
Record tx_kept (b b' : PSCBase B) : Prop := {
  tk_recv : recv_blocks b' = recv_blocks b;
  tk_send : data <$> send_blocks b' = data <$> send_blocks b;
}.

#[export] Instance tx_kept_preorder : PreOrder tx_kept.
Proof. split; [done|]. intros a b c [R1 S1] [R2 S2]. split; congruence. Qed.

Lemma tx_kept_grown b b' : tx_kept b b' → grown b b'.
Proof.
  intros [Er Es]. split; [by rewrite Er|].
  by rewrite <-(dom_fmap_L data (send_blocks b)), <-Es, dom_fmap_L.
Qed.

Lemma tx_kept_ok b b' : tx_kept b b' → base_ok b → base_ok b'.
Proof.
  intros [Er Es] [Hr Hs]. split; [by rewrite Er|]. intros k blk Hk.
  assert (Hd : (data <$> send_blocks b) !! k = Some (data blk)) by (by rewrite <-Es, lookup_fmap, Hk).
  rewrite lookup_fmap in Hd. destruct (send_blocks b !! k) as [blk0|] eqn:E; [|done].
  injection Hd as <-. apply (Hs k blk0 E).
Qed.

Lemma tx_kept_mark b k f :
  (∀ blk, data (f blk) = data blk) →
  tx_kept b (set_send_blocks (alter f k (send_blocks b)) b).
Proof.
  intros Hf. split; [done|]. cbn. apply map_eq. intros j. rewrite !lookup_fmap.
  destruct (decide (j = k)) as [->|]; [|by rewrite lookup_alter_ne].
  rewrite lookup_alter_eq. by destruct (send_blocks b !! k); cbn; rewrite ?Hf.
Qed.

Lemma tx_kept_unmark b : tx_kept b (set_send_blocks (set_queued false <$> send_blocks b) b).
Proof. split; [done|]. cbn. rewrite <-map_fmap_compose. by apply map_fmap_ext. Qed.

(** Copying a body out to an evbuffer may throw, no more. *)
Lemma copyout_strides_wp mem l (dest : B) : wp (copyout_strides mem l) (λ _ _, True) (λ _, True) dest.
Proof.
  revert dest. induction l as [|s r IH]; intros dest; cbn [copyout_strides]; [done|].
  unfold wp. destruct (evbuffer_add _ _) as [d|]; [apply IH|done].
Qed.
End base.

(** ** TCP *)

Section tcp.
Context {B : Type} `{EvBufferLaws B} `{EpicsEnv} `{PscConfig} `{RecordSupport B}.
Implicit Types s : PSC B.

(** Bodies as device support needs them, and a session while there is a connection. *)
Record tcp_ok s : Prop := {
  to_base : base_ok (base s);
  to_session : connected (base s) = true → session s ≠ None;
  to_timer : session s ≠ None → timer_active s = false;
}.

Definition tcp_type s : string := "PSC".

(** What sending leaves as it was. *)
Definition tcp_frame s s' : Prop := conn_part s' = conn_part s ∧ tx_kept (base s) (base s').

#[export] Instance tcp_frame_preorder : PreOrder tcp_frame.
Proof. split; [by intros s|]. intros a b c [P1 K1] [P2 K2]. split; [congruence|by etrans]. Qed.

Lemma tcp_frame_ok s s' : tcp_frame s s' → tcp_ok s → tcp_ok s' ∧ grown (base s) (base s').
Proof.
  intros [Hp Hk] [Hb Hs Ht]. split; [|by apply tx_kept_grown].
  unfold conn_part in Hp. injection Hp as Ec Ese Etm _ _ _ _ _.
  assert (Hses : session s' ≠ None ↔ session s ≠ None) by (by destruct (session s), (session s')).
  split; rewrite ?Ec, ?Etm, ?Hses; [by eapply tx_kept_ok|done..].
Qed.

Lemma tcp_call_ok {A} (m : M (PSC B) A) s :
  tcp_ok s → wp m (λ _, tcp_frame s) (tcp_frame s) s → call_ok tcp_type tcp_ok m s.
Proof.
  intros Hs Hm. eapply wp_mono; [exact Hm|intros a s' Hs'|intros s' Hs'];
    destruct (tcp_frame_ok s s' Hs' Hs); by split_and!.
Qed.

(** A header goes in with room behind it for the body, when there is a connection. *)
Lemma queueHeader_wp k n s :
  is_Some (send_blocks (base s) !! k) → 0 ≤ n < 2 ^ 32 - 8 →
  wp (queueHeader k n) (λ _ s', tcp_frame s s' ∧ base s' = base s ∧
      (connected (base s) = true → n ≤ evbuffer_room (sendbuf s'))) (tcp_frame s) s.
Proof.
  intros [blk Hk] Hn. unfold queueHeader. apply wp_bind, wp_get.
  destruct (connected (base s)) eqn:Hc; cbn [negb]; [|by apply wp_ret].
  apply wp_bind. eapply wp_run.
  { unfold base_op, zoom, send_block. rewrite Hk. reflexivity. }
  replace (set_base (base s) s) with s by by destruct s.
  case_if; [by apply wp_throw|]. case_if; [by apply wp_throw|].
  rewrite wrapU_small by lia. destruct (evbuffer_expand _ _) as [sb|] eqn:He; [|by apply wp_throw].
  apply wp_bind, wp_modify.
  destruct (header_room (sendbuf s) (code blk) n sb) as (sb1 & Ha & _ & Hr); [lia|done|].
  rewrite Ha. apply wp_modify. by split_and!.
Qed.

Lemma mark_queued_wp k s s0 :
  tcp_frame s0 s → wp (mark_queued k) (λ _, tcp_frame s0) (tcp_frame s0) s.
Proof.
  intros Hf. unfold mark_queued, base_op. apply wp_zoom, wp_modify. etrans; [exact Hf|].
  split; [done|]. by apply tx_kept_mark.
Qed.

Lemma queueSend_bytes_wp k buf s :
  connected (base s) = true → is_Some (send_blocks (base s) !! k) → zlen buf < 2 ^ 32 - 8 →
  wp (queueSend_bytes k buf) (λ _, tcp_frame s) (tcp_frame s) s.
Proof.
  intros Hc Hk Hl. pose proof (zlen_nonneg buf). unfold queueSend_bytes. apply wp_bind.
  eapply wp_mono; [apply queueHeader_wp; [done|lia]| |done]. intros [] s1 (Hf & _ & Hr).
  apply wp_bind, wp_get, wp_bind.
  destruct (evbuffer_add_room (sendbuf s1) buf (Hr Hc)) as (sb & -> & _).
  apply wp_modify. by apply mark_queued_wp.
Qed.

Lemma getSend_frame id s :
  ∃ s', base_op (getSend id) s = (Ret id, s') ∧ conn_part s' = conn_part s ∧
    recv_blocks (base s') = recv_blocks (base s) ∧ is_Some (send_blocks (base s') !! id) ∧
    (tcp_ok s → tcp_ok s' ∧ grown (base s) (base s')).
Proof.
  unfold base_op, zoom, getSend. destruct (send_blocks (base s) !! id) as [b|] eqn:E.
  - exists s. replace (set_base (base s) s) with s by by destruct s. split_and!; [done..|by rewrite E|].
    intros Hs. split; [done|]. split; done.
  - eexists. split; [reflexivity|]. cbn. rewrite lookup_insert_eq. split_and!; [done..|].
    intros [[Hr Hsd] Hs Ht]. split; [split; [split|done..]|split; cbn; [done|set_solver]]; cbn; [done|].
    apply map_Forall_insert_2; [apply new_block_flat|done].
Qed.

#[global] Instance tcp_safe : SafeDriver B (PSC B).
Proof.
  refine {| driver_ok := tcp_ok; driver_type := tcp_type |}.
  - apply to_base.
  - intros s b [Hb Hs Ht] Hb' Hc. split; cbn in *; rewrite ?Hc; done.
  - done.
  - intros id buf s Hs Hc Hl. cbn in *. destruct (getSend_frame (u16 id) s) as (s1 & E & Hp & Hr & Hk & Hok).
    destruct (Hok Hs) as [Hs1 Hg1]. apply wp_bind. eapply wp_run; [exact E|].
    assert (Hc1 : connected (base s1) = true) by (unfold conn_part in Hp; injection Hp as -> _ _ _ _ _ _ _; done).
    eapply wp_mono; [by apply queueSend_bytes_wp|intros [] s' Hf|intros s' Hf];
      destruct (tcp_frame_ok s1 s' Hf Hs1); (split; [done|split; [by etrans|done]]).
  - intros k buf s Hs Hc Hk Hl. apply tcp_call_ok; [done|]. by apply queueSend_bytes_wp.
  - intros k d s Hs Hk (Hb & Hw & Hl). apply tcp_call_ok; [done|]. cbn. unfold queueSend_block.
    pose proof (zlen_nonneg (contents d)). rewrite dbuffer_size_contents in *.
    apply wp_bind. rewrite wrapU_small by lia.
    eapply wp_mono; [apply queueHeader_wp; [done|lia]| |done]. intros [] s1 (Hf & _ & _). apply wp_bind, wp_zoom.
    eapply wp_mono; [apply copyout_strides_wp|intros [] sb _|by intros sb _].
    by apply mark_queued_wp.
  - intros s Hs. apply tcp_call_ok; [done|]. cbn. unfold flushSend. apply wp_bind, wp_get.
    destruct (connected (base s)) eqn:Hc; cbn [negb]; [|by apply wp_ret].
    destruct (session s) as [bv|] eqn:Es; [|by destruct (to_session s Hs Hc)].
    case_if; [by apply wp_throw|]. destruct (evbuffer_add_buffer _ _) as [[tx sb]|].
    + do 2 apply wp_bind, wp_modify. unfold base_op. apply wp_zoom, wp_modify.
      split; [|apply tx_kept_unmark]. unfold conn_part. cbn. by rewrite Es.
    + apply wp_bind, wp_modify. by apply wp_throw.
  - intros s Hs. cbn. unfold forceReConnect. apply wp_bind, wp_get.
    destruct (connected (base s)) eqn:Hc; cbn [negb]; [|by apply wp_ret].
    pose proof (to_session s Hs Hc) as Hses. unfold start_reconnect. apply wp_bind, wp_get.
    pose proof (to_timer s Hs Hses) as Ht. destruct Hs as [[Hr Hsd] _ _].
    apply wp_bind, wp_assert; [rewrite Ht; by destruct (session s)|].
    repeat (apply wp_bind; unfold base_op, put_connected; first [apply wp_modify|apply wp_zoom, wp_modify]).
    apply wp_modify. split; [split; [by split|done|done]|]. split; done.
Defined.
End tcp.

(** ** UDP *)

Section udp.
Context {B : Type} `{EvBufferLaws B} `{EpicsEnv} `{Udp.UdpNet} `{Udp.UdpRecords B}.
Import Udp.
Implicit Types s : PSCUDP B.

Definition udp_ok s : Prop := base_ok (ubase s).
Definition udp_type s : string := "PSCUDP".
Definition udp_frame s s' : Prop := tx_kept (ubase s) (ubase s').

#[export] Instance udp_frame_preorder : PreOrder udp_frame.
Proof. split; [by intros s|]. intros a b c K1 K2. unfold udp_frame in *. by etrans. Qed.

Lemma udp_call_ok {A} (m : M (PSCUDP B) A) s :
  udp_ok s → wp m (λ _, udp_frame s) (udp_frame s) s → call_ok udp_type udp_ok m s.
Proof.
  intros Hs Hm. eapply wp_mono; [exact Hm|intros a s' Hf|intros s' Hf];
    (split; [exact (tx_kept_ok _ _ Hf Hs)|split; [exact (tx_kept_grown _ _ Hf)|done]]).
Qed.

(** The packet at the back is as long as header and body. *)
Lemma udp_header_wp k n s :
  is_Some (send_blocks (ubase s) !! k) → 0 ≤ n < 2 ^ 32 - 8 →
  wp (queueHeader k n) (λ _ s', ubase s' = ubase s ∧ back_size s' = 8 + n) (udp_frame s) s.
Proof.
  intros [blk Hk] Hn. unfold queueHeader. apply wp_bind, wp_get. case_if; [by apply wp_throw|].
  apply wp_bind. eapply wp_run; [unfold on_ubase, zoom, send_block; rewrite Hk; reflexivity|].
  destruct (match readybuf s with [] => ([], []) | b :: r => (b, r) end) as [scratch ready].
  rewrite wrapU_small by lia. apply wp_bind, wp_modify, wp_bind, wp_modify.
  rewrite zlen_zresize by lia. case_if; bool_to_prop; [lia|]. apply wp_modify. split; [done|].
  unfold back_size. cbn. rewrite last_snoc.
  rewrite zlen_zblit; rewrite ?zlen_put_header, ?zlen_zresize; unfold HEADER_SIZE; lia.
Qed.

Lemma fill_then_mark k body s :
  wp (fill_packet body ;;; mark_queued k) (λ _, udp_frame s) (udp_frame s) s.
Proof.
  apply wp_bind, wp_modify. unfold mark_queued, on_ubase. apply wp_zoom, wp_modify.
  unfold udp_frame. destruct (list.last (sendbuf s)); by apply tx_kept_mark.
Qed.

Lemma udp_bytes_wp k buf s :
  is_Some (send_blocks (ubase s) !! k) → zlen buf < 2 ^ 32 - 8 →
  wp (queueSend_bytes k buf) (λ _, udp_frame s) (udp_frame s) s.
Proof.
  intros Hk Hl. pose proof (zlen_nonneg buf). apply wp_bind.
  eapply wp_mono; [apply udp_header_wp; [done|lia]| |done]. intros [] s1 [Eb Es].
  apply wp_bind, wp_get, wp_bind, wp_assert; [rewrite Es, wrapU_small by lia; apply Z.eqb_refl|].
  eapply wp_mono; [apply fill_then_mark|intros [] s2|intros s2]; unfold udp_frame; by rewrite Eb.
Qed.

#[global] Instance udp_safe : SafeDriver B (PSCUDP B).
Proof.
  refine {| driver_ok := udp_ok; driver_type := udp_type |}.
  - done.
  - by intros s b _ Hb _.
  - done.
  - intros id buf s Hs _ Hl. cbn. pose proof (getSend_wp (u16 id) (ubase s) Hs) as Hg.
    apply wp_bind. unfold on_ubase. apply wp_zoom. eapply wp_mono; [exact Hg| |].
    + intros k b [[Hb _ Hgr] [_ Hk]]. set (s1 := set_ubase b s).
      eapply wp_mono; [apply (udp_bytes_wp k buf s1); done|intros [] s2 Hf|intros s2 Hf];
        (split; [exact (tx_kept_ok _ _ Hf Hb)|split; [|done]; etrans; [exact Hgr|exact (tx_kept_grown _ _ Hf)]]).
    + intros b [Hb _ Hgr]. by split.
  - intros k buf s Hs _ Hk Hl. apply udp_call_ok; [done|]. by apply udp_bytes_wp.
  - intros k d s Hs Hk (Hb & Hw & Hl). apply udp_call_ok; [done|]. cbn. unfold queueSend_block.
    pose proof (zlen_nonneg (contents d)). rewrite dbuffer_size_contents in *.
    apply wp_bind. rewrite wrapU_small by lia.
    eapply wp_mono; [apply udp_header_wp; [done|lia]| |done]. intros [] s1 [Eb Es].
    apply wp_bind, wp_get, wp_bind, wp_assert; [rewrite Es; apply Z.eqb_refl|].
    unfold dbuffer_copyout, dbuffer_copyout_shape. rewrite dbuffer_size_contents.
    assert (Hfill : ∀ bytes, wp (fill_packet bytes ;;; mark_queued k) (λ _, udp_frame s) (udp_frame s) s1).
    { intros bytes. eapply wp_mono; [apply fill_then_mark|intros [] s2|intros s2]; unfold udp_frame; by rewrite Eb. }
    destruct (zlen (contents d)) eqn:Ez; [apply Hfill| |lia]. rewrite <-Ez in *.
    case_if; [apply Hfill|]. rewrite Z.add_0_r, wrapU_small by lia.
    destruct (Z.eqb_spec (zlen (contents d)) 0); [lia|]. apply Hfill.
  - intros s Hs. apply udp_call_ok; [done|]. cbn. unfold flushSend. apply wp_bind, wp_get.
    case_if; [by apply wp_ret|]. case_if; [by apply wp_throw|].
    apply wp_bind, wp_modify, wp_bind, wp_modify, wp_bind. unfold on_ubase. apply wp_zoom, wp_modify.
    assert (Hk : udp_frame s (set_ubase (set_send_blocks (set_queued false <$> send_blocks (ubase s)) (ubase s))
        (set_sendbuf [] (set_txbuf (txbuf s ++ sendbuf s) s)))) by apply tx_kept_unmark.
    unfold add_tx_event. case_if; [by apply wp_throw|]. unfold on_ubase. apply wp_zoom, wp_modify.
    destruct Hk as [Hr Hsd]. by split.
  - intros s Hs. by apply wp_ret.
Defined.
End udp.

(** ** What the TCP driver does by itself *)

Section own.
Context {B : Type} `{EvBufferLaws B} `{EpicsEnv} `{PscConfig} `{RecordSupport B}.
Implicit Types s : PSC B.

(** Blocks to send stay flat, and no block is lost. *)
Definition calm (b b' : PSCBase B) : Prop :=
  (map_Forall (λ _ blk, flat_body (data blk)) (send_blocks b) →
   map_Forall (λ _ blk, flat_body (data blk)) (send_blocks b')) ∧ grown b b'.

#[export] Instance calm_preorder : PreOrder calm.
Proof. split; [by intros b|]. intros a b c [F1 G1] [F2 G2]. split; [auto|by etrans]. Qed.

Definition calm_psc s s' : Prop := calm (base s) (base s').

#[export] Instance calm_psc_preorder : PreOrder calm_psc.
Proof. split; [by intros s|]. intros a b c. unfold calm_psc. apply calm_preorder. Qed.

(** A change that is not one of blocks. *)
Lemma calm_same b b' : send_blocks b' = send_blocks b → dom (recv_blocks b') = dom (recv_blocks b) → calm b b'.
Proof. intros Es Er. split; [by rewrite Es|]. split; [by rewrite Er|by rewrite Es]. Qed.

Lemma calm_recv k f (b : PSCBase B) : calm b (set_recv_blocks (alter f k (recv_blocks b)) b).
Proof. apply calm_same; [done|]. apply dom_alter_L. Qed.

Lemma tx_kept_calm b b' : tx_kept b b' → calm b b'.
Proof.
  intros Hk. split; [|by apply tx_kept_grown]. intros Hf. destruct Hk as [_ Es]. intros k blk Hb.
  assert (Hd : (data <$> send_blocks b) !! k = Some (data blk)) by (by rewrite <-Es, lookup_fmap, Hb).
  rewrite lookup_fmap in Hd. destruct (send_blocks b !! k) as [blk0|] eqn:E; [|done].
  injection Hd as <-. apply (Hf k blk0 E).
Qed.

Lemma calm_base_op {A} (m : M (PSCBase B) A) : stays calm m → stays calm_psc (base_op m).
Proof. intros Hm s. specialize (Hm (base s)). unfold calm_psc, base_op, zoom. by destruct (m (base s)). Qed.

Lemma calm_modify (f : PSC B → PSC B) : (∀ s, base (f s) = base s) → stays calm_psc (modify f).
Proof. intros Hf. apply stays_modify. intros s. unfold calm_psc. by rewrite Hf. Qed.

Lemma calm_session f : stays calm_psc (on_session (B:=B) f).
Proof. intros s. unfold on_session. by destruct (session s). Qed.

Lemma calm_input {A} (f : B → A * B) : stays calm_psc (on_input f).
Proof. intros s. unfold on_input. destruct (session s); [|done]. by destruct (f _). Qed.

Lemma calm_block k : stays calm (recv_block (B:=B) k) ∧ stays calm (send_block (B:=B) k).
Proof. split; intros b; unfold recv_block, send_block; by destruct (_ !! _). Qed.

(** Follow a call down to the base. *)
Ltac calm_parts :=
  stays_parts;
  repeat first
    [ apply calm_base_op; stays_parts
    | by apply calm_modify
    | apply calm_session
    | apply calm_input
    | apply calm_block
    | apply stays_modify; intros ?; first [by apply calm_same | apply calm_recv]
    | by intros ? ].

Lemma listeners_calm k : stays calm (call_listeners (B:=B) k).
Proof.
  unfold call_listeners. stays_parts; [apply calm_block|]. generalize (map_data contents a) as blk.
  induction (listeners a) as [|[user fn] l IH]; intros blk; cbn [CBList.call]; unfold call_listener, emit; calm_parts.
  apply IH.
Qed.

Lemma consume_body_calm k n : stays calm_psc (consume_body (B:=B) k n).
Proof.
  intros s. unfold consume_body. destruct (session s) as [bv|]; [|done].
  destruct (recv_blocks (base s) !! k) as [blk|] eqn:E; [|done].
  destruct (dbuffer_consume _ _) as [o [i d]]. apply calm_same; [done|]. cbn.
  rewrite dom_insert_L. apply elem_of_dom_2 in E. set_solver.
Qed.

Lemma start_reconnect_calm : stays calm_psc (start_reconnect (B:=B)).
Proof. unfold start_reconnect, put_connected, emit. calm_parts. Qed.

Lemma recvdata_calm : stays calm_psc recvdata.
Proof.
  assert (Hhead : stays calm_psc recv_head).
  { unfold recv_head, put_message, emit, find_bodyblock, expect_body, stamp_rxtime, upd_recv. calm_parts.
    all: apply start_reconnect_calm. }
  assert (Hbody : stays calm_psc recv_body).
  { unfold recv_body, requestScan_recv, upd_recv, emit. calm_parts; first [apply consume_body_calm|apply listeners_calm]. }
  assert (Hloop : ∀ fuel, stays calm_psc (recv_loop fuel)).
  { induction fuel as [|fuel IH]; cbn [recv_loop]; calm_parts; first [apply Hbody|apply Hhead|apply IH]. }
  unfold recvdata. calm_parts. apply Hloop.
Qed.

Lemma connect_calm net : stays calm_psc (connect net).
Proof. unfold connect, put_message, emit. calm_parts. Qed.
Lemma mark_calm k : stays calm_psc (mark_queued (B:=B) k).
Proof. intros s. by apply tx_kept_calm, tx_kept_mark. Qed.

Lemma header_calm k n : stays calm_psc (queueHeader k n).
Proof. unfold queueHeader. calm_parts. Qed.

Lemma queueSend_bytes_calm k buf : stays calm_psc (queueSend_bytes k buf).
Proof. unfold queueSend_bytes. stays_parts; first [apply header_calm|apply mark_calm|by apply calm_modify|by intros ?]. Qed.

Lemma pub_step_calm s s' : pub_step s s' → calm_psc s s'.
Proof.
  intros [k buf s1 o s2 _ E _|k buf s1 o s2 _ E _|id buf s1 o s2 E _|s1|s1|k prio mask b b' s1 Hk E].
  - by apply (stays_run (queueSend_bytes_calm k buf) E).
  - assert (Hq : stays calm_psc (queueSend_block k buf)).
    { unfold queueSend_block. stays_parts; [apply header_calm|by apply stays_zoom|apply mark_calm]. }
    by apply (stays_run Hq E).
  - assert (Hq : stays calm_psc (queueSend id buf)).
    { unfold queueSend. stays_parts; [apply calm_base_op|apply queueSend_bytes_calm]. intros p. unfold getSend.
      destruct (send_blocks p !! u16 id); [done|]. split; [|split; cbn; [done|set_solver]].
      intros Hf. apply map_Forall_insert_2; [apply new_block_flat|done]. }
    by apply (stays_run Hq E).
  - assert (Hq : stays calm_psc flushSend) by
      (unfold flushSend; calm_parts; intros p; apply tx_kept_calm, tx_kept_unmark).
    apply Hq.
  - assert (Hq : stays calm_psc (forceReConnect (B:=B))) by
      (unfold forceReConnect; calm_parts; apply start_reconnect_calm).
    apply Hq.
  - apply calm_same; [done|]. cbn. rewrite dom_insert_L. apply elem_of_dom_2 in Hk. set_solver.
Qed.

Lemma records_calm prec : records_ok → stays calm_psc (dbProcess prec).
Proof.
  intros Hrec s. destruct (Hrec prec s) as [_ Hsteps].
  induction Hsteps as [|s1 s2 s3 Hstep _ IH]; [done|]. etrans; [by apply pub_step_calm|done].
Qed.

Lemma eventcb_calm evt : records_ok → stays calm_psc (eventcb evt).
Proof.
  intros Hrec.
  assert (Hproc : ∀ l, stays calm_psc (process_on_connect l)).
  { induction l as [|prec l IH]; cbn [process_on_connect]; unfold emit; calm_parts;
      first [by apply records_calm|apply IH]. }
  unfold eventcb, put_connected, put_message, emit. calm_parts; first [apply Hproc|apply start_reconnect_calm].
Qed.

(** Any step of the driver: nothing that device support needs goes away. *)
Lemma conn_step_calm ok s s' : records_ok → conn_step ok s s' → calm_psc s s'.
Proof.
  intros Hrec [s1 s2 Hp|evt s1 s2 _ E|chunk s1 s2 Ha|s1 b s2 _ _ E|net s1 s2 _ _ E].
  - by apply pub_step_calm.
  - assert (Hq : stays calm_psc (bev_eventcb evt)) by
      (unfold bev_eventcb, with_bev; calm_parts; by apply eventcb_calm).
    by apply (stays_run Hq E).
  - destruct (arrives_part _ _ _ Ha) as [_ Hb]. unfold calm_psc. by rewrite Hb.
  - assert (Hq : stays calm_psc bev_datacb) by
      (unfold bev_datacb, with_bev; calm_parts; apply recvdata_calm).
    by apply (stays_run Hq E).
  - assert (Hq : stays calm_psc (bev_reconnect net)) by
      (unfold bev_reconnect, reconnect; calm_parts; apply connect_calm).
    by apply (stays_run Hq E).
Qed.

(** Bodies received stay well formed. *)
#[local] Existing Instance keeps_rx_wf_preorder.

Lemma scanned_data prio mask (b b' : Block (dbuffer B)) :
  scanned prio mask b = (Ret tt, b') → data b' = data b.
Proof.
  pose (same (x y : Block (dbuffer B)) := data y = data x).
  assert (Hpre : PreOrder same) by (split; [by intros x|intros x y z; unfold same; congruence]).
  assert (Hs : stays same (scanned prio mask)).
  { unfold scanned. stays_parts; apply stays_modify; intros x; unfold same; by rewrite ?data_requestScan. }
  intros E. apply (stays_run Hs E).
Qed.

Lemma reconnect_wf : stays keeps_rx_wf (start_reconnect (B:=B)).
Proof.
  unfold start_reconnect, put_connected. stays_parts; try by apply modify_keeps.
  all: apply base_op_keeps; by intros ? ?.
Qed.

Lemma pub_step_wf s s' : pub_step s s' → keeps_rx_wf s s'.
Proof.
  assert (Hframe : ∀ s1 s2, tx_frame s1 s2 → keeps_rx_wf s1 s2).
  { intros s1 s2 [Hp Hr] [Hl Hw]. unfold conn_part in Hp. injection Hp as _ _ _ _ _ Hbl _ _.
    split; [by rewrite Hbl|]. unfold blocks_wf. by rewrite Hr. }
  intros [k buf s1 o s2 _ E _|k buf s1 o s2 _ E _|id buf s1 o s2 E _|s1|s1|k prio mask b b' s1 Hk E].
  - apply Hframe. pose proof (queueSend_bytes_frame k buf s1) as Hf. by rewrite E in Hf.
  - apply Hframe. pose proof (queueSend_block_frame k buf s1) as Hf. by rewrite E in Hf.
  - apply Hframe. pose proof (queueSend_frame id buf s1) as Hf. by rewrite E in Hf.
  - apply Hframe, flushSend_frame.
  - assert (Hq : stays keeps_rx_wf (forceReConnect (B:=B))) by
      (unfold forceReConnect; stays_parts; apply reconnect_wf).
    apply Hq.
  - intros [Hl Hw]. split; [done|]. cbn. apply map_Forall_insert_2; [|done].
    rewrite (scanned_data _ _ _ _ E). apply (Hw k b Hk).
Qed.

Lemma eventcb_wf evt : records_ok → stays keeps_rx_wf (eventcb evt).
Proof.
  intros Hrec.
  assert (Hdb : ∀ prec, stays keeps_rx_wf (dbProcess prec)).
  { intros prec s. destruct (Hrec prec s) as [_ Hsteps].
    induction Hsteps as [|s1 s2 s3 Hstep _ IH]; [done|]. etrans; [by apply pub_step_wf|done]. }
  assert (Hproc : ∀ l, stays keeps_rx_wf (process_on_connect l)).
  { induction l as [|prec l IH]; cbn [process_on_connect]; stays_parts;
      first [apply Hdb|apply IH|apply base_op_keeps; by intros ? ?]. }
  unfold eventcb, put_connected, put_message. stays_parts.
  all: first [apply Hproc|apply reconnect_wf|apply on_session_keeps|apply base_op_keeps; by intros ? ?].
Qed.

Lemma connect_wf net : stays keeps_rx_wf (connect net).
Proof.
  unfold connect, put_message. stays_parts.
  all: first [ by apply modify_keeps | apply on_session_keeps | apply base_op_keeps; by intros ? ?
             | apply stays_modify; intros s [_ Hw]; by split ].
Qed.

Lemma conn_step_wf ok s s' : records_ok → conn_step ok s s' → keeps_rx_wf s s'.
Proof.
  intros Hrec [s1 s2 Hp|evt s1 s2 _ E|chunk s1 s2 Ha|s1 b s2 _ _ E|net s1 s2 _ _ E].
  - by apply pub_step_wf.
  - assert (Hq : stays keeps_rx_wf (bev_eventcb evt)) by
      (unfold bev_eventcb, with_bev; stays_parts; by apply eventcb_wf).
    by apply (stays_run Hq E).
  - destruct (arrives_part _ _ _ Ha) as [Hp Hb]. unfold conn_part in Hp. injection Hp as _ _ _ _ _ Hbl _ _.
    unfold keeps_rx_wf, rx_wf. by rewrite Hb, Hbl.
  - assert (Hq : stays keeps_rx_wf bev_datacb) by
      (unfold bev_datacb, with_bev; stays_parts; apply recvdata_keeps).
    by apply (stays_run Hq E).
  - assert (Hq : stays keeps_rx_wf (bev_reconnect net)).
    { unfold bev_reconnect, reconnect. stays_parts; first [apply connect_wf|by apply modify_keeps]. }
    by apply (stays_run Hq E).
Qed.

(** A driver in service: its connection state is consistent, its bodies are as they should be. *)
Record in_service s : Prop := {
  is_conn : conn_inv s;
  is_rx : rx_wf s;
  is_send : map_Forall (λ _ blk, flat_body (data blk)) (send_blocks (base s));
}.

Lemma in_service_ok s : in_service s → tcp_ok s.
Proof.
  intros [Hc [_ Hr] Hs]. split; [by split|apply (ci_connected s Hc)|apply (ci_timer s Hc)].
Qed.

(** So whatever libevent, the timer and other threads make a TCP driver do, records find it
    fit to be called, with all the blocks they had before. *)
Lemma conn_step_in_service ok s s' :
  records_ok → listeners_safe → conn_step ok s s' → in_service s →
  in_service s' ∧ grown (base s) (base s').
Proof.
  intros Hrec Hsafe Hstep [Hc Hr Hs]. destruct (conn_step_calm _ _ _ Hrec Hstep) as [Hf Hg].
  split; [|done]. split; [by eapply conn_step_inv|by eapply conn_step_wf|by apply Hf].
Qed.
End own.

(** ** The three classes behind one pointer *)

Import Drivers.

Section drivers.
Context {B : Type} `{EvBufferLaws B} `{EpicsEnv} `{PscConfig} `{RecordSupport B}.
Context `{Udp.UdpNet} `{Udp.UdpRecords B} `{Fast.FastConfig} `{FastSizes}.
Implicit Types d : driver B.

#[global] Instance driver_virtual_laws : PSCVirtualLaws B (driver B).
Proof. split; [by intros b []|by intros [[]|[]|[[]]]|by intros a b []]. Qed.

(** The receiver: its buffers are all there, each of the size it was allocated with. *)
Definition fast_ok (p : Fast.sys B) : Prop :=
  base_ok (Fast.fbase (Fast.shared p)) ∧
  ∃ size, 8 ≤ size ∧ FastPool.pool_inv size (Fast.vpoolTotal (Fast.shared p)) p.

Definition any_ok d : Prop :=
  match d with Tcp p => tcp_ok p | Udp p => udp_ok p | FastUdp p => fast_ok p end.

Definition any_type d : string :=
  match d with Tcp _ => "PSC" | Udp _ => "PSCUDP" | FastUdp _ => "UDPFast" end.

Lemma dispatch_ok {A} (tcp : M (PSC B) A) (udp : M (Udp.PSCUDP B) A) (a : A) d :
  any_ok d →
  (∀ p, d = Tcp p → call_ok tcp_type tcp_ok tcp p) → (∀ p, d = Udp p → call_ok udp_type udp_ok udp p) →
  call_ok any_type any_ok (dispatch tcp udp (ret a)) d.
Proof.
  intros Hd Ht Hu. unfold call_ok, wp, dispatch. destruct d as [p|p|p]; cbn.
  - specialize (Ht p eq_refl). unfold call_ok, wp in Ht.
    destruct (tcp p) as [[?|?|?] ?]; [by destruct Ht as [? []]..|done].
  - specialize (Hu p eq_refl). unfold call_ok, wp in Hu.
    destruct (udp p) as [[?|?|?] ?]; [by destruct Hu as [? []]..|done].
  - by split.
Qed.

Lemma set_fbase_ok b (p : Fast.sys B) :
  fast_ok p → base_ok b → fast_ok (Fast.on_shared (Fast.set_fbase b) p).
Proof.
  intros [_ (size & Hs & Hp)] Hb. split; [done|]. exists size. split; [done|].
  by apply (FastPool.same_pool_inv size _ p).
Qed.

#[global] Instance driver_safe : SafeDriver B (driver B).
Proof.
  refine {| driver_ok := any_ok; driver_type := any_type |}.
  - intros [p|p|p] Hd; [apply Hd|exact Hd|apply Hd].
  - intros [p|p|p] b Hd Hb Hc; cbn in *; [exact (ok_put_base (P:=PSC B) p b Hd Hb Hc)|exact Hb|].
    by apply set_fbase_ok.
  - by intros [p|p|p] b.
  - intros id buf d Hd Hc Hl. apply dispatch_ok; [done|intros p ->..];
    [exact (ok_queue_id (P:=PSC B) id buf p Hd Hc Hl)|exact (ok_queue_id (P:=Udp.PSCUDP B) id buf p Hd Hc Hl)].
  - intros k buf d Hd Hc Hk Hl. apply dispatch_ok; [done|intros p ->..];
    [exact (ok_queue_buf (P:=PSC B) k buf p Hd Hc Hk Hl)|exact (ok_queue_buf (P:=Udp.PSCUDP B) k buf p Hd Hc Hk Hl)].
  - intros k b d Hd Hk Hb. apply dispatch_ok; [done|intros p ->..];
    [exact (ok_queue_dbuffer (P:=PSC B) k b p Hd Hk Hb)|exact (ok_queue_dbuffer (P:=Udp.PSCUDP B) k b p Hd Hk Hb)].
  - intros d Hd. apply dispatch_ok; [done|intros p ->..];
    [exact (ok_flush (P:=PSC B) p Hd)|exact (ok_flush (P:=Udp.PSCUDP B) p Hd)].
  - intros d Hd. apply dispatch_ok; [done|intros p ->..];
    [exact (ok_force (P:=PSC B) p Hd)|exact (ok_force (P:=Udp.PSCUDP B) p Hd)].
Defined.
End drivers.

(** A step of a TCP driver is among the changes the life of a record allows for. *)
Theorem tcp_step_allowed {B} `{EvBufferLaws B} `{EpicsEnv} `{PscConfig} `{RecordSupport B}
    `{Udp.UdpNet} `{Udp.UdpRecords B} `{Fast.FastConfig} `{FastSizes} ok m n (p p' : PSC B) :
  records_ok → listeners_safe → conn_step ok p p' → in_service p →
  drivers_ok m → m !! n = Some (Tcp p) →
  in_service p' ∧ drivers_ok (<[n := Tcp p']> m) ∧ later m (<[n := Tcp p']> m).
Proof.
  intros Hrec Hsafe Hstep Hp Hm Hn.
  destruct (conn_step_in_service _ _ _ Hrec Hsafe Hstep Hp) as [Hp' Hg]. split; [done|].
  apply (put_allowed m n (Tcp p)); [done..|by apply in_service_ok|done].
Qed.
