(* ===== verification/DriverSteps.v ===== *)
(** * What UDP drivers and receivers do by themselves

    The counterparts of [DriverSafe.tcp_step_allowed]: whatever the callbacks of a UDP driver
    and the two threads of a fast receiver do, records find the drivers fit to be called and
    with all the blocks they had before. *)

From S2P Require Import Prelude Hoare EvBuffer Dbuffer Block Wire PscBase PscTcp PscTcpRx PscUdp Ieee.
From S2P Require Import DevCommon DevSample DevReg DevTable DevSafe UdpFast Registry DriverSafe.
From S2P Require FastPool.

Import Drivers(driver, Tcp, Udp, FastUdp).

(** ** The base class *)

Section base.
Context {B : Type} `{EvBufferLaws B} `{EpicsEnv}.
Implicit Types b : PSCBase B.

(** Bodies stay well formed and flat, and no block is lost. *)
Definition fine b b' : Prop := (base_ok b → base_ok b') ∧ grown b b'.

#[export] Instance fine_preorder : PreOrder fine.
Proof. split; [by intros b|]. intros a b c [F1 G1] [F2 G2]. split; [auto|by etrans]. Qed.

(** A change that is not one of blocks. *)
Lemma fine_same b b' : recv_blocks b' = recv_blocks b → send_blocks b' = send_blocks b → fine b b'.
Proof. intros Er Es. split; [by intros [Hr Hs]; split; rewrite ?Er, ?Es|]. by split; rewrite ?Er, ?Es. Qed.

Lemma fine_modify (f : PSCBase B → PSCBase B) :
  (∀ b, recv_blocks (f b) = recv_blocks b) → (∀ b, send_blocks (f b) = send_blocks b) → stays fine (modify f).
Proof. intros Hr Hs. apply stays_modify. intros b. by apply fine_same. Qed.

Lemma fine_tx b b' : tx_kept b b' → fine b b'.
Proof. intros Hk. split; [by apply tx_kept_ok|by apply tx_kept_grown]. Qed.

Lemma upd_recv_fine k (f : Block (dbuffer B) → Block (dbuffer B)) :
  (∀ blk, dbuffer_wf (data blk) → dbuffer_wf (data (f blk))) → stays fine (upd_recv k f).
Proof.
  intros Hf. apply stays_modify. intros b. split; [|split; [by cbn; rewrite dom_alter_L|done]].
  intros [Hr Hs]. split; [|done]. intros j blk. cbn.
  intros [(-> & b0 & Hb & ->)|[_ Hj]]%lookup_alter_Some; [by eapply Hf, Hr|by apply (Hr j)].
Qed.

Lemma read_fine k : stays fine (recv_block (B:=B) k) ∧ stays fine (send_block (B:=B) k).
Proof. split; intros b; unfold recv_block, send_block; by destruct (_ !! _). Qed.

Lemma getSend_fine k : stays fine (getSend (B:=B) k).
Proof.
  intros b. unfold getSend. destruct (send_blocks b !! k); [done|]. split; [|split; cbn; [done|set_solver]].
  intros [Hr Hs]. split; [done|]. cbn. apply map_Forall_insert_2; [apply new_block_flat|done].
Qed.

Lemma emit_fine e : stays fine (emit (B:=B) e).
Proof. by apply fine_modify. Qed.

Lemma tick_fine : stays fine (tick (B:=B)).
Proof. unfold tick. stays_parts; by apply fine_modify. Qed.

(** Follow a call on the base class. *)
Ltac fine_parts :=
  stays_parts;
  repeat first [apply emit_fine | apply tick_fine | apply read_fine | by apply fine_modify
               | by apply upd_recv_fine; intros [] ].

Lemma listeners_fine k : stays fine (call_listeners (B:=B) k).
Proof.
  unfold call_listeners. stays_parts; [apply read_fine|]. generalize (map_data contents a) as blk.
  induction (listeners a) as [|[user fn] l IH]; intros blk; cbn [CBList.call]; unfold call_listener; fine_parts.
  apply IH.
Qed.

Lemma requestScan_fine k : stays fine (requestScan_recv (B:=B) k).
Proof. unfold requestScan_recv. fine_parts; apply upd_recv_fine; intros blk; by rewrite data_requestScan. Qed.

Lemma stamp_fine k : stays fine (stamp_rxtime (B:=B) k).
Proof. unfold stamp_rxtime. fine_parts. Qed.

Lemma store_fine k body : stays fine (upd_recv (B:=B) k (λ x, set_data (dbuffer_assign body (data x)) x)).
Proof. apply upd_recv_fine. intros [] _. apply dbuffer_wf_assign. Qed.
End base.

(** Follow calls on the base class. *)
Ltac fine_base :=
  stays_parts;
  repeat first
    [ apply emit_fine | apply tick_fine | apply read_fine | apply getSend_fine | apply stamp_fine
    | apply requestScan_fine | apply listeners_fine | apply store_fine | by apply fine_modify
    | by apply upd_recv_fine; intros [] ].

(** ** The UDP driver *)

Section udp.
Context {B : Type} `{EvBufferLaws B} `{EpicsEnv} `{Udp.UdpNet} `{Udp.UdpRecords B}.
Import Udp.
Implicit Types s : PSCUDP B.

Definition fine_udp s s' : Prop := fine (ubase s) (ubase s').

#[export] Instance fine_udp_preorder : PreOrder fine_udp.
Proof. split; [by intros s|]. intros a b c. unfold fine_udp. apply fine_preorder. Qed.

Lemma on_ubase_fine {A} (m : M (PSCBase B) A) : stays fine m → stays fine_udp (on_ubase m).
Proof. intros Hm s. specialize (Hm (ubase s)). unfold fine_udp, on_ubase, zoom. by destruct (m (ubase s)). Qed.

Lemma modify_fine (f : PSCUDP B → PSCUDP B) : (∀ s, ubase (f s) = ubase s) → stays fine_udp (modify f).
Proof. intros Hf. apply stays_modify. intros s. unfold fine_udp. by rewrite Hf. Qed.

Lemma fill_fine body : stays fine_udp (fill_packet (B:=B) body).
Proof. apply modify_fine. intros s. by destruct (list.last (sendbuf s)). Qed.

Lemma mark_fine k : stays fine_udp (mark_queued (B:=B) k).
Proof. apply on_ubase_fine, stays_modify. intros b. by apply fine_tx, tx_kept_mark. Qed.

(** Follow a call down to the base. *)
Ltac udp_parts :=
  unfold note_error, incr_ukncount, add_tx_event; stays_parts;
  repeat first
    [ apply fill_fine
    | apply mark_fine
    | by apply modify_fine
    | apply on_ubase_fine; fine_base ].

Lemma send_loop_fine fuel scanme : stays fine_udp (send_loop fuel scanme).
Proof.
  revert scanme. induction fuel as [|fuel IH]; intros scanme; cbn [send_loop];
    unfold note_sent, retire_front; udp_parts; apply IH.
Qed.

Lemma recv_packets_fine queue scanme : stays fine_udp (recv_packets queue scanme).
Proof.
  revert scanme. induction queue as [|[ep pkt|text] r IH]; intros scanme; cbn [recv_packets];
    unfold recv_packet; udp_parts; apply IH.
Qed.

Lemma queueSend_bytes_fine k buf : stays fine_udp (queueSend_bytes k buf).
Proof. unfold queueSend_bytes, queueHeader. udp_parts. Qed.

Lemma udp_call_fine s s' : udp_call s s' → fine_udp s s'.
Proof.
  destruct 1.
  - assert (Hq : stays fine_udp flushSend) by
      (unfold flushSend; udp_parts; apply stays_modify; intros b; apply fine_tx, tx_kept_unmark).
    apply Hq.
  - apply queueSend_bytes_fine.
  - assert (Hq : stays fine_udp (queueSend_block k d)) by
      (unfold queueSend_block, queueHeader; udp_parts).
    apply Hq.
  - assert (Hq : stays fine_udp (queueSend id body)) by
      (unfold queueSend; udp_parts; apply queueSend_bytes_fine).
    apply Hq.
Qed.

Lemma connect_fine : udp_records_ok → stays fine_udp connect.
Proof.
  intros Hrec. unfold connect. udp_parts. apply process_records_stays; [apply _| |].
  - intros prec s. induction (Hrec prec s) as [|s1 s2 s3 Hs _ IH]; [done|]. etrans; [by apply udp_call_fine|done].
  - intros e. apply on_ubase_fine. fine_base.
Qed.

Lemma udp_step_fine s s' : udp_records_ok → udp_step s s' → fine_udp s s'.
Proof.
  intros Hrec. destruct 1.
  - by apply connect_fine.
  - assert (Hq : stays fine_udp (ev_send evt)) by (unfold ev_send, senddata; udp_parts; apply send_loop_fine).
    apply Hq.
  - assert (Hq : stays fine_udp (ev_recv evt queue)) by
      (unfold ev_recv, recvdata; udp_parts; apply recv_packets_fine).
    apply Hq.
  - by apply udp_call_fine.
Qed.
End udp.

(** ** The fast receiver *)

Section fast.
Context {B : Type} `{EvBufferLaws B} `{EpicsEnv} `{Fast.FastConfig}.
Import Fast.
Implicit Types (s : sys B) (c : config B).

(** The base is looked after and no buffer was added. *)
Definition fine_fast s s' : Prop :=
  fine (fbase (shared s)) (fbase (shared s')) ∧ vpoolTotal (shared s') = vpoolTotal (shared s).

#[export] Instance fine_fast_preorder : PreOrder fine_fast.
Proof. split; [by intros s|]. intros a b c [F1 T1] [F2 T2]. split; [by etrans|congruence]. Qed.

Lemma on_fbase_fine {A} (m : M (PSCBase B) A) : stays fine m → stays fine_fast (on_fbase m).
Proof.
  intros Hm s. specialize (Hm (fbase (shared s))). unfold on_fbase, zoom. by destruct (m _).
Qed.

Lemma fast_modify_fine (f : sys B → sys B) :
  (∀ s, fbase (shared (f s)) = fbase (shared s)) → (∀ s, vpoolTotal (shared (f s)) = vpoolTotal (shared s)) →
  stays fine_fast (modify f).
Proof. intros Hb Ht. apply stays_modify. intros s. split; [by rewrite Hb|done]. Qed.

(** Follow a step of a thread. *)
Ltac fast_parts :=
  stays_parts;
  repeat first
    [ by apply fast_modify_fine
    | apply on_fbase_fine; fine_base ].

Lemma overflow_fine d : stays fine_fast (note_overflow (B:=B) d).
Proof. unfold note_overflow. fast_parts. Qed.

Lemma rx_packets_fine i ds now : stays fine_fast (rx_packets (B:=B) i ds now).
Proof.
  revert i. induction ds as [|d r IH]; intros i; cbn [rx_packets]; unfold rx_packet, ignore_packet; fast_parts;
    first [apply overflow_fine|apply IH].
Qed.

Lemma close_file_fine : stays fine_fast (modify (on_cache (B:=B) close_file)).
Proof. by apply fast_modify_fine. Qed.

Lemma deliver_pkts_fine ps : stays fine_fast (deliver_pkts (B:=B) ps).
Proof. induction ps as [|p ps IH]; cbn [deliver_pkts]; unfold deliver_pkt; fast_parts; apply IH. Qed.

Lemma write_batches_fine wr fuel k ps err : stays fine_fast (write_batches (B:=B) wr fuel k ps err).
Proof.
  revert k ps err. induction fuel as [|fuel IH]; intros k ps err; cbn [write_batches]; fast_parts; apply IH.
Qed.

(** The state after a call that is a step. *)
Ltac run_of Hq := match goal with E : _ ?s = (Ret _, ?s') |- fine_fast ?s ?s' => exact (stays_run Hq E) end.

Lemma thread_step_fine c c' : thread_step c c' → fine_fast (st c) (st c').
Proof.
  assert (Ha : stays fine_fast rx_assign) by (unfold rx_assign; fast_parts).
  assert (Hn : stays fine_fast rx_notify) by (unfold rx_notify; fast_parts).
  assert (Hd : stays fine_fast cache_deassign) by (unfold cache_deassign; fast_parts).
  assert (Hg : stays fine_fast cache_grab) by (unfold cache_grab; fast_parts).
  assert (Hs : stays fine_fast cache_short) by (unfold cache_short; fast_parts).
  intros Hstep. destruct Hstep; cbn [st]; try done.
  - by run_of Ha.
  - by run_of Ha.
  - by run_of Hn.
  - assert (Hq : stays fine_fast (rx_batch ds timeout now)) by
      (unfold rx_batch; fast_parts; apply rx_packets_fine).
    by run_of Hq.
  - by run_of Hd.
  - by run_of Hd.
  - by run_of Hg.
  - assert (Hq : stays fine_fast cache_deliver) by (unfold cache_deliver; fast_parts; apply deliver_pkts_fine).
    by run_of Hq.
  - assert (Hq : stays fine_fast (cache_open stamp operr)) by (unfold cache_open; fast_parts).
    by run_of Hq.
  - assert (Hq : stays fine_fast (cache_write wr syncerr err)) by
      (unfold cache_write; fast_parts; apply write_batches_fine).
    by run_of Hq.
  - by run_of Hs.
  - assert (Hq : stays fine_fast (cache_error err text)) by (unfold cache_error; fast_parts).
    by run_of Hq.
Qed.

Lemma dev_step_fine c c' : dev_step c c' → fine_fast (st c) (st c').
Proof.
  intros Hstep. destruct Hstep as [s s' r k n E|s s' r k block off nelm arr v _ E|s s' r k v E|s s' r k E|s s' r k E].
  - assert (Hq : stays fine_fast devudp_clear_shortbuf) by (unfold devudp_clear_shortbuf; fast_parts).
    apply (stays_run Hq E).
  - assert (Hq : stays fine_fast (devudp_read_shortbuf block off nelm arr)) by
      (unfold devudp_read_shortbuf; fast_parts).
    apply (stays_run Hq E).
  - assert (Hq : stays fine_fast (devudp_set_record v)) by (unfold devudp_set_record; fast_parts).
    apply (stays_run Hq E).
  - assert (Hq : stays fine_fast devudp_reopen) by (unfold devudp_reopen; fast_parts).
    apply (stays_run Hq E).
  - assert (Hq : stays fine_fast stop) by (unfold stop; fast_parts).
    apply (stays_run Hq E).
Qed.

(** A receiver in service. *)
Definition fast_in_service c : Prop :=
  base_ok (fbase (shared (st c))) ∧
  ∃ size, 8 ≤ size ∧ FastPool.config_inv size (vpoolTotal (shared (st c))) c.

Lemma fast_in_service_ok c : fast_in_service c → fast_ok (st c).
Proof. intros [Hb (size & Hs & Hi & _)]. split; [done|]. by exists size. Qed.

Lemma fast_step_in_service c c' :
  step c c' → fast_in_service c → fast_in_service c' ∧ grown (fbase (shared (st c))) (fbase (shared (st c'))).
Proof.
  intros Hstep [Hb (size & Hs & Hi)].
  assert (Hf : fine_fast (st c) (st c')) by (destruct Hstep; [by apply thread_step_fine|by apply dev_step_fine]).
  destruct Hf as [[Hok Hg] Ht]. split; [|done]. split; [auto|]. exists size. split; [done|]. rewrite Ht.
  destruct Hstep; [by eapply FastPool.thread_step_inv|by eapply FastPool.dev_step_inv].
Qed.
End fast.

(** ** Among the changes the life of a record allows for *)

Section allowed.
Context {B : Type} `{EvBufferLaws B} `{EpicsEnv} `{PscConfig} `{RecordSupport B}.
Context `{Udp.UdpNet} `{Udp.UdpRecords B} `{Fast.FastConfig}.
Implicit Types m : gmap string (driver B).

Lemma udp_step_allowed m n (p p' : Udp.PSCUDP B) :
  Udp.udp_records_ok → Udp.udp_step p p' → drivers_ok m → m !! n = Some (Udp p) →
  drivers_ok (<[n := Udp p']> m) ∧ later m (<[n := Udp p']> m).
Proof.
  intros Hrec Hstep Hm Hn. destruct (udp_step_fine _ _ Hrec Hstep) as [Hok Hg].
  apply (put_allowed m n (Udp p)); [done..| |done]. apply Hok, (Hm n _ Hn).
Qed.

Lemma fast_step_allowed m n (c c' : Fast.config B) :
  Fast.step c c' → fast_in_service c → drivers_ok m → m !! n = Some (FastUdp (Fast.st c)) →
  fast_in_service c' ∧ drivers_ok (<[n := FastUdp (Fast.st c')]> m) ∧ later m (<[n := FastUdp (Fast.st c')]> m).
Proof.
  intros Hstep Hc Hm Hn. destruct (fast_step_in_service _ _ Hstep Hc) as [Hc' Hg]. split; [done|].
  apply (put_allowed m n (FastUdp (Fast.st c))); [done..|by apply fast_in_service_ok|done].
Qed.
End allowed.
