(* ===== verification/DevUdp.v ===== *)
(** * Device support of the fast UDP receiver

    udpApp/src/devudp.cpp: records that set the file names, show strings, gauges and counters
    of a [UDPFast], and read the packets it has kept.  What they do to the buffers is in
    [UdpFast]; this file has the functions EPICS calls, over records and the map of drivers
    as in [DevCommon]. *)

From Stdlib Require Import Floats.SpecFloat Strings.String.
From S2P Require Import Prelude EvBuffer Dbuffer Block Wire PscBase PscTcp Ieee DevCommon.
From S2P Require Import UdpFast Registry DevString FastPool DevSample DevReg DevTable.

Module DevUdp.
Import Fast.

(** ** Records *)

(** ai: the analog fields and VAL; lso and lsi: VAL as an array of SIZV bytes, and LEN;
    aai: the array, NELM and NORD. *)
Record airec := AiRec { ana : analog; aval : spec_float }.
Record lsrec := LsRec { lval : list byte; sizv : Z; len : Z }.
Record aairec := AaiRec { bptr : list Z; nelm : Z; nord : Z; ftvl_ulong : bool }.

Definition set_aval (v : spec_float) (r : airec) : airec := AiRec (ana r) v.
Definition set_lval (v : list byte) (r : lsrec) : lsrec := LsRec v (sizv r) (len r).

(** [struct privShortBuf] *)
Record privShortBuf := PrivShortBuf {
  spsc : option string;
  sblock : Z;
  soffset : Z;
}.

(** Calls of EPICS: the clock, and the difference of two time stamps. *)
Class EpicsClock := {
  epicsTimeGetCurrent : option epicsTime;
  epicsTimeDiffInSeconds : epicsTime → epicsTime → spec_float;
}.

Definition STATE_ALARM : Z := 7.

Section devudp.
Context {B : Type} `{EvBuffer B} `{EpicsEnv} `{FastConfig} `{EpicsRecord} `{EpicsClock}.

(** A record and the drivers by name; the private data names a driver. *)
Definition dev (R : Type) : Type := devst R string (Drivers.driver B).

(** A call on [dev], the [UDPFast] the private data points to. *)
Definition on_dev {R V A} (name : string) (m : M (sys B) A) : M (devst R V (Drivers.driver B)) A := λ s,
  match pscmap s !! name with
  | Some (Drivers.FastUdp p) =>
      let '(o, p') := m p in (o, set_pscmap (<[name := Drivers.FastUdp p']> (pscmap s)) s)
  | _ => (Crash NullDeref, s)
  end.

Definition read_dev {R V A} (name : string) (f : UDPFast B → A) : M (devst R V (Drivers.driver B)) A :=
  on_dev name (gets (λ p, f (shared p))).

Definition upd_rec {R V P} (f : R → R) : M (devst R V P) unit := modify (λ s, set_rec (f (rec s)) s).

(** [PSCBase::getPSC<UDPFast>(name)] *)
Definition getUDPFast {R V} (name : string) : M (devst R V (Drivers.driver B)) (option string) :=
  gets (λ s, match pscmap s !! name with Some (Drivers.FastUdp _) => Some name | _ => None end).

(** ** Time between two processings *)

(** The private data is the time of the last processing; [junk] is what the memory held
    when the clock fails. *)
Definition devudp_init_record_period (alloc : bool) (junk : epicsTime)
    : M (devst airec epicsTime (Drivers.driver B)) dev_status :=
  modify (set_dpvt (if alloc then Some (default junk epicsTimeGetCurrent) else None)) ;;;
  ret (Status 0).

Definition devudp_interval : M (devst airec epicsTime (Drivers.driver B)) dev_status :=
  s <- get ;;
  match dpvt s, epicsTimeGetCurrent with
  | Some last, Some now =>
      upd_rec (set_aval (epicsTimeDiffInSeconds now last)) ;;;
      modify (set_dpvt (Some now)) ;;;
      ret (Status 2)
  | _, _ =>
      setSevr READ_ALARM INVALID_ALARM ;;;
      upd_rec (set_aval fzero) ;;;
      ret (Status 2)
  end.

(** ** Finding the receiver *)

(** [devudp_init_record_out], [devudp_init_record_in] *)
Definition devudp_init_record {R} (link : string) : M (dev R) dev_status :=
  CATCH (d <- getUDPFast link ;; modify (set_dpvt d) ;;; ret (Status 0)).

(** [TRY { ... } CATCH] *)
Definition TRY {R V} (k : V → M (devst R V (Drivers.driver B)) dev_status)
    : M (devst R V (Drivers.driver B)) dev_status :=
  with_priv (λ d, CATCH (k d)).

(** ** Strings *)

(** [devudp_set_string<STR>], with [put] assigning the member [STR]. *)
Definition devudp_set_string (put : string → UDPFast B → UDPFast B) : M (dev lsrec) dev_status :=
  TRY (λ d,
    s <- get ;;
    (if sizv (rec s) =? 0 then abort OutOfBounds
     else upd_rec (λ r, set_lval (zblit (sizv r - 1) [Byte.x00] (lval r)) r)) ;;;
    s <- get ;;
    let newv := string_of_list_byte (cstr (lval (rec s))) in
    on_dev d (modify (on_shared (put newv))) ;;;
    ret (Status 0)).

(** [devudp_get_string<STR>] *)
Definition devudp_get_string (str : UDPFast B → string) : M (dev lsrec) dev_status :=
  TRY (λ d,
    v <- read_dev d str ;;
    s <- get ;;
    let bytes := list_byte_of_string v in
    let cut := zlen bytes >=? sizv (rec s) in
    when cut (setSevr READ_ALARM INVALID_ALARM) ;;;
    let n := if cut then u32 (sizv (rec s) - 1) else zlen bytes in
    (if n >=? zlen (lval (rec s)) then abort OutOfBounds
     else upd_rec (λ r, LsRec (zblit n [Byte.x00] (zblit 0 (ztake n bytes) (lval r))) (sizv r) (n + 1))) ;;;
    ret (Status 0)).

(** ** Switches *)

(** [devudp_reopen]; [devudp_set_record] of a bo record with VAL [v]; [devudp_get_record],
    which sets RVAL of a bi record. *)
Definition devudp_reopen : M (dev Z) dev_status :=
  TRY (λ d, on_dev d Fast.devudp_reopen ;;; ret (Status 0)).

Definition devudp_set_record : M (dev Z) dev_status :=
  TRY (λ d,
    s <- get ;;
    on_dev d (Fast.devudp_set_record (negb (rec s =? 0))) ;;;
    ret (Status 0)).

Definition devudp_get_record : M (dev Z) dev_status :=
  TRY (λ d,
    v <- on_dev d Fast.devudp_get_record ;;
    upd_rec (λ _, v) ;;;
    ret (Status 0)).

(** ** Gauges and counters *)

(** The part of the buffers that are free, waiting for the other thread, or elsewhere: a
    number of buffers, an [epicsInt64], over their total. *)
Definition gauge (count : UDPFast B → Z) : M (dev airec) dev_status :=
  TRY (λ d,
    val <- read_dev d (λ f, fdiv binary64 (of_int binary64 (count f)) (of_int binary64 (vpoolTotal f))) ;;
    upd_rec (λ r, set_aval (analogRaw2EGU (ana r) val) r) ;;;
    ret (Status 2)).

Definition vpool_count (f : UDPFast B) : Z := zlen (vpool f).
Definition pending_count (f : UDPFast B) : Z := zlen (pending f).
Definition inprog_count (f : UDPFast B) : Z :=
  wrapS 64 (vpoolTotal f - wrapS 64 (zlen (vpool f) + zlen (pending f))).

Definition devudp_get_vpool : M (dev airec) dev_status := gauge vpool_count.
Definition devudp_get_pending : M (dev airec) dev_status := gauge pending_count.
Definition devudp_get_inprog : M (dev airec) dev_status := gauge inprog_count.

(** [devudp_get_counter<CNT>], to VAL of an int64in record; the size of the last file in
    megabytes. *)
Definition devudp_get_counter (get : counters → Z) : M (dev Z) dev_status :=
  TRY (λ d,
    v <- read_dev d (λ f, get (cnt f)) ;;
    upd_rec (λ _, wrapS 64 v) ;;;
    ret (Status 0)).

Definition devudp_get_lastsize : M (dev Z) dev_status :=
  TRY (λ d,
    v <- read_dev d (λ f, lastsize (cnt f)) ;;
    upd_rec (λ _, v / 2 ^ 20) ;;;
    ret (Status 0)).

(** ** Kept packets *)

(** [devudp_clear_shortbuf], to VAL of a longin record. *)
Definition devudp_clear_shortbuf : M (dev Z) dev_status :=
  TRY (λ d,
    n <- on_dev d Fast.devudp_clear_shortbuf ;;
    upd_rec (λ v, wrapS 32 (v + n)) ;;;
    ret (Status 0)).

(** The extractions of [devudp_init_record_shortbuf]. *)
Definition parse_shortbuf (link : string) : option (string * Z * Z) :=
  match
    (name <- IStream.get_string ;;
     blk <- IStream.get_uint ;;
     off <- IStream.unless_eof 0 IStream.get_ulong ;;
     ret (name, blk, off)) (IStream.istringstream link)
  with
  | (Ret r, st) => if IStream.fail st then None else Some r
  | _ => None
  end.

Definition devudp_init_record_shortbuf (link : string)
    : M (devst aairec privShortBuf (Drivers.driver B)) dev_status :=
  CATCH
    (match parse_shortbuf link with
     | None => throw (RuntimeError "Link parsing error")
     | Some (name, blk, off) =>
         d <- getUDPFast name ;;
         modify (set_dpvt (Some (PrivShortBuf d blk off))) ;;;
         ret (Status 0)
     end).

(** The time stamp of the first packet, for a record that takes its time from the device. *)
Definition shortbuf_time (priv : privShortBuf) (n : Z) (ps : list pkt) (c : dbCommon) : dbCommon :=
  match ps with
  | p :: _ =>
      if (1 <=? n) && (msgid p =? sblock priv) && (tse c =? epicsTimeEventDeviceTime)
      then set_time (rxtime p) c else c
  | [] => c
  end.

(** The alarm is raised once, however many elements and conditions ask for it. *)
Definition devudp_read_shortbuf : M (devst aairec privShortBuf (Drivers.driver B)) dev_status :=
  s <- get ;;
  if negb (ftvl_ulong (rec s)) then
    setSevr STATE_ALARM INVALID_ALARM ;;; ret (Status 0)
  else
    TRY (λ priv,
      match spsc priv with
      | None => abort NullDeref
      | Some d =>
          ps <- read_dev d shortBuf ;;
          r <- on_dev d (Fast.devudp_read_shortbuf (sblock priv) (soffset priv)
                           (nelm (rec s)) (bptr (rec s))) ;;
          let '(vs, n, alarm) := r in
          when alarm (setSevr READ_ALARM INVALID_ALARM) ;;;
          modify (λ s, set_com (shortbuf_time priv n ps (com s)) s) ;;;
          upd_rec (λ r, AaiRec vs (nelm r) n (ftvl_ulong r)) ;;;
          ret (Status 0)
      end).

(** ** The tables *)

(** [devudp_init_record_out], [devudp_init_record_in] and [devudp_init_record_shortbuf] read
    the text of the link, whatever its type. *)
Definition init_dev {R} : link_init (M (dev R) dev_status) := λ _ link _, devudp_init_record link.

Abbreviation fast R := (dset (Drivers.driver B) R string block_ptr).

Definition devPSCUDPIntervalAI (alloc : bool) (junk : epicsTime) : dset (Drivers.driver B) airec epicsTime block_ptr :=
  MAKEDSET (λ _ _ _, devudp_init_record_period alloc junk) None devudp_interval.
Definition devPSCUDPFilebaseLSO : fast lsrec :=
  MAKEDSET init_dev None (devudp_set_string set_filebase).
Definition devPSCUDPFiledirLSO : fast lsrec :=
  MAKEDSET init_dev None (devudp_set_string set_filedir).
Definition devPSCUDPReopenBO : fast Z := MAKEDSET init_dev None devudp_reopen.
Definition devPSCUDPRecordBO : fast Z := MAKEDSET init_dev None devudp_set_record.
Definition devPSCUDPRecordBI : fast Z := MAKEDSET init_dev None devudp_get_record.
Definition devPSCUDPFilenameLSI : fast lsrec := MAKEDSET init_dev None (devudp_get_string lastfile).
Definition devPSCUDPErrorLSI : fast lsrec := MAKEDSET init_dev None (devudp_get_string lasterror).
Definition devPSCUDPvpoolAI : fast airec := MAKEDSET init_dev None devudp_get_vpool.
Definition devPSCUDPpendingAI : fast airec := MAKEDSET init_dev None devudp_get_pending.
Definition devPSCUDPinprogAI : fast airec := MAKEDSET init_dev None devudp_get_inprog.
Definition devPSCUDPnetrxI64I : fast Z := MAKEDSET init_dev None (devudp_get_counter netrx).
Definition devPSCUDPwroteI64I : fast Z := MAKEDSET init_dev None (devudp_get_counter storewrote).
Definition devPSCUDPndropI64I : fast Z := MAKEDSET init_dev None (devudp_get_counter ndrops).
Definition devPSCUDPnignoreI64I : fast Z := MAKEDSET init_dev None (devudp_get_counter nignore).
Definition devPSCUDPlastsizeI64I : fast Z := MAKEDSET init_dev None devudp_get_lastsize.
Definition devPSCUDPnrxI64I : fast Z := MAKEDSET init_dev None (devudp_get_counter rxcnt).
Definition devPSCUDPntimeoutI64I : fast Z := MAKEDSET init_dev None (devudp_get_counter ntimeout).
Definition devPSCUDPnoomI64I : fast Z := MAKEDSET init_dev None (devudp_get_counter noom).
Definition devPSCUDPShortClearLI : fast Z := MAKEDSET init_dev None devudp_clear_shortbuf.
Definition devPSCUDPShortGetAAI : dset (Drivers.driver B) aairec privShortBuf block_ptr :=
  MAKEDSET (λ _ link _, devudp_init_record_shortbuf link) None devudp_read_shortbuf.

End devudp.

(** ** Lemmas *)

Section lemmas.
Context {B : Type} `{EvBuffer B} `{EpicsEnv} `{FastConfig} `{EpicsRecord} `{EpicsClock}.

Lemma TRY_some {R V} (k : V → M (devst R V (Drivers.driver B)) dev_status) s d :
  dpvt s = Some d → TRY k s = CATCH (k d) s.
Proof. intros E. unfold TRY, with_priv. mstep. by rewrite E. Qed.

Lemma read_dev_spec {R V A} name (f : UDPFast B → A) p (s : devst R V (Drivers.driver B)) :
  pscmap s !! name = Some (Drivers.FastUdp p) → read_dev name f s = (Ret (f (shared p)), s).
Proof.
  intros E. unfold read_dev, on_dev, gets. rewrite E. rewrite insert_id by done. by destruct s.
Qed.

Lemma on_dev_spec {R V A} name (m : M (sys B) A) p (s : devst R V (Drivers.driver B)) :
  pscmap s !! name = Some (Drivers.FastUdp p) →
  on_dev name m s = ((m p).1, set_pscmap (<[name := Drivers.FastUdp (m p).2]> (pscmap s)) s).
Proof. intros E. unfold on_dev. rewrite E. by destruct (m p). Qed.

(** The receiver of that name, if there is one. *)
Definition receiver {R V} (s : devst R V (Drivers.driver B)) (name : string) : option (sys B) :=
  match pscmap s !! name with Some (Drivers.FastUdp p) => Some p | _ => None end.

Lemma getUDPFast_spec {R V} name (s : devst R V (Drivers.driver B)) :
  getUDPFast name s = (Ret ((λ _, name) <$> receiver s name), s).
Proof. unfold getUDPFast, gets, receiver. by destruct (pscmap s !! name) as [[]|]. Qed.

Lemma zlen_list_byte v : zlen (list_byte_of_string v) = Z.of_nat (String.length v).
Proof.
  unfold zlen, list_byte_of_string. rewrite length_map. f_equal.
  induction v as [|c v IH]; cbn; [done|by rewrite IH].
Qed.
End lemmas.

(** ** Properties *)

(** A string record shows the text of its receiver: VAL holds the bytes that fit, with
    a terminator behind them, LEN counts both, nothing is stored outside VAL, and the record
    has a READ alarm exactly when bytes were left out. *)
Theorem string_shown {B} `{EvBuffer B} `{EpicsEnv} `{FastConfig} `{EpicsRecord}
    (str : UDPFast B → string) name p (s : dev (B := B) lsrec) :
  dpvt s = Some name → pscmap s !! name = Some (Drivers.FastUdp p) →
  zlen (lval (rec s)) = sizv (rec s) → 0 < sizv (rec s) < 2 ^ 16 →
  let text := list_byte_of_string (str (shared p)) in
  let n := Z.min (zlen text) (sizv (rec s) - 1) in
  ∃ s', devudp_get_string str s = (Ret (Status 0), s') ∧ pscmap s' = pscmap s ∧
    zlen (lval (rec s')) = sizv (rec s) ∧ sizv (rec s') = sizv (rec s) ∧
    len (rec s') = n + 1 ∧
    ztake (n + 1) (lval (rec s')) = ztake n text ++ [Byte.x00] ∧
    com s' = if zlen text >=? sizv (rec s)
             then set_alarm (recGblSetSevr READ_ALARM INVALID_ALARM (nsta (com s), nsev (com s))) (com s)
             else com s.
Proof.
  intros Hd Hp Hlen Hsz text n. unfold devudp_get_string. rewrite (TRY_some _ _ _ Hd).
  unfold CATCH, catch. rewrite (bind_ret _ _ _ _ _ (read_dev_spec _ _ _ _ Hp)).
  erewrite bind_ret by reflexivity. fold text. pose proof (zlen_nonneg text) as Hn0.
  set (cut := zlen text >=? sizv (rec s)).
  assert (Hn : (if cut then u32 (sizv (rec s) - 1) else zlen text) = n).
  { subst cut n. case_if; bool_to_prop; [rewrite wrapU_small by lia|]; lia. }
  set (s1 := if cut then set_com (set_alarm (recGblSetSevr READ_ALARM INVALID_ALARM
                       (nsta (com s), nsev (com s))) (com s)) s else s).
  assert (E1 : when cut (setSevr READ_ALARM INVALID_ALARM) s = (Ret tt, s1)) by (subst s1; by destruct cut).
  assert (Hr1 : rec s1 = rec s ∧ pscmap s1 = pscmap s) by (subst s1; by destruct cut). destruct Hr1 as [Hr1 Hm1].
  cbv zeta. rewrite (bind_ret _ _ _ _ _ E1), Hn.
  assert (Hz : zlen (ztake n text) = n) by (rewrite zlen_ztake; lia).
  destruct (text_stored (sizv (rec s)) (ztake n text) (lval (rec s))) as [Hv1 Hv2]; [done|lia|].
  rewrite Hz in Hv1, Hv2.
  destruct (n >=? zlen (lval (rec s))) eqn:Ec; bool_to_prop; [lia|].
  eexists. split; [reflexivity|]. cbn. rewrite Hr1, Hm1.
  do 3 (split; [done|]). split; [done|]. split; [done|]. subst s1. by destruct cut.
Qed.

(** The three gauges of a receiver divide numbers of buffers that are between 0 and the
    total and add up to it; "in progress" counts the buffers of the receiving slots, of the
    packets in work and of the kept packets. *)
Theorem gauges_add_up {B} `{EvBuffer B} `{EpicsEnv} `{FastConfig} `{EpicsRecord} size
    name (p : sys B) (s : dev (B := B) airec) :
  let f := shared p in
  let show c := set_rec (set_aval (analogRaw2EGU (ana (rec s))
    (fdiv binary64 (of_int binary64 c) (of_int binary64 (vpoolTotal f)))) (rec s)) s in
  dpvt s = Some name → pscmap s !! name = Some (Drivers.FastUdp p) →
  pool_inv size (vpoolTotal f) p → vpoolTotal f < 2 ^ 63 →
  ∃ free waiting used, free + waiting + used = vpoolTotal f ∧
    0 ≤ free ∧ 0 ≤ waiting ∧ 0 ≤ used ∧
    used = held (body <$> inprog (cal p)) + held (buf <$> msgs (rxl p)) + zlen (shortBuf f) ∧
    devudp_get_vpool s = (Ret (Status 2), show free) ∧
    devudp_get_pending s = (Ret (Status 2), show waiting) ∧
    devudp_get_inprog s = (Ret (Status 2), show used).
Proof.
  intros f show Hd Hp Hinv Htot. pose proof (pi_count _ _ _ Hinv) as Hc.
  assert (Hheld : ∀ l, 0 ≤ held l) by (intros l; apply zlen_nonneg).
  pose proof (Hheld (body <$> inprog (cal p))). pose proof (Hheld (buf <$> msgs (rxl p))).
  pose proof (zlen_nonneg (vpool f)). pose proof (zlen_nonneg (pending f)).
  pose proof (zlen_nonneg (shortBuf f)).
  assert (Hg : ∀ count, gauge count s = (Ret (Status 2), show (count f))).
  { intros count. unfold gauge. rewrite (TRY_some _ _ _ Hd). unfold CATCH, catch.
    by rewrite (bind_ret _ _ _ _ _ (read_dev_spec _ _ _ _ Hp)). }
  exists (zlen (vpool f)), (zlen (pending f)),
    (held (body <$> inprog (cal p)) + held (buf <$> msgs (rxl p)) + zlen (shortBuf f)).
  unfold f in *. do 5 (split; [lia|]). split; [apply Hg|]. split; [apply Hg|].
  unfold devudp_get_inprog. rewrite Hg. do 3 f_equal. unfold inprog_count.
  rewrite (wrapS_small 64 (_ + _)) by (change (2 ^ (64 - 1)) with (2 ^ 63); lia).
  rewrite wrapS_small by (change (2 ^ (64 - 1)) with (2 ^ 63); lia). lia.
Qed.

(** A record of kept packets that names no fast receiver is initialised without an
    error; the first time it is processed, the program dereferences a null pointer. *)
Theorem unknown_receiver_crashes {B} `{EvBuffer B} `{EpicsEnv} `{FastConfig} `{EpicsRecord}
    link name blk off (s : devst aairec privShortBuf (Drivers.driver B)) :
  parse_shortbuf link = Some (name, blk, off) → receiver s name = None →
  ftvl_ulong (rec s) = true →
  ∃ s', devudp_init_record_shortbuf link s = (Ret (Status 0), s') ∧ com s' = com s ∧
    devudp_read_shortbuf s' = (Crash NullDeref, s').
Proof.
  intros Hl Hr Hu. unfold devudp_init_record_shortbuf, CATCH, catch. rewrite Hl.
  rewrite (bind_ret _ _ _ _ _ (getUDPFast_spec _ _)), Hr. cbn [fmap option_fmap option_map].
  eexists. split; [reflexivity|]. split; [done|].
  unfold devudp_read_shortbuf. rewrite (bind_ret get _ _ _ _ eq_refl). cbn [rec set_dpvt]. rewrite Hu.
  cbn [negb]. by erewrite TRY_some by reflexivity.
Qed.

(** ** Witnesses *)

Section sample.
#[local] Existing Instances quiet_env FastPool.sample_config base_record.

Definition busy : sys ChainBuf.chainbuf :=
  on_shared (set_lastfile "run7.dat") (rx_assign (st (start sample_base 2 3 16))).2.
Definition sample_udp {R V} (r : R) (v : option V) : devst R V (Drivers.driver ChainBuf.chainbuf) :=
  DevSt sample_com r v {["dev"%string := Drivers.FastUdp busy]}.

Lemma busy_pool : pool_inv 16 3 busy.
Proof.
  assert (Hs : 8 ≤ 16) by lia. assert (Ht : 0 ≤ 3) by lia.
  set (c := Config (RxAssigned 2) CaTop (rx_assign (st (start sample_base 2 3 16))).2).
  assert (Hr : rtc step (start sample_base 2 3 16) c).
  { apply rtc_once. left. apply rx_assigns; [reflexivity|]. apply run_ret. vm_compute. reflexivity. }
  destruct (reachable_inv 16 3 Hs sample_base 2 c Ht Hr) as [Hinv _].
  by apply (same_pool_inv 16 3 (st c)).
Qed.

(** VAL has 6 bytes: five are shown. *)
Lemma string_shown_witness :
  let s := sample_udp (LsRec (replicate 6 Byte.xff) 6 0) (Some "dev"%string) in
  6 ≤ zlen (list_byte_of_string (lastfile (shared busy))) ∧
  ∃ s', devudp_get_string lastfile s = (Ret (Status 0), s') ∧ len (rec s') = 6 ∧
    ztake 6 (lval (rec s')) = list_byte_of_string "run7." ++ [Byte.x00] ∧
    nsev (com s') = INVALID_ALARM.
Proof.
  intros s. split; [vm_compute; congruence|].
  destruct (string_shown lastfile "dev" busy s) as (s' & E & _ & _ & _ & El & Ev & Ec);
    [reflexivity|reflexivity|reflexivity|cbn; lia|].
  exists s'. split; [exact E|]. split; [exact El|]. split; [exact Ev|]. rewrite Ec. reflexivity.
Defined.

Lemma gauges_add_up_witness :
  let s := sample_udp (AiRec (Analog 0 fone fzero 0 fzero fone) fzero) (Some "dev"%string) in
  zlen (vpool (shared busy)) = 1 ∧
  ∃ free waiting used, free + waiting + used = 3 ∧
    (devudp_get_vpool s).1 = Ret (Status 2) ∧ (devudp_get_pending s).1 = Ret (Status 2) ∧
    (devudp_get_inprog s).1 = Ret (Status 2) ∧ 0 ≤ free ∧ 0 ≤ waiting ∧ 0 ≤ used.
Proof.
  intros s. split; [vm_compute; reflexivity|].
  destruct (gauges_add_up 16 "dev" busy s) as (a & b & c & Ht & Ha & Hb & Hc & _ & E1 & E2 & E3);
    [reflexivity|reflexivity| |vm_compute; reflexivity|].
  - apply busy_pool.
  - exists a, b, c. rewrite E1, E2, E3. split; [exact Ht|]. repeat split; assumption.
Defined.

Lemma unknown_receiver_crashes_witness :
  let s := sample_udp (AaiRec [0; 0] 2 0 true) None in
  parse_shortbuf "nobody 10 4" = Some ("nobody"%string, 10, 4) ∧
  ∃ s', devudp_init_record_shortbuf "nobody 10 4" s = (Ret (Status 0), s') ∧
    (devudp_read_shortbuf s').1 = Crash NullDeref.
Proof.
  intros s. split; [vm_compute; reflexivity|].
  destruct (unknown_receiver_crashes "nobody 10 4" "nobody" 10 4 s) as (s' & E & _ & Er);
    [vm_compute; reflexivity|vm_compute; reflexivity|reflexivity|].
  exists s'. split; [exact E|]. rewrite Er. reflexivity.
Defined.

End sample.

End DevUdp.
