(* ===== verification/SupportSafe.v ===== *)
(** * No record aborts the program

    The tables of [DevUdp], the device support of the fast receiver, shown to be [harmless] as
    those of the core are in [DevSafe]; and the theorem that puts all of device support on
    top of the three drivers ([DriverSafe]). *)

From Stdlib Require Import Floats.SpecFloat Strings.String.
From S2P Require Import Prelude Hoare EvBuffer Dbuffer Block Wire PscBase PscTcp PscTcpRx.
From S2P Require Import PscTcpConn PscTcpTx PscUdp Ieee DevCommon DevSample DevReg DevTable DevSafe.
From S2P Require Import UdpFast Registry DriverSafe DevUdp.
From S2P Require FastPool.

Import Drivers(driver, Tcp, Udp, FastUdp).

(** ** Calls on a receiver *)

Section receiver.
Context {B : Type} `{EvBufferLaws B} `{EpicsEnv} `{PscConfig} `{RecordSupport B}.
Context `{Udp.UdpNet} `{Udp.UdpRecords B} `{Fast.FastConfig}.
Context `{Host} `{EpicsRecord} `{DevUdp.EpicsClock}.
Import Fast.
Implicit Types (p : sys B) (m : gmap string (driver B)) (name : string).

Definition receiver_there name m : Prop := ∃ p, m !! name = Some (FastUdp p).

Lemma receiver_later name m m' : receiver_there name m → later m m' → receiver_there name m'.
Proof.
  intros [p Hp] Hl. destruct (Hl name _ Hp) as ([q|q|q] & Hq & _ & Ht); [done|done|by exists q].
Qed.

(** What a record does to a receiver, besides moving buffers. *)
Record receiver_kept p p' : Prop := {
  rk_ok : fast_ok p → fast_ok p';
  rk_base : fbase (shared p') = fbase (shared p);
}.

Lemma receiver_same p p' :
  FastPool.same_pool p p' → fbase (shared p') = fbase (shared p) →
  vpoolTotal (shared p') = vpoolTotal (shared p) → receiver_kept p p'.
Proof.
  intros Hs Eb Et. split; [|done]. intros [Hb (size & Hz & Hp)]. split; [by rewrite Eb|].
  exists size. split; [done|]. rewrite Et. by apply (FastPool.same_pool_inv size _ p).
Qed.

(** A call for a record with the private data [v] on the receiver [name]. *)
Section call.
Context {R V : Type} (c : kind (P:=driver B) R V).
Implicit Types s : devst R V (driver B).

Lemma receiver_call {A} m v name (k : M (sys B) A) (Q : A → Prop) s :
  inside c m v s → receiver_there name (pscmap s) →
  (∀ p, fast_ok p → wp k (λ a p', receiver_kept p p' ∧ Q a) (receiver_kept p) p) →
  wp (DevUdp.on_dev name k) (λ a s', inside c m v s' ∧ rec s' = rec s ∧ Q a) (inside c m v) s.
Proof.
  intros Hi [p Hp] Hk. pose proof (lookup_ok c s name (FastUdp p) (proj1 Hi) Hp) as Hok.
  assert (Hput : ∀ p', receiver_kept p p' →
    drv_step s (set_pscmap (<[name := FastUdp p']> (pscmap s)) s)).
  { intros p' [Hk' Eb]. apply (drv_step_put s name (FastUdp p)); [apply Hi|done|by apply Hk'|].
    split; [|done]. cbn. by rewrite Eb. }
  unfold wp, DevUdp.on_dev. rewrite Hp. specialize (Hk p Hok). unfold wp in Hk.
  destruct (k p) as [[a|e|cr] p']; [..|done].
  - destruct Hk as [Hk HQ]. split; [by eapply inside_step; [|by apply Hput]|done].
  - by eapply inside_step; [|by apply Hput].
Qed.

Lemma receiver_read {A} m v name (f : UDPFast B → A) s (Q : A → devst R V (driver B) → Prop) E :
  inside c m v s → receiver_there name (pscmap s) → (∀ a, Q a s) →
  wp (DevUdp.read_dev name f) Q E s.
Proof.
  intros Hi [p Hp] HQ. eapply wp_run; [by apply (DevUdp.read_dev_spec name f p)|apply HQ].
Qed.
End call.

(** ** Their records *)

(** The private data of most is the receiver: a name here. *)
Definition fast_kind {R} (f : R → Prop) (fx : R → R → Prop) : kind (P:=driver B) R string.
Proof.
  refine (Kind f fx (λ _ name m, receiver_there name m) _ _); [|done].
  intros r name m m'. apply receiver_later.
Defined.

(** VAL of lso and lsi is an array of SIZV bytes. *)
Definition text_ok (r : DevUdp.lsrec) : Prop :=
  zlen (DevUdp.lval r) = DevUdp.sizv r ∧ 0 < DevUdp.sizv r < 2 ^ 16.
Definition same_size (r r' : DevUdp.lsrec) : Prop := DevUdp.sizv r' = DevUdp.sizv r.

Definition text_kind : kind (P:=driver B) DevUdp.lsrec string := fast_kind text_ok same_size.
Definition value_kind R : kind (P:=driver B) R string := fast_kind (λ _, True) (λ _ _, True).

(** The record of the interval has the time of the last processing. *)
Definition clock_kind : kind (P:=driver B) DevUdp.airec epicsTime.
Proof. by refine (Kind (λ _, True) (λ _ _, True) (λ _ _ _, True) _ _). Defined.

(** The array of kept packets has NELM elements; offsets close to 2^64 wrap around. *)
Definition kept_ok (r : DevUdp.aairec) : Prop :=
  zlen (DevUdp.bptr r) = DevUdp.nelm r ∧ 0 ≤ DevUdp.nelm r < 2 ^ 32.
Definition kept_there (v : DevUdp.privShortBuf) m : Prop :=
  ∃ name, DevUdp.spsc v = Some name ∧ receiver_there name m ∧
    0 ≤ DevUdp.soffset v < 2 ^ 64 - 4.

Definition kept_kind : kind (P:=driver B) DevUdp.aairec DevUdp.privShortBuf.
Proof.
  refine (Kind kept_ok (λ r r', DevUdp.nelm r' = DevUdp.nelm r) (λ _ v m, kept_there v m) _ _); [|done].
  intros r v m m' (name & ? & Hn & ?) Hl. exists name. split_and!; [done|by eapply receiver_later|lia..].
Defined.

Lemma inside_receiver {R} f (fx : R → R → Prop) m name (s : devst R string (driver B)) :
  inside (fast_kind f fx) m name s → receiver_there name (pscmap s).
Proof. intros (Hs & Hv & _). apply (st_tied _ _ Hs name Hv). Qed.

Lemma init_dev_returns {R} f (fx : R → R → Prop) link (s : devst R string (driver B)) :
  drivers_ok (pscmap s) → f (rec s) → dpvt s = None →
  returns (fast_kind f fx) (DevUdp.devudp_init_record link) s.
Proof.
  intros Hd Hf Hv. apply CATCH_wp, wp_bind. eapply wp_run; [apply DevUdp.getUDPFast_spec|].
  apply wp_bind, wp_modify, wp_ret. split; [|done]. split; [done..|]. intros name. cbn.
  unfold DevUdp.receiver. destruct (pscmap s !! link) as [[p|p|p]|] eqn:E; [done..| |done].
  intros [= <-]. by exists p.
Qed.

Lemma upd_rec_wp {R V} (g : R → R) (s : devst R V (driver B)) (Q : unit → devst R V (driver B) → Prop) E :
  Q tt (set_rec (g (rec s)) s) → wp (DevUdp.upd_rec g) Q E s.
Proof. done. Qed.

(** ** Strings *)

Lemma set_string_returns put s :
  (∀ v p, receiver_kept p (on_shared (put v) p)) →
  settled text_kind s → returns text_kind (DevUdp.devudp_set_string put) s.
Proof.
  intros Hput Hs. apply processing_returns; [done|]. intros name m s1 Hs1.
  pose proof (inside_receiver _ _ _ _ _ Hs1) as Hth. assert (Hf : text_ok (rec s1)) by apply Hs1.
  apply wp_bind, wp_get, wp_bind. destruct (Z.eqb_spec (DevUdp.sizv (rec s1)) 0); [red in Hf; lia|].
  apply upd_rec_wp. set (s2 := set_rec _ s1).
  assert (Hs2 : inside text_kind m name s2).
  { apply inside_rec; [done| |done]. destruct Hf as [Hl Hz]. split; [|done]. cbn in *.
    rewrite zlen_zblit; [done|lia|]. change (zlen [Byte.x00]) with 1. lia. }
  apply wp_bind, wp_get, wp_bind. eapply wp_mono.
  - eapply (receiver_call text_kind m name name _ (λ _, True)); [done|done|].
    intros p _. apply wp_modify. split; [apply Hput|done].
  - intros [] s3 (Hs3 & _ & _). by apply wp_ret.
  - done.
Qed.

(** [n] bytes and a terminator. *)
Lemma store_text m name n bytes l s :
  inside text_kind m name s → DevUdp.lval (rec s) = l → 0 ≤ n < DevUdp.sizv (rec s) → n ≤ zlen bytes →
  wp ((if n >=? zlen l then abort OutOfBounds
       else DevUdp.upd_rec (λ r, DevUdp.LsRec (zblit n [Byte.x00] (zblit 0 (ztake n bytes) (DevUdp.lval r)))
              (DevUdp.sizv r) (n + 1))) ;;; ret (Status 0))
    (λ _, inside text_kind m name) (inside text_kind m name) s.
Proof.
  intros Hs <- Hn Hb. assert (Hf : text_ok (rec s)) by apply Hs. destruct Hf as [Hl Hz].
  assert (Hzt : zlen (ztake n bytes) = n) by (rewrite zlen_ztake; lia).
  assert (Hin : zlen (zblit 0 (ztake n bytes) (DevUdp.lval (rec s))) = DevUdp.sizv (rec s))
    by (rewrite zlen_zblit; lia).
  rewrite Hl. case_if; bool_to_prop; [lia|]. apply wp_bind, upd_rec_wp, wp_ret, inside_rec; [done| |done].
  split; [|done]. cbn. rewrite zlen_zblit; [done|lia|]. change (zlen [Byte.x00]) with 1. lia.
Qed.

Lemma get_string_returns str s :
  settled text_kind s → returns text_kind (DevUdp.devudp_get_string str) s.
Proof.
  intros Hs. apply processing_returns; [done|]. intros name m s1 Hs1. apply wp_bind.
  eapply receiver_read; [done|by eapply inside_receiver|]. intros v. apply wp_bind, wp_get, wp_bind.
  cbv zeta. set (bytes := list_byte_of_string v). pose proof (zlen_nonneg bytes).
  assert (Hf : text_ok (rec s1)) by apply Hs1. destruct Hf as [Hl Hz].
  apply wp_when; intros Hcut; rewrite Hcut; bool_to_prop.
  - apply wp_modify. rewrite wrapU_small by lia. apply store_text; [by apply inside_com|done|cbn; lia|lia].
  - apply store_text; [done|done|lia|lia].
Qed.

(** ** Switches, gauges and counters *)

(** First a call on the receiver, then something for the record. *)
Lemma receiver_then {R A} m name (k : M (sys B) A) (cont : A → M (devst R string (driver B)) dev_status) s :
  (∀ p, fast_ok p → wp k (λ _, receiver_kept p) (receiver_kept p) p) →
  (∀ a, safe (value_kind R) m name (cont a)) →
  inside (value_kind R) m name s →
  wp (a <- DevUdp.on_dev name k ;; cont a) (λ _, inside (value_kind R) m name) (inside (value_kind R) m name) s.
Proof.
  intros Hk Hc Hs. apply wp_bind. eapply wp_mono.
  - eapply (receiver_call (value_kind R) m name name k (λ _, True)); [done|by eapply inside_receiver|].
    intros p Hp. eapply wp_mono; [by apply Hk|by split|done].
  - intros a s2 (Hs2 & _ & _). by apply Hc.
  - done.
Qed.

Lemma stored_safe {R} m name (g : R → R) :
  safe (value_kind R) m name (DevUdp.upd_rec g ;;; ret (Status 0)).
Proof. intros s Hs. by apply wp_bind, upd_rec_wp, wp_ret, inside_rec. Qed.

Lemma returned_safe {R} m name st : safe (value_kind R) m name (ret (Status st)).
Proof. intros s Hs. by apply wp_ret. Qed.

Lemma kept_refl p : receiver_kept p p.
Proof. by split. Qed.

Lemma read_kept {A} (f : sys B → A) p : fast_ok p → wp (gets f) (λ _, receiver_kept p) (receiver_kept p) p.
Proof. intros _. apply wp_gets, kept_refl. Qed.

Lemma reopen_returns s : settled (value_kind Z) s → returns (value_kind Z) DevUdp.devudp_reopen s.
Proof.
  intros Hs. apply processing_returns; [done|]. intros name m s1 Hs1.
  apply receiver_then; [|intros []; apply returned_safe|done]. intros p _.
  apply wp_bind, wp_modify, wp_modify. by apply receiver_same.
Qed.

Lemma set_record_returns s : settled (value_kind Z) s → returns (value_kind Z) DevUdp.devudp_set_record s.
Proof.
  intros Hs. apply processing_returns; [done|]. intros name m s1 Hs1. apply wp_bind, wp_get.
  apply receiver_then; [|intros []; apply returned_safe|done]. intros p _.
  do 2 apply wp_bind, wp_modify. apply wp_when; intros _; [apply wp_modify|]; by apply receiver_same.
Qed.

Lemma get_record_returns s : settled (value_kind Z) s → returns (value_kind Z) DevUdp.devudp_get_record s.
Proof.
  intros Hs. apply processing_returns; [done|]. intros name m s1 Hs1.
  apply receiver_then; [intros p; apply read_kept|intros v; apply stored_safe|done].
Qed.

Lemma gauge_returns count s :
  settled (value_kind DevUdp.airec) s → returns (value_kind DevUdp.airec) (DevUdp.gauge count) s.
Proof.
  intros Hs. apply processing_returns; [done|]. intros name m s1 Hs1.
  apply receiver_then; [intros p; apply read_kept| |done]. intros v s2 Hs2.
  apply wp_bind, upd_rec_wp, wp_ret. by apply inside_rec.
Qed.

Lemma get_counter_returns get s :
  settled (value_kind Z) s → returns (value_kind Z) (DevUdp.devudp_get_counter get) s.
Proof.
  intros Hs. apply processing_returns; [done|]. intros name m s1 Hs1.
  apply receiver_then; [intros p; apply read_kept|intros v; apply stored_safe|done].
Qed.

Lemma get_lastsize_returns s : settled (value_kind Z) s → returns (value_kind Z) DevUdp.devudp_get_lastsize s.
Proof.
  intros Hs. apply processing_returns; [done|]. intros name m s1 Hs1.
  apply receiver_then; [intros p; apply read_kept|intros v; apply stored_safe|done].
Qed.

Lemma interval_returns s :
  settled clock_kind s → returns clock_kind DevUdp.devudp_interval s.
Proof.
  intros Hs. assert (Hall : ∀ s' : devst DevUdp.airec epicsTime (driver B),
    DevCommon.pscmap s' = pscmap s → settled clock_kind s' ∧ later (pscmap s) (pscmap s')).
  { intros s' E. rewrite E. split; [|done]. split; [by rewrite E; apply Hs|done|done]. }
  apply wp_bind, wp_get. destruct (dpvt s) as [last|], DevUdp.epicsTimeGetCurrent as [now|].
  all: apply wp_bind; first [apply upd_rec_wp|apply wp_modify].
  all: apply wp_bind; first [apply wp_modify|apply upd_rec_wp].
  all: apply wp_ret; by apply Hall.
Qed.

(** ** Kept packets *)

Lemma clear_shortbuf_returns s :
  settled (value_kind Z) s → returns (value_kind Z) DevUdp.devudp_clear_shortbuf s.
Proof.
  intros Hs. apply processing_returns; [done|]. intros name m s1 Hs1.
  apply receiver_then; [|intros v; apply stored_safe|done]. intros p [Hb (size & Hz & Hp)].
  destruct (FastPool.clear_pool size _ Hz p Hp) as (n & p' & E & Hp' & _). eapply wp_run; [exact E|].
  revert E. unfold devudp_clear_shortbuf. msteps. destruct (return_bufs _ _); [|done]. msteps. intros [= _ <-].
  split; [|done]. intros _. split; [done|]. by exists size.
Qed.

(** Without wrap around every element can be read; NELM elements stay. *)
Lemma short_values_in block off ps arr :
  0 ≤ off < 2 ^ 64 - 4 →
  ∃ vs alarm, short_values block off ps arr = Some (vs, alarm) ∧ zlen vs = zlen arr.
Proof.
  intros Ho. revert arr. induction ps as [|p ps IH]; intros [|a arr]; cbn [short_values].
  1-3: by eexists _, _.
  destruct (IH arr) as (vs & alarm & -> & Hz). cbn [mbind option_bind].
  rewrite (wrapU_small 64) by lia. repeat case_if; bool_to_prop; try (exfalso; lia).
  all: eexists _, _; (split; [done|]); by rewrite !zlen_cons, Hz.
Qed.

Lemma read_shortbuf_wp block off nelm arr p :
  fast_ok p → 0 ≤ off < 2 ^ 64 - 4 → 0 ≤ nelm < 2 ^ 32 →
  wp (devudp_read_shortbuf block off nelm arr)
    (λ r p', receiver_kept p p' ∧ zlen r.1.1 = zlen arr) (receiver_kept p) p.
Proof.
  intros Hok Ho Hn.
  destruct (short_values_in block off (ztake (Z.min nelm (zlen (shortBuf (shared p)))) (shortBuf (shared p))) arr Ho)
    as (vs & alarm & Ev & Hz).
  assert (E : ∃ r p', devudp_read_shortbuf block off nelm arr p = (Ret r, p') ∧ zlen r.1.1 = zlen arr ∧
    fbase (shared p') = fbase (shared p) ∧ vpoolTotal (shared p') = vpoolTotal (shared p)).
  { unfold devudp_read_shortbuf. mstep. unfold when. destruct (shortLimit (shared p) <? nelm); mstep; rewrite Ev.
    all: by eexists _, _. }
  destruct E as (r & p' & E & Hr & Eb & Et). eapply wp_run; [exact E|]. split; [|done].
  split; [|done]. intros [Hb (size & Hs & Hp)]. split; [by rewrite Eb|]. exists size. split; [done|].
  rewrite Et. by destruct (FastPool.read_pool size _ block off nelm arr p r p' Hp Hn E).
Qed.

Lemma read_shortbuf_returns s : settled kept_kind s → returns kept_kind DevUdp.devudp_read_shortbuf s.
Proof.
  intros Hs. assert (Hf : kept_ok (rec s)) by apply Hs. destruct Hf as [Hl Hn].
  apply wp_bind, wp_get. destruct (DevUdp.ftvl_ulong (rec s)); cbn [negb].
  2: { apply wp_bind, wp_modify, wp_ret. split; [by destruct Hs|done]. }
  apply with_priv_returns; [done|]. intros v Hv. apply (CATCH_inside kept_kind _ v).
  assert (Hi : inside kept_kind (pscmap s) v s) by by split_and!.
  destruct (st_tied _ _ Hs v Hv) as (name & -> & Hth & Ho). apply wp_bind.
  eapply receiver_read; [done..|]. intros ps. apply wp_bind. eapply wp_mono.
  - apply (receiver_call kept_kind (pscmap s) v name _ (λ r, zlen r.1.1 = zlen (DevUdp.bptr (rec s)))); [done..|].
    intros p Hp. by apply read_shortbuf_wp.
  - intros [[vs n] alarm] s2 (Hs2 & Er & Hz). cbn in Hz. apply wp_bind.
    assert (Hfin : ∀ s3, inside kept_kind (pscmap s) v s3 → rec s3 = rec s →
      wp (modify (λ s, set_com (DevUdp.shortbuf_time v n ps (com s)) s) ;;;
          DevUdp.upd_rec (λ r, DevUdp.AaiRec vs (DevUdp.nelm r) n (DevUdp.ftvl_ulong r)) ;;; ret (Status 0))
        (λ _, inside kept_kind (pscmap s) v) (inside kept_kind (pscmap s) v) s3).
    { intros s3 Hs3 Er3. apply wp_bind, wp_modify, wp_bind, upd_rec_wp, wp_ret.
      apply inside_rec; [by apply inside_com| |done]. cbn. rewrite Er3. split; cbn; lia. }
    apply wp_when; intros _; [apply wp_modify|]; apply Hfin; [by apply inside_com|done..].
  - done.
Qed.

(** Links of [devPSCUDPShortGetAAI] that name a receiver, with an offset that does not wrap
    around. *)
Definition names_receiver (link : string) (info : option (string → option string)) m : Prop :=
  ∀ name blk off, DevUdp.parse_shortbuf link = Some (name, blk, off) →
    receiver_there name m ∧ 0 ≤ off < 2 ^ 64 - 4.

Lemma init_shortbuf_returns link info (s : devst DevUdp.aairec DevUdp.privShortBuf (driver B)) :
  names_receiver link info (pscmap s) → drivers_ok (pscmap s) → kept_ok (rec s) → dpvt s = None →
  returns kept_kind (DevUdp.devudp_init_record_shortbuf link) s.
Proof.
  intros Hn Hd Hf Hv. apply CATCH_wp.
  destruct (DevUdp.parse_shortbuf link) as [[[name blk] off]|] eqn:E.
  - destruct (Hn name blk off E) as [[p Hp] Ho]. apply wp_bind. eapply wp_run; [apply DevUdp.getUDPFast_spec|].
    unfold DevUdp.receiver. rewrite Hp. apply wp_bind, wp_modify, wp_ret. split; [|done].
    split; [done..|]. intros v [= <-]. exists name. split_and!; [done|by exists p|cbn; lia..].
  - apply wp_throw. intros com. split; [|done]. split; [done..|]. cbn. by rewrite Hv.
Qed.

(** ** All of them *)

Definition value_support R (d : dset (driver B) R string block_ptr) : support (P:=driver B) :=
  Support R string block_ptr d (value_kind R) any_use.
Definition text_support (d : dset (driver B) DevUdp.lsrec string block_ptr) : support (P:=driver B) :=
  Support DevUdp.lsrec string block_ptr d text_kind any_use.

Definition fast_supports (alloc : bool) (junk : epicsTime) : list (support (P:=driver B)) :=
  [ Support DevUdp.airec epicsTime block_ptr (DevUdp.devPSCUDPIntervalAI alloc junk) clock_kind any_use;
    text_support DevUdp.devPSCUDPFilebaseLSO; text_support DevUdp.devPSCUDPFiledirLSO;
    value_support Z DevUdp.devPSCUDPReopenBO; value_support Z DevUdp.devPSCUDPRecordBO;
    value_support Z DevUdp.devPSCUDPRecordBI;
    text_support DevUdp.devPSCUDPFilenameLSI; text_support DevUdp.devPSCUDPErrorLSI;
    value_support DevUdp.airec DevUdp.devPSCUDPvpoolAI; value_support DevUdp.airec DevUdp.devPSCUDPpendingAI;
    value_support DevUdp.airec DevUdp.devPSCUDPinprogAI;
    value_support Z DevUdp.devPSCUDPnetrxI64I; value_support Z DevUdp.devPSCUDPwroteI64I;
    value_support Z DevUdp.devPSCUDPndropI64I; value_support Z DevUdp.devPSCUDPnignoreI64I;
    value_support Z DevUdp.devPSCUDPlastsizeI64I; value_support Z DevUdp.devPSCUDPnrxI64I;
    value_support Z DevUdp.devPSCUDPntimeoutI64I; value_support Z DevUdp.devPSCUDPnoomI64I;
    value_support Z DevUdp.devPSCUDPShortClearLI;
    Support DevUdp.aairec DevUdp.privShortBuf block_ptr DevUdp.devPSCUDPShortGetAAI kept_kind names_receiver ].

Lemma value_harmless {R} (d : dset (driver B) R string block_ptr) :
  init_record d = DevUdp.init_dev → get_iointr_info d = None →
  (∀ s, settled (value_kind R) s → returns (value_kind R) (readwrite d) s) →
  harmless (value_support R d).
Proof.
  intros Hi Hio Hrw. split; cbn; [|intros f s E; congruence|done].
  intros link info s _ Hd _ Hv. rewrite Hi. by apply init_dev_returns.
Qed.

Lemma text_harmless (d : dset (driver B) DevUdp.lsrec string block_ptr) :
  init_record d = DevUdp.init_dev → get_iointr_info d = None →
  (∀ s, settled text_kind s → returns text_kind (readwrite d) s) →
  harmless (text_support d).
Proof.
  intros Hi Hio Hrw. split; cbn; [|intros f s E; congruence|done].
  intros link info s _ Hd Hf Hv. rewrite Hi. by apply init_dev_returns.
Qed.

Lemma interval_harmless alloc junk :
  harmless (Support DevUdp.airec epicsTime block_ptr (DevUdp.devPSCUDPIntervalAI alloc junk) clock_kind any_use).
Proof.
  split; cbn; [|done|by apply interval_returns].
  intros link info s _ Hd _ Hv. by split.
Qed.

Lemma fast_harmless alloc junk : Forall harmless (fast_supports alloc junk).
Proof.
  repeat (apply list.Forall_cons; split); [apply interval_harmless|..|done].
  20: split; cbn; [apply init_shortbuf_returns|done|by apply read_shortbuf_returns].
  1,2: apply text_harmless; [done..|]; intros s; apply set_string_returns; intros v p; by apply receiver_same.
  4,5: apply text_harmless; [done..|]; intros s; apply get_string_returns.
  all: apply value_harmless; [done..|]; intros s.
  - apply reopen_returns.
  - apply set_record_returns.
  - apply get_record_returns.
  - apply gauge_returns.
  - apply gauge_returns.
  - apply gauge_returns.
  - apply get_counter_returns.
  - apply get_counter_returns.
  - apply get_counter_returns.
  - apply get_counter_returns.
  - apply get_lastsize_returns.
  - apply get_counter_returns.
  - apply get_counter_returns.
  - apply get_counter_returns.
  - apply clear_shortbuf_returns.
Qed.

(** The supports of all tables. *)
Definition all_supports fn user pad alloc junk : list (support (P:=driver B)) :=
  device_supports fn user pad ++ fast_supports alloc junk.

Hypothesis (stamps : ∀ t cr, epicsTime_of_stamp t ≠ Crash cr).

Lemma all_harmless fn user pad alloc junk :
  zlen pad ≤ 2 ^ 31 → Forall harmless (all_supports fn user pad alloc junk).
Proof.
  intros Hp. apply list.Forall_app. split; [by apply supports_harmless|apply fast_harmless].
Qed.
End receiver.

(** C12: Device support never aborts.  Take a record of any support in the tables of the core
    and of the fast receiver ([devPSCBlockSi], [devPSCMessageSI], integer waveforms to send and
    registers with SYNC set to SAME excepted), with arrays of the size its fields say, any text
    in its link - for kept packets only one that names a receiver ([unknown_receiver_crashes])
    and an offset below 2^64 - 4, for a larger one, as which [-1] is read, wraps around and is
    read out of bounds -, any info tags, and drivers of all three kinds in any state they can be
    called in.  Initialization returns a status; from then on, whatever happens to the drivers
    and is written to the fields, asking for the scan list and processing return as well: no
    exception escapes, no assertion fails, nothing dangles, no access is out of bounds.  Every
    call leaves the drivers with all their blocks and buffers, fit for the next, so this holds
    for any number of records together.  (The conversion of time stamps must not end the
    program.) *)
Theorem device_support_never_aborts {B} `{EvBufferLaws B} `{EpicsEnv} `{PscConfig} `{RecordSupport B}
    `{Udp.UdpNet} `{Udp.UdpRecords B} `{Fast.FastConfig} `{Host} `{EpicsRecord} `{DevUdp.EpicsClock}
    fn user pad alloc junk (sup : support (P:=driver B)) link info (s : devst (S_rec sup) (S_priv sup) (driver B)) :
  (∀ t c, epicsTime_of_stamp t ≠ Crash c) → zlen pad ≤ 2 ^ 31 →
  sup ∈ all_supports fn user pad alloc junk → S_use sup link info (pscmap s) →
  drivers_ok (pscmap s) → fields (S_kind sup) (rec s) → dpvt s = None →
  ∃ st s1, init_record (S_dset sup) true link info s = (Ret st, s1) ∧
    drivers_ok (pscmap s1) ∧ later (pscmap s) (pscmap s1) ∧
    ∀ s2, rtc (life sup) s1 s2 →
      (∀ scan, get_iointr_info (S_dset sup) = Some scan → ∃ r, scan s2 = (Ret r, s2)) ∧
      ∃ st' s3, readwrite (S_dset sup) s2 = (Ret st', s3) ∧
        drivers_ok (pscmap s3) ∧ later (pscmap s2) (pscmap s3).
Proof.
  intros Hst Hpad Hin Ht Hd Hf Hv.
  pose proof (proj1 (list.Forall_forall _ _) (all_harmless Hst fn user pad alloc junk Hpad) sup Hin) as Hh.
  destruct (wp_returns _ _ _ (h_init _ Hh link info s Ht Hd Hf Hv)) as (st & s1 & E & Hs1 & Hl).
  exists st, s1. split_and!; [done|apply Hs1|done|]. intros s2 Hlife.
  pose proof (lives_settled _ _ _ Hh Hlife Hs1) as Hs2. split.
  - intros scan Hscan. destruct (wp_returns _ _ _ (h_iointr _ Hh scan s2 Hscan Hs2)) as (r & s3 & E3 & ->).
    by exists r.
  - destruct (wp_returns _ _ _ (h_process _ Hh s2 Hs2)) as (st' & s3 & E3 & Hs3 & Hl3).
    exists st', s3. split_and!; [done|apply Hs3|done].
Qed.


(** A record of kept packets, and a receiver that has its three buffers in use. *)
Section sample.
#[local] Existing Instances quiet_env default_config quiet_records Udp.good_net Udp.quiet_udp
  FastPool.sample_config pc_host base_record.
#[local] Instance stopped_clock : DevUdp.EpicsClock :=
  {| DevUdp.epicsTimeGetCurrent := None; DevUdp.epicsTimeDiffInSeconds _ _ := fzero |}.

Definition sample_drivers : gmap string (driver ChainBuf.chainbuf) := {["dev" := FastUdp DevUdp.busy]}.

Definition sample_get : support (P:=driver ChainBuf.chainbuf) :=
  Support DevUdp.aairec DevUdp.privShortBuf block_ptr DevUdp.devPSCUDPShortGetAAI kept_kind names_receiver.

Definition sample_kept : devst DevUdp.aairec DevUdp.privShortBuf (driver ChainBuf.chainbuf) :=
  DevSt sample_com (DevUdp.AaiRec [0; 0] 2 0 true) None sample_drivers.

Lemma sample_drivers_ok : drivers_ok sample_drivers.
Proof.
  apply map_Forall_singleton. split.
  - split; [|by apply map_Forall_empty].
    change (recv_blocks _) with ({[10 := new_Block 10]} : gmap Z (Block (dbuffer ChainBuf.chainbuf))).
    apply map_Forall_singleton, dbuffer_wf_empty.
  - exists 16. split; [lia|]. exact DevUdp.busy_pool.
Qed.

Lemma device_support_never_aborts_witness :
  sample_get ∈ all_supports 1 2 [] true (EpicsTime 0 0) ∧
  ∃ st s1, init_record (S_dset sample_get) true "dev 10 4" None sample_kept = (Ret st, s1) ∧
    drivers_ok (pscmap s1) ∧ later (pscmap sample_kept) (pscmap s1) ∧
    ∀ s2, rtc (life sample_get) s1 s2 →
      (∀ scan, get_iointr_info (S_dset sample_get) = Some scan → ∃ r, scan s2 = (Ret r, s2)) ∧
      ∃ st' s3, readwrite (S_dset sample_get) s2 = (Ret st', s3) ∧
        drivers_ok (pscmap s3) ∧ later (pscmap s2) (pscmap s3).
Proof.
  assert (Hin : sample_get ∈ all_supports 1 2 [] true (EpicsTime 0 0)) by by apply (list_elem_of_lookup_2 _ 69).
  split; [exact Hin|].
  apply (device_support_never_aborts 1 2 [] true (EpicsTime 0 0) sample_get "dev 10 4" None sample_kept).
  - intros [sec ns] c. cbn. by destruct (ns <? 1000000000).
  - vm_compute. congruence.
  - exact Hin.
  - intros name blk off Hp. vm_compute in Hp. injection Hp as <- <- <-.
    split; [by eexists; vm_compute|lia].
  - exact sample_drivers_ok.
  - vm_compute. repeat split; intros; congruence.
  - reflexivity.
Defined.
End sample.
