(* ===== verification/Locks.v ===== *)
(** * Threads and locks

    A machine for the locking of a program: threads that acquire and release reentrant locks,
    use variables and wait for events, in any interleaving.  When every thread acquires its
    locks in one order no thread is stuck; when every variable is used with its lock held no
    two threads use one at the same time.  [Locking] has the locking of the drivers, the
    records and the worker threads. *)

From S2P Require Import Prelude.

Section machine.
Context {L V : Type} `{EqDecision L}.
Implicit Types (l : L) (v : V) (H : list L) (i j : nat).

(** What a thread does next: lock, unlock, use a variable, wait for an event or the operating
    system, or call the operating system for something that does not wait for anyone. *)
Inductive action := Acq (l : L) | Rel (l : L) | Use (v : V) | Wait | Sys.

(** The locks a thread holds, each as often as it was acquired, and what it has to do. *)
Record thread := Thread { held : list L; todo : list action }.
Implicit Types (t : thread) (ts : list thread) (p q r : list action).

(** One release of a lock. *)
Fixpoint drop1 l H : list L :=
  match H with
  | [] => []
  | h :: r => if decide (h = l) then r else h :: drop1 l r
  end.

(** No thread but [i] holds [l]. *)
Definition free_for ts i l : Prop := ∀ j t, ts !! j = Some t → j ≠ i → l ∉ held t.

(** A thread gets on; to acquire a lock no other thread may hold it. *)
Inductive step ts : list thread → Prop :=
  | step_acq i l H r : ts !! i = Some (Thread H (Acq l :: r)) → free_for ts i l →
      step ts (<[i := Thread (l :: H) r]> ts)
  | step_rel i l H r : ts !! i = Some (Thread H (Rel l :: r)) →
      step ts (<[i := Thread (drop1 l H) r]> ts)
  | step_use i v H r : ts !! i = Some (Thread H (Use v :: r)) → step ts (<[i := Thread H r]> ts)
  | step_wait i H r : ts !! i = Some (Thread H (Wait :: r)) → step ts (<[i := Thread H r]> ts)
  | step_sys i H r : ts !! i = Some (Thread H (Sys :: r)) → step ts (<[i := Thread H r]> ts).

(** Threads with nothing done yet. *)
Definition start (ps : list (list action)) : list thread := Thread [] <$> ps.

(** All threads are at their ends. *)
Definition finished ts : Prop := Forall (λ t, todo t = []) ts.

(** Threads wait for each other. *)
Definition deadlocked ts : Prop := ¬ finished ts ∧ ∀ ts', ¬ step ts ts'.

(** Two threads are about to use one variable. *)
Definition race ts v : Prop :=
  ∃ i j H1 H2 r1 r2, i ≠ j ∧ ts !! i = Some (Thread H1 (Use v :: r1)) ∧
    ts !! j = Some (Thread H2 (Use v :: r2)).

(** ** A discipline *)

Section discipline.
Context (rank : L → nat).

(** From [H] to [H'] a program acquires locks it does not hold only in ascending order,
    releases what it holds, and uses variables, waits and calls the operating system as [ok]
    allows with these locks held. *)
Fixpoint follows (ok : list L → action → Prop) H p H' : Prop :=
  match p with
  | [] => H = H'
  | Acq l :: r => (l ∈ H ∨ Forall (λ h, rank h < rank l)%nat H) ∧ follows ok (l :: H) r H'
  | Rel l :: r => l ∈ H ∧ follows ok (drop1 l H) r H'
  | a :: r => ok H a ∧ follows ok H r H'
  end.

Lemma follows_app ok H p H' q H'' :
  follows ok H p H' → follows ok H' q H'' → follows ok H (p ++ q) H''.
Proof.
  revert H. induction p as [|[l|l|v| |] p IH]; intros H; cbn; [by intros ->|..];
    (intros [? ?] ?; split; [done|by apply IH]).
Qed.

Lemma follows_concat ok H ps : Forall (λ p, follows ok H p H) ps → follows ok H (concat ps) H.
Proof. induction 1 as [|p ps Hp _ IH]; [done|]. by eapply follows_app. Qed.

Lemma follows_weaken (ok ok' : list L → action → Prop) H p H' :
  (∀ H a, ok H a → ok' H a) → follows ok H p H' → follows ok' H p H'.
Proof.
  intros Hok. revert H. induction p as [|[l|l|v| |] p IH]; intros H; cbn; [done|..];
    (intros [? ?]; split; [auto|by apply IH]).
Qed.

Context (ok : list L → action → Prop).

(** What holds at any time. *)
Record disciplined ts : Prop := {
  d_excl i j t t' l : ts !! i = Some t → ts !! j = Some t' → i ≠ j → l ∈ held t → l ∉ held t';
  d_follows i t : ts !! i = Some t → follows ok (held t) (todo t) [];
}.

Lemma start_disciplined ps : Forall (λ p, follows ok [] p []) ps → disciplined (start ps).
Proof.
  intros Hps. unfold start. split.
  - intros i j t t' l Ht _ _. rewrite list_lookup_fmap in Ht.
    destruct (ps !! i); simplify_eq/=. by intros ?%elem_of_nil.
  - intros i t Ht. rewrite list_lookup_fmap in Ht. destruct (ps !! i) as [p|] eqn:E; simplify_eq/=.
    by apply (proj1 (list.Forall_lookup _ _) Hps i p).
Qed.

Lemma drop1_subset l h H : h ∈ drop1 l H → h ∈ H.
Proof.
  induction H as [|x H IH]; [done|]. cbn. case_decide; set_solver.
Qed.

(** A thread goes on with locks that no other has. *)
Lemma disciplined_insert ts i H r :
  disciplined ts → (∀ l, l ∈ H → free_for ts i l) → follows ok H r [] →
  disciplined (<[i := Thread H r]> ts).
Proof.
  intros [He Hf] Hfree Hr. split.
  - intros j k t t' l Hj Hk Hjk Hl.
    apply list_lookup_insert_Some in Hj as [(-> & <- & _)|[Hij Hj]];
      apply list_lookup_insert_Some in Hk as [(-> & <- & _)|[Hik Hk]]; [done|..]; cbn in *.
    + by apply (Hfree l Hl k t').
    + intros Hl'. by apply (Hfree l Hl' j t).
    + by apply (He j k t t' l).
  - intros j t Hj. apply list_lookup_insert_Some in Hj as [(-> & <- & _)|[_ Hj]]; [done|by apply (Hf j)].
Qed.

Lemma own_free ts i t l : disciplined ts → ts !! i = Some t → l ∈ held t → free_for ts i l.
Proof. intros Hd Ht Hl j t' Hj Hij. by eapply (d_excl _ Hd i j). Qed.

Lemma step_disciplined ts ts' : step ts ts' → disciplined ts → disciplined ts'.
Proof.
  intros Hs Hd. destruct Hs as [i l H r E Hl|i l H r E|i v H r E|i H r E|i H r E];
    pose proof (d_follows _ Hd _ _ E) as Hf; cbn in Hf; destruct Hf as [Hok Hf].
  all: apply disciplined_insert; [done| |done].
  - intros l' [->|Hl']%elem_of_cons; [done|by eapply own_free].
  - intros l' Hl'%drop1_subset. by eapply own_free.
  - intros l' Hl'. by eapply own_free.
  - intros l' Hl'. by eapply own_free.
  - intros l' Hl'. by eapply own_free.
Qed.

Lemma steps_disciplined ts ts' : rtc step ts ts' → disciplined ts → disciplined ts'.
Proof. induction 1; eauto using step_disciplined. Qed.

(** ** No thread is stuck *)

Context (bound : nat) (Hbound : ∀ l, (rank l < bound)%nat).

Instance free_for_dec ts i l : Decision (free_for ts i l).
Proof.
  refine (cast_if (decide (Forall (λ '(j, t), j = i ∨ l ∉ held t) (imap pair ts)))).
  - intros j t Hj Hij. rewrite list.Forall_lookup in f. specialize (f j (j, t)).
    rewrite list_lookup_imap, Hj in f. by destruct (f eq_refl).
  - intros Hf. apply n. apply list.Forall_lookup. intros k [j t]. rewrite list_lookup_imap.
    destruct (ts !! k) as [t'|] eqn:Ek; [|done]. cbn. intros [= <- <-].
    destruct (decide (k = i)); [by left|right]. by apply (Hf k).
Defined.

Lemma not_free ts i l : ¬ free_for ts i l → ∃ j t, ts !! j = Some t ∧ j ≠ i ∧ l ∈ held t.
Proof.
  intros Hn. destruct (decide (Exists (λ '(j, t), j ≠ i ∧ l ∈ held t) (imap pair ts))) as [He|He].
  - apply list.Exists_exists in He as ([j t] & Hin & Hj & Hl). exists j, t. split; [|done].
    apply list_elem_of_lookup in Hin as [k Hk]. rewrite list_lookup_imap in Hk.
    destruct (ts !! k) eqn:E; [|done]. by injection Hk as <- <-.
  - destruct Hn. intros j t Hj Hij Hl. apply He, list.Exists_exists. exists (j, t). split; [|done].
    apply (list_elem_of_lookup_2 _ j). by rewrite list_lookup_imap, Hj.
Qed.

(** A thread that waits for a lock: the one that has it gets on, or waits for a higher one. *)
Lemma waiting_progress n ts i H l r :
  disciplined ts → ts !! i = Some (Thread H (Acq l :: r)) → (bound - rank l ≤ n)%nat →
  ∃ ts', step ts ts'.
Proof using Hbound.
  intros Hd. revert i H l r. induction n as [|n IH]; intros i H l r Hi Hn.
  { specialize (Hbound l). lia. }
  destruct (decide (free_for ts i l)) as [Hl|(j & t & Hj & Hij & Hl)%not_free]; [by eexists; eapply step_acq|].
  pose proof (d_follows _ Hd j t Hj) as Hf. destruct t as [Hj' [|[l'|l'|v| |] r']]; cbn in *.
  - subst. by apply elem_of_nil in Hl.
  - destruct Hf as [[Hin|Hr] _].
    + eexists. eapply step_acq; [exact Hj|]. by eapply own_free.
    + rewrite list.Forall_forall in Hr. specialize (Hr l Hl). apply (IH j _ l' r' Hj).
      specialize (Hbound l). lia.
  - by eexists; eapply step_rel.
  - by eexists; eapply step_use.
  - by eexists; eapply step_wait.
  - by eexists; eapply step_sys.
Qed.

Lemma progress ts : disciplined ts → finished ts ∨ ∃ ts', step ts ts'.
Proof using Hbound.
  intros Hd. destruct (decide (Forall (λ t, todo t = []) ts)) as [|Hn]; [by left|right].
  apply not_Forall_Exists in Hn; [|apply _]. apply list.Exists_exists in Hn as (t & Ht & Hn).
  apply list_elem_of_lookup in Ht as [i Hi]. destruct t as [H [|[l|l|v| |] r]]; [by destruct Hn|..].
  - by eapply waiting_progress.
  - by eexists; eapply step_rel.
  - by eexists; eapply step_use.
  - by eexists; eapply step_wait.
  - by eexists; eapply step_sys.
Qed.

(** Every step does one action. *)
Definition work ts : nat := sum_list (length ∘ todo <$> ts).

Lemma sum_insert ts i t t' :
  ts !! i = Some t → length (todo t) = S (length (todo t')) → work ts = S (work (<[i := t']> ts)).
Proof.
  unfold work. revert i. induction ts as [|x ts IH]; intros [|i] Hi Hl; simplify_eq/=; [lia|].
  rewrite (IH i) by done. lia.
Qed.

Lemma step_work ts ts' : step ts ts' → work ts = S (work ts').
Proof. intros Hs. destruct Hs; by eapply sum_insert. Qed.

(** So from any state all threads can get to their ends. *)
Lemma finishes ts : disciplined ts → ∃ ts', rtc step ts ts' ∧ finished ts'.
Proof using Hbound.
  remember (work ts) as n eqn:En. revert ts En. induction n as [|n IH]; intros ts En Hd;
    destruct (progress ts Hd) as [Hf|[ts1 Hs]]; [by exists ts| |by exists ts|].
  - apply step_work in Hs. lia.
  - destruct (IH ts1) as (ts2 & Hr & Hf); [apply step_work in Hs; lia|by eapply step_disciplined|].
    exists ts2. split; [by eapply rtc_l|done].
Qed.
End discipline.

(** ** No races *)

Lemma no_race rank ok (guard : V → L) ts v :
  (∀ H v, ok H (Use v) → guard v ∈ H) → disciplined rank ok ts → ¬ race ts v.
Proof.
  intros Hok Hd (i & j & H1 & H2 & r1 & r2 & Hij & Hi & Hj).
  destruct (d_follows _ _ _ Hd i _ Hi) as [Hv1 _], (d_follows _ _ _ Hd j _ Hj) as [Hv2 _].
  by apply (d_excl _ _ _ Hd i j _ _ (guard v) Hi Hj Hij (Hok _ _ Hv1)), Hok.
Qed.

(** ** Guards *)

(** [Guard g(l); p], and [UnGuard u(g); p] under a guard; [Guard(l);] makes a temporary. *)
Definition guard l p : list action := Acq l :: p ++ [Rel l].
Definition unguard l p : list action := Rel l :: p ++ [Acq l].
Definition momentary l : list action := [Acq l; Rel l].

Section guards.
Context (rank : L → nat) (ok : list L → action → Prop).

Definition may_lock H l : Prop := l ∈ H ∨ Forall (λ h, rank h < rank l)%nat H.

Lemma follows_guard H l p :
  may_lock H l → follows rank ok (l :: H) p (l :: H) → follows rank ok H (guard l p) H.
Proof.
  intros Hl Hp. split; [done|]. eapply follows_app; [exact Hp|]. cbn. rewrite decide_True by done.
  split; [set_solver|done].
Qed.

Lemma follows_unguard H l p :
  may_lock H l → follows rank ok H p H → follows rank ok (l :: H) (unguard l p) (l :: H).
Proof.
  intros Hl Hp. cbn. rewrite decide_True by done. split; [set_solver|].
  eapply follows_app; [exact Hp|]. by split.
Qed.

Lemma follows_momentary H l : may_lock H l → follows rank ok H (momentary l) H.
Proof. intros Hl. by apply (follows_guard H l []). Qed.
End guards.

(** ** Runs of one thread *)

(** The locks held after [p]. *)
Fixpoint exec H p : list L :=
  match p with
  | [] => H
  | Acq l :: r => exec (l :: H) r
  | Rel l :: r => exec (drop1 l H) r
  | _ :: r => exec H r
  end.

Definition acquires p : list L := omap (λ a, match a with Acq l => Some l | _ => None end) p.

(** A thread goes through [p] alone when no other has a lock of it. *)
Lemma run_alone ts i H p r :
  ts !! i = Some (Thread H (p ++ r)) → Forall (free_for ts i) (acquires p) →
  rtc step ts (<[i := Thread (exec H p) r]> ts).
Proof.
  revert ts H. induction p as [|a p IH]; intros ts H Hi Hf; cbn [app] in Hi.
  { cbn. by rewrite list_insert_id. }
  assert (Hgo : ∀ H', step ts (<[i := Thread H' (p ++ r)]> ts) → Forall (free_for ts i) (acquires p) →
    rtc step ts (<[i := Thread (exec H' p) r]> ts)).
  { intros H' Hs Hf'. eapply rtc_l; [exact Hs|]. rewrite <-(list_insert_insert_eq ts i (Thread (exec H' p) r) (Thread H' (p ++ r))).
    apply IH; [apply list_lookup_insert_eq; by eapply lookup_lt_Some|].
    refine (list.Forall_impl _ _ _ Hf' _). intros l Hl j t Hj Hij. rewrite list_lookup_insert_ne in Hj by done.
    by apply (Hl j). }
  destruct a as [l|l|v| |]; cbn [acquires omap list_omap] in Hf; cbn [exec].
  - inv Hf. apply Hgo; [by eapply step_acq|done].
  - apply Hgo; [by eapply step_rel|done].
  - apply Hgo; [by eapply step_use|done].
  - apply Hgo; [by eapply step_wait|done].
  - apply Hgo; [by eapply step_sys|done].
Qed.
End machine.
Arguments action : clear implicits.
Arguments thread : clear implicits.
