(* ===== verification/Locking.v ===== *)
(** * The locks of drivers, records and worker threads

    Which locks the functions of the repository take, in which order, and what they use
    under them: the skeletons of the functions whose effects are modelled in the other files,
    which take each call as one step.  The machine is in [Locks].

    Every lock of coreApp, udpApp and sigApp is here: the lock of a driver and of its bufferevent
    ([PSCBase::lock], [BEVGuard]), of an event loop, of the packet pool and the kept packets
    of a fast receiver, of a calculation, and of the planner of FFTW; and the lock EPICS base
    holds while it processes the records of a lock set ([dbScanLock]).  What libevent and EPICS base lock for
    themselves is not, nor the mutex of the embedded server, which [PscServer] has as steps.  The member [calc]
    of a calculation belongs to its worker alone; what workers share is the planner of FFTW.
    Calls that do not block (of sockets, and printing) are left out. *)

From S2P Require Import Prelude Locks.

Module Locking.

Inductive lock :=
  | ScanLock (set : nat)
  | DriverLock (d : string)
  | SessionLock (d : string)
  | LoopLock (b : nat)
  | RxLock (d : string)
  | ShortLock (d : string)
  | CalcLock (n : string)
  | PlanLock.

#[export] Instance lock_eq_dec : EqDecision lock.
Proof. solve_decision. Defined.

(** What threads share: the members of a driver (blocks, counters, send queue, file names),
    the buffers of its session, an event loop, the free and pending packets, the kept
    packets, a calculation, and what FFTW keeps to make and destroy plans. *)
Inductive var :=
  | Driver (d : string)
  | Session (d : string)
  | Loop (b : nat)
  | Pool (d : string)
  | Kept (d : string)
  | Calc (n : string)
  | Planner.

(** The lock a variable belongs to. *)
Definition guard_of (v : var) : lock :=
  match v with
  | Driver d => DriverLock d
  | Session d => SessionLock d
  | Loop b => LoopLock b
  | Pool d => RxLock d
  | Kept d => ShortLock d
  | Calc n => CalcLock n
  | Planner => PlanLock
  end.

(** The order: records, then drivers, then their sessions; the others are taken last. *)
Definition rank (l : lock) : nat :=
  match l with
  | ScanLock _ => 0
  | DriverLock _ => 1
  | SessionLock _ => 2
  | LoopLock _ | RxLock _ | ShortLock _ | CalcLock _ | PlanLock => 3
  end.

Notation prog := (list (action lock var)).

(** ** Records *)

(** [dbScanLock(prec); dbProcess(prec); dbScanUnlock(prec)], of a record or a chain of them. *)
Definition dbProcess (set : nat) (bodies : list prog) : prog := guard (ScanLock set) (concat bodies).

(** Most of device support: [Guard g(priv->psc->lock)] over the whole call. *)
Definition locked_record (d : string) : prog := guard (DriverLock d) [Use (Driver d)].

(** [PSC::flushSend()], and [write_bo_send_changed]. *)
Definition flushSend (d : string) : prog := guard (SessionLock d) [Use (Session d); Use (Driver d)].
Definition write_bo_send_changed (d : string) (connected : bool) : prog :=
  guard (DriverLock d) (Use (Driver d) :: if connected then flushSend d else []).

(** [read_si], [write_so]: [Guard(priv->psc->lock);] is a temporary. *)
Definition string_record (d : string) : prog := momentary (DriverLock d) ++ [Use (Driver d)].

(** [write_msg], and [read_msg] of a record that is processed for [sync_callback]. *)
Definition write_msg (d : string) : prog := guard (DriverLock d) [Use (Driver d)].
Definition read_msg (d : string) : prog := [Use (Driver d)].

(** Of a fast receiver: the gauges, and the two calls on kept packets. *)
Definition gauge (d : string) : prog := guard (DriverLock d) [Use (Pool d)].
Definition devudp_clear_shortbuf (d : string) : prog :=
  guard (ShortLock d) [Use (Kept d)] ++ guard (RxLock d) [Use (Pool d)].
Definition devudp_read_shortbuf (d : string) : prog :=
  guard (ShortLock d) [Use (Driver d); Use (Kept d)].

(** Spectrum records: a temporary again. *)
Definition spectrum_record (n : string) : prog := momentary (CalcLock n) ++ [Use (Calc n)].

(** ** Drivers *)

(** [PSC::connect()]: [base->get()] locks the loop. *)
Definition connect (d : string) (b : nat) : prog := guard (LoopLock b) [Use (Loop b)] ++ [Use (Driver d)].

(** The callbacks of pscwrap.cpp.  [procs] are the records processed on connection. *)
Definition bev_eventcb (d : string) (procs : list prog) : prog :=
  guard (DriverLock d) (guard (SessionLock d) (Use (Session d) :: Use (Driver d) :: concat procs ++ [Use (Driver d)])).
Definition bev_datacb (d : string) : prog :=
  guard (DriverLock d) (guard (SessionLock d) [Use (Session d); Use (Driver d)]).
Definition bev_reconnect (d : string) (b : nat) : prog := guard (DriverLock d) (Use (Driver d) :: connect d b).
Definition ev_send (d : string) : prog := guard (DriverLock d) [Use (Driver d)].
Definition ev_recv (d : string) : prog := guard (DriverLock d) [Use (Driver d)].

(** [Block::scanned], [PSC::stopinloop()] *)
Definition scanned (d : string) : prog := guard (DriverLock d) [Use (Driver d)].
Definition stopinloop (d : string) : prog := guard (DriverLock d) [Use (Driver d)].

(** [startAll()] for a driver of each class. *)
Definition start_tcp (d : string) (b : nat) : prog := guard (DriverLock d) (connect d b).
Definition start_udp (d : string) (procs : list prog) : prog :=
  guard (DriverLock d) (Use (Driver d) :: concat procs).
Definition start_fast (d : string) : prog := guard (DriverLock d) [Use (Driver d)].

(** [EventBase::stop()]: it waits for the loop's thread, if that still runs; and what the
    destructor of the last driver of a loop does. *)
Definition EventBase_stop (b : nat) (running : bool) : prog :=
  guard (LoopLock b) [Use (Loop b)] ++ (if running then [Wait] else []).
Definition EventBase_dtor (b : nat) : prog := EventBase_stop b false ++ [Use (Loop b)].

(** A turn of [stopAll()]: [psc->stop(); delete psc;].  [PSCEventBase::stop()] waits for the
    loop, [UDPFast::stop()] for both threads; the destructors take no lock of the driver. *)
Definition stop_event (d : string) (b : nat) (running last : bool) : prog :=
  guard (LoopLock b) [Use (Loop b)] ++ EventBase_stop b running ++
  Use (Driver d) :: (if last then EventBase_dtor b else []).
Definition stop_fast (d : string) : prog := [Use (Driver d); Wait; Use (Driver d)].

(** [PSCBase::ReportOne], with [PSC::report]; the report of fast receivers. *)
Definition report (d : string) (lvl : Z) (connected : bool) : prog :=
  if (2 <=? lvl) && connected then guard (SessionLock d) [Use (Session d)] else [].
Definition ReportOne (d : string) (lvl : Z) (connected : bool) : prog :=
  if lvl <=? 0 then [] else guard (DriverLock d) (Use (Driver d) :: report d lvl connected).
Definition report1 (d : string) (lvl : Z) : prog := if lvl <=? 0 then [] else guard (RxLock d) [Use (Pool d)].

(** [EventBase::run()]: the loop waits and runs callbacks, unlocked. *)
Definition EventBase_run (b : nat) (cbs : list prog) : prog :=
  guard (LoopLock b) (Use (Loop b) :: unguard (LoopLock b) (concat ((λ cb, Wait :: cb) <$> cbs)) ++ [Use (Loop b)]).

(** ** The threads of a fast receiver and of a calculation *)

(** A round of [rxfn]: without a buffer it waits; otherwise it receives a batch. *)
Definition rx_round (d : string) (stalls : bool) : prog :=
  Use (Pool d) :: unguard (RxLock d) [Wait] ++ (if stalls then [] else [Use (Pool d)]).
Definition rxfn (d : string) (rounds : list bool) : prog := guard (RxLock d) (concat (rx_round d <$> rounds)).

(** A round of [cachefn]: whether buffers are returned, a file that is no longer wanted is
    closed, there are packets, a file is opened, and a write fails. *)
Record cache_round := Round {
  returns_bufs : bool; closes : bool; has_packets : bool; opens : bool; fails : bool }.

Definition return_bufs (d : string) (b : bool) : prog := if b then guard (RxLock d) [Use (Pool d)] else [].
Definition cache_take (d : string) (r : cache_round) : prog :=
  unguard (DriverLock d) (return_bufs d (returns_bufs r) ++ Wait :: guard (RxLock d) [Use (Pool d)]).

(** [if(!record && datafile.isOpen()) datafile.close();] with the lock of the driver. *)
Definition cache_close (r : cache_round) : prog := if closes r then [Sys] else [].
Definition cache_open (d : string) (r : cache_round) : prog :=
  if opens r then unguard (DriverLock d) [Wait; Use (Driver d)] else [].
Definition cache_write (d : string) (r : cache_round) : prog :=
  unguard (DriverLock d)
    (Wait :: (if fails r then [Use (Driver d)] else []) ++ guard (ShortLock d) [Use (Kept d)]).
Definition cache_once (d : string) (r : cache_round) : prog :=
  cache_take d r ++ Use (Driver d) :: cache_close r ++
  (if has_packets r then Use (Driver d) :: cache_open d r ++ cache_write d r ++ [Use (Driver d)] else []).
Definition cachefn (d : string) (rounds : list cache_round) (last : bool) : prog :=
  guard (RxLock d) [Use (Pool d)] ++
  guard (DriverLock d) (concat (cache_once d <$> rounds) ++ unguard (DriverLock d) (return_bufs d last)).

(** A round of [Calc::run()]: without parameters; with the plans there are; or with new ones,
    the first or in place of old ones. *)
Inductive calc_kind := Incomplete | Unchanged | FirstPlans | NewPlans.
#[export] Instance calc_kind_eq_dec : EqDecision calc_kind.
Proof. solve_decision. Defined.

(** [PSDCalc::calculate()]: [plans.clear()] destroys old plans before [fftwplanlock] is taken
    to make new ones. *)
Definition calculate (k : calc_kind) : prog :=
  match k with
  | FirstPlans => guard PlanLock [Use Planner]
  | NewPlans => Use Planner :: guard PlanLock [Use Planner]
  | _ => []
  end.
Definition calc_round (n : string) (k : calc_kind) : prog :=
  Wait :: guard (CalcLock n) [Use (Calc n)] ++
  (if decide (k = Incomplete) then [] else calculate k ++ guard (CalcLock n) [Use (Calc n)]).
Definition Calc_run (n : string) (rounds : list calc_kind) : prog := concat (calc_round n <$> rounds).

(** ** What threads do *)

(** Device support that uses the driver under its lock. *)
Inductive record_body : prog → Prop :=
  | body_locked d : record_body (locked_record d)
  | body_send d connected : record_body (write_bo_send_changed d connected)
  | body_msg d : record_body (write_msg d)
  | body_clear d : record_body (devudp_clear_shortbuf d).

(** Device support that does not, and the variable it uses without the lock. *)
Inductive loose_body : prog → Prop :=
  | loose_string d : loose_body (string_record d)
  | loose_sync d : loose_body (read_msg d)
  | loose_gauge d : loose_body (gauge d)
  | loose_kept d : loose_body (devudp_read_shortbuf d)
  | loose_spectrum n : loose_body (spectrum_record n).

(** Callbacks of an event loop; no record is processed on connection. *)
Inductive callback : prog → Prop :=
  | cb_event d : callback (bev_eventcb d [])
  | cb_data d : callback (bev_datacb d)
  | cb_reconnect d b : callback (bev_reconnect d b)
  | cb_send d : callback (ev_send d)
  | cb_recv d : callback (ev_recv d)
  | cb_stop d : callback (stopinloop d).

(** A round that neither opens a file nor fails to write. *)
Definition quiet_round (r : cache_round) : Prop := opens r = false ∧ fails r = false.

(** Everything a thread of the program may do that uses variables under their locks ... *)
Inductive handler : prog → Prop :=
  | h_process set bodies : Forall record_body bodies → handler (dbProcess set bodies)
  | h_run b cbs : Forall callback cbs → handler (EventBase_run b cbs)
  | h_scanned d : handler (scanned d)
  | h_start_tcp d b : handler (start_tcp d b)
  | h_start_udp d : handler (start_udp d [])
  | h_start_fast d : handler (start_fast d)
  | h_report d lvl connected : handler (ReportOne d lvl connected)
  | h_report1 d lvl : handler (report1 d lvl)
  | h_rx d rounds : handler (rxfn d rounds)
  | h_cache d rounds last : Forall quiet_round rounds → handler (cachefn d rounds last)
  | h_calc n rounds : NewPlans ∉ rounds → handler (Calc_run n rounds).

(** ... and what does not: [lastfile], [record] and [connected] are written unlocked, drivers
    are destroyed and plans too. *)
Inductive loose_handler : prog → Prop :=
  | l_process set bodies : Forall (λ p, record_body p ∨ loose_body p) bodies → loose_handler (dbProcess set bodies)
  | l_cache d rounds last : loose_handler (cachefn d rounds last)
  | l_calc n rounds : loose_handler (Calc_run n rounds)
  | l_stop d b running last : loose_handler (stop_event d b running last)
  | l_stop_fast d : loose_handler (stop_fast d).

(** ** The discipline *)

(** A thread waits with no lock, and closes a file with that of its driver. *)
Definition may_call (H : list lock) (a : action lock var) : Prop :=
  match a with
  | Wait => H = []
  | Sys => ∃ d, H = [DriverLock d]
  | _ => True
  end.

(** Variables are used under their locks, or anyhow. *)
Definition guarded (H : list lock) (a : action lock var) : Prop :=
  may_call H a ∧ match a with Use v => guard_of v ∈ H | _ => True end.

Section discipline.
Context (ok : list lock → action lock var → Prop).
Hypothesis (Hok : ∀ H v, guard_of v ∈ H → ok H (Use v)).
Hypothesis (Hwait : ok [] Wait).
Hypothesis (Hsys : ∀ d, ok [DriverLock d] Sys).
Notation follows := (follows rank ok).

Lemma follows_use H v p H' : guard_of v ∈ H → follows H p H' → follows H (Use v :: p) H'.
Proof using Hok. intros Hv Hp. split; [by apply Hok|done]. Qed.

Lemma follows_wait p H' : follows [] p H' → follows [] (Wait :: p) H'.
Proof using Hwait. by split. Qed.

Lemma follows_sys d p H' : follows [DriverLock d] p H' → follows [DriverLock d] (Sys :: p) H'.
Proof using Hsys. by split. Qed.

Lemma follows_nil H : follows H [] H.
Proof using. done. Qed.

Lemma follows_if H (b : bool) p q : follows H p H → follows H q H → follows H (if b then p else q) H.
Proof using. by destruct b. Qed.

Lemma may_lock_first l : may_lock rank [] l.
Proof using. by right. Qed.

Lemma may_lock_above l h : (rank h < rank l)%nat → may_lock rank [h] l.
Proof using. intros Hl. right. by repeat constructor. Qed.

Lemma may_lock_above2 l h1 h2 : (rank h1 < rank l)%nat → (rank h2 < rank l)%nat → may_lock rank [h1; h2] l.
Proof using. intros H1 H2. right. by repeat constructor. Qed.

(** Follow a program along its guards. *)
Ltac follow :=
  repeat match goal with
    | |- follows _ (guard _ _) _ => apply follows_guard
    | |- follows _ (unguard _ _) _ => apply follows_unguard
    | |- follows _ (momentary _) _ => apply follows_momentary
    | |- follows _ [] _ => apply follows_nil
    | |- follows _ (Use _ :: _) _ => apply follows_use; [cbn [guard_of]; set_solver|]
    | |- follows [] (Wait :: _) _ => apply follows_wait
    | |- follows [DriverLock _] (Sys :: _) _ => apply follows_sys
    | |- follows _ (if decide _ then _ else _) _ => case_decide
    | |- follows _ (match ?k with Incomplete => _ | _ => _ end) _ => destruct k
    | |- follows ?H (_ ++ _) _ => apply (follows_app rank ok H _ H)
    | |- follows _ (if _ then _ else _) _ => apply follows_if
    | |- follows _ (concat (_ <$> _)) _ => apply follows_concat, list.Forall_fmap, list.Forall_forall; intros ? ?; cbn [compose]
    | |- follows _ (concat _) _ => apply follows_concat, list.Forall_forall; intros ? ?
    | |- may_lock _ [] _ => apply may_lock_first
    | |- may_lock _ [_] _ => apply may_lock_above; cbn; lia
    | |- may_lock _ [_; _] _ => apply may_lock_above2; cbn; lia
    end.

Lemma body_follows set p : record_body p → follows [ScanLock set] p [ScanLock set].
Proof using Hok Hwait Hsys.
  destruct 1; unfold locked_record, write_bo_send_changed, flushSend, write_msg, devudp_clear_shortbuf; follow.
Qed.

Lemma callback_follows p : callback p → follows [] p [].
Proof using Hok Hwait Hsys.
  destruct 1; unfold bev_eventcb, bev_datacb, bev_reconnect, connect, ev_send, ev_recv, stopinloop; cbn [concat app]; follow.
Qed.

Lemma round_follows d r :
  quiet_round r ∨ (∀ H v, ok H (Use v)) → follows [DriverLock d] (cache_once d r) [DriverLock d].
Proof using Hok Hwait Hsys.
  intros Hr. unfold cache_once, cache_take, return_bufs, cache_close, cache_open, cache_write.
  destruct r as [rb cl hp op fl]. cbn [returns_bufs closes has_packets opens fails].
  destruct Hr as [[Ho Hf]|Hall]; [cbn in Ho, Hf; subst|]; follow.
  all: split; [apply Hall|follow].
Qed.

Lemma calc_follows n k :
  k ≠ NewPlans ∨ (∀ H v, ok H (Use v)) → follows [] (calc_round n k) [].
Proof using Hok Hwait Hsys.
  intros Hk. unfold calc_round, calculate. follow; try done.
  destruct Hk as [|Hall]; [done|]. split; [apply Hall|follow].
Qed.

Lemma handler_follows p : handler p → follows [] p [].
Proof using Hok Hwait Hsys.
  destruct 1 as [set bodies Hb|b cbs Hc|d|d b|d|d|d lvl c|d lvl|d rounds|d rounds last Hr|n rounds Hn].
  - unfold dbProcess. follow. apply body_follows. by eapply list.Forall_forall.
  - unfold EventBase_run. follow. apply callback_follows. by eapply list.Forall_forall.
  - unfold scanned. follow.
  - unfold start_tcp, connect. follow.
  - unfold start_udp. cbn [concat]. follow.
  - unfold start_fast. follow.
  - unfold ReportOne, report. follow.
  - unfold report1. follow.
  - unfold rxfn, rx_round. follow.
  - unfold cachefn, return_bufs. follow. apply round_follows. left. by eapply list.Forall_forall in Hr.
  - unfold Calc_run. follow. apply calc_follows. left. by intros ->.
Qed.

Hypothesis (Hall : ∀ H v, ok H (Use v)).

Lemma follows_any H v p H' : follows H p H' → follows H (Use v :: p) H'.
Proof using Hall. by split. Qed.

Lemma loose_follows p : loose_handler p → follows [] p [].
Proof using Hok Hwait Hsys Hall.
  destruct 1 as [set bodies Hb|d rounds last|n rounds|d b running last|d].
  - unfold dbProcess. follow. eapply list.Forall_forall in Hb as [Hb|Hb]; [by apply body_follows| |done].
    destruct Hb; unfold string_record, read_msg, gauge, devudp_read_shortbuf, spectrum_record;
      repeat (follow; try apply follows_any).
  - unfold cachefn, return_bufs. follow. apply round_follows. by right.
  - unfold Calc_run. follow. apply calc_follows. by right.
  - unfold stop_event, EventBase_dtor, EventBase_stop. repeat (follow; try apply follows_any).
  - unfold stop_fast. repeat (follow; try apply follows_any).
Qed.
End discipline.

(** Threads that make calls one after the other. *)
Definition threads (ws : list (list prog)) : list (thread lock var) := start ((λ w, concat w) <$> ws).

Lemma rank_bound l : (rank l < 4)%nat.
Proof. destruct l; cbn; lia. Qed.

Lemma threads_disciplined ok (ws : list (list prog)) (ts : list (thread lock var)) :
  Forall (Forall (λ p, follows rank ok [] p [])) ws → rtc step (threads ws) ts →
  disciplined rank ok ts.
Proof.
  intros Hws Hr. eapply steps_disciplined; [exact Hr|]. apply start_disciplined, list.Forall_fmap.
  refine (list.Forall_impl _ _ _ Hws _). intros ps. apply follows_concat.
Qed.

(** ** Two threads, up to one variable *)

Lemma race_reached (p q p' q' : prog) v :
  (∀ l, l ∈ acquires p' → l ∉ exec [] p) →
  ∃ ts : list (thread lock var), rtc step (start [p ++ Use v :: q; p' ++ Use v :: q']) ts ∧ race ts v.
Proof.
  intros Hl. set (t1 := Thread (exec [] p) (Use v :: q)). set (t2 := Thread (exec [] p') (Use v :: q')).
  exists [t1; t2]. split.
  - etrans.
    + apply (run_alone _ 0 [] p (Use v :: q)); [done|]. apply list.Forall_forall.
      intros l _ [|[|j]] t Hj Hij; cbn in Hj; simplify_eq. apply not_elem_of_nil.
    + apply (run_alone [t1; Thread [] (p' ++ Use v :: q')] 1 [] p' (Use v :: q')); [done|].
      apply list.Forall_forall. intros l Hl' [|[|j]] t Hj Hij; cbn in Hj; simplify_eq. by apply Hl.
  - exists 0%nat, 1%nat. by eexists _, _, _, _.
Qed.

(** Calls that use a variable without its lock. *)
Inductive unlocked (set : nat) : prog → var → Prop :=
  | u_string d : unlocked set (dbProcess set [string_record d]) (Driver d)
  | u_sync d : unlocked set (dbProcess set [read_msg d]) (Driver d)
  | u_gauge d : unlocked set (dbProcess set [gauge d]) (Pool d)
  | u_kept d : unlocked set (dbProcess set [devudp_read_shortbuf d]) (Driver d)
  | u_spectrum n : unlocked set (dbProcess set [spectrum_record n]) (Calc n)
  | u_open d r : has_packets r = true → opens r = true → unlocked set (cachefn d [r] true) (Driver d)
  | u_fail d r : has_packets r = true → fails r = true → unlocked set (cachefn d [r] true) (Driver d)
  | u_stop d : unlocked set (stop_fast d) (Driver d)
  | u_delete d b running last : unlocked set (stop_event d b running last) (Driver d)
  | u_plans n : unlocked set (Calc_run n [NewPlans]) Planner.

(** A call that uses a variable under its lock: of a record of lock set [other], of the thread
    it belongs to, or of the thread of calculation [calc]. *)
Definition owner (v : var) (other : nat) (calc : string) : prog :=
  match v with
  | Driver d => dbProcess other [locked_record d]
  | Session d => dbProcess other [write_bo_send_changed d true]
  | Kept d => dbProcess other [devudp_clear_shortbuf d]
  | Loop b => EventBase_run b []
  | Pool d => rxfn d [true]
  | Calc n => Calc_run n [Unchanged]
  | Planner => Calc_run calc [FirstPlans]
  end.

(** The locks it has then. *)
Definition owner_locks (v : var) (other : nat) : list lock :=
  match v with
  | Driver d => [ScanLock other; DriverLock d]
  | Session d => [ScanLock other; DriverLock d; SessionLock d]
  | Kept d => [ScanLock other; ShortLock d]
  | Loop b => [LoopLock b]
  | Pool d => [RxLock d]
  | Calc n => [CalcLock n]
  | Planner => [PlanLock]
  end.

Lemma owner_handler v other calc : handler (owner v other calc).
Proof. destruct v; constructor; repeat constructor; set_solver. Qed.

Lemma owner_uses v other calc :
  ∃ p q, owner v other calc = p ++ Use v :: q ∧ ∀ l, l ∈ acquires p → l ∈ CalcLock calc :: owner_locks v other.
Proof.
  destruct v as [d|d|b|d|d|n|].
  - exists [Acq (ScanLock other); Acq (DriverLock d)]; eexists. split; [reflexivity|cbn; set_solver].
  - exists [Acq (ScanLock other); Acq (DriverLock d); Use (Driver d); Acq (SessionLock d)]; eexists.
    split; [reflexivity|cbn; set_solver].
  - exists [Acq (LoopLock b)]; eexists. split; [reflexivity|cbn; set_solver].
  - exists [Acq (RxLock d)]; eexists. split; [reflexivity|cbn; set_solver].
  - exists [Acq (ScanLock other); Acq (ShortLock d)]; eexists. split; [reflexivity|cbn; set_solver].
  - exists [Wait; Acq (CalcLock n)]; eexists. split; [reflexivity|cbn; set_solver].
  - exists [Wait; Acq (CalcLock calc); Use (Calc calc); Rel (CalcLock calc); Acq PlanLock]; eexists.
    split; [reflexivity|cbn; set_solver].
Qed.

(** [cachefn] up to the packets of its first round, and up to what follows [writev]. *)
Definition until_packets (d : string) (rb cl : bool) : prog :=
  [Acq (RxLock d); Use (Pool d); Rel (RxLock d); Acq (DriverLock d); Rel (DriverLock d)] ++
  return_bufs d rb ++ [Wait; Acq (RxLock d); Use (Pool d); Rel (RxLock d); Acq (DriverLock d);
  Use (Driver d)] ++ (if cl then [Sys] else []) ++ [Use (Driver d)].
Definition until_written (d : string) (rb cl op : bool) : prog :=
  until_packets d rb cl ++
  (if op then [Rel (DriverLock d); Wait; Use (Driver d); Acq (DriverLock d)] else []) ++
  [Rel (DriverLock d); Wait].

(** No lock is held when the variable is used that the owner of the variable needs. *)
Lemma unlocked_prefix set w v other calc :
  unlocked set w v → other ≠ set →
  ∃ p q, w = p ++ Use v :: q ∧ ∀ l, l ∈ CalcLock calc :: owner_locks v other → l ∉ exec [] p.
Proof.
  intros Hu Ho.
  assert (Hat : ∀ p q, w = p ++ Use v :: q →
    (∀ l, l ∈ CalcLock calc :: owner_locks v other → l ∉ exec [] p) →
    ∃ p q, w = p ++ Use v :: q ∧ ∀ l, l ∈ CalcLock calc :: owner_locks v other → l ∉ exec [] p) by eauto.
  destruct Hu as [d|d|d|d|n|d [rb cl hp op fl] Hh Hr|d [rb cl hp op fl] Hh Hr|d|d b running last|n];
    try (cbn in Hh, Hr; subst).
  - eapply (Hat [Acq (ScanLock set); Acq (DriverLock d); Rel (DriverLock d)]); [reflexivity|].
    cbn. repeat case_decide; simplify_eq. set_solver.
  - eapply (Hat [Acq (ScanLock set)]); [reflexivity|]. cbn. set_solver.
  - eapply (Hat [Acq (ScanLock set); Acq (DriverLock d)]); [reflexivity|]. cbn. set_solver.
  - eapply (Hat [Acq (ScanLock set); Acq (ShortLock d)]); [reflexivity|]. cbn. set_solver.
  - eapply (Hat [Acq (ScanLock set); Acq (CalcLock n); Rel (CalcLock n)]); [reflexivity|].
    cbn. repeat case_decide; simplify_eq. set_solver.
  - eapply (Hat (until_packets d rb cl ++ [Rel (DriverLock d); Wait])); [by destruct rb, cl|].
    destruct rb, cl; cbn; repeat case_decide; simplify_eq; set_solver.
  - eapply (Hat (until_written d rb cl op)); [by destruct rb, cl, op|].
    destruct rb, cl, op; cbn; repeat case_decide; simplify_eq; set_solver.
  - eapply (Hat []); [reflexivity|]. cbn. set_solver.
  - eapply (Hat (guard (LoopLock b) [Use (Loop b)] ++ EventBase_stop b running)); [by destruct running|].
    destruct running; cbn; repeat case_decide; simplify_eq; set_solver.
  - eapply (Hat [Wait; Acq (CalcLock n); Use (Calc n); Rel (CalcLock n)]); [reflexivity|].
    cbn. repeat case_decide; simplify_eq. set_solver.
Qed.

(** ** Properties *)

(** C13: Threads do not get stuck on locks.  Let any number of threads process records of any
    support, run the callbacks of event loops, the threads of fast receivers and of
    calculations, start, stop, destroy and report drivers, in any order and interleaving; only
    let no record be processed on connection.  Then in every state they reach not all are
    waiting for locks, and all of them can get to their ends when what they wait for outside
    happens.  A thread that waits for an event, for packets, for the callbacks of a loop, for
    the end of another thread, or to open, write or flush a data file, holds no lock; but one
    that closes a data file because recording was turned off holds the lock of its driver. *)
Theorem threads_never_stuck ws ts :
  Forall (Forall (λ p, handler p ∨ loose_handler p)) ws → rtc step (threads ws) ts →
  ¬ deadlocked ts ∧ (∃ ts', rtc step ts ts' ∧ finished ts') ∧
  (∀ i H r, ts !! i = Some (Thread H (Wait :: r)) → H = []) ∧
  ∀ i H r, ts !! i = Some (Thread H (Sys :: r)) → ∃ d, H = [DriverLock d].
Proof.
  intros Hws Hr. assert (Hd : disciplined rank may_call ts).
  { eapply threads_disciplined; [|exact Hr]. refine (list.Forall_impl _ _ _ Hws _). intros ps Hps.
    refine (list.Forall_impl _ _ _ Hps _).
    intros p [Hp|Hp]; [apply handler_follows|apply loose_follows]; try done; intros d; by exists d. }
  split_and!.
  - intros [Hn Hs]. destruct (progress rank may_call 4 rank_bound ts Hd) as [|[ts' Hs']]; [done|by apply (Hs ts')].
  - by apply (finishes rank may_call 4 rank_bound).
  - intros i H r Hi. by destruct (d_follows _ _ _ Hd i _ Hi).
  - intros i H r Hi. by destruct (d_follows _ _ _ Hd i _ Hi).
Qed.

(** C14: Calls exclude each other.  Of the same threads, as long as no driver is stopped and
    none of the other calls in [unlocked_calls_race] is made - which leaves out, among others,
    string and spectrum records, and calculations that replace their plans -, no two are ever
    about to use the same driver, session, event loop, packet pool, kept packets, calculation
    or the planner of FFTW: each call has them to itself. *)
Theorem calls_exclusive ws ts v :
  Forall (Forall handler) ws → rtc step (threads ws) ts → ¬ race ts v.
Proof.
  intros Hws Hr. apply (no_race rank guarded guard_of); [by intros H v' [_ ?]|].
  eapply threads_disciplined; [|exact Hr].
  refine (list.Forall_impl _ _ _ Hws _). intros ps Hps. refine (list.Forall_impl _ _ _ Hps _).
  intros p Hp. apply handler_follows; [by split|by split| |done]. intros d. split; [by exists d|done].
Qed.

(** C15: A record that is processed on connection can stop the program.  The callback of the
    session, which has the lock of the driver, waits for the lock of the record; a thread that
    processes this record, or one of its lock set, waits for the lock of the driver.  Neither
    goes on, ever.  The start of a UDP driver does the same. *)
Theorem on_connect_deadlocks d set bodies h :
  h ∈ [bev_eventcb d [dbProcess set bodies]; start_udp d [dbProcess set bodies]] →
  ∃ ts : list (thread lock var),
    rtc step (start [h; dbProcess set [locked_record d]]) ts ∧ deadlocked ts.
Proof.
  intros Hh.
  assert (Hp : ∃ p r, h = p ++ Acq (ScanLock set) :: r ∧ DriverLock d ∈ exec [] p ∧ ScanLock set ∉ exec [] p).
  { apply elem_of_cons in Hh as [->|Hh]; [|apply list_elem_of_singleton in Hh as ->].
    - exists [Acq (DriverLock d); Acq (SessionLock d); Use (Session d); Use (Driver d)]. eexists.
      split; [reflexivity|]. cbn. split; set_solver.
    - exists [Acq (DriverLock d); Use (Driver d)]. eexists. split; [reflexivity|]. cbn. split; set_solver. }
  destruct Hp as (p & r & -> & Hd & Hs).
  set (t1 := Thread (exec [] p) (Acq (ScanLock set) :: r)).
  set (t2 := Thread [ScanLock set] (locked_record d ++ [Rel (ScanLock set)])).
  exists [t1; t2]. split.
  - etrans.
    + apply (run_alone _ 0 [] p (Acq (ScanLock set) :: r)); [done|]. apply list.Forall_forall.
      intros l _ [|[|j]] t Hj Hij; cbn in Hj; simplify_eq. apply not_elem_of_nil.
    + apply (run_alone [t1; Thread [] (dbProcess set [locked_record d])] 1 [] [Acq (ScanLock set)]); [done|].
      repeat constructor. intros [|[|j]] t Hj Hij; cbn in Hj; by simplify_eq.
  - split; [by intros Hf; inv Hf|]. intros ts' Hst.
    inversion Hst as [i l H q Hi Hfree|i l H q Hi|i v H q Hi|i H q Hi|i H q Hi]; destruct i as [|[|i]]; cbn in Hi; simplify_eq.
    + apply (Hfree 1%nat t2); [done|done|]. cbn. set_solver.
    + by apply (Hfree 0%nat t1).
Qed.

(** C16: Some calls use what is not locked: string records and records that are synchronized
    ([Guard(lock);] makes a temporary, [read_msg] takes no lock), the gauges and the kept
    packets of a fast receiver, spectrum records, the thread that writes data files when it
    opens one or a write fails, [UDPFast::stop], the destructors of drivers when the program
    ends, and a calculation that destroys its old plans.  Each of them and a call that has the
    lock can be about to use the same variable. *)
Theorem unlocked_calls_race w v set other calc :
  unlocked set w v → other ≠ set →
  handler (owner v other calc) ∧
  ∃ ts : list (thread lock var), rtc step (start [w; owner v other calc]) ts ∧ race ts v.
Proof.
  intros Hu Ho. split; [apply owner_handler|].
  destruct (unlocked_prefix _ _ _ _ calc Hu Ho) as (p & q & -> & Hl).
  destruct (owner_uses v other calc) as (p' & q' & -> & Ep). apply race_reached. auto.
Qed.

(** ** Witnesses *)

(** A TCP driver with its event loop, a record that sends, a string record, and the report. *)
Definition sample_threads : list (list prog) :=
  [ [EventBase_run 0 [bev_eventcb "dev" []; bev_datacb "dev"]];
    [dbProcess 1 [locked_record "dev"; write_bo_send_changed "dev" true]; dbProcess 2 [string_record "dev"]];
    [ReportOne "dev" 2 true] ].

Lemma sample_handlers : Forall (Forall (λ p, handler p ∨ loose_handler p)) sample_threads.
Proof.
  unfold sample_threads. rewrite !list.Forall_cons, !list.Forall_nil. split_and!; try done.
  1-2, 4: left; repeat constructor.
  right. apply l_process, list.Forall_singleton. right. constructor.
Qed.

(** The first thread has got to its first callback. *)
Definition sample_rest : prog :=
  guard (SessionLock "dev") [Use (Session "dev"); Use (Driver "dev"); Use (Driver "dev")] ++ [Rel (DriverLock "dev")] ++
  (Wait :: bev_datacb "dev") ++ [Acq (LoopLock 0); Use (Loop 0); Rel (LoopLock 0)].
Definition sample_state : list (thread lock var) :=
  <[0%nat := Thread [DriverLock "dev"] sample_rest]> (threads sample_threads).

Lemma sample_reached : rtc step (threads sample_threads) sample_state.
Proof.
  set (p := [Acq (LoopLock 0); Use (Loop 0); Rel (LoopLock 0); Wait; Acq (DriverLock "dev")]).
  assert (He : exec [] p = [DriverLock "dev"]) by reflexivity.
  unfold sample_state. rewrite <-He. apply run_alone; [reflexivity|].
  apply list.Forall_forall. intros l _ [|[|[|j]]] t Hj Hij; cbn in Hj; simplify_eq; apply not_elem_of_nil.
Qed.

Lemma threads_never_stuck_witness :
  ¬ deadlocked sample_state ∧ (∃ ts', rtc step sample_state ts' ∧ finished ts') ∧
  (∀ i H r, sample_state !! i = Some (Thread H (Wait :: r)) → H = []) ∧
  ∀ i H r, sample_state !! i = Some (Thread H (Sys :: r)) → ∃ d, H = [DriverLock d].
Proof. apply (threads_never_stuck sample_threads sample_state); [exact sample_handlers|exact sample_reached]. Defined.

Lemma calls_exclusive_witness :
  ¬ race (threads [[dbProcess 2 [write_bo_send_changed "dev" true]]; [dbProcess 1 [locked_record "dev"]]]) (Driver "dev").
Proof.
  apply (calls_exclusive [[dbProcess 2 [write_bo_send_changed "dev" true]]; [dbProcess 1 [locked_record "dev"]]]).
  - repeat constructor.
  - apply rtc_refl.
Defined.

Lemma on_connect_deadlocks_witness :
  ∃ ts : list (thread lock var),
    rtc step (start [bev_eventcb "dev" [dbProcess 1 [write_msg "dev"]]; dbProcess 1 [locked_record "dev"]]) ts ∧
    deadlocked ts.
Proof. apply (on_connect_deadlocks "dev" 1 [write_msg "dev"]). left. Defined.

Lemma unlocked_calls_race_witness :
  handler (owner Planner 2 "other") ∧
  ∃ ts : list (thread lock var),
    rtc step (start [Calc_run "psd" [NewPlans]; owner Planner 2 "other"]) ts ∧ race ts Planner.
Proof. apply (unlocked_calls_race _ _ 1 2 "other"); [apply u_plans|lia]. Defined.

End Locking.
