(* ===== verification/SigPlan.v ===== *)
(** * Who owns the plans

    [Plan] of sigApp/src/fftwrap.h wraps a plan of FFTW, and [PSDCalc] has a vector of them
    (fftwrap.cpp).  [SigPsd] says what the plans compute; here is when they are made and
    destroyed.  A plan is a handle of the library, which must be destroyed once, and not be
    used after. *)

From stdpp Require Import gmap sets.
From S2P Require Import Prelude.

Module Plans.

(** FFTW as far as plans are concerned: a planner makes a new one or fails; destroying one
    leaves the others. *)
Class PlanLib (L : Type) := {
  live : L → gset nat;
  fftw_plan : L → option nat * L;
  fftw_destroy : nat → L → L;
}.

Class PlanLaws (L : Type) `{PlanLib L} : Prop := {
  plan_made l h l' : fftw_plan l = (Some h, l') → h ∉ live l ∧ live l' = {[h]} ∪ live l;
  plan_failed l l' : fftw_plan l = (None, l') → live l' = live l;
  plan_destroyed h l : live (fftw_destroy h l) = live l ∖ {[h]};
}.

Section plans.
Context {L : Type} `{PlanLaws L}.

(** [fftw_destroy_plan], [fftw_execute]: undefined for a plan that is gone. *)
Definition fftw_destroy_plan (h : nat) : M L unit := λ l,
  if decide (h ∈ live l) then (Ret tt, fftw_destroy h l) else (Crash Undefined, l).
Definition fftw_execute (h : nat) : M L unit := λ l,
  if decide (h ∈ live l) then (Ret tt, l) else (Crash Undefined, l).

(** [Plan::clear()] (and the destructor), [Plan::reset(p)], of the member [plan]; the result
    is its new value. *)
Definition Plan_clear (plan : option nat) : M L (option nat) :=
  (match plan with Some h => fftw_destroy_plan h | None => ret tt end) ;;; ret None.

Definition Plan_reset (plan p : option nat) : M L (option nat) :=
  match p with
  | None => throw BadAlloc
  | Some h => when (bool_decide (plan ≠ None)) (fftw_destroy_plan h) ;;; ret p
  end.

(** [PSDCalc], its plans only. *)
Record psd := Psd { lib : L; plans : list (option nat) }.
Implicit Types s : psd.
Definition set_plans (v : list (option nat)) s : psd := Psd (lib s) v.
Definition on_lib {A} (m : M L A) : M psd A := zoom lib (λ l s, Psd l (plans s)) m.

(** [plans.clear()] runs the destructors. *)
Fixpoint destroy_all (l : list (option nat)) : M L unit :=
  match l with
  | [] => ret tt
  | p :: r => Plan_clear p ;;; destroy_all r
  end.
Definition clear_plans : M psd unit :=
  s <- get ;; on_lib (destroy_all (plans s)) ;;; modify (set_plans []).

(** [plans[i] = fftw_plan_dft_r2c_1d(...)] for each block. *)
Fixpoint make_plans (idx : list nat) : M psd unit :=
  match idx with
  | [] => ret tt
  | i :: r =>
      p <- on_lib (λ l, let '(h, l') := fftw_plan l in (Ret h, l')) ;;
      s <- get ;;
      match plans s !! i with
      | None => abort OutOfBounds
      | Some old =>
          new <- on_lib (Plan_reset old p) ;;
          modify (λ s, set_plans (<[i := new]> (plans s)) s) ;;;
          make_plans r
      end
  end.

(** The plans of [calculate()] when it is time to plan, and their use. *)
Definition replan (nbins : nat) : M psd unit :=
  clear_plans ;;;
  modify (set_plans (replicate nbins None)) ;;;
  make_plans (seq 0 nbins).

Fixpoint execute_all (l : list (option nat)) : M L unit :=
  match l with
  | [] => ret tt
  | Some h :: r => fftw_execute h ;;; execute_all r
  | None :: _ => abort NullDeref
  end.
Definition execute : M psd unit := s <- get ;; on_lib (execute_all (plans s)).

(** ** Ownership *)

Definition handles (l : list (option nat)) : list nat := omap id l.

(** The plans that live are those in the vector, each there once, and those of others. *)
Record owned (others : gset nat) s : Prop := {
  owned_live : live (lib s) = list_to_set (handles (plans s)) ∪ others;
  owned_apart : (list_to_set (handles (plans s)) : gset nat) ## others;
  owned_once : NoDup (handles (plans s));
}.

Lemma destroy_all_run l lb :
  NoDup (handles l) → (list_to_set (handles l) : gset nat) ⊆ live lb →
  ∃ lb', destroy_all l lb = (Ret tt, lb') ∧ live lb' = live lb ∖ list_to_set (handles l).
Proof.
  revert lb. induction l as [|[h|] l IH]; intros lb Hn Hl.
  - exists lb. split; [done|]. cbn. set_solver.
  - cbn in Hn, Hl. apply list.NoDup_cons in Hn as [Hh Hn]. cbn [destroy_all Plan_clear].
    assert (E : (fftw_destroy_plan h ;;; ret (A:=option nat) None) lb = (Ret None, fftw_destroy h lb)).
    { unfold bind, fftw_destroy_plan. rewrite decide_True by set_solver. done. }
    unfold Plan_clear. rewrite (bind_ret _ _ _ _ _ E).
    destruct (IH (fftw_destroy h lb) Hn) as (lb' & E' & Hl').
    { rewrite plan_destroyed. set_solver. }
    exists lb'. split; [exact E'|]. rewrite Hl', plan_destroyed. cbn. set_solver.
  - cbn [destroy_all]. unfold Plan_clear. mstep. by apply IH.
Qed.

Lemma clear_plans_run others s :
  owned others s → ∃ s', clear_plans s = (Ret tt, s') ∧ plans s' = [] ∧ live (lib s') = others.
Proof.
  intros [Hl Ha Hn]. destruct (destroy_all_run (plans s) (lib s) Hn) as (lb & E & Hlb); [rewrite Hl; set_solver|].
  unfold clear_plans. mstep. unfold on_lib. rewrite (bind_ret _ _ _ _ _ (zoom_eq _ _ _ _ _ _ E)).
  eexists. split; [reflexivity|]. split; [done|]. cbn. rewrite Hlb, Hl. set_solver.
Qed.

(** A free place gets a plan. *)
Lemma handles_insert l i h :
  l !! i = Some None → handles (<[i := Some h]> l) ≡ₚ h :: handles l.
Proof.
  intros Hi. unfold handles. rewrite <-(take_drop_middle _ _ _ Hi) at 2.
  rewrite insert_take_drop by (by eapply lookup_lt_Some). rewrite !omap_app. cbn.
  symmetry. apply Permutation_middle.
Qed.

Lemma owned_insert others s lb i h :
  owned others s → plans s !! i = Some None → h ∉ live (lib s) → live lb = {[h]} ∪ live (lib s) →
  owned others (Psd lb (<[i := Some h]> (plans s))).
Proof.
  intros [Hl Ha Hn] Hi Hh Hlb. pose proof (handles_insert (plans s) i h Hi) as Hp.
  assert (Hset : (list_to_set (handles (<[i := Some h]> (plans s))) : gset nat) = {[h]} ∪ list_to_set (handles (plans s))).
  { apply set_eq. intros x. rewrite elem_of_list_to_set, Hp. set_solver. }
  split; cbn [lib plans].
  - rewrite Hlb, Hl, Hset. set_solver.
  - rewrite Hset. set_solver.
  - rewrite Hp. constructor; [|done]. rewrite Hl in Hh. set_solver.
Qed.

Lemma make_plans_run others k n s :
  owned others s → (∀ i, (k ≤ i < k + n)%nat → plans s !! i = Some None) →
  ∃ o s', make_plans (seq k n) s = (o, s') ∧ owned others s' ∧
    match o with
    | Ret _ => length (plans s') = length (plans s) ∧
        (∀ i, (i < k)%nat → plans s' !! i = plans s !! i) ∧
        ∀ i, (k ≤ i < k + n)%nat → ∃ h, plans s' !! i = Some (Some h)
    | Throw e => e = BadAlloc
    | Crash _ => False
    end.
Proof.
  revert k s. induction n as [|n IH]; intros k s Ho Hs.
  { exists (Ret tt), s. split; [done|]. split; [done|]. split_and!; [done|done|lia]. }
  cbn [seq make_plans]. destruct (fftw_plan (lib s)) as [[h|] lb] eqn:E.
  - apply plan_made in E as Hm. destruct Hm as [Hh Hlb].
    erewrite bind_ret by (unfold on_lib, zoom; rewrite E; reflexivity). mstep. cbn [plans].
    rewrite Hs by lia. unfold Plan_reset. rewrite bool_decide_eq_false_2 by (by intros []). cbn [when].
    do 2 mstep. cbn [plans set_plans lib].
    destruct (IH (S k) (Psd lb (<[k := Some h]> (plans s)))) as (o & s' & E' & Ho' & Hres).
    + apply owned_insert; [done|apply Hs; lia|done|done].
    + intros i Hi. cbn. rewrite list_lookup_insert_ne by lia. apply Hs. lia.
    + exists o, s'. split; [exact E'|]. split; [done|]. destruct o as [u|e|c]; [|done..].
      destruct Hres as (Hlen & Hlow & Hall). cbn in Hlen, Hlow. rewrite length_insert in Hlen.
      split_and!; [done| |].
      * intros i Hi. rewrite Hlow, list_lookup_insert_ne by lia. done.
      * intros i Hi. destruct (decide (i = k)) as [->|Hne]; [|apply Hall; lia]. exists h.
        rewrite Hlow, list_lookup_insert_eq by (try lia; eapply lookup_lt_Some, Hs; lia). done.
  - apply plan_failed in E as Hlb.
    erewrite bind_ret by (unfold on_lib, zoom; rewrite E; reflexivity). mstep. cbn [plans].
    rewrite Hs by lia. eexists _, _. split; [reflexivity|]. split; [|done].
    destruct Ho as [Hl Ha Hn]. split; [|done..]. cbn. by rewrite Hlb.
Qed.

Lemma replan_run others nbins s :
  owned others s →
  ∃ o s', replan nbins s = (o, s') ∧ owned others s' ∧
    match o with
    | Ret _ => length (plans s') = nbins ∧ Forall (λ p, is_Some p) (plans s')
    | Throw e => e = BadAlloc
    | Crash _ => False
    end.
Proof.
  intros Ho. destruct (clear_plans_run others s Ho) as (s1 & E1 & Hp1 & Hl1).
  unfold replan. rewrite (bind_ret _ _ _ _ _ E1). mstep. set (s2 := set_plans (replicate nbins None) s1).
  assert (Hh : ∀ n, handles (replicate n None) = []) by (induction n; [done|]; cbn; auto).
  destruct (make_plans_run others 0 nbins s2) as (o & s' & E & Ho' & Hres).
  - split; cbn; rewrite Hh; [rewrite Hl1; set_solver|set_solver|constructor].
  - intros i Hi. cbn. apply lookup_replicate. split; [done|lia].
  - exists o, s'. split; [exact E|]. split; [done|]. destruct o as [u|e|c]; [|done..].
    destruct Hres as (Hlen & _ & Hall). cbn in Hlen. rewrite length_replicate in Hlen. split; [done|].
    apply list.Forall_lookup. intros i p Hi. apply lookup_lt_Some in Hi as Hlt.
    destruct (Hall i) as [h Hx]; [lia|]. rewrite Hx in Hi. injection Hi as <-. by exists h.
Qed.

Lemma execute_run others s : owned others s → Forall (λ p, is_Some p) (plans s) → execute s = (Ret tt, s).
Proof.
  intros [Hl _ _] Hs. unfold execute. mstep.
  assert (E : ∀ l, (list_to_set (handles l) : gset nat) ⊆ live (lib s) → Forall (λ p, is_Some p) l →
    execute_all l (lib s) = (Ret tt, lib s)).
  { induction l as [|[h|] l IH]; intros Hin Hl'; [done|..]; apply list.Forall_cons in Hl' as [[x Hx] Hl']; [|done].
    cbn in Hin. cbn [execute_all]. unfold fftw_execute. unfold bind at 1. rewrite decide_True by set_solver.
    apply IH; [set_solver|done]. }
  unfold on_lib. rewrite (zoom_eq _ _ _ _ _ _ (E (plans s) ltac:(rewrite Hl; set_solver) Hs)). by destruct s.
Qed.

(** This calculation plans; or others make and destroy plans of theirs. *)
Inductive plan_step : gset nat * psd → gset nat * psd → Prop :=
  | own_step others s nbins o s' : replan nbins s = (o, s') → plan_step (others, s) (others, s')
  | other_step others others' s l' : (list_to_set (handles (plans s)) : gset nat) ## others' →
      live l' = list_to_set (handles (plans s)) ∪ others' →
      plan_step (others, s) (others', Psd l' (plans s)).

Lemma plan_step_owned c c' : plan_step c c' → owned c.1 c.2 → owned c'.1 c'.2.
Proof.
  intros Hs Ho. destruct Hs as [others s nbins o s' E|others others' s l' Ha Hl]; cbn in *.
  - destruct (replan_run others nbins s Ho) as (o' & s1 & E' & Ho' & _). congruence.
  - by destruct Ho as [_ _ Hn].
Qed.
End plans.

(** ** Properties *)

(** C21: Every plan is destroyed exactly once.  A calculation plans again and again, for any
    number of blocks, also when the planner fails half way and the exception leaves
    [calculate]; other calculations make and destroy plans in between.  Then planning always
    returns or throws [bad_alloc] and never destroys a plan twice; after it returns, every
    block has a plan that can be executed; and the destructor leaves exactly the plans of the
    others: none leaks, and no one else's is destroyed. *)
Theorem plans_destroyed_once {L} `{PlanLaws L} (l0 : L) others (s : psd) :
  rtc plan_step (live l0, Psd l0 []) (others, s) →
  (∀ nbins, ∃ o s', replan nbins s = (o, s') ∧
    ((o = Throw BadAlloc) ∨ (o = Ret tt ∧ length (plans s') = nbins ∧ execute s' = (Ret tt, s')))) ∧
  ∃ s', clear_plans s = (Ret tt, s') ∧ plans s' = [] ∧ live (lib s') = others.
Proof.
  intros Hr. assert (Ho : owned others s).
  { assert (Hx : ∀ c c', rtc plan_step c c' → owned c.1 c.2 → owned c'.1 c'.2).
    { induction 1; [done|]. eauto using plan_step_owned. }
    apply (Hx _ _ Hr). split; cbn; [set_solver|set_solver|constructor]. }
  split.
  - intros nbins. destruct (replan_run others nbins s Ho) as (o & s' & E & Ho' & Hres). exists o, s'.
    split; [done|]. destruct o as [[]|e|c]; [right|left; by subst|done]. destruct Hres as [Hlen Hall].
    split_and!; [done|done|]. by apply (execute_run others).
  - destruct (clear_plans_run others s Ho) as (s' & E & Hp & Hl). by exists s'.
Qed.

(** Why the vector is cleared first: [reset] on a [Plan] that has one destroys the new plan
    instead of the old one.  The old plan leaks, and what [get] returns must not be used. *)
Theorem reset_destroys_the_new {L} `{PlanLaws L} (l : L) old h l' :
  old ∈ live l → fftw_plan l = (Some h, l') →
  ∃ l2, Plan_reset (Some old) (Some h) l' = (Ret (Some h), l2) ∧
    old ∈ live l2 ∧ fftw_execute h l2 = (Crash Undefined, l2).
Proof.
  intros Hold E. apply plan_made in E as [Hh Hl']. exists (fftw_destroy h l').
  unfold Plan_reset. rewrite bool_decide_eq_true_2 by done. cbn [when].
  assert (E1 : fftw_destroy_plan h l' = (Ret tt, fftw_destroy h l'))
    by (unfold fftw_destroy_plan; rewrite decide_True by set_solver; done).
  rewrite (bind_ret _ _ _ _ _ E1). split; [done|]. rewrite plan_destroyed. split; [set_solver|].
  unfold fftw_execute. rewrite plan_destroyed, decide_False by set_solver. done.
Qed.

(** ** Witnesses *)

(** A library that numbers its plans and fails when [left] are made. *)
Record counting := Counting { made : nat; left : nat; alive : gset nat }.

#[export] Instance counting_lib : PlanLib counting := {|
  live l := alive l;
  fftw_plan l :=
    match left l with
    | O => (None, l)
    | S n => let h := fresh (alive l) in (Some h, Counting (S (made l)) n ({[h]} ∪ alive l))
    end;
  fftw_destroy h l := Counting (made l) (left l) (alive l ∖ {[h]});
|}.

#[export] Instance counting_laws : PlanLaws counting.
Proof.
  split.
  - intros [m [|n] a] h l'; cbn; [done|]. intros [= <- <-]. split; [apply is_fresh|done].
  - intros [m [|n] a] l'; cbn; [|done]. by intros [= <-].
  - done.
Qed.

(** Three blocks, then four, for which the planner fails. *)
Lemma plans_destroyed_once_witness :
  let l0 := Counting 0 5 ∅ in
  let s := (replan 4 (replan 3 (Psd l0 [])).2).2 in
  (replan 4 (replan 3 (Psd l0 [])).2).1 = Throw BadAlloc ∧ handles (plans s) = [0%nat; 1%nat] ∧
  (∀ nbins, ∃ o s', replan nbins s = (o, s') ∧
    ((o = Throw BadAlloc) ∨ (o = Ret tt ∧ length (plans s') = nbins ∧ execute s' = (Ret tt, s')))) ∧
  ∃ s', clear_plans s = (Ret tt, s') ∧ plans s' = [] ∧ live (lib s') = ∅.
Proof.
  intros l0 s. split; [vm_compute; reflexivity|]. split; [vm_compute; reflexivity|].
  apply (plans_destroyed_once l0 ∅ s).
  eapply rtc_l; [eapply (own_step _ _ 3), surjective_pairing|].
  eapply rtc_l; [eapply (own_step _ _ 4), surjective_pairing|]. apply rtc_refl.
Defined.
End Plans.
