(* ===== verification/UdpLink.v ===== *)
(** * UDP from end to end

    The UDP driver (coreApp/src/pscudp.cpp) on one host sends; on another the same driver, or
    the fast receiver (udpApp/src/udpdrv.cpp), listens.  The network loses, repeats and
    reorders datagrams.  From a queued message to the blocks of the receiver, and to the
    reader of a data file. *)

From S2P Require Import Prelude EvBuffer Dbuffer Block Wire PscBase PscTcp PscTcpRx DevCommon.
From S2P Require Import DevSample PscUdp UdpFast FastPool FastFile.

Module Link.

(** ** The sender *)

Section sender.
Context {B : Type} `{EvBuffer B} `{EpicsEnv} `{Udp.UdpNet} `{Udp.UdpRecords B}.
Import Udp.
Implicit Types (s : PSCUDP B) (ms : list psc_msg).

(** Records queue messages, one is processed that flushes them, and the event loop sends. *)
Fixpoint queue_all ms : M (PSCUDP B) unit :=
  match ms with
  | [] => ret tt
  | m :: r => queueSend_bytes m.1 m.2 ;;; queue_all r
  end.

Definition send_all ms : M (PSCUDP B) unit := queue_all ms ;;; flushSend ;;; ev_send EV_WRITE.

(** A block to send with this id. *)
Definition has_block s (m : psc_msg) : Prop :=
  ∃ b, send_blocks (ubase s) !! m.1 = Some b ∧ code b = m.1.

(** A network that takes what it is given. *)
Definition net_sends : Prop :=
  (∀ n pkt, udp_sendto n pkt = TxSent (zlen pkt)) ∧ event_add_tx = 0.

(** A connected driver with nothing queued. *)
Record idle s : Prop := {
  idle_connected : connected (ubase s) = true;
  idle_sendbuf : sendbuf s = [];
  idle_txbuf : txbuf s = [];
  idle_readybuf : (length (readybuf s) ≤ 64)%nat;
}.

Lemma queue_all_run ms s :
  Forall valid_msg ms → Forall (has_block s) ms → Forall (λ m, zlen m.2 < 2 ^ 32 - 8) ms →
  (length (sendbuf s) + length ms ≤ 64)%nat →
  ∃ s', queue_all ms s = (Ret tt, s') ∧ sendbuf s' = sendbuf s ++ (encode_msg <$> ms) ∧
    length (readybuf s') = (length (readybuf s) - length ms)%nat ∧
    txbuf s' = txbuf s ∧ connected (ubase s') = connected (ubase s) ∧ log (ubase s') = log (ubase s).
Proof.
  revert s. induction ms as [|m ms IH]; intros s Hv Hb Hl Hn.
  { exists s. rewrite app_nil_r, Nat.sub_0_r. done. }
  rewrite !list.Forall_cons in Hv, Hb, Hl. destruct Hv as [Hv Hvs], Hb as [(b & Hk & Hc) Hbs], Hl as [Hl Hls].
  cbn [length] in Hn. pose proof (udp_queue_packet s m.1 b m.2 Hk Hl) as Hq.
  destruct (zlen (sendbuf s) >=? 64) eqn:E64; bool_to_prop; [unfold zlen in E64; lia|].
  destruct Hq as (s1 & E & Hs1 & Hr1 & Hb1 & Ht1 & Hc1 & Hl1).
  destruct (IH s1) as (s' & E' & Hs' & Hr' & Ht' & Hc' & Hl'); try done.
  - refine (list.Forall_impl _ _ _ Hbs _). intros m' (b' & Hk' & Hc''). unfold has_block. rewrite Hb1.
    destruct (decide (m.1 = m'.1)) as [He|He].
    + rewrite <-He, lookup_insert_eq. eexists. split; [done|]. cbn. congruence.
    + rewrite lookup_insert_ne by done. by exists b'.
  - rewrite Hs1, length_app. cbn. lia.
  - exists s'. cbn [queue_all]. rewrite (bind_ret _ _ _ _ _ E). split; [exact E'|].
    rewrite Hs', Hs1, Hr', Hr1, Ht', Hc', Hl', Hc in *. split_and!; [by rewrite <-app_assoc| |done|congruence..].
    destruct (readybuf s); cbn; lia.
Qed.

Lemma flushSend_run s :
  connected (ubase s) = true → txbuf s = [] → event_add_tx = 0 →
  ∃ s', flushSend s = (Ret tt, s') ∧ txbuf s' = sendbuf s ∧ readybuf s' = readybuf s ∧
    sent_packets (log (ubase s')) = sent_packets (log (ubase s)).
Proof.
  intros Hc Ht He. unfold flushSend. mstep. rewrite Hc, Ht. cbn [negb]. change (zlen [] >=? 64) with false. cbv iota.
  msteps. unfold add_tx_event. rewrite He. eexists. split; [reflexivity|]. split; [done|]. split; [done|].
  cbn. rewrite sent_packets_app. apply app_nil_r.
Qed.

(** Up to 64 messages at once leave as one datagram each, in order. *)
Lemma send_all_run ms s :
  net_sends → idle s → Forall valid_msg ms → Forall (has_block s) ms →
  Forall (λ m, zlen m.2 < 2 ^ 32 - 8) ms → (length ms ≤ 64)%nat →
  ∃ s', send_all ms s = (Ret tt, s') ∧ txbuf s' = [] ∧
    sent_packets (log (ubase s')) = sent_packets (log (ubase s)) ++ (encode_msg <$> ms).
Proof.
  intros [Hnet Htx] [Hc Hs Ht Hr] Hv Hb Hl Hn.
  destruct (queue_all_run ms s Hv Hb Hl) as (s1 & E1 & Hs1 & Hr1 & Ht1 & Hc1 & Hl1); [rewrite Hs; cbn; lia|].
  destruct (flushSend_run s1) as (s2 & E2 & Ht2 & Hr2 & Hl2); [congruence..|].
  destruct (senddata_sends s2 Hnet) as (s3 & E3 & Ht3 & Hl3); [rewrite Hr2; lia|].
  exists s3. unfold send_all. rewrite (bind_ret _ _ _ _ _ E1), (bind_ret _ _ _ _ _ E2).
  split; [by apply catch_ret|]. split; [done|]. rewrite Hl3, Hl2, Hl1, Ht2, Hs1, Hs. cbn [app].
  rewrite take_ge, drop_ge by (rewrite length_fmap, Hr2; lia). by rewrite app_nil_r.
Qed.
End sender.

(** ** The fast receiver *)

Section fast.
Import Fast.
Context {B : Type} `{EvBufferLaws B} `{EpicsEnv} `{FastConfig}.
Implicit Types (s : sys B) (ms : list psc_msg).

(** [recvmmsg] returns; the other thread takes the packets, delivers them, opens a file when
    one is due, writes, and keeps the first for "short" records. *)
Definition acquire (wr : nat → Z → Z) (ds : list dgram) (now : epicsTime) (stamp : string) : M (sys B) Z :=
  rx_batch ds false now ;;;
  cache_grab ;;;
  cache_deliver ;;;
  err <- cache_open stamp 0 ;;
  err' <- cache_write wr 0 err ;;
  cache_short ;;;
  ret err'.

(** A datagram of the peer. *)
Definition from_sender (m : psc_msg) : dgram := Dgram true (encode_msg m) None.

(** The packet that becomes of a message in a buffer. *)
Definition packet (now : epicsTime) (m : psc_msg) (b : list byte) : pkt :=
  Pkt (received b m.2) (zlen m.2) now m.1.

(** Slots for the messages, from slot [i] on. *)
Definition slot_for (l : list message) (i : nat) (m : psc_msg) (slot : message) : Prop :=
  l !! i = Some slot ∧ zlen (hbuf slot) = 8 ∧ zlen m.2 ≤ zlen (buf slot).

Lemma rx_packets_run ms bs i s now :
  Forall valid_msg ms → Forall2 (λ m b, zlen m.2 ≤ zlen b) ms bs →
  (∀ j m b, ms !! j = Some m → bs !! j = Some b →
    ∃ slot, msgs (rxl s) !! (i + j)%nat = Some (fill_slot (from_sender m) slot) ∧
      zlen (hbuf slot) = 8 ∧ buf slot = b) →
  ∃ n s', rx_packets i (from_sender <$> ms) now s = (Ret n, s') ∧ cal s' = cal s ∧
    pending (shared s') = pending (shared s) ++ zip_with (packet now) ms bs ∧
    record (shared s') = record (shared s) ∧ reopen (shared s') = reopen (shared s).
Proof.
  intros Hv Hbs. revert i s. induction Hbs as [|m b ms bs Hb _ IH]; intros i s Hs.
  { exists 0, s. by rewrite app_nil_r. }
  apply list.Forall_cons in Hv as [Hm Hv]. cbn [fmap list_fmap rx_packets zip_with].
  destruct (Hs 0%nat m b eq_refl eq_refl) as (slot & Hi & Hh & <-). rewrite Nat.add_0_r in Hi.
  destruct Hm as [Hid Hn].
  pose proof (zlen_nonneg m.2).
  assert (E : rx_packet i (from_sender m) now s =
    (Ret (52 + zlen m.2), accepted i (Message (received (buf slot) m.2) (put_header m.1 (zlen m.2))) now s)).
  { rewrite (rx_message_eq i (from_sender m) now s slot m.1 (zlen m.2) m.2 s) by (done || lia).
    cbn [from_peer from_sender andb]. by rewrite Z.min_l, (proj2 (Z.leb_le (zlen m.2) (zlen m.2))) by lia. }
  rewrite (bind_ret _ _ _ _ _ E).
  match goal with |- context [bind (rx_packets (S i) _ now) _ ?x] => set (s1 := x) end.
  destruct (IH Hv (S i) s1) as (n & s' & E' & Hc & Hp & Hr & Ho).
  { intros j m' b' Hj Hj'. destruct (Hs (S j) m' b' Hj Hj') as (slot' & Hi' & Hrest).
    exists slot'. split; [|done]. rewrite Nat.add_succ_r in Hi'. cbn.
    rewrite list_lookup_insert_ne by lia. done. }
  rewrite (bind_ret _ _ _ _ _ E'). eexists _, s'. split; [reflexivity|].
  rewrite Hc, Hp, Hr, Ho. split_and!; [done| |done|done].
  cbn. rewrite <-app_assoc. cbn. do 3 f_equal.
  unfold packet. rewrite get_bodylen_put_header, get_msgid_put_header, !wrapU_small by lia. done.
Qed.

Lemma fill_lookup ds l j d slot :
  ds !! j = Some d → l !! j = Some slot → fill ds l !! j = Some (fill_slot d slot).
Proof.
  revert l j. induction ds as [|d0 ds IH]; intros [|m l] [|j] Hd Hl; try done; cbn in *; [congruence|]. by apply IH.
Qed.

(** Every message has a slot of [recvmmsg] with a buffer that is large enough. *)
Definition slots_fit s ms : Prop :=
  Forall2 (λ m slot, zlen (hbuf slot) = 8 ∧ zlen m.2 ≤ zlen (buf slot)) ms (take (length ms) (msgs (rxl s))).

Lemma rx_batch_run ms s now :
  Forall valid_msg ms → slots_fit s ms →
  ∃ bs s', rx_batch (from_sender <$> ms) false now s = (Ret tt, s') ∧ cal s' = cal s ∧
    Forall2 (λ m b, zlen m.2 ≤ zlen b) ms bs ∧
    pending (shared s') = pending (shared s) ++ zip_with (packet now) ms bs ∧
    record (shared s') = record (shared s) ∧ reopen (shared s') = reopen (shared s).
Proof.
  intros Hv Hs. unfold slots_fit in Hs. set (l := take (length ms) (msgs (rxl s))) in *.
  assert (Hbs : Forall2 (λ m b, zlen m.2 ≤ zlen b) ms (buf <$> l)).
  { apply Forall2_fmap_r. eapply Forall2_impl; [|exact Hs]. by intros m slot [_ ?]. }
  unfold rx_batch. cbn [when]. msteps.
  match goal with |- context [bind (rx_packets 0 _ now) _ ?x] => set (s1 := x) end.
  destruct (rx_packets_run ms (buf <$> l) 0 s1 now Hv Hbs) as (n & s' & E & Hc & Hp & Hr & Ho).
  { intros j m b Hj Hj'. rewrite list_lookup_fmap in Hj'.
    destruct (l !! j) as [slot|] eqn:El; cbn in Hj'; [|done]. injection Hj' as <-. exists slot.
    destruct (Forall2_lookup_lr _ _ _ _ _ _ Hs Hj El) as [Hh _]. split; [|done]. cbn [Nat.add].
    cbn. apply fill_lookup; [by rewrite list_lookup_fmap, Hj|]. subst l. by apply lookup_take_Some in El as [? _]. }
  rewrite (bind_ret _ _ _ _ _ E). exists (buf <$> l). eexists. split; [reflexivity|]. cbn. by rewrite Hc, Hp, Hr, Ho.
Qed.

(** The entry of the data file for a message. *)
Definition file_entry (now : epicsTime) (m : psc_msg) : entry :=
  Entry m.1 (secPastEpoch now + POSIX_TIME_AT_EPICS_EPOCH) (nsec now) m.2.

Definition storable_time (now : epicsTime) : Prop :=
  0 ≤ secPastEpoch now + POSIX_TIME_AT_EPICS_EPOCH < 2 ^ 32 ∧ 0 ≤ nsec now < 2 ^ 32.

Lemma received_whole b (data : list byte) : zlen data ≤ zlen b → ztake (zlen data) (received b data) = data.
Proof.
  intros Hl. unfold received, zblit. rewrite (ztake_all (zlen b)), (ztake_neg 0), app_nil_l by lia. apply ztake_app_exact.
Qed.

Lemma packets_storable now ms bs :
  storable_time now → Forall valid_msg ms → Forall2 (λ m b, zlen m.2 ≤ zlen b) ms bs →
  Forall storable (zip_with (packet now) ms bs) ∧ entry_of <$> zip_with (packet now) ms bs = file_entry now <$> ms.
Proof.
  intros [Hs Hn] Hv Hb. induction Hb as [|m b ms bs Hl _ IH]; [done|].
  apply list.Forall_cons in Hv as [[Hid Hz] Hv]. destruct (IH Hv) as [Hst He]. pose proof (zlen_nonneg m.2).
  cbn [zip_with fmap list_fmap]. rewrite He. split.
  - constructor; [|done]. unfold storable, complete, posix_sec, packet. cbn.
    split_and!; try lia. unfold received. rewrite zlen_zblit; [lia|lia|]. rewrite zlen_ztake. lia.
  - f_equal. unfold entry_of, file_entry, posix_sec, packet. cbn. by rewrite received_whole.
Qed.

Lemma acquire_run wr ms s f before now stamp :
  listeners_safe → Forall valid_msg ms → slots_fit s ms → storable_time now →
  pending (shared s) = [] → record (shared s) = true → reopen (shared s) = false →
  datafile (cal s) = Some f → filetotal (cal s) < maxLen → read_file (fdata f) = Some before →
  (1 ≤ headers_size)%nat → (∀ k n, wr k n = n) →
  ∃ s' data, acquire wr (from_sender <$> ms) now stamp s = (Ret 0, s') ∧
    datafile (cal s') = Some (File (fname f) data) ∧
    read_file data = Some (before ++ (file_entry now <$> ms)).
Proof.
  intros Hsafe Hv Hs Ht Hp Hrec Hre Hf Hmax Hb Hh Hwr.
  destruct (rx_batch_run ms s now Hv Hs) as (bs & s1 & E1 & Hc1 & Hbs & Hp1 & Hr1 & Ho1).
  destruct (packets_storable now ms bs Ht Hv Hbs) as [Hst He]. rewrite Hp in Hp1. cbn [app] in Hp1.
  unfold acquire. rewrite (bind_ret _ _ _ _ _ E1). unfold cache_grab at 1. msteps.
  match goal with |- context [bind cache_deliver _ ?x] => set (s2 := x) end.
  assert (Hi2 : inprog (cal s2) = zip_with (packet now) ms bs) by (subst s2; cbn; done).
  destruct (deliver_pkts_spec (inprog (cal s2)) s2 Hsafe) as (b & E2 & _).
  assert (E2' : cache_deliver s2 = (Ret (negb (bool_decide (inprog (cal s2) = []))), on_shared (set_fbase b) s2)).
  { unfold cache_deliver. mstep. replace (record (shared s2)) with true by (subst s2; cbn; congruence).
    cbn [negb andb when]. mstep. by rewrite (bind_ret _ _ _ _ _ E2). }
  rewrite (bind_ret _ _ _ _ _ E2'). set (s3 := on_shared (set_fbase b) s2).
  assert (Hd3 : datafile (cal s3) = Some f) by (subst s3 s2; cbn; by rewrite Hc1).
  assert (E3 : cache_open stamp 0 s3 = (Ret 0, s3)).
  { unfold cache_open. mstep. replace (filetotal (cal s3) >=? maxLen) with false
      by (symmetry; rewrite Z.geb_leb; apply Z.leb_gt; subst s3 s2; cbn; by rewrite Hc1).
    rewrite andb_false_r. cbn [when]. msteps.
    replace (reopen (shared s3)) with false by (subst s3 s2; cbn; congruence). by rewrite andb_false_r. }
  rewrite (bind_ret _ _ _ _ _ E3).
  assert (Hi3 : inprog (cal s3) = zip_with (packet now) ms bs) by done.
  destruct (write_batches_spec wr (S (length (inprog (cal s3)))) 0 (inprog (cal s3)) s3 f 0)
    as (n & e & s4 & E4 & Hs4); [intros k n; by rewrite Hwr|done| |done|lia|].
  { rewrite Hi3. refine (list.Forall_impl _ _ _ Hst _). by intros p []. }
  destruct Hs4 as [(-> & -> & ->)|((j & m & Hw) & _)]; [|by rewrite Hwr in Hw].
  destruct (cache_write_run wr 0 0 s3 f _ _ _ Hd3 E4) as (e' & s' & E' & Hd & _ & _ & He' & _).
  rewrite (He' eq_refl) in E'. rewrite (bind_ret _ _ _ _ _ E').
  eexists _, (fdata f ++ records_bytes (inprog (cal s3))). split; [reflexivity|]. split; [cbn; by rewrite Hd|].
  apply read_file_app; [done|]. rewrite Hi3, <-He. by apply read_records.
Qed.
End fast.

(** ** Properties *)

(** What a driver handed to the network between two states. *)
Definition new_packets {B} (s s' : Udp.PSCUDP B) : list (list byte) :=
  drop (length (Udp.sent_packets (log (Udp.ubase s)))) (Udp.sent_packets (log (Udp.ubase s'))).

(** Datagrams that the network makes of messages - some, in any order, some again - are messages. *)
Lemma from_network ms (dgrams : list (list byte)) :
  dgrams ⊆ encode_msg <$> ms → ∃ arrived, arrived ⊆ ms ∧ dgrams = encode_msg <$> arrived.
Proof.
  induction dgrams as [|d dgrams IH]; intros Hd.
  - exists []. split; [apply list_subseteq_nil|done].
  - destruct IH as (l & Hl & ->); [set_solver|].
    assert (Hin : d ∈ encode_msg <$> ms) by set_solver. apply list_elem_of_fmap in Hin as (m & -> & Hm).
    exists (m :: l). split; [set_solver|done].
Qed.

Lemma Forall_subseteq {A} (P : A → Prop) (l k : list A) : l ⊆ k → Forall P k → Forall P l.
Proof. rewrite !list.Forall_forall. auto. Qed.

(** C19: UDP from driver to driver.  Records queue up to 64 messages, of blocks it has, on an
    idle connected driver, one flushes, and the event loop sends: when the network accepts
    every datagram whole, that is one datagram each, in order, and nothing else.  Let each
    message with its header fit into the scratch buffer of another driver, which holds 1024
    bytes in a new one; a larger datagram would be cut.  Whatever of these the network delivers
    there, in any order and any number of times: the blocks, counters and listeners see exactly
    the messages of the datagrams that arrive, one after another, and no error is reported.
    (No listener ends the program.) *)
Theorem udp_driver_hears_driver {B} `{EvBufferLaws B} `{EpicsEnv} `{Udp.UdpNet} `{Udp.UdpRecords B}
    (s r : Udp.PSCUDP B) ms :
  listeners_safe → net_sends → idle s → Forall valid_msg ms → Forall (has_block s) ms →
  Forall (λ m, HEADER_SIZE + zlen m.2 ≤ zlen (Udp.rxscratch r)) ms → zlen (Udp.rxscratch r) < 2 ^ 32 →
  (length ms ≤ 64)%nat →
  ∃ s', send_all ms s = (Ret tt, s') ∧ Udp.txbuf s' = [] ∧ new_packets s s' = encode_msg <$> ms ∧
  ∀ dgrams, dgrams ⊆ new_packets s s' →
    ∃ arrived r', arrived ⊆ ms ∧ dgrams = encode_msg <$> arrived ∧
      Udp.recvdata Udp.EV_READ (Udp.Dgram true <$> dgrams) r = (Ret tt, r') ∧
      view (Udp.ubase r') = spec_events (view (Udp.ubase r)) (Udp.udp_events arrived).
Proof.
  intros Hsafe Hnet Hidle Hv Hb Hfit Hr Hn.
  destruct (send_all_run ms s Hnet Hidle Hv Hb) as (s' & E & Ht & Hsent); [|done|].
  { refine (list.Forall_impl _ _ _ Hfit _). intros m. unfold HEADER_SIZE. lia. }
  assert (Hnew : new_packets s s' = encode_msg <$> ms) by (unfold new_packets; by rewrite Hsent, drop_app_length).
  exists s'. split_and!; [done..|]. rewrite Hnew. intros dgrams Hd.
  destruct (from_network ms dgrams Hd) as (arrived & Hin & ->). exists arrived.
  destruct (Udp.recv_packets_messages arrived r false Hsafe) as (r' & E' & Hview);
    [by eapply Forall_subseteq|lia|by eapply Forall_subseteq|].
  exists r'. split_and!; [done|done| |done].
  unfold Udp.recvdata. change (Udp.ev_has Udp.EV_READ Udp.EV_TIMEOUT) with false.
  change (Udp.ev_has Udp.EV_READ Udp.EV_READ) with true. cbv iota. cbn [negb].
  rewrite <-list_fmap_compose. by erewrite bind_ret by exact E'.
Qed.

(** C20: What is sent can be read from the data file.  The same sender and network; on the other
    host the fast receiver, recording to an open file that is below its maximal size and whose
    reopening nobody asked for, with nothing pending, and with a buffer for each datagram of a
    batch in which the longest body fits.  Let every [writev] write all it is given (after a
    short write recording stops, [write_failure_stops]) and take a header and a body at least,
    and the clock be within the range of the format.  Whatever of the datagrams arrives in a batch goes through both threads to the
    file, and the reader of the documented format gets from it what was there before, followed
    by id, time of reception and body of every message that arrived.  (No listener ends the
    program.) *)
Theorem acquired_as_sent {B} `{EvBufferLaws B} `{EpicsEnv} `{Udp.UdpNet} `{Udp.UdpRecords B} `{Fast.FastConfig}
    (s : Udp.PSCUDP B) (r : Fast.sys B) ms size wr now stamp f before :
  listeners_safe → net_sends → idle s → Forall valid_msg ms → Forall (has_block s) ms →
  Forall (λ m, zlen m.2 ≤ size) ms → size < 2 ^ 32 - 8 → (length ms ≤ 64)%nat →
  Fast.pending (Fast.shared r) = [] → Fast.record (Fast.shared r) = true → Fast.reopen (Fast.shared r) = false →
  Fast.datafile (Fast.cal r) = Some f → Fast.filetotal (Fast.cal r) < Fast.maxLen →
  read_file (Fast.fdata f) = Some before → (1 ≤ Fast.headers_size)%nat → (∀ k n, wr k n = n) → storable_time now →
  ∃ s', send_all ms s = (Ret tt, s') ∧
  ∀ dgrams, dgrams ⊆ new_packets s s' → (length dgrams ≤ length (Fast.msgs (Fast.rxl r)))%nat →
    Forall (λ slot, zlen (Fast.hbuf slot) = 8 ∧ size ≤ zlen (Fast.buf slot))
      (take (length dgrams) (Fast.msgs (Fast.rxl r))) →
    ∃ arrived r' data, arrived ⊆ ms ∧ dgrams = encode_msg <$> arrived ∧
      acquire wr ((λ p, Fast.Dgram true p None) <$> dgrams) now stamp r = (Ret 0, r') ∧
      Fast.datafile (Fast.cal r') = Some (Fast.File (Fast.fname f) data) ∧
      read_file data = Some (before ++ (file_entry now <$> arrived)).
Proof.
  intros Hsafe Hnet Hidle Hv Hb Hfit Hsize Hn Hp Hrec Hre Hf Hmax Hbf Hh Hwr Ht.
  destruct (send_all_run ms s Hnet Hidle Hv Hb) as (s' & E & _ & Hsent); [|done|].
  { refine (list.Forall_impl _ _ _ Hfit _). intros m Hm. cbn in Hm |- *. lia. }
  assert (Hnew : new_packets s s' = encode_msg <$> ms) by (unfold new_packets; by rewrite Hsent, drop_app_length).
  exists s'. split; [done|]. rewrite Hnew. intros dgrams Hd Hlen Hslots.
  destruct (from_network ms dgrams Hd) as (arrived & Hin & ->). exists arrived. rewrite length_fmap in Hlen, Hslots.
  destruct (acquire_run wr arrived r f before now stamp) as (r' & data & E' & Hd' & Hread); try done.
  - by eapply Forall_subseteq.
  - assert (Ha : Forall (λ m, zlen m.2 ≤ size) arrived) by (by eapply Forall_subseteq).
    unfold slots_fit. apply Forall2_same_length_lookup_2; [rewrite length_take; symmetry; by apply Nat.min_l|].
    intros j m slot Hj Hj'. rewrite list.Forall_lookup in Ha. rewrite list.Forall_lookup in Hslots.
    specialize (Ha j m Hj). destruct (Hslots j slot Hj'). cbn in *. lia.
  - exists r', data. rewrite <-list_fmap_compose. done.
Qed.

(** ** Witnesses *)

(** Two messages of one block; a receiver that knows their block. *)
Definition sample_messages : list psc_msg := [(10, [Byte.x01; Byte.x02]); (10, [])].
Definition sample_receiver : Udp.PSCUDP ChainBuf.chainbuf :=
  Udp.set_ubase (set_recv_blocks {[10 := new_Block 10]} (Udp.ubase Udp.sample_udp)) Udp.sample_udp.

(** A fast receiver with two slots, and an open file. *)
Definition sample_fast : Fast.sys ChainBuf.chainbuf :=
  let E := quiet_env in
  Fast.on_rx (Fast.set_msgs (replicate 2 (Fast.Message (replicate 16 Byte.x00) (replicate 8 Byte.x00))))
    (Fast.on_cache (Fast.set_datafile (Some (Fast.File "run1.dat" [])))
      (Fast.on_shared (Fast.set_reopen false) (Fast.on_shared (Fast.set_record true)
        (Fast.st (Fast.start sample_base 2 3 16))))).

Lemma sample_sender_idle : idle Udp.sample_udp.
Proof. split; [done..|cbn; lia]. Qed.

Lemma sample_blocks : Forall (has_block Udp.sample_udp) sample_messages.
Proof. repeat constructor; by eexists. Qed.

Lemma udp_driver_hears_driver_witness :
  let H := quiet_env in let N := Udp.good_net in let R := Udp.quiet_udp in
  let s := Udp.sample_udp in let r := sample_receiver in
  ∃ s', send_all sample_messages s = (Ret tt, s') ∧ Udp.txbuf s' = [] ∧
    new_packets s s' = encode_msg <$> sample_messages ∧
  ∀ dgrams, dgrams ⊆ new_packets s s' →
    ∃ arrived r', arrived ⊆ sample_messages ∧ dgrams = encode_msg <$> arrived ∧
      Udp.recvdata Udp.EV_READ (Udp.Dgram true <$> dgrams) r = (Ret tt, r') ∧
      view (Udp.ubase r') = spec_events (view (Udp.ubase r)) (Udp.udp_events arrived).
Proof.
  intros H N R s r. apply (udp_driver_hears_driver s r sample_messages).
  - apply quiet_listeners_safe.
  - done.
  - apply sample_sender_idle.
  - repeat constructor; vm_compute; congruence.
  - apply sample_blocks.
  - repeat constructor; vm_compute; congruence.
  - vm_compute. reflexivity.
  - cbn. lia.
Defined.

Lemma acquired_as_sent_witness :
  let H := quiet_env in let N := Udp.good_net in let R := Udp.quiet_udp in let F := sample_config in
  let s := Udp.sample_udp in let r := sample_fast in
  ∃ s', send_all sample_messages s = (Ret tt, s') ∧
  ∀ dgrams, dgrams ⊆ new_packets s s' → (length dgrams ≤ length (Fast.msgs (Fast.rxl r)))%nat →
    Forall (λ slot, zlen (Fast.hbuf slot) = 8 ∧ 16 ≤ zlen (Fast.buf slot))
      (take (length dgrams) (Fast.msgs (Fast.rxl r))) →
    ∃ arrived r' data, arrived ⊆ sample_messages ∧ dgrams = encode_msg <$> arrived ∧
      acquire (λ _ n, n) ((λ p, Fast.Dgram true p None) <$> dgrams) (EpicsTime 5 7) "20210101" r = (Ret 0, r') ∧
      Fast.datafile (Fast.cal r') = Some (Fast.File "run1.dat" data) ∧
      read_file data = Some ([] ++ (file_entry (EpicsTime 5 7) <$> arrived)).
Proof.
  intros H N R F s r.
  apply (acquired_as_sent s r sample_messages 16 (λ _ n, n) (EpicsTime 5 7) "20210101" (Fast.File "run1.dat" []) []).
  - apply quiet_listeners_safe.
  - done.
  - apply sample_sender_idle.
  - repeat constructor; vm_compute; congruence.
  - apply sample_blocks.
  - repeat constructor; vm_compute; congruence.
  - lia.
  - cbn. lia.
  - reflexivity.
  - reflexivity.
  - reflexivity.
  - reflexivity.
  - vm_compute. reflexivity.
  - reflexivity.
  - vm_compute. lia.
  - done.
  - split; vm_compute; split; congruence.
Defined.

End Link.
