(* ===== verification/Atomic.v ===== *)
(** * Calls that other threads cannot see inside

    The other files take a call that holds its lock from beginning to end as one step.  Here
    is why that is right.  Threads make calls on objects, each under the lock of its object;
    a call is any number of smaller pieces, between which pieces of calls on other objects
    run.  Whatever the pieces and their order, the states in which objects are left, and what
    the calls return, are those of the same calls made one after another, each in one step. *)

From stdpp Require Import functions.
From S2P Require Import Prelude.

(** ** Code in pieces *)

(** A computation as a tree of indivisible pieces; what a piece returns selects the rest. *)
Inductive code (S A : Type) : Type :=
  | Done (o : outcome A)
  | Piece (X : Type) (m : S → X * S) (k : X → code S A).
Arguments Done {S A} o.
Arguments Piece {S A X} m k.

(** All pieces without a break. *)
Fixpoint run {S A} (c : code S A) : M S A :=
  match c with
  | Done o => λ s, (o, s)
  | Piece m k => λ s, let '(x, s') := m s in run (k x) s'
  end.

Definition piece {S A} (m : M S A) : code S A := Piece m Done.

Fixpoint then_ {S A B} (c : code S A) (k : A → code S B) : code S B :=
  match c with
  | Done (Ret a) => k a
  | Done (Throw e) => Done (Throw e)
  | Done (Crash x) => Done (Crash x)
  | Piece m r => Piece m (λ x, then_ (r x) k)
  end.

Fixpoint try_ {S A} (c : code S A) (h : exn → code S A) : code S A :=
  match c with
  | Done (Throw e) => h e
  | Done o => Done o
  | Piece m r => Piece m (λ x, try_ (r x) h)
  end.

Section code.
Context {S : Type}.

Lemma run_piece {A} (m : M S A) s : run (piece m) s = m s.
Proof. cbn. by destruct (m s). Qed.

Lemma bind_ext {A B} (m m' : M S A) (k k' : A → M S B) s :
  (∀ s, m s = m' s) → (∀ a s, k a s = k' a s) → bind m k s = bind m' k' s.
Proof. intros Hm Hk. unfold bind. rewrite Hm. by destruct (m' s) as [[a|e|x] s']. Qed.

Lemma run_then {A B} (c : code S A) (k : A → code S B) s :
  run (then_ c k) s = bind (run c) (λ a, run (k a)) s.
Proof.
  unfold bind. revert s. induction c as [[a|e|x]|X m r IH]; intros s; [done..|].
  cbn. destruct (m s) as [x s']. apply IH.
Qed.

Lemma run_try {A} (c : code S A) h s : run (try_ c h) s = catch (run c) (λ e, run (h e)) s.
Proof.
  unfold catch. revert s. induction c as [[a|e|x]|X m r IH]; intros s; [done..|].
  cbn. destruct (m s) as [x s']. apply IH.
Qed.

(** A piece, and what follows it. *)
Lemma run_piece_then {A B} (m : M S A) (k : A → code S B) (k' : A → M S B) s :
  (∀ a s, run (k a) s = k' a s) → run (then_ (piece m) k) s = bind m k' s.
Proof. intros Hk. rewrite run_then. by apply bind_ext; [apply run_piece|]. Qed.
End code.

(** ** Threads *)

Section machine.
(** Objects with their states; the calls, what each does in one step, and when it is made. *)
Context {K S C : Type} `{EqDecision K}.
Context (body : C → M S unit) (may : C → S → Prop).

(** A call on an object, and the pieces a thread makes it in. *)
Record call := Call { on : K; what : C; how : code S unit }.
Implicit Types (c : call) (k : K) (s : S) (σ : K → S) (r : code S unit).

Definition implements c : Prop := ∀ s, run (how c) s = body (what c) s.

(** The call a thread is in, with what is left of it, and the calls it has still to make. *)
Record thread := Thread { current : option (call * code S unit); later : list call }.
Implicit Types (t : thread) (ts : list thread) (i j : nat).

Definition inside k t : Prop := ∃ c r, current t = Some (c, r) ∧ on c = k.

(** No thread (but [i]) has the lock of [k]. *)
Definition free ts k : Prop := ∀ j t, ts !! j = Some t → ¬ inside k t.

(** A thread takes the lock, when no one has it; runs a piece; or returns, by [return] or an
    exception, which releases it.  A call that crashes ends the program. *)
Inductive step : (K → S) * list thread → (K → S) * list thread → Prop :=
  | enter σ ts i c l : ts !! i = Some (Thread None (c :: l)) → free ts (on c) →
      may (what c) (σ (on c)) →
      step (σ, ts) (σ, <[i := Thread (Some (c, how c)) l]> ts)
  | work σ ts i c X (m : S → X * S) q l x s' :
      ts !! i = Some (Thread (Some (c, Piece m q)) l) → m (σ (on c)) = (x, s') →
      step (σ, ts) (<[on c := s']> σ, <[i := Thread (Some (c, q x)) l]> ts)
  | leave σ ts i c o l : ts !! i = Some (Thread (Some (c, Done o)) l) → (∀ x, o ≠ Crash x) →
      step (σ, ts) (σ, <[i := Thread None l]> ts).

Definition start (ps : list (list call)) : list thread := Thread None <$> ps.

(** ** Calls in one step *)

(** The calls of a log, by whom they were made and what they returned, one after another. *)
Inductive serial (σ0 : K → S) : list (nat * call * outcome unit) → (K → S) → Prop :=
  | serial_nil : serial σ0 [] σ0
  | serial_snoc log σ i c o s' : serial σ0 log σ →
      may (what c) (σ (on c)) → body (what c) (σ (on c)) = (o, s') → (∀ x, o ≠ Crash x) →
      serial σ0 (log ++ [(i, c, o)]) (<[on c := s']> σ).

(** The calls of one thread in a log. *)
Definition made_by i (log : list (nat * call * outcome unit)) : list call :=
  omap (λ '(j, c, _), if decide (j = i) then Some c else None) log.

Definition in_progress t : list call := from_option (λ p, [p.1]) [] (current t).

(** [log] explains where the threads [ps] have got to. *)
Record explains (σ0 : K → S) (ps : list (list call)) log σ' σ ts : Prop := {
  ex_serial : serial σ0 log σ';
  ex_order i p : ps !! i = Some p →
    ∃ t, ts !! i = Some t ∧ p = made_by i log ++ in_progress t ++ later t;
  ex_free k : free ts k → σ k = σ' k;
  ex_inside i c r l : ts !! i = Some (Thread (Some (c, r)) l) →
    may (what c) (σ' (on c)) ∧ run r (σ (on c)) = body (what c) (σ' (on c));
  ex_known j c o : (j, c, o) ∈ log → is_Some (ps !! j);
}.

(** One lock, one thread. *)
Definition exclusive ts : Prop :=
  ∀ i j t t' k, ts !! i = Some t → ts !! j = Some t' → inside k t → inside k t' → i = j.

Definition all_implemented (ps : list (list call)) : Prop := Forall (Forall implements) ps.

Record good σ0 ps log σ' σ ts : Prop := {
  g_explains : explains σ0 ps log σ' σ ts;
  g_exclusive : exclusive ts;
  g_later i t : ts !! i = Some t → Forall implements (later t);
  g_length : length ts = length ps;
}.

Lemma inside_some k c r l : inside k (Thread (Some (c, r)) l) ↔ on c = k.
Proof. split; [by intros (c' & r' & [= <- <-] & ?)|by exists c, r]. Qed.

Lemma inside_none k l : ¬ inside k (Thread None l).
Proof. by intros (c & r & ? & _). Qed.

Lemma made_by_snoc i j c o log :
  made_by i (log ++ [(j, c, o)]) = made_by i log ++ (if decide (j = i) then [c] else []).
Proof. unfold made_by. rewrite omap_app. cbn. by case_decide. Qed.

Lemma start_good σ ps : all_implemented ps → good σ ps [] σ σ (start ps).
Proof.
  intros Hps. unfold start.
  assert (Hl : ∀ i t, (Thread None <$> ps) !! i = Some t → ∃ p, ps !! i = Some p ∧ t = Thread None p).
  { intros i t. rewrite list_lookup_fmap. destruct (ps !! i) as [p|]; [|done]. cbn. intros [= <-]. by exists p. }
  split.
  - split; [constructor| |done| |].
    + intros i p Hp. exists (Thread None p). by rewrite list_lookup_fmap, Hp.
    + intros i c r l (p & _ & Ht)%Hl. done.
    + by intros j c o ?%elem_of_nil.
  - intros i j t t' k (p & _ & ->)%Hl _ Hin. by apply inside_none in Hin.
  - intros i t (p & Hp & ->)%Hl. by eapply list.Forall_lookup in Hps.
  - by rewrite length_fmap.
Qed.

(** A thread moves on, others stay. *)
Lemma order_insert (ps : list (list call)) (f g : nat → list call) ts i t :
  (i < length ts)%nat → (∀ j, j ≠ i → g j = f j) →
  (∀ p, ps !! i = Some p → p = g i ++ in_progress t ++ later t) →
  (∀ j p, ps !! j = Some p → ∃ u, ts !! j = Some u ∧ p = f j ++ in_progress u ++ later u) →
  ∀ j p, ps !! j = Some p → ∃ u, <[i := t]> ts !! j = Some u ∧ p = g j ++ in_progress u ++ later u.
Proof.
  intros Hi Hg Ht Hall j p Hp. destruct (decide (j = i)) as [->|Hj].
  - exists t. rewrite list_lookup_insert_eq by done. auto.
  - destruct (Hall j p Hp) as (u & Hu & ->). exists u. rewrite list_lookup_insert_ne, Hg by done. done.
Qed.

(** Who is inside after thread [i] has changed. *)
Lemma inside_insert ts i t j u k :
  <[i := t]> ts !! j = Some u → inside k u → (j = i ∧ u = t) ∨ (j ≠ i ∧ ts !! j = Some u).
Proof. intros Hj _. apply list_lookup_insert_Some in Hj as [(-> & <- & _)|[Hne Hj]]; auto. Qed.

Lemma exclusive_insert ts i t :
  (∀ k, inside k t → ∀ j u, j ≠ i → ts !! j = Some u → ¬ inside k u) → exclusive ts →
  exclusive (<[i := t]> ts).
Proof.
  intros Ht He j j' u u' k Hj Hj' Hu Hu'.
  destruct (inside_insert _ _ _ _ _ _ Hj Hu) as [[-> ->]|[Hne Hju]],
    (inside_insert _ _ _ _ _ _ Hj' Hu') as [[-> ->]|[Hne' Hju']]; [done|..].
  - by destruct (Ht k Hu j' u' Hne' Hju').
  - by destruct (Ht k Hu' j u Hne Hju).
  - by eapply He.
Qed.

Lemma free_insert ts i t k : free (<[i := t]> ts) k → (∀ u, ts !! i = Some u → ¬ inside k u) → free ts k.
Proof.
  intros Hf Hi j u Hj. destruct (decide (j = i)) as [->|Hne]; [by apply Hi|].
  apply (Hf j). by rewrite list_lookup_insert_ne by done.
Qed.

(** Another thread in a call is in one on another object. *)
Lemma other_object ts i j c r l c' r' l' :
  exclusive ts → ts !! i = Some (Thread (Some (c, r)) l) → ts !! j = Some (Thread (Some (c', r')) l') →
  j ≠ i → on c' ≠ on c.
Proof.
  intros He Hi Hj Hne Hon. apply Hne. apply (He j i _ _ (on c) Hj Hi); by apply inside_some.
Qed.

Lemma later_insert ts i t :
  Forall implements (later t) → (∀ j u, ts !! j = Some u → Forall implements (later u)) →
  ∀ j u, <[i := t]> ts !! j = Some u → Forall implements (later u).
Proof.
  intros Ht Hall j u Hj. apply list_lookup_insert_Some in Hj as [(_ & <- & _)|[_ Hj]]; eauto.
Qed.

Lemma enter_good σ0 ps log σ' σ ts i c l :
  ts !! i = Some (Thread None (c :: l)) → free ts (on c) → may (what c) (σ (on c)) →
  good σ0 ps log σ' σ ts → good σ0 ps log σ' σ (<[i := Thread (Some (c, how c)) l]> ts).
Proof.
  intros Hi Hf Hm [[Hs Ho Hfree Hin Hkn] He Hl Hn]. pose proof (lookup_lt_Some _ _ _ Hi) as Hlt.
  pose proof (Hl i _ Hi) as Hc. inv Hc.
  split; [split|..].
  - done.
  - apply (order_insert _ (λ i, made_by i log)); [done|done| |done].
    intros p Hp. destruct (Ho i p Hp) as (t & Ht & ->). by simplify_eq.
  - intros k Hk. apply Hfree. eapply free_insert; [exact Hk|]. intros u Hu. simplify_eq. apply inside_none.
  - intros j c' r l' Hj. apply list_lookup_insert_Some in Hj as [(<- & [= <- <- <-] & _)|[_ Hj]]; [|by eapply Hin].
    rewrite <-(Hfree (on c) Hf). by split.
  - done.
  - apply exclusive_insert; [|done]. intros k Hk j u _ Hj. apply inside_some in Hk as <-. by apply (Hf j).
  - by apply later_insert.
  - by rewrite length_insert.
Qed.

Lemma work_good σ0 ps log σ' σ ts i c X (m : S → X * S) q l x s' :
  ts !! i = Some (Thread (Some (c, Piece m q)) l) → m (σ (on c)) = (x, s') →
  good σ0 ps log σ' σ ts →
  good σ0 ps log σ' (<[on c := s']> σ) (<[i := Thread (Some (c, q x)) l]> ts).
Proof.
  intros Hi Hx [[Hs Ho Hfree Hin Hkn] He Hl Hn]. pose proof (lookup_lt_Some _ _ _ Hi) as Hlt.
  split; [split|..].
  - done.
  - apply (order_insert _ (λ i, made_by i log)); [done|done| |done].
    intros p Hp. destruct (Ho i p Hp) as (t & Ht & ->). by simplify_eq.
  - intros k Hk. rewrite fn_lookup_insert_ne.
    + apply Hfree. eapply free_insert; [exact Hk|]. intros u Hu Hku. simplify_eq. apply inside_some in Hku as <-.
      apply (Hk i (Thread (Some (c, q x)) l)); [by rewrite list_lookup_insert_eq|by apply inside_some].
    + intros <-. apply (Hk i (Thread (Some (c, q x)) l)); [by rewrite list_lookup_insert_eq|by apply inside_some].
  - intros j c' r l' Hj. apply list_lookup_insert_Some in Hj as [(<- & [= <- <- <-] & _)|[Hne Hj]].
    + destruct (Hin i c _ l Hi) as [Hm Hr]. split; [done|]. rewrite fn_lookup_insert, <-Hr. cbn. by rewrite Hx.
    + rewrite fn_lookup_insert_ne; [by eapply Hin|]. apply not_eq_sym. eapply other_object; [done| |exact Hj|done]. exact Hi.
  - done.
  - apply exclusive_insert; [|done]. intros k Hk j u Hne Hj Hku. apply inside_some in Hk as <-.
    apply Hne, (He j i u _ (on c) Hj Hi Hku). by apply inside_some.
  - apply later_insert; [by apply (Hl i _ Hi)|done].
  - by rewrite length_insert.
Qed.

Lemma leave_good σ0 ps log σ' σ ts i c o l :
  ts !! i = Some (Thread (Some (c, Done o)) l) → (∀ x, o ≠ Crash x) → good σ0 ps log σ' σ ts →
  good σ0 ps (log ++ [(i, c, o)]) (<[on c := σ (on c)]> σ') σ (<[i := Thread None l]> ts).
Proof.
  intros Hi Hx [[Hs Ho Hfree Hin Hkn] He Hl Hn]. pose proof (lookup_lt_Some _ _ _ Hi) as Hlt.
  destruct (Hin i c _ l Hi) as [Hm Hr]. cbn in Hr.
  split; [split|..].
  - by constructor.
  - apply (order_insert _ (λ i, made_by i log)); [done| | |done].
    + intros j Hne. rewrite made_by_snoc, decide_False, app_nil_r by done. done.
    + intros p Hp. destruct (Ho i p Hp) as (t & Ht & ->). simplify_eq.
      rewrite made_by_snoc, decide_True by done. by rewrite <-app_assoc.
  - intros k Hk. destruct (decide (k = on c)) as [->|Hne]; [by rewrite fn_lookup_insert|].
    rewrite fn_lookup_insert_ne by done. apply Hfree. eapply free_insert; [exact Hk|].
    intros u Hu Hku. simplify_eq. by apply inside_some in Hku.
  - intros j c' r l' Hj. apply list_lookup_insert_Some in Hj as [(<- & [=] & _)|[Hne Hj]].
    rewrite fn_lookup_insert_ne; [by eapply Hin|]. apply not_eq_sym. eapply other_object; [done| |exact Hj|done]. exact Hi.
  - intros j c' o' [Hj|Hj]%elem_of_app; [by eapply Hkn|]. apply list_elem_of_singleton in Hj as [= -> -> ->].
    apply lookup_lt_is_Some. by rewrite <-Hn.
  - apply exclusive_insert; [|done]. intros k Hk. by apply inside_none in Hk.
  - apply later_insert; [by apply (Hl i _ Hi)|done].
  - by rewrite length_insert.
Qed.

Lemma step_good σ0 ps log σ' σ ts σ1 ts1 :
  step (σ, ts) (σ1, ts1) → good σ0 ps log σ' σ ts → ∃ log1 σ1', good σ0 ps log1 σ1' σ1 ts1.
Proof.
  intros Hstep Hg.
  inversion Hstep as [? ? i c l Hi Hf Hm|? ? i c X m q l x s' Hi Hx|? ? i c o l Hi Hx]; subst.
  - eexists _, _. by eapply enter_good.
  - eexists _, _. by eapply work_good.
  - eexists _, _. by eapply leave_good.
Qed.

(** In every state that threads reach the calls that have returned, each in one step and in
    an order that is each thread's own, explain what the objects and threads are like. *)
Lemma atomic σ0 ps σ ts :
  all_implemented ps → rtc step (σ0, start ps) (σ, ts) → ∃ log σ', explains σ0 ps log σ' σ ts.
Proof.
  intros Hps Hr.
  assert (Hg : ∀ p p', rtc step p p' → (∃ log σ', good σ0 ps log σ' p.1 p.2) → ∃ log σ', good σ0 ps log σ' p'.1 p'.2).
  { induction 1 as [|p p1 p2 Hs _ IH]; [done|]. intros (log & σ' & Hgood). apply IH.
    destruct p, p1. by eapply step_good. }
  destruct (Hg _ _ Hr) as (log & σ' & [He _ _ _]); [|by exists log, σ'].
  exists [], σ0. by apply start_good.
Qed.

(** A call that has returned is one of a thread. *)
Lemma logged_call σ0 ps log σ' σ ts j c o :
  explains σ0 ps log σ' σ ts → (j, c, o) ∈ log → ∃ p, ps !! j = Some p ∧ c ∈ p.
Proof.
  intros He Hin. destruct (ex_known _ _ _ _ _ _ He j c o Hin) as [p Hp].
  destruct (ex_order _ _ _ _ _ _ He j p Hp) as (t & _ & ->). eexists. split; [exact Hp|].
  apply elem_of_app. left. apply list_elem_of_omap. exists (j, c, o). split; [done|]. cbn. by rewrite decide_True.
Qed.

(** When all threads are done, so are all their calls. *)
Lemma atomic_finished σ0 ps σ ts :
  all_implemented ps → rtc step (σ0, start ps) (σ, ts) →
  Forall (λ t, current t = None ∧ later t = []) ts →
  ∃ log σ', serial σ0 log σ' ∧ (∀ i p, ps !! i = Some p → made_by i log = p) ∧ ∀ k, σ k = σ' k.
Proof.
  intros Hps Hr Hd. destruct (atomic _ _ _ _ Hps Hr) as (log & σ' & [Hs Ho Hf _ _]). exists log, σ'.
  rewrite list.Forall_lookup in Hd. split_and!; [done| |].
  - intros i p Hp. destruct (Ho i p Hp) as (t & Ht & ->). destruct (Hd i t Ht) as [Hc Hl].
    unfold in_progress. rewrite Hc, Hl. cbn. by rewrite app_nil_r.
  - intros k. apply Hf. intros j t Hj (c & r & Hc & _). destruct (Hd j t Hj) as [Hn _]. congruence.
Qed.

(** What whole calls preserve, of the object they are made on, holds whenever its lock is free. *)
Lemma serial_invariant (P : S → Prop) σ0 log σ k :
  (∀ (w : C) s o s', may w s → body w s = (o, s') → (∀ x, o ≠ Crash x) → P s → P s') →
  serial σ0 log σ → P (σ0 k) → P (σ k).
Proof.
  intros Hp. induction 1 as [|log σ i c o s' _ IH Hm Hb Hx]; [done|]. intros H0.
  destruct (decide (k = on c)) as [->|Hne]; [rewrite fn_lookup_insert|rewrite fn_lookup_insert_ne by done; auto].
  eapply Hp; [exact Hm|exact Hb|exact Hx|auto].
Qed.
End machine.
Arguments call : clear implicits.
Arguments thread : clear implicits.
