(* ===== verification/TcpThreads.v ===== *)
(** * Threads that call TCP drivers

    The calls that the event loop and record processing make on drivers (psc.cpp,
    pscwrap.cpp) run in pieces between those of other threads, each under the lock of its
    driver.  [Atomic] says that this makes no difference; so what [PscTcpConn] says of calls
    that are one step each holds for the threads of the program. *)

From stdpp Require Import functions.
From S2P Require Import Prelude EvBuffer Dbuffer Block Wire PscBase PscTcp PscTcpRx PscTcpConn Atomic.

Module Threads.

(** The calls: of device support and EPICS scanning; of libevent; and its adding to the
    input of a session, which it does under the session's lock. *)
Inductive psc_call (B : Type) :=
  | QueueBytes (k : Z) (buf : list byte)
  | QueueBlock (k : Z) (buf : dbuffer B)
  | QueueId (id : Z) (buf : list byte)
  | Flush
  | Force
  | Scanned (k prio mask : Z)
  | Event (evt : Z)
  | Arrives (chunk : list byte) (input' : B)
  | Data
  | Timer (net : Net B).
Arguments QueueBytes {B}.
Arguments QueueBlock {B}.
Arguments QueueId {B}.
Arguments Flush {B}.
Arguments Force {B}.
Arguments Scanned {B}.
Arguments Event {B}.
Arguments Arrives {B}.
Arguments Data {B}.
Arguments Timer {B}.

Section threads.
Context {B : Type} `{EvBufferLaws B} `{EpicsEnv}.
Context `{PscConfig} `{RecordSupport B}.
Implicit Types (s : PSC B) (w : psc_call B) (d : string).

(** [Block::scanned] of a block of the driver. *)
Definition scanned_block (k prio mask : Z) : M (PSC B) unit := λ s,
  match recv_blocks (base s) !! k with
  | Some b =>
      let '(o, b') := scanned prio mask b in
      (o, set_base (set_recv_blocks (<[k := b']> (recv_blocks (base s))) (base s)) s)
  | None => (Ret tt, s)
  end.

(** libevent adds to the input of the session. *)
Definition input_grows (i : B) : M (PSC B) unit :=
  modify (λ s, match session s with Some b => set_session (Some (set_input i b)) s | None => s end).

Definition body w : M (PSC B) unit :=
  match w with
  | QueueBytes k buf => queueSend_bytes k buf
  | QueueBlock k buf => queueSend_block k buf
  | QueueId id buf => queueSend id buf
  | Flush => flushSend
  | Force => forceReConnect
  | Scanned k prio mask => scanned_block k prio mask
  | Event evt => bev_eventcb evt
  | Arrives _ i => input_grows i
  | Data => bev_datacb
  | Timer net => bev_reconnect net
  end.

(** When they are made, once they have the lock.  A callback of a session may find it gone:
    libevent called it while there was one, but it waited for the lock.  (Any other session by
    then would be new, and made by the thread of the callback.)  A timer that has expired stays
    active until [reconnect]. *)
Definition may (ok : Net B → Prop) w s : Prop :=
  match w with
  | QueueBytes k _ | QueueBlock k _ => is_Some (send_blocks (base s) !! k)
  | QueueId _ _ | Flush | Force | Event _ => True
  | Scanned k _ _ => is_Some (recv_blocks (base s) !! k)
  | Arrives chunk i => ∃ b, session s = Some b ∧ evbuffer_data i = evbuffer_data (input b) ++ chunk
  | Data => ∀ b, session s = Some b → enabled b = true
  | Timer net => timer_active s = true ∧ ok net
  end.

(** A callback returns or crashes. *)
Lemma caught (m : M (PSC B) unit) s e s' : catch m (λ _, ret tt) s ≠ (Throw e, s').
Proof. unfold catch. by destruct (m s) as [[[]|e'|c] s1]. Qed.

Lemma with_bev_caught (m : M (PSC B) unit) s e s' : with_bev m s ≠ (Throw e, s').
Proof. unfold with_bev. unfold bind, get. destruct (is_some _); [apply caught|done]. Qed.

Lemma scanned_returns prio mask (b : Block (dbuffer B)) e b' : scanned prio mask b ≠ (Throw e, b').
Proof.
  unfold scanned, bind, get, assert_, when, modify, ret, abort.
  destruct (negb _); [|done]. cbn. by destruct (_ && _).
Qed.

(** [BEVGuard h(psc->session)] of a session that is gone. *)
Lemma with_bev_stale (m : M (PSC B) unit) s : session s = None → with_bev m s = (Crash NullDeref, s).
Proof. intros Es. unfold with_bev, bind, get. by rewrite Es. Qed.

Lemma with_bev_session (m : M (PSC B) unit) s o s' :
  with_bev m s = (o, s') → (∀ x, o ≠ Crash x) → session s ≠ None.
Proof. intros E Hx Es. rewrite with_bev_stale in E by done. injection E as <- _. by destruct (Hx NullDeref). Qed.

(** One call in one step is a step of the connection. *)
Lemma body_step ok w s o s' :
  may ok w s → body w s = (o, s') → (∀ x, o ≠ Crash x) → conn_step ok s s'.
Proof.
  intros Hm Hb Hx. destruct w as [k buf|k buf|id buf| | |k prio mask|evt|chunk i| |net]; cbn [may] in Hm; cbn [body] in Hb.
  - eapply conn_pub, pub_bytes; eauto.
  - eapply conn_pub, pub_block; eauto.
  - eapply conn_pub, pub_id; eauto.
  - assert (s' = (flushSend s).2) as -> by by rewrite Hb. apply conn_pub, pub_flush.
  - assert (s' = (forceReConnect s).2) as -> by by rewrite Hb. apply conn_pub, pub_force.
  - destruct Hm as [b Hk]. unfold scanned_block in Hb. rewrite Hk in Hb.
    destruct (scanned prio mask b) as [[[]|e|c] b'] eqn:Es; simplify_eq.
    + eapply conn_pub, pub_scanned; eauto.
    + by destruct (scanned_returns prio mask b e b').
    + by destruct (Hx c).
  - pose proof (with_bev_session _ _ _ _ Hb Hx) as Hs.
    destruct o as [[]|e|c]; [by eapply conn_event| |by destruct (Hx c)].
    by destruct (with_bev_caught (eventcb evt) s e s').
  - destruct Hm as (b & Es & Hi). unfold input_grows, modify in Hb. rewrite Es in Hb. simplify_eq.
    apply (conn_arrives _ chunk). by exists b, i.
  - pose proof (with_bev_session _ _ _ _ Hb Hx) as Hs. destruct (session s) as [b|] eqn:Es; [|done].
    destruct o as [[]|e|c]; [by eapply conn_data, Hb; first [exact Es|by apply Hm]| |by destruct (Hx c)].
    by destruct (with_bev_caught recvdata s e s').
  - destruct Hm as [Ht Hok]. destruct o as [[]|e|c]; [by eapply conn_timer| |by destruct (Hx c)].
    by destruct (caught (reconnect net) s e s').
Qed.

Lemma serial_steps ok (σ0 σ : string → PSC B) log d :
  serial body (may ok) σ0 log σ → rtc (conn_step ok) (σ0 d) (σ d).
Proof.
  intros Hs. eapply (serial_invariant body (may ok) (rtc (conn_step ok) (σ0 d))); [|exact Hs|apply rtc_refl].
  intros w s o s' Hm Hb Hx Hr. eapply rtc_r; [exact Hr|]. by eapply body_step.
Qed.

(** The callbacks of libevent and the timer, and the record that forces a reconnection. *)
Definition is_callback w : bool :=
  match w with Event _ | Data | Timer _ | Force => true | _ => false end.

(** Those that libevent makes for a session. *)
Definition of_session w : bool := match w with Event _ | Data => true | _ => false end.

(** What becomes of a callback that takes the lock. *)
Definition callback_outcome w s (r : outcome unit * PSC B) : Prop :=
  if of_session w && negb (is_some (session s)) then r = (Crash NullDeref, s)
  else ∃ s', r = (Ret tt, s').

Lemma callback_ends ok w s :
  records_ok → listeners_safe → conn_inv s → may ok w s → is_callback w = true →
  callback_outcome w s (body w s).
Proof.
  intros Hrec Hsafe Hi Hm Hw. unfold callback_outcome.
  destruct w; try done; cbn [may] in Hm; cbn [body of_session andb].
  - destruct (forceReConnect_inv s Hi) as [_ E]. eexists. by apply run_ret.
  - destruct (session s) as [b|] eqn:Es; cbn [is_some negb]; [|by apply with_bev_stale].
    destruct (bev_eventcb_good evt s Hrec Hi) as (s' & E & _); [by rewrite Es|]. eauto.
  - destruct (session s) as [b|] eqn:Es; cbn [is_some negb]; [|by apply with_bev_stale].
    destruct (bev_datacb_good s Hsafe Hi) as (s' & E & _); [by apply (ci_enabled s Hi b); auto|]. eauto.
  - destruct Hm as [Ht _]. pose proof (bev_reconnect_good net s Hi Ht) as Hx.
    destruct (net_socket_new net); destruct Hx as (s' & E & _); eauto.
Qed.
End threads.

(** ** Properties *)

(** C17: What threads can do to a callback.  Let drivers be created and connected, and threads
    make calls on them - record processing, EPICS scanning, the callbacks of libevent and the
    timer - each under the lock of its driver and in any pieces that together are the function
    of the source, with pieces of calls on other drivers in between.  Whenever a driver's
    lock is free it has a session if it is connected, and the timer runs only without one.
    From wherever a callback has got to, the rest of it returns, with no assertion failed and
    no null session used - unless it is one for a session that was gone when it got the lock,
    which the calls that have returned by then decide: such a callback ends the program.  (No
    listener ends the program; records processed on connection return, and use the driver as
    device support does; libevent reports data only to a session that has reading enabled.) *)
Theorem interleaved_callbacks_return {B} `{EvBufferLaws B} `{EpicsEnv} `{PscConfig}
    `{RecordSupport B} ok (net : string → Net B) host port mask sb (σ : string → PSC B) ps ts :
  let σ0 := λ d, (connect (net d) (new_PSC d (host d) (port d) (mask d) (sb d))).2 in
  records_ok → listeners_safe → all_implemented body ps →
  rtc (step (may ok)) (σ0, start ps) (σ, ts) →
  (∀ d, free ts d → (connected (base (σ d)) = true → session (σ d) ≠ None) ∧
     (session (σ d) ≠ None → timer_active (σ d) = false)) ∧
  ∃ log σ', serial body (may ok) σ0 log σ' ∧
    (∀ i p, ps !! i = Some p → ∃ t, ts !! i = Some t ∧ p = made_by i log ++ in_progress t ++ later t) ∧
    ∀ i c r l, ts !! i = Some (Thread (Some (c, r)) l) → is_callback (what c) = true →
      callback_outcome (what c) (σ' (on c)) (run r (σ (on c))).
Proof.
  intros σ0 Hrec Hsafe Hps Hr. destruct (atomic _ _ _ _ _ _ Hps Hr) as (log & σ' & [Hs Ho Hf Hi _]).
  assert (Hinv : ∀ d, conn_inv (σ' d)).
  { intros d. eapply conn_steps_inv; [done|done|by eapply serial_steps|apply fresh_inv]. }
  split.
  - intros d Hd. rewrite (Hf d Hd). split; [apply ci_connected|apply ci_timer]; apply Hinv.
  - exists log, σ'. split_and!; [done..|]. intros i c r l Ht Hw. destruct (Hi i c r l Ht) as [Hm ->].
    by eapply callback_ends.
Qed.

(** ** Witnesses *)

(** [queueSend] in the pieces of its source: the block, the header, the body, the flag. *)
Section pieces.
Context {B : Type} `{EvBuffer B} `{PscConfig}.

Definition queue_body (k : Z) (buf : list byte) : code (PSC B) unit :=
  then_ (piece get) (λ s : PSC B,
    match evbuffer_add (sendbuf s) buf with
    | None => Done (Crash AssertFail)
    | Some b => then_ (piece (modify (set_sendbuf b))) (λ _, piece (mark_queued k))
    end).
Definition queue_pieces (id : Z) (buf : list byte) : code (PSC B) unit :=
  then_ (piece (base_op (getSend (u16 id)))) (λ k,
    then_ (piece (queueHeader k (zlen buf))) (λ _, queue_body k buf)).

Lemma queue_pieces_run id buf s : run (queue_pieces id buf) s = queueSend id buf s.
Proof.
  apply run_piece_then. intros k s1. apply run_piece_then. intros [] s2. apply run_piece_then. intros s3 s4.
  destruct (evbuffer_add (sendbuf s3) buf) as [b|]; [|done]. apply run_piece_then. intros [] s5. apply run_piece.
Qed.
End pieces.

(** Two drivers; one connects and queues a message, while the other connects. *)
Definition sample_calls `{EpicsEnv} : list (list (call string (PSC ChainBuf.chainbuf) (psc_call ChainBuf.chainbuf))) :=
  let C := default_config in let R := quiet_records in
  [ [Call "a" (Event BEV_EVENT_CONNECTED) (piece (bev_eventcb BEV_EVENT_CONNECTED));
     Call "a" (QueueId 10 [Byte.x01]) (queue_pieces 10 [Byte.x01])];
    [Call "b" (Event BEV_EVENT_CONNECTED) (piece (bev_eventcb BEV_EVENT_CONNECTED))] ]%string.

Definition sample_drivers (d : string) : PSC ChainBuf.chainbuf :=
  let C := default_config in (connect sample_net (new_PSC d "host" 8765 1 (ChainBuf.of_bytes []))).2.

Lemma sample_implemented `{EpicsEnv} :
  let C := default_config in let R := quiet_records in all_implemented body sample_calls.
Proof.
  unfold sample_calls, all_implemented. repeat constructor; intros s; [apply run_piece| |apply run_piece].
  apply queue_pieces_run.
Qed.

(** The lock of the driver is free. *)
Ltac is_free := intros j t Hj (c & r & Hc & Hd); destruct j as [|[|j]]; cbn in Hj; simplify_eq/=.

(** The first driver has half a message, and the second is in its callback. *)
Lemma sample_interleaved :
  let H := quiet_env in let C := default_config in let R := quiet_records in
  ∃ σ ts, rtc (step (may (λ _, True))) (sample_drivers, start sample_calls) (σ, ts) ∧
    evbuffer_data (sendbuf (σ "a"%string)) = put_header 10 1 ∧
    ∃ l, ts !! 1%nat = Some (Thread (Some (Call "b"%string (Event BEV_EVENT_CONNECTED)
      (piece (bev_eventcb BEV_EVENT_CONNECTED)), piece (bev_eventcb BEV_EVENT_CONNECTED))) l).
Proof.
  intros H C R. do 2 eexists. split.
  - eapply rtc_l; [eapply (enter _ _ _ 0); [reflexivity|is_free|done]|].
    eapply rtc_l; [eapply (work _ _ _ 0); [reflexivity|apply surjective_pairing]|].
    eapply rtc_l; [eapply (leave _ _ _ 0); [reflexivity|done]|].
    eapply rtc_l; [eapply (enter _ _ _ 0); [reflexivity|is_free|done]|].
    eapply rtc_l; [eapply (enter _ _ _ 1); [reflexivity|is_free|done]|].
    eapply rtc_l; [eapply (work _ _ _ 0); [reflexivity|apply surjective_pairing]|].
    eapply rtc_l; [eapply (work _ _ _ 0); [reflexivity|apply surjective_pairing]|].
    apply rtc_refl.
  - split; [vm_compute; reflexivity|]. eexists. reflexivity.
Qed.

(** A read callback that waits for the lock while another thread forces a reconnection. *)
Definition stale_calls `{EpicsEnv} : list (list (call string (PSC ChainBuf.chainbuf) (psc_call ChainBuf.chainbuf))) :=
  let C := default_config in let R := quiet_records in
  [ [Call "a" (Event BEV_EVENT_CONNECTED) (piece (bev_eventcb BEV_EVENT_CONNECTED)); Call "a" Data (piece bev_datacb)];
    [Call "a" Force (piece forceReConnect)] ]%string.

Lemma stale_callback_reached :
  let H := quiet_env in let C := default_config in let R := quiet_records in
  ∃ σ ts, rtc (step (may (λ _, True))) (sample_drivers, start stale_calls) (σ, ts) ∧
    ts !! 0%nat = Some (Thread (Some (Call "a"%string Data (piece bev_datacb), piece bev_datacb)) []) ∧
    (run (piece bev_datacb) (σ "a"%string)).1 = Crash NullDeref.
Proof.
  intros H C R. do 2 eexists. split.
  - eapply rtc_l; [eapply (enter _ _ _ 0); [reflexivity|is_free|done]|].
    eapply rtc_l; [eapply (work _ _ _ 0); [reflexivity|apply surjective_pairing]|].
    eapply rtc_l; [eapply (leave _ _ _ 0); [reflexivity|done]|].
    eapply rtc_l; [eapply (enter _ _ _ 1); [reflexivity|is_free|done]|].
    eapply rtc_l; [eapply (work _ _ _ 1); [reflexivity|apply surjective_pairing]|].
    eapply rtc_l; [eapply (leave _ _ _ 1); [reflexivity|done]|].
    eapply rtc_l; [eapply (enter _ _ _ 0); [reflexivity|is_free|intros b [=]]|]. apply rtc_refl.
  - split; [reflexivity|]. vm_compute. reflexivity.
Qed.

Definition sample_thread : Type := thread string (PSC ChainBuf.chainbuf) (psc_call ChainBuf.chainbuf).

Lemma interleaved_callbacks_return_witness :
  let H := quiet_env in let C := default_config in let R := quiet_records in
  ∃ σ (ts : list sample_thread), evbuffer_data (sendbuf (σ "a"%string)) = put_header 10 1 ∧
  (∀ d, free ts d → (connected (base (σ d)) = true → session (σ d) ≠ None) ∧
     (session (σ d) ≠ None → timer_active (σ d) = false)) ∧
  ∃ log σ', serial body (may (λ _, True)) sample_drivers log σ' ∧
    (∀ i p, sample_calls !! i = Some p →
      ∃ t, ts !! i = Some t ∧ p = made_by i log ++ in_progress t ++ later t) ∧
    ∀ i c r l, ts !! i = Some (Thread (Some (c, r)) l) → is_callback (what c) = true →
      callback_outcome (what c) (σ' (on c)) (run r (σ (on c))).
Proof.
  intros H C R. destruct sample_interleaved as (σ & ts & Hr & Hd & _). exists σ, ts. split; [exact Hd|].
  apply (interleaved_callbacks_return (λ _, True) (λ _, sample_net) (λ _, "host"%string) (λ _, 8765) (λ _, 1)
    (λ _, ChainBuf.of_bytes []) σ sample_calls ts).
  - apply quiet_records_ok.
  - apply quiet_listeners_safe.
  - apply sample_implemented.
  - exact Hr.
Defined.

End Threads.
