(* ===== verification/TcpStream.v ===== *)
(** * What threads queue on a TCP driver arrives

    The stream a driver hands to libevent (psc.cpp) when any number of threads queue and
    flush messages on it, in pieces, between callbacks of libevent: whole messages, those
    whose calls returned, for whoever receives them. *)

From stdpp Require Import functions.
From S2P Require Import Prelude EvBuffer Dbuffer Block Wire PscBase PscTcp PscTcpRx PscTcpConn PscTcpTx Atomic TcpThreads.
Import Threads.

Module Stream.

Section stream.
Context {B : Type} `{EvBufferLaws B} `{EpicsEnv} `{PscConfig} `{RecordSupport B}.
Implicit Types (s : PSC B) (w : psc_call B) (d : string) (q sent : list psc_msg).

(** ** Calls that do not send *)

(** A driver that is connected was so before, with the same queue and output. *)
Definition still s s' : Prop :=
  connected (base s') = true →
  connected (base s) = true ∧ sendbuf s' = sendbuf s ∧
  send_blocks (base s') = send_blocks (base s) ∧ output <$> session s' = output <$> session s.

#[export] Instance still_preorder : PreOrder still.
Proof.
  split; [by intros s|]. intros s s1 s2 Ha Hb Hc. destruct (Hb Hc) as (Hc1 & -> & -> & ->). by apply Ha.
Qed.

(** Only the base changes, but not what is sent. *)
Definition quiet (b b' : PSCBase B) : Prop :=
  connected b' = connected b ∧ send_blocks b' = send_blocks b.

#[export] Instance quiet_preorder : PreOrder quiet.
Proof. split; [by intros b|]. intros a b c [E1 E2] [E3 E4]. split; congruence. Qed.

Lemma still_base_op {A} (m : M (PSCBase B) A) : stays quiet m → stays still (base_op m).
Proof.
  intros Hm s. specialize (Hm (base s)). unfold base_op, zoom. destruct (m (base s)) as [o b]. cbn.
  destruct Hm as [Hc Hs]. intros Hc'. cbn in *. by rewrite Hs, <-Hc.
Qed.

Lemma still_modify (f : PSC B → PSC B) :
  (∀ s, base (f s) = base s ∧ sendbuf (f s) = sendbuf s ∧ session (f s) = session s) →
  stays still (modify f).
Proof. intros Hf. apply stays_modify. intros s. destruct (Hf s) as (Hb & Hs & Hn). unfold still. by rewrite Hb, Hs, Hn. Qed.

Lemma still_session f : (∀ b : bev B, output (f b) = output b) → stays still (on_session f).
Proof. intros Hf s. unfold on_session. destruct (session s) as [b|] eqn:E; [|done]. intros Hc. split_and!; [done..|]. rewrite E. cbn. by rewrite Hf. Qed.

Lemma still_input {A} (f : B → A * B) : stays still (on_input f).
Proof.
  intros s. unfold on_input. destruct (session s) as [b|] eqn:E; [|done]. destruct (f _) as [a i].
  intros Hc. cbn in *. by rewrite E.
Qed.

Lemma quiet_block k : stays quiet (recv_block (B:=B) k) ∧ stays quiet (send_block (B:=B) k).
Proof. split; intros b; unfold recv_block, send_block; by destruct (_ !! _). Qed.

(** Follow a call down to what it changes. *)
Ltac still_parts :=
  stays_parts;
  repeat first
    [ apply still_base_op; stays_parts
    | by apply still_modify
    | by apply still_session
    | apply still_input
    | apply quiet_block
    | by apply stays_modify; intros ?
    | by intros ? ].

Lemma listeners_quiet k : stays quiet (call_listeners (B:=B) k).
Proof.
  unfold call_listeners. stays_parts; [apply quiet_block|]. generalize (map_data contents a) as blk.
  induction (listeners a) as [|[user fn] l IH]; intros blk; cbn [CBList.call]; unfold call_listener, emit; still_parts.
  apply IH.
Qed.

Lemma consume_body_still k n : stays still (consume_body (B:=B) k n).
Proof.
  intros s. unfold consume_body. destruct (session s) as [bv|] eqn:E; [|done].
  destruct (recv_blocks (base s) !! k) as [blk|]; [|done].
  destruct (dbuffer_consume _ _) as [o [i d]]. intros Hc. cbn in *. by rewrite E.
Qed.

(** A connection given up is none. *)
Lemma start_reconnect_still : stays still (start_reconnect (B:=B)).
Proof.
  intros s. unfold start_reconnect, assert_, get, emit, put_connected, base_op, zoom, modify, bind, abort, ret.
  by destruct (_ && _).
Qed.

Lemma recvdata_still : stays still recvdata.
Proof.
  assert (Hhead : stays still recv_head).
  { unfold recv_head, put_message, emit, find_bodyblock, expect_body, stamp_rxtime, upd_recv. still_parts.
    all: apply start_reconnect_still. }
  assert (Hbody : stays still recv_body).
  { unfold recv_body, requestScan_recv, upd_recv, emit. still_parts; first [apply consume_body_still|apply listeners_quiet]. }
  assert (Hloop : ∀ fuel, stays still (recv_loop fuel)).
  { induction fuel as [|fuel IH]; cbn [recv_loop]; still_parts; first [apply Hbody|apply Hhead|apply IH]. }
  unfold recvdata. still_parts. apply Hloop.
Qed.

(** ** Calls that do not connect *)

Definition unconnected s s' : Prop := connected (base s') = connected (base s).

#[export] Instance unconnected_preorder : PreOrder unconnected.
Proof. split; [by intros s|]. unfold unconnected. intros a b c E1 E2. congruence. Qed.

Lemma unconnected_base_op {A} (m : M (PSCBase B) A) :
  stays (λ b b', connected b' = connected b) m → stays unconnected (base_op m).
Proof. intros Hm s. specialize (Hm (base s)). unfold unconnected, base_op, zoom. by destruct (m (base s)). Qed.

#[export] Instance connected_preorder : PreOrder (λ b b' : PSCBase B, connected b' = connected b).
Proof. split; [by intros b|]. intros a b c E1 E2. congruence. Qed.

Lemma unconnected_session f : stays unconnected (on_session (B:=B) f).
Proof. intros s. unfold on_session. by destruct (session s). Qed.

Ltac unconnected_parts :=
  stays_parts;
  repeat first
    [ apply unconnected_base_op; stays_parts
    | apply unconnected_session
    | by apply stays_modify; intros ?
    | by apply stays_zoom
    | by intros ? ].

Lemma reconnect_unconnected net : stays unconnected (reconnect net).
Proof. unfold reconnect, connect, put_message, emit. unconnected_parts. Qed.

Lemma queueHeader_unconnected k n : stays unconnected (queueHeader k n).
Proof.
  unfold queueHeader. unconnected_parts. intros b. unfold send_block. by destruct (_ !! _).
Qed.

Lemma tx_op_unconnected c : stays unconnected (tx_op c).
Proof.
  assert (Hmark : ∀ k, stays unconnected (mark_queued (B:=B) k)).
  { intros k. unfold mark_queued, upd_send. unconnected_parts. }
  assert (Hbytes : ∀ k body, stays unconnected (queueSend_bytes k body)).
  { intros k body. unfold queueSend_bytes. unconnected_parts; first [apply queueHeader_unconnected|apply Hmark]. }
  destruct c as [k body|k d|id body|]; cbn [tx_op].
  - apply Hbytes.
  - unfold queueSend_block. unconnected_parts; first [apply queueHeader_unconnected|apply Hmark].
  - unfold queueSend. unconnected_parts; [|apply Hbytes]. intros b. unfold getSend. by destruct (_ !! _).
  - unfold flushSend. unconnected_parts.
Qed.

(** ** Calls *)

(** The call of the send queue that a call is. *)
Definition sends w : option (tx_call (B:=B)) :=
  match w with
  | QueueBytes k buf => Some (TxBytes k buf)
  | QueueBlock k buf => Some (TxBlock k buf)
  | QueueId id buf => Some (TxId id buf)
  | Flush => Some TxFlush
  | _ => None
  end.

Definition message w : list psc_msg := from_option tx_msg [] (sends w).

(** Messages are shorter than 4 GiB; the connection is not made anew. *)
Definition streamed w : Prop :=
  match w with
  | QueueBytes _ buf | QueueId _ buf => zlen buf < 2 ^ 32 - 8
  | QueueBlock _ buf => dbuffer_wf buf ∧ zlen (contents buf) < 2 ^ 32 - 8
  | Event evt => has evt BEV_EVENT_CONNECTED = false
  | _ => True
  end.

Lemma body_sends w c : sends w = Some c → body w = tx_op c.
Proof. by destruct w; intros [= <-]. Qed.

Lemma caught_run (m : M (PSC B) unit) s o s' : catch m (λ _, ret tt) s = (o, s') → s' = (m s).2.
Proof. unfold catch. destruct (m s) as [[[]|e|c] s1]; by intros [= <- <-]. Qed.

Lemma with_bev_still (m : M (PSC B) unit) : stays still m → stays still (with_bev m).
Proof. intros Hm. unfold with_bev. still_parts. Qed.

Lemma eventcb_still evt : has evt BEV_EVENT_CONNECTED = false → stays still (eventcb evt).
Proof.
  intros He. unfold eventcb. rewrite He. unfold put_message, emit. still_parts. apply start_reconnect_still.
Qed.

Lemma timer_still net s o s' : bev_reconnect net s = (o, s') → still s s'.
Proof.
  intros E%caught_run Hc. destruct (connected (base s)) eqn:Ec.
  - assert (s' = s) as -> by
      (subst s'; unfold reconnect, bind, get, assert_, abort; by rewrite Ec).
    done.
  - subst s'. rewrite (reconnect_unconnected net s), Ec in Hc. done.
Qed.

(** Calls that do not send keep what is queued and what was sent. *)
Lemma other_still ok w s o s' :
  may ok w s → streamed w → sends w = None → body w s = (o, s') → still s s'.
Proof.
  intros Hm Hs Hn. destruct w as [| | | | |k prio mask|evt|chunk i| |net]; try done; cbn [may streamed body] in *.
  - assert (Hf : stays still (forceReConnect (B:=B))) by
      (unfold forceReConnect; still_parts; apply start_reconnect_still).
    apply (stays_run Hf).
  - destruct Hm as [b Hb]. unfold scanned_block. rewrite Hb.
    destruct (scanned prio mask b) as [o1 b']. by intros [= <- <-].
  - apply (stays_run (with_bev_still _ (eventcb_still evt Hs))).
  - destruct Hm as (b & Eb & _). unfold input_grows, modify. rewrite Eb. intros [= <- <-] Hc.
    cbn in *. by rewrite Eb.
  - apply (stays_run (with_bev_still _ recvdata_still)).
  - apply timer_still.
Qed.

Lemma tx_state_blocks (bl bl' : gset Z) out0 s sent q :
  tx_state bl out0 s sent q → bl' ⊆ dom (send_blocks (base s)) → tx_state bl' out0 s sent q.
Proof. intros (Hc & Hi & _ & Hb) Hbl. by split. Qed.

Lemma tx_state_still out0 s s' sent q :
  still s s' → connected (base s') = true → tx_state ∅ out0 s sent q → tx_state ∅ out0 s' sent q.
Proof.
  intros Hst Hc (_ & [Hd Hv Hn Hm Hb] & _ & b & Es & Ho & Hvs).
  destruct (Hst Hc) as (_ & Esb & Ebl & Eo). split; [done|]. split; [|split; [set_solver|]].
  - split; rewrite ?Esb, ?Ebl; done.
  - rewrite Es in Eo. destruct (session s') as [b'|]; [|done]. exists b'. cbn in Eo. injection Eo as ->. done.
Qed.

(** The blocks that a call is about are there. *)
Definition tx_blocks (c : tx_call (B:=B)) : gset Z :=
  match c with TxBytes k _ | TxBlock k _ => {[k]} | _ => ∅ end.

Lemma sends_ok ok w s c :
  may ok w s → streamed w → sends w = Some c →
  tx_ok (tx_blocks c) c ∧ tx_blocks c ⊆ dom (send_blocks (base s)).
Proof.
  intros Hm Hs. destruct w; intros [= <-]; cbn in *; (split; [|rewrite ?singleton_subseteq_l, ?elem_of_dom; set_solver]);
    repeat split; try done; try set_solver; by destruct Hs.
Qed.

(** What a call adds to the stream. *)
Definition result w (o : outcome unit) : list psc_msg := match o with Ret _ => message w | _ => [] end.

Lemma body_connected ok w s o s' :
  may ok w s → streamed w → body w s = (o, s') → connected (base s') = true → connected (base s) = true.
Proof.
  intros Hm Hs Hb Hc. destruct (sends w) as [c|] eqn:Ew.
  - rewrite (body_sends w c Ew) in Hb. by rewrite <-(stays_run (tx_op_unconnected c) Hb).
  - by apply (other_still ok w s o s' Hm Hs Ew Hb).
Qed.

Lemma body_stream ok out0 w s o s' sent q :
  (∀ dst src : B, evbuffer_add_buffer dst src ≠ None) →
  may ok w s → streamed w → body w s = (o, s') → (∀ x, o ≠ Crash x) → connected (base s') = true →
  tx_state ∅ out0 s sent q →
  ∃ sent' q', tx_state ∅ out0 s' sent' q' ∧ sent' ++ q' = (sent ++ q) ++ result w o.
Proof.
  intros Hadd Hm Hstr Hb Hx Hc Hst. unfold result, message. destruct (sends w) as [c|] eqn:Ew; cbn [from_option].
  - rewrite (body_sends w c Ew) in Hb. destruct (sends_ok ok w s c Hm Hstr Ew) as [Hok Hbl].
    pose proof (tx_op_state _ out0 c s sent q Hadd Hok (tx_state_blocks _ _ _ _ _ _ Hst Hbl)) as Hop.
    rewrite Hb in Hop. destruct o as [u|e|x]; [| |by destruct (Hx x)].
    + destruct Hop as [Hop|[-> Hop]]; eapply tx_state_blocks in Hop; try apply empty_subseteq.
      * exists sent, (q ++ tx_msg c). by rewrite app_assoc.
      * exists (sent ++ q), []. done.
    + eapply tx_state_blocks in Hop; [|apply empty_subseteq]. exists sent, q. by rewrite app_nil_r.
  - exists sent, q. split; [|by destruct o; rewrite app_nil_r].
    eapply tx_state_still; [by eapply other_still|done..].
Qed.

(** ** Logs of calls *)

(** The messages of the calls on a driver that have returned. *)
Definition returned d (log : list (nat * call string (PSC B) (psc_call B) * outcome unit)) : list psc_msg :=
  concat ((λ '(_, c, o), if decide (on c = d) then result (what c) o else []) <$> log).

Lemma returned_snoc d log i c o :
  returned d (log ++ [(i, c, o)]) = returned d log ++ (if decide (on c = d) then result (what c) o else []).
Proof. unfold returned. rewrite fmap_app, concat_app. cbn. by rewrite app_nil_r. Qed.

Lemma serial_stream ok out0 (σ0 σ : string → PSC B) log d :
  (∀ dst src : B, evbuffer_add_buffer dst src ≠ None) →
  serial body (may ok) σ0 log σ →
  (∀ j c o, (j, c, o) ∈ log → on c = d → streamed (what c)) →
  tx_state ∅ out0 (σ0 d) [] [] → connected (base (σ d)) = true →
  ∃ sent q, tx_state ∅ out0 (σ d) sent q ∧ sent ++ q = returned d log.
Proof.
  intros Hadd Hs. induction Hs as [|log σ i c o s' _ IH Hm Hb Hx]; intros Hlog Hst0; [by exists [], []|].
  assert (Hlog' : ∀ j c o, (j, c, o) ∈ log → on c = d → streamed (what c)).
  { intros j c' o' Hin. apply (Hlog j c' o'), elem_of_app. by left. }
  rewrite returned_snoc. case_decide as Hd.
  - subst d. rewrite fn_lookup_insert. intros Hc.
    assert (Hstr : streamed (what c)) by (apply (Hlog i c o); [set_solver|done]).
    destruct IH as (sent & q & Hst & E); [done..|by eapply body_connected|]. rewrite <-E. by eapply body_stream.
  - rewrite fn_lookup_insert_ne, app_nil_r by done. auto.
Qed.
End stream.

(** ** Properties *)

(** C18: What threads queue arrives whole.  Let any number of threads queue and flush
    messages on a connected driver whose queue is empty, each call in pieces under the lock,
    while libevent makes callbacks and other threads call other drivers.  (Messages are
    shorter than 4 GiB, libevent has enough memory for a flush, and does not report a new
    connection.)  Whenever the lock is free and the connection has not been lost, what was
    handed to libevent is the encoding of a list of messages, the send buffer that of
    another, no block in it twice; together they are the messages of the calls that have
    returned, in an order that keeps each thread's own.  No message is torn, and a driver
    that reads those bytes, in whatever chunks, delivers the messages that were flushed to
    its blocks and listeners. *)
Theorem threads_stream_arrives {B} `{EvBufferLaws B} `{EpicsEnv} `{PscConfig} `{RecordSupport B}
    ok (σ0 σ : string → PSC B) ps ts d :
  (∀ dst src : B, evbuffer_add_buffer dst src ≠ None) → listeners_safe →
  all_implemented body ps →
  (∀ i p c, ps !! i = Some p → c ∈ p → on c = d → streamed (what c)) →
  tx_state ∅ [] (σ0 d) [] [] →
  rtc (step (may ok)) (σ0, start ps) (σ, ts) → free ts d → connected (base (σ d)) = true →
  ∃ log sent q b,
    (∀ i p, ps !! i = Some p →
      ∃ t, ts !! i = Some t ∧ p = made_by i log ++ in_progress t ++ later t) ∧
    returned d log = sent ++ q ∧ session (σ d) = Some b ∧
    evbuffer_data (output b) = encode_msgs sent ∧
    evbuffer_data (sendbuf (σ d)) = encode_msgs q ∧ NoDup q.*1 ∧
    ∀ r chunks r', receiving r → pending r = None → stream r = [] → counts_u32 (view (base r)) →
      reads r chunks r' → concat chunks = evbuffer_data (output b) →
      receiving r' ∧ stream r' = [] ∧ msgs_done (view (base r)) sent (view (base r')).
Proof.
  intros Hadd Hsafe Hps Hw Hst Hr Hf Hc. destruct (atomic _ _ _ _ _ _ Hps Hr) as (log & σ' & He).
  pose proof (ex_free _ _ _ _ _ _ _ _ He d Hf) as Ed. rewrite Ed in Hc |- *.
  destruct (serial_stream ok [] σ0 σ' log d) as (sent & q & (_ & Hi & _ & b & Eb & Ho & Hv) & E);
    [done|apply He| |done..|].
  { intros j c o Hin. destruct (logged_call _ _ _ _ _ _ _ _ _ _ _ He Hin) as (p & Hp & Hcp). by eapply Hw. }
  exists log, sent, q, b. split_and!; [apply He|done..|apply (txq_data _ _ Hi)|apply (txq_nodup _ _ Hi)|].
  intros r chunks r' Hrc Hp Hs Hcnt Hreads Hch. rewrite Ho in Hch. by apply (reads_msgs r chunks r' sent).
Qed.

(** ** Witness *)

(** Two threads queue on one driver, one of them flushes; a third disconnects another. *)
Definition sample_senders `{EpicsEnv} : list (list (call string (PSC ChainBuf.chainbuf) (psc_call ChainBuf.chainbuf))) :=
  let C := sample_config in
  [ [Call "a" (QueueId 10 [Byte.x01]) (queue_pieces 10 [Byte.x01]); Call "a" Flush (piece flushSend)];
    [Call "a" (QueueId 11 [Byte.x02]) (queue_pieces 11 [Byte.x02])];
    [Call "b" Force (piece forceReConnect)] ]%string.

Lemma sample_senders_implemented `{EpicsEnv} :
  let C := sample_config in let R := quiet_records in all_implemented body sample_senders.
Proof.
  unfold sample_senders, all_implemented. repeat constructor; intros s;
    first [apply run_piece|apply queue_pieces_run].
Qed.

Ltac nobody_inside :=
  intros j t Hj (c & r & Hc & Hd); do 3 (destruct j as [|j]; [cbn in Hj; simplify_eq/=|]); done.
Ltac thread_enters i := eapply rtc_l; [eapply (enter _ _ _ i); [reflexivity|nobody_inside|done]|].
Ltac thread_works i := eapply rtc_l; [eapply (work _ _ _ i); [reflexivity|vm_compute; reflexivity]|cbn [fst snd]].
Ltac thread_leaves i := eapply rtc_l; [eapply (leave _ _ _ i); [reflexivity|done]|].

(** The first message is sent, the second is queued, and the third thread is in its call. *)
Lemma sample_senders_run :
  let H := quiet_env in let C := sample_config in let R := quiet_records in
  ∃ σ ts, rtc (step (may (λ _, True))) (λ _, sample_tx, start sample_senders) (σ, ts) ∧
    free ts "a"%string ∧ connected (base (σ "a"%string)) = true ∧
    evbuffer_data (sendbuf (σ "a"%string)) = encode_msg (11, [Byte.x02]).
Proof.
  intros H C R. do 2 eexists. split.
  - thread_enters 0%nat. thread_works 0%nat. thread_enters 2%nat. thread_works 0%nat. thread_works 2%nat.
    do 3 thread_works 0%nat. thread_leaves 0%nat. thread_enters 0%nat. thread_works 0%nat. thread_leaves 0%nat.
    thread_enters 1%nat. do 5 thread_works 1%nat. thread_leaves 1%nat. apply rtc_refl.
  - split; [|split; vm_compute; reflexivity]. cbn. nobody_inside.
Qed.

Lemma threads_stream_arrives_witness :
  let H := quiet_env in let C := sample_config in let R := quiet_records in
  ∃ (σ : string → PSC ChainBuf.chainbuf) (ts : list sample_thread),
  evbuffer_data (sendbuf (σ "a"%string)) = encode_msg (11, [Byte.x02]) ∧
  ∃ log sent q b,
    (∀ i p, sample_senders !! i = Some p →
      ∃ t, ts !! i = Some t ∧ p = made_by i log ++ in_progress t ++ later t) ∧
    returned "a" log = sent ++ q ∧ session (σ "a"%string) = Some b ∧
    evbuffer_data (output b) = encode_msgs sent ∧
    evbuffer_data (sendbuf (σ "a"%string)) = encode_msgs q ∧ NoDup q.*1 ∧
    ∀ r chunks r', receiving r → pending r = None → stream r = [] → counts_u32 (view (base r)) →
      reads r chunks r' → concat chunks = evbuffer_data (output b) →
      receiving r' ∧ stream r' = [] ∧ msgs_done (view (base r)) sent (view (base r')).
Proof.
  intros H C R. destruct sample_senders_run as (σ & ts & Hr & Hf & Hc & Hq). exists σ, ts. split; [exact Hq|].
  apply (threads_stream_arrives (λ _, True) (λ _, sample_tx) σ sample_senders ts "a").
  - done.
  - apply quiet_listeners_safe.
  - apply sample_senders_implemented.
  - intros i p c Hp Hin _. do 3 (destruct i as [|i]; [injection Hp as <-; set_unfold; naive_solver|]). done.
  - eapply tx_state_blocks; [apply sample_tx_state|set_solver].
  - exact Hr.
  - exact Hf.
  - exact Hc.
Defined.

End Stream.
